(* ===== verification/_CoqProject ===== *)
-Q . S2P
Prelude.v
Effects.v
RustStr.v
Float64.v
Hex.v
Kv.v
ObjStore.v
Lease.v
LeaseGuard.v
Queue.v
MemoryQueue.v
DurableQueue.v
Worker.v
QueueRaces.v
FsTypes.v
Tokio.v
Http.v
Limits.v
Pipeline.v
Gate.v
Auth.v
AuthRules.v
PipelineExamples.v
Oidc.v
OidcRoute.v
OidcRules.v
FsStore.v
FsRels.v
FsPages.v
Policy.v
Adapter.v
AdapterRules.v
PolicyAdmin.v
FsLocks.v
FsCalls.v
FsEngine.v
FsGc.v
FsSweeper.v
FsObjects.v
FsClient.v
FsUpload.v
FsMerges.v
Wal.v
Replica.v
Token.v
Config.v
Command.v
CommandExamples.v
Stores.v
Server.v
Telemetry.v
ReplicaSlots.v
ReplicaBuild.v
ReplicaCopy.v
ReplicaView.v
ReplicaGroups.v
ReplicaResync.v
ReplicaReplay.v
ReplicaPolicy.v
SyncRoute.v
FsExamples.v
UploadExamples.v
StoreExamples.v
SyncExamples.v
ReplayExamples.v
FsRoute.v
PolicyRoute.v
RouteExamples.v
