(* ===== verification/Prelude.v ===== *)
(** * rust-api: a verification library

    The repository is one Rust service: a file store whose bytes live in an
    object store and whose metadata lives in a key-value store, an RBAC policy, a
    change feed, one read-only replica of the metadata per user, a job queue, and
    an HTTP front with OpenID Connect sessions.  One process writes, guarded by a
    lease.  This library models those parts as Rocq definitions that run, and
    proves what makes them correct.  Paths below are relative to [src/src/].

    ** How the parts interact

    A request passes the layers of the composed application ([Pipeline]) with
    its cost controls ([Limits], [Gate]), then the token middleware ([Auth]) of
    its scope, reaches a handler ([FsRoute], [PolicyRoute], [SyncRoute],
    [OidcRoute]), and is answered through the error envelope ([Http]).  The
    handlers call the file engine ([FsEngine]), which keeps its rows in [FsStore]
    and its bytes through [FsObjects], asks [Policy] for permission, and
    announces each committed change on the feed ([Wal]).  [Policy] announces its
    changes there too.  [Replica] replays the feed into the replica of each
    subject, or rebuilds the replica from the master rows; clients download the
    objects of that replica through [SyncRoute].  [FsGc] sweeps what uploads
    left behind.  [Lease] decides who may run all of this, and [Config] says
    where the stores lie; [Server] puts the start and the end of the process in
    order, and [Command] runs the policy subcommands under the same lease.

    ** How effects are modelled

    [Effects] has two monads.  [act W A] is an atomic action on a world [W];
    [prog W A] is a task, a sequence of atomic actions with an await point after
    each.  [run] executes a task alone; [pool_step] interleaves any number of
    tasks.  A function of the code that does nothing under one lock guard is an
    [act]; an [async fn] is a [prog].  Both carry Rust's [Result], with notations
    for [?].  [wp] and its relatives are the weakest preconditions the proofs run
    on; the hint databases [rapi] hold the common steps.

    Strings are UTF-8 bytes; integers are [Z] with the width's wrap-around
    written out (the release profile leaves overflow checks off); binary64 is the
    Standard Library's executable specification ([Float64]).

    A dependency outside the repository is a type class of its operations, and
    its documented behaviour a second class of laws: [oxkv] ([Kv]), [object_store]
    ([ObjStore], [FsObjects.Backend]), [tokio] ([Tokio], [Gate.Semaphore]), casbin
    ([Policy.Enforcer], [Adapter.PolicyModel]), [jsonwebtoken] ([Token.Jwt],
    [Auth]), [openidconnect] and [url] ([Oidc], [OidcRoute]), [serde_json]
    ([Kv]), TOML ([Config]).  Every theorem with such a law has a witness on a
    concrete instance; [Kv.ScriptKv] is a store whose calls fail on demand, so
    that the error paths run too.

    ** The files

    Foundations
    - [Prelude]: machine integers, notations, tactics, generic lemmas;
    - [Effects]: the monads, their weakest preconditions, interleaving;
    - [RustStr], [Hex], [Float64]: operations of [str], of hexadecimal text, and
      of [f64];
    - [Kv], [ObjStore], [Tokio]: the interfaces of the dependencies.

    Writer lease
    - [Lease]: [lease.rs], [claim_writer_lease] of [main.rs];
    - [LeaseGuard]: the guard of [lease.rs], and the renewal task beside it.

    Job queue
    - [Queue]: the trait of [queue.rs] with the specification a backend promises,
      and [queue/rabbitmq.rs], [queue/metrics.rs];
    - [MemoryQueue], [DurableQueue]: [queue/memory.rs], [queue/durable.rs];
    - [Worker]: [queue/worker.rs], proved against the interface;
    - [QueueRaces]: both backends refine the specification; what survives
      interleaving.

    File store
    - [FsTypes]: [records.rs], [fs/error.rs], [fs/model.rs], [fs/relation.rs],
      [fencing.rs];
    - [FsStore], [FsRels], [FsPages]: [fs/store.rs]: the rows, the relations and
      their reference counts, the paged walk;
    - [FsObjects], [FsClient]: [fs/object_store.rs], the client and what its
      uploads come to;
    - [FsLocks], [FsEngine]: [fs/mod.rs] and [fs/s3.rs]; [FsUpload]: an upload
      from its start to its commit; [FsCalls], [FsMerges]: calls on sessions that
      run at the same time;
    - [FsGc], [FsSweeper]: [fs/gc.rs];
    - [Token]: [fs/token.rs];
    - [FsRoute]: [fs/route.rs].

    Policy
    - [Policy]: [policy/mod.rs], [policy/row.rs];
    - [Adapter], [AdapterRules]: [policy/adapter.rs];
    - [PolicyAdmin]: [policy/admin.rs];
    - [PolicyRoute]: [policy/route.rs], [policy/setup.rs].

    Change feed and replicas
    - [Wal]: [sync/wal.rs];
    - [Replica]: the operations of [sync/snapshot.rs]; about them:
      [ReplicaSlots], requests and workers together; [ReplicaBuild], the join and
      the commit of a rebuild; [ReplicaCopy], the filtered copy and the whole
      rebuild; [ReplicaView], one file of a replica and its writes;
      [ReplicaGroups], the groups of a subject; [ReplicaResync], the replay of a
      change of the policy; [ReplicaReplay], the incremental replay as a whole;
      [ReplicaPolicy], which changes of the policy it accounts for;
    - [SyncRoute]: [sync/route.rs].

    HTTP front
    - [Http]: [http/error.rs], [http/validation.rs], [http/health.rs],
      [http/middleware/bearer_token.rs], [request_id.rs], [server_time.rs], the
      prefix check of [http/mod.rs];
    - [Limits], [Gate]: [limits.rs], [retry.rs];
    - [Pipeline]: [http/mod.rs], [http/middleware/request_tracing.rs];
    - [Auth], [AuthRules]: [http/middleware/jwks.rs], [http/middleware/jwt.rs];
    - [Oidc], [OidcRoute], [OidcRules]: [oidc/mod.rs], [oidc/route.rs];
    Process
    - [Config]: [config.rs] and the prefixes of [main.rs];
    - [Stores]: [db.rs], [s3_builder] of [fs/object_store.rs] and the openings of
      [main.rs] and [sync/snapshot.rs], the constructors of [fs/mod.rs]: where
      everything lies in the bucket;
    - [Command]: the policy subcommands of [main.rs];
    - [Server]: [serve] of [main.rs], [reactive.rs];
    - [Telemetry]: [telemetry.rs].

    The files and modules named [...Examples] run the components on concrete stores: instances of the
    theorems, and runs at the edges.

    ** What the theorems show

    - One writer.  [claims_single_winner]: concurrent claims of the lease have at
      most one winner.  The clock hypotheses are those under which the code keeps
      that promise.  [guard_hands_over]: a shutdown that waits long enough leaves
      the prefix to the next process, and one that gives up leaves a task that
      does so on its own.
    - No bytes lost.  [upload_stores_bytes], [merges_all_kept],
      [sweep_keeps_files_in_use],
      [relations_refine], [can_access_exact], [session_locks_exclusive],
      [sweeper_keeps_up].
    - The queue keeps its contract.  [memory_refines_spec],
      [durable_refines_spec], [memory_reserve_race].
    - The feed and the replicas.  [wal_append_exact], [paged_walk_exact],
      [build_exact], [advance_exact] (a rebuild and a replay each leave the subject
      what it may see; of a replay, when the changes account for what differs in
      the policy), [changes_accounted] (when they do),
      [one_writer_per_replica], [resolve_object_contained],
      [object_handler_exact], [status_not_modified_exact].
    - The policy.  [adapter_refines_set], [rules_load_back],
      [superadmin_claimed_once], [policy_routes_guarded], [dump_roundtrip].
    - Who a caller is.  [claims_are_vouched], [cache_safe], [callback_safe],
      [login_round_trip], [capability_exact].
    - Costs and inputs.  [tracked_bounded], [downloads_bounded], [retry_exact],
      [get_file_range_exact], [loaded_well_formed]; [edge_answers] says what the
      layers around every route do to a request and to its answer.
    - The process.  [serve_ordered]: no store before the lease, and the lease
      last; [stores_apart]: one bucket, and no key in it with two owners;
      [command_guarded]: a subcommand works under the lease or not at all.

    The components hold further theorems of this weight, among them
    [held_wait_exact], [import_complete], [pages_cover], [gate_agrees],
    [redirect_target_exact], [burst_exact], [parse_range_exact],
    [sanitize_filename_safe], [part_lengths_cover], [new_client_ok], [nack_until_dead],
    [advance_honest], [login_outlives_stale_session] and [implicit_groups_exact].

    Several lemmas show that the code falls short of a comment or a contract:
    the durable queue hands a job out twice under interleaving
    ([QueueRaces]), a rebuild misses rows when the two sides do not line up
    ([SyncExamples.rebuild_misses_rows]), a relation key is split at a separator
    that a row's name may hold ([FsExamples.access_through_another_row]), a
    replayed detachment keeps a record that a rebuild drops
    ([ReplayExamples.replay_keeps_detached_file]), a replay judges the changes of
    the policy by the policy of its own time and looks at the memberships of users
    only, and so leaves files that the subject lost
    ([SyncExamples.replay_keeps_revoked_file],
    [ReplayExamples.replay_skips_nested_membership]), a refused credential is
    answered outside the layers that mark and count every answer
    ([PipelineExamples.refused_credential_untimed]), a database prefix below
    [files] lets the sweep delete the database
    ([StoreExamples.sweep_deletes_the_database]), and others next to the
    definitions they concern.

    ** Fuel

    A loop whose end depends on a store takes [fuel], and the result of running
    out is told apart from every result of the code ([OutOfFuel] in [Replica],
    [None] elsewhere).  Enough is: for a scan of a string, its length, which is
    what the definitions pass themselves ([RustStr]); for the eviction of a
    bucket, the size of the map ([Limits.make_room]); for a walk or a copy, more
    than the number of rows; for a whole rebuild, more than the rows of the
    master and of the replica together ([build_exact], whose conclusion is the
    result itself); for the groups of a subject, more than the groups within
    reach ([implicit_groups_exact], [searchable]); a replay of file changes needs
    none.  Endless
    tasks (the lease
    renewer, the worker, the sweeper, the probes, the rebuild pool) take the
    number of passes or the list of events they see, and the theorems hold for
    every such number or list.

    ** Not modelled

    - What the opening of a store does, the ownership files and the publication of
      a replica's pointer: calls of [oxkv] without state of the program.
    - The parsing of the command line, the mounting of routes, CORS, compression
      and the server loop of the framework: [Pipeline] and [Server] take them as
      parameters or single steps.
    - [audit.rs] and the spans of a request: logs and traces.
      [docs.rs], [http/docs.rs], [test_support.rs]: attributes and fixtures.
    - Cryptography, TOML, JSON and URL syntax: the dependencies above.

    ** Open

    What a rebuild leaves when the keys of the two sides do not line up; a whole
    upload whose calls interleave with the sweep ([FsUpload] runs one alone,
    [FsMerges] the recording of its parts together with everything else). *)
From stdpp Require Export base tactics numbers list gmap strings fin_maps sorting.
From Stdlib Require Export Ascii ZArith Lia.

Declare Scope rapi_scope.
Delimit Scope rapi_scope with rapi.
#[global] Open Scope rapi_scope.

Create HintDb rapi.
Create Rewrite HintDb rapi.

(** ** Machine integers

    The release profile of the crate leaves overflow checks off, so [+] and
    [-] wrap. *)

Definition u32_max : Z := 4294967295.
Definition u64_max : Z := 18446744073709551615.
Definition i64_max : Z := 9223372036854775807.
Definition i64_min : Z := -9223372036854775808.

Definition in_i64 (z : Z) : Prop := (i64_min <= z <= i64_max)%Z.
Definition in_u64 (z : Z) : Prop := (0 <= z <= u64_max)%Z.
Definition in_u32 (z : Z) : Prop := (0 <= z <= u32_max)%Z.

#[export] Instance in_i64_dec z : Decision (in_i64 z).
Proof. unfold in_i64. apply _. Defined.
#[export] Instance in_u64_dec z : Decision (in_u64 z).
Proof. unfold in_u64. apply _. Defined.

(** Two's complement reduction to 64 bits, unsigned and signed. *)
Definition wrap_u64 (z : Z) : Z := (z mod 18446744073709551616)%Z.
Definition wrap_i64 (z : Z) : Z := (wrap_u64 (z + 9223372036854775808) - 9223372036854775808)%Z.

Definition i64_add (a b : Z) : Z := wrap_i64 (a + b).
Definition i64_sub (a b : Z) : Z := wrap_i64 (a - b).
Definition u64_add (a b : Z) : Z := wrap_u64 (a + b).
Definition u64_sub (a b : Z) : Z := wrap_u64 (a - b).
Definition u64_mul (a b : Z) : Z := wrap_u64 (a * b).

(** [a.checked_sub(b)] on [i64] and [u64]. *)
Definition i64_checked_sub (a b : Z) : option Z :=
  if decide (in_i64 (a - b)%Z) then Some (a - b)%Z else None.
Definition u64_checked_sub (a b : Z) : option Z :=
  if decide (in_u64 (a - b)%Z) then Some (a - b)%Z else None.

(** [u64::try_from(z).ok()] of an [i64], and [i64::try_from(z).ok()] of a
    [u64]; [z as i64] of a [u64]. *)
Definition u64_of_i64 (z : Z) : option Z := if decide (0 <= z)%Z then Some z else None.
Definition i64_of_u64 (z : Z) : option Z := if decide (z <= i64_max)%Z then Some z else None.
Definition u64_as_i64 (z : Z) : Z := wrap_i64 z.

Definition u32_saturating_add (a b : Z) : Z := Z.min u32_max (a + b).
Definition u32_saturating_sub (a b : Z) : Z := Z.max 0 (a - b).
Definition u64_saturating_sub (a b : Z) : Z := Z.max 0 (a - b).

Lemma wrap_i64_id z : in_i64 z -> wrap_i64 z = z.
Proof.
  unfold in_i64, wrap_i64, wrap_u64, i64_min, i64_max. intros H.
  rewrite Z.mod_small; lia.
Qed.

Lemma wrap_u64_id z : in_u64 z -> wrap_u64 z = z.
Proof. unfold in_u64, wrap_u64, u64_max. intros H. apply Z.mod_small. lia. Qed.

Lemma i64_add_id a b : in_i64 (a + b) -> i64_add a b = (a + b)%Z.
Proof. apply wrap_i64_id. Qed.
Lemma i64_sub_id a b : in_i64 (a - b) -> i64_sub a b = (a - b)%Z.
Proof. apply wrap_i64_id. Qed.
Lemma u64_mul_id a b : in_u64 (a * b) -> u64_mul a b = (a * b)%Z.
Proof. apply wrap_u64_id. Qed.
Lemma u64_sub_id a b : in_u64 (a - b) -> u64_sub a b = (a - b)%Z.
Proof. apply wrap_u64_id. Qed.
Lemma u64_add_id a b : in_u64 (a + b) -> u64_add a b = (a + b)%Z.
Proof. apply wrap_u64_id. Qed.

(** Unfolds the integer types of a goal for [lia]. *)
Ltac ints := unfold in_i64, in_u64, in_u32, i64_min, i64_max, u64_max, u32_max in *.

(** ** [slice::sort_by]: a stable sort *)

Fixpoint insert_by {A} (le : A -> A -> bool) (x : A) (l : list A) : list A :=
  match l with
  | [] => [x]
  | y :: l => if le x y then x :: y :: l else y :: insert_by le x l
  end.

Definition sort_by {A} (le : A -> A -> bool) (l : list A) : list A := foldr (insert_by le) [] l.

Section sort_by.
Context {A : Type} (le : A -> A -> bool).

Lemma insert_by_perm x l : insert_by le x l ≡ₚ x :: l.
Proof.
  induction l as [|y l IH]; [done|]. cbn. destruct (le x y); [done|].
  rewrite IH. apply Permutation_swap.
Qed.

Lemma sort_by_perm l : sort_by le l ≡ₚ l.
Proof. induction l as [|x l IH]; [done|]. cbn. by rewrite insert_by_perm, IH. Qed.

Hypothesis le_total : forall x y, le x y = false -> le y x = true.
Hypothesis le_trans : forall x y z, le x y = true -> le y z = true -> le x z = true.

Lemma insert_by_sorted x l :
  StronglySorted (fun a b => le a b = true) l ->
  StronglySorted (fun a b => le a b = true) (insert_by le x l).
Proof.
  induction 1 as [|y l Hl IH Hy]; [by repeat constructor|]. cbn.
  destruct (le x y) eqn:E; constructor; [by constructor| |done|].
  - constructor; [done|]. eapply Forall_impl; [exact Hy|]. cbn. eauto.
  - rewrite insert_by_perm. constructor; [by apply le_total|done].
Qed.

Lemma sort_by_sorted l : StronglySorted (fun a b => le a b = true) (sort_by le l).
Proof. induction l as [|x l IH]; [constructor|]. by apply insert_by_sorted. Qed.
End sort_by.

(** ** Prefixes of a list *)

Lemma NoDup_take {A} (l : list A) n : NoDup l -> NoDup (take n l).
Proof. intros Hl. eapply sublist_NoDup; [exact Hl|]. apply sublist_take. Qed.

Lemma elem_of_take_list {A} (l : list A) n x : x ∈ take n l -> x ∈ l.
Proof. intros Hx. rewrite <- (take_drop n l). apply elem_of_app. by left. Qed.

(** ** Durations

    A [std::time::Duration] is a number of nanoseconds. *)
Definition as_secs (d : Z) : Z := (d / 1000000000)%Z.
Definition from_secs (s : Z) : Z := (s * 1000000000)%Z.
Definition from_millis (ms : Z) : Z := (ms * 1000000)%Z.

(** ** Strings from byte values *)

Definition string_of_bytes (l : list nat) : string :=
  foldr (fun n s => String (ascii_of_nat n) s) "" l.

(** ** Tactics *)

(** Injects and substitutes every equation of constructors. *)
Ltac inv_all := repeat match goal with
  | H : Some _ = Some _ |- _ => injection H as H; subst
  | H : (_, _) = (_, _) |- _ => injection H as ?; subst
  | H : _ /\ _ |- _ => destruct H
  | H : exists _, _ |- _ => destruct H
  end.

(** Case analysis on the innermost [match] or [if] of the goal. *)
Ltac split_match := repeat (case_match; simplify_eq/=).
