(* ===== verification/Effects.v ===== *)
(** Effects: the two monads the components are written in.

    - [act W A] is one atomic action over a world [W]: it runs without being
      interleaved with another task (a store call, or a block of calls made
      while one lock guard is held).
    - [prog W A] is a task of the async runtime: a sequence of atomic actions
      with await points between them.  [run] executes a task alone; [pool_step]
      interleaves many tasks over one world.

    Both carry [result] values for Rust's [Result] and its [?] operator. *)
From S2P Require Import Prelude.

(** ** Rust's [Result] *)

Inductive result (A E : Type) : Type :=
| Ok (a : A)
| Err (e : E).
Arguments Ok {A E} a.
Arguments Err {A E} e.

#[export] Instance result_eq_dec `{EqDecision A, EqDecision E} : EqDecision (result A E).
Proof. solve_decision. Defined.

Definition is_ok {A E} (r : result A E) : bool :=
  match r with Ok _ => true | Err _ => false end.

Definition map_err {A E F} (f : E -> F) (r : result A E) : result A F :=
  match r with Ok a => Ok a | Err e => Err (f e) end.

Definition ok {A E} (r : result A E) : option A :=
  match r with Ok a => Some a | Err _ => None end.

Definition ok_or {A E} (o : option A) (e : E) : result A E :=
  match o with Some a => Ok a | None => Err e end.

(** ** Atomic actions *)

Definition act (W A : Type) : Type := W -> A * W.

#[export] Instance act_ret (W : Type) : MRet (act W) := fun A a w => (a, w).
#[export] Instance act_bind (W : Type) : MBind (act W) :=
  fun A B k m w => let '(a, w') := m w in k a w'.

(** The [?] operator, in any monad. *)
Definition bindR {M : Type -> Type} `{MRet M} `{MBind M} {A B E : Type}
    (m : M (result A E)) (k : A -> M (result B E)) : M (result B E) :=
  m ≫= fun r => match r with Ok a => k a | Err e => mret (Err e) end.

Notation "x <-? m ; k" := (bindR m (fun x => k))
  (at level 20, m at level 100, k at level 200, right associativity) : rapi_scope.
Notation "' p <-? m ; k" := (bindR m (fun x => let p := x in k))
  (at level 20, p pattern, m at level 100, k at level 200, right associativity) : rapi_scope.

(** [.map_err(f)] on the result of a computation. *)
Definition map_errM {M : Type -> Type} `{MRet M} `{MBind M} {A E F : Type}
    (f : E -> F) (m : M (result A E)) : M (result A F) :=
  m ≫= fun r => mret (map_err f r).

(** Weakest precondition of an action. *)
Definition wp {W A : Type} (m : act W A) (Q : A -> W -> Prop) (w : W) : Prop :=
  let '(a, w') := m w in Q a w'.

Section wp.
Context {W : Type}.

Lemma wp_ret {A} (a : A) Q (w : W) : Q a w -> wp (mret a) Q w.
Proof. done. Qed.

Lemma wp_bind {A B} (m : act W A) (k : A -> act W B) Q w :
  wp m (fun a => wp (k a) Q) w -> wp (m ≫= k) Q w.
Proof. unfold wp, mbind, act_bind. by destruct (m w). Qed.

Lemma wp_mono {A} (m : act W A) (P Q : A -> W -> Prop) w :
  wp m P w -> (forall a w', P a w' -> Q a w') -> wp m Q w.
Proof. unfold wp. destruct (m w). auto. Qed.

Lemma wp_bindR {A B E} (m : act W (result A E)) (k : A -> act W (result B E)) Q w :
  wp m (fun r w' => match r with Ok a => wp (k a) Q w' | Err e => Q (Err e) w' end) w ->
  wp (bindR m k) Q w.
Proof.
  intros Hm. apply wp_bind. eapply wp_mono; [exact Hm|].
  intros [a|e] w'; [done|]. by intros ?; apply wp_ret.
Qed.

Lemma wp_map_errM {A E F} (f : E -> F) (m : act W (result A E)) Q w :
  wp m (fun r w' => Q (map_err f r) w') w -> wp (map_errM f m) Q w.
Proof. intros Hm. by apply wp_bind. Qed.

Lemma wp_and {A} (m : act W A) (P Q : A -> W -> Prop) w :
  wp m P w -> wp m Q w -> wp m (fun a w' => P a w' /\ Q a w') w.
Proof. unfold wp. by destruct (m w). Qed.

Lemma wp_elim {A} (m : act W A) Q w a w' : wp m Q w -> m w = (a, w') -> Q a w'.
Proof. unfold wp. by intros H E; rewrite E in H. Qed.

Lemma wp_intro {A} (m : act W A) (Q : A -> W -> Prop) w :
  (forall a w', m w = (a, w') -> Q a w') -> wp m Q w.
Proof. unfold wp. destruct (m w). auto. Qed.
End wp.

(** ** Components of a world *)

Class Lens (S W : Type) := {
  view : W -> S;
  upd : S -> W -> W;
}.

Definition zoom {S W A : Type} `{Lens S W} (m : act S A) : act W A :=
  fun w => let '(a, s') := m (view w) in (a, upd s' w).

Lemma wp_zoom {S W A} `{Lens S W} (m : act S A) (Q : A -> W -> Prop) w :
  wp m (fun a s' => Q a (upd s' w)) (view w) -> wp (zoom m) Q w.
Proof. unfold wp, zoom. by destruct (m (view w)). Qed.

(** ** Tasks *)

Inductive prog (W A : Type) : Type :=
| Ret (a : A)
| Act (X : Type) (f : act W X) (k : X -> prog W A).
Arguments Ret {W A} a.
Arguments Act {W A X} f k.

Fixpoint prog_bind {W A B : Type} (p : prog W A) (k : A -> prog W B) : prog W B :=
  match p with
  | Ret a => k a
  | Act f k' => Act f (fun x => prog_bind (k' x) k)
  end.

#[export] Instance prog_mret (W : Type) : MRet (prog W) := fun A a => Ret a.
#[export] Instance prog_mbind (W : Type) : MBind (prog W) := fun A B k p => prog_bind p k.

(** A task made of one atomic action. *)
Definition atomically {W A : Type} (m : act W A) : prog W A := Act m (fun a => Ret a).

(** A task run alone. *)
Fixpoint run {W A : Type} (p : prog W A) : act W A :=
  match p with
  | Ret a => mret a
  | Act f k => fun w => let '(x, w') := f w in run (k x) w'
  end.

Section run.
Context {W : Type}.

Lemma run_bind {A B} (p : prog W A) (k : A -> prog W B) w :
  run (p ≫= k) w = (run p ≫= (fun a => run (k a))) w.
Proof.
  revert w. induction p as [a|X f k' IH]; intros w; [done|].
  cbn. unfold mbind, act_bind. cbn.
  destruct (f w) as [x w']. apply IH.
Qed.

Lemma wp_run_bind {A B} (p : prog W A) (k : A -> prog W B) Q w :
  wp (run p) (fun a => wp (run (k a)) Q) w -> wp (run (p ≫= k)) Q w.
Proof.
  intros Hw. unfold wp. rewrite run_bind. by apply wp_bind in Hw.
Qed.

Lemma wp_run_bindR {A B E} (p : prog W (result A E)) (k : A -> prog W (result B E)) Q w :
  wp (run p) (fun r w' => match r with Ok a => wp (run (k a)) Q w' | Err e => Q (Err e) w' end) w ->
  wp (run (bindR p k)) Q w.
Proof.
  intros Hw. unfold bindR. apply wp_run_bind. eapply wp_mono; [exact Hw|].
  by intros [a|e] w'.
Qed.

Lemma run_atomically {A} (m : act W A) w : run (atomically m) w = m w.
Proof. unfold atomically. cbn. by destruct (m w). Qed.

Lemma wp_run_atomically {A} (m : act W A) Q w : wp m Q w -> wp (run (atomically m)) Q w.
Proof. unfold wp. by rewrite run_atomically. Qed.
End run.

(** A task of a component, run in a world that has it. *)
Fixpoint zoom_prog {S W A : Type} `{Lens S W} (p : prog S A) : prog W A :=
  match p with
  | Ret a => Ret a
  | Act f k => Act (zoom f) (fun x => zoom_prog (k x))
  end.

Class LensLaws (S W : Type) `{Lens S W} := {
  view_upd (s : S) (w : W) : view (upd s w) = s;
  upd_upd (s1 s2 : S) (w : W) : upd s2 (upd s1 w) = upd s2 w;
  upd_view (w : W) : upd (view w) w = w;
}.

Lemma wp_zoom_prog {S W A} `{LensLaws S W} (p : prog S A) (Q : A -> W -> Prop) w :
  wp (run p) (fun a s' => Q a (upd s' w)) (view w) -> wp (run (zoom_prog p)) Q w.
Proof.
  revert w. induction p as [a|X f k IH]; intros w; cbn.
  - unfold wp. cbn. by rewrite upd_view.
  - unfold wp, zoom. cbn. destruct (f (view w)) as [x s1]. intros Hk.
    apply IH. unfold wp. rewrite view_upd. destruct (run (k x) s1) as [a s2].
    by rewrite upd_upd.
Qed.

(** ** Interleaving

    A pool is a list of tasks; one step picks a task by its index and runs its
    next atomic action.  A task that is done stays as it is. *)

Definition prog_step {W A : Type} (p : prog W A) (w : W) : prog W A * W :=
  match p with
  | Ret a => (Ret a, w)
  | Act f k => let '(x, w') := f w in (k x, w')
  end.

Definition pool_step {W A : Type} (i : nat) (c : list (prog W A) * W) : list (prog W A) * W :=
  match c.1 !! i with
  | Some p => let '(p', w') := prog_step p c.2 in (<[i:=p']> c.1, w')
  | None => c
  end.

(** A schedule is the list of the tasks that are picked, in order. *)
Definition pool_run {W A : Type} (sched : list nat) (c : list (prog W A) * W) :
    list (prog W A) * W :=
  fold_left (fun c i => pool_step i c) sched c.

Section pool.
Context {W A : Type}.
Implicit Types (c : list (prog W A) * W).

Lemma pool_run_app s1 s2 c : pool_run (s1 ++ s2) c = pool_run s2 (pool_run s1 c).
Proof. apply fold_left_app. Qed.

(** The invariant rule: what one step of any task preserves holds after
    every schedule. *)
Lemma pool_run_invariant (I : list (prog W A) * W -> Prop) sched c :
  I c -> (forall i c', I c' -> I (pool_step i c')) -> I (pool_run sched c).
Proof.
  intros Hc Hstep. revert c Hc.
  induction sched as [|i sched IH]; intros c Hc; [done|]. apply IH, Hstep, Hc.
Qed.

Lemma pool_step_length i c : length (pool_step i c).1 = length c.1.
Proof.
  unfold pool_step. destruct (c.1 !! i) as [p|]; [|done].
  destruct (prog_step p c.2). cbn. by rewrite length_insert.
Qed.
End pool.

(** ** Rely and guarantee

    [rg R post p w]: started in a world reached from [w] by the steps [R] of
    the other tasks, every step of [p] is itself an [R] step, and [p] returns a
    value that satisfies [post]. *)
Section rely_guarantee.
Context {W A : Type} (R : W -> W -> Prop) `{!PreOrder R}.

Fixpoint rg (post : A -> W -> Prop) (p : prog W A) (w : W) : Prop :=
  match p with
  | Ret a => forall w0, R w w0 -> post a w0
  | Act f k => forall w0, R w w0 -> let '(x, w1) := f w0 in R w0 w1 /\ rg post (k x) w1
  end.

Lemma rg_stable post p w w' : R w w' -> rg post p w -> rg post p w'.
Proof.
  intros Hw. destruct p as [a|X f k]; cbn.
  - intros Hp w0 Hw0. apply Hp. by etrans.
  - intros Hp w0 Hw0. apply Hp. by etrans.
Qed.

Lemma rg_ret post a w : (forall w0, R w w0 -> post a w0) -> rg post (Ret a) w.
Proof. done. Qed.

Lemma rg_act post {X} (f : act W X) (k : X -> prog W A) w :
  (forall w0, R w w0 -> wp f (fun x w1 => R w0 w1 /\ rg post (k x) w1) w0) ->
  rg post (Act f k) w.
Proof. intros Hf w0 Hw0. specialize (Hf w0 Hw0). unfold wp in Hf. by destruct (f w0). Qed.

Lemma rg_step post p w p' w' :
  rg post p w -> prog_step p w = (p', w') -> R w w' /\ rg post p' w'.
Proof.
  destruct p as [a|X f k]; cbn.
  - intros Hp [= <- <-]. by split.
  - intros Hp Hs. specialize (Hp w (reflexivity w)).
    destruct (f w) as [x w1]. by simplify_eq.
Qed.

Lemma rg_mono (P Q : A -> W -> Prop) p w :
  rg P p w -> (forall a w', P a w' -> Q a w') -> rg Q p w.
Proof.
  intros Hp HPQ. revert w Hp. induction p as [a|X f k IH]; cbn; intros w Hp; [naive_solver|].
  intros w0 Hw0. specialize (Hp w0 Hw0). destruct (f w0). naive_solver.
Qed.

(** The world a task ends in is reached from the one it started in. *)
Lemma rg_reach post p w : rg post p w -> rg (fun a w' => R w w' /\ post a w') p w.
Proof.
  intros Hp. enough (forall v, R v w -> rg (fun a w' => R v w' /\ post a w') p w) as He by by apply He.
  revert w Hp. induction p as [a|X f k IH]; cbn; intros w Hp v Hv w0 Hw0.
  - split; [by etrans|by apply Hp].
  - specialize (Hp w0 Hw0). destruct (f w0) as [x w1]. destruct Hp as [HR Hk].
    split; [done|]. apply IH; [done|]. etrans; [exact Hv|]. by etrans.
Qed.

(** A task run alone is one of its interleavings. *)
Lemma rg_run post p w : rg post p w -> wp (run p) (fun a w' => R w w' /\ post a w') w.
Proof.
  revert w. induction p as [a|X f k IH]; cbn; intros w Hp.
  - apply wp_ret. split; [done|]. by apply Hp.
  - specialize (Hp w (reflexivity w)). unfold wp in *. cbn.
    destruct (f w) as [x w1]. destruct Hp as [HR Hk].
    specialize (IH x w1 Hk). destruct (run (k x) w1) as [a w2].
    destruct IH. split; [by etrans|done].
Qed.

(** Tasks that each satisfy their own [rg] keep satisfying it under every
    interleaving, and a task that is done satisfies its postcondition. *)
Lemma pool_rg (posts : nat -> A -> W -> Prop) sched ps w :
  (forall i p, ps !! i = Some p -> rg (posts i) p w) ->
  let c := pool_run sched (ps, w) in
  R w c.2 /\ forall i p, c.1 !! i = Some p -> rg (posts i) p c.2.
Proof.
  intros Hps. apply (pool_run_invariant (fun c => R w c.2 /\
    forall i p, c.1 !! i = Some p -> rg (posts i) p c.2)); [by split|].
  intros i [ps' w'] [HR Hall]. unfold pool_step. cbn in *.
  destruct (ps' !! i) as [p|] eqn:Ei; [|by split].
  destruct (prog_step p w') as [p' w''] eqn:Es.
  destruct (rg_step _ _ _ _ _ (Hall i p Ei) Es) as [HR' Hp'].
  split; [by etrans|]. cbn. intros j q.
  destruct (decide (i = j)) as [<-|Hne].
  - rewrite list_lookup_insert_eq by by apply lookup_lt_is_Some_1. by intros [= <-].
  - rewrite list_lookup_insert_ne by done. intros Hq.
    eapply rg_stable; [exact HR'|]. by apply Hall.
Qed.

Lemma pool_rg_ret (posts : nat -> A -> W -> Prop) sched ps w i a :
  (forall j p, ps !! j = Some p -> rg (posts j) p w) ->
  (pool_run sched (ps, w)).1 !! i = Some (Ret a) ->
  posts i a (pool_run sched (ps, w)).2.
Proof.
  intros Hps Hi. destruct (pool_rg posts sched ps w Hps) as [_ Hall].
  specialize (Hall i _ Hi). cbn in Hall. by apply Hall.
Qed.
End rely_guarantee.

Section rg_compose.
Context {W : Type} (R : W -> W -> Prop) `{!PreOrder R}.

Lemma rg_bind {A B} post (p : prog W A) (k : A -> prog W B) w :
  rg R (fun a w' => rg R post (k a) w') p w -> rg R post (p ≫= k) w.
Proof.
  revert w. induction p as [a|X f k' IH]; intros w Hp.
  - by apply Hp.
  - intros w0 Hw0. specialize (Hp w0 Hw0). cbn in *.
    destruct (f w0) as [x w1]. destruct Hp as [HR Hp]. split; [done|]. by apply IH.
Qed.

Lemma rg_bindR {A B E} post (p : prog W (result A E)) (k : A -> prog W (result B E)) w :
  rg R (fun r w' => match r with
                    | Ok a => rg R post (k a) w'
                    | Err e => forall w0, R w' w0 -> post (Err e) w0
                    end) p w ->
  rg R post (bindR p k) w.
Proof.
  intros Hp. apply rg_bind. eapply rg_mono; [exact Hp|]. by intros [a|e] w'.
Qed.

Lemma rg_atomically {A} (post : A -> W -> Prop) (m : act W A) w :
  (forall w0, R w w0 -> wp m (fun a w1 => R w0 w1 /\ forall w2, R w1 w2 -> post a w2) w0) ->
  rg R post (atomically m) w.
Proof.
  intros Hm w0 Hw0. specialize (Hm w0 Hw0). unfold wp in Hm. by destruct (m w0).
Qed.
End rg_compose.

(** An invariant that a task keeps. *)
Section keeps.
Context {W : Type} (I : W -> Prop).

Definition keeps {A} (p : prog W A) : Prop := forall w, I w -> wp (run p) (fun _ => I) w.

Lemma keeps_ret {A} (a : A) : keeps (mret a).
Proof. by intros w Hw. Qed.

Lemma keeps_bind {A B} (p : prog W A) (k : A -> prog W B) :
  keeps p -> (forall a, keeps (k a)) -> keeps (p ≫= k).
Proof.
  intros Hp Hk w Hw. apply wp_run_bind. eapply wp_mono; [by apply Hp|]. intros a w'. apply Hk.
Qed.

Lemma keeps_bindR {A B Er} (p : prog W (result A Er)) (k : A -> prog W (result B Er)) :
  keeps p -> (forall a, keeps (k a)) -> keeps (bindR p k).
Proof. intros Hp Hk. apply keeps_bind; [done|]. intros [a|e]; [done|apply keeps_ret]. Qed.

Lemma keeps_atomically {A} (m : act W A) : (forall w, I w -> wp m (fun _ => I) w) -> keeps (atomically m).
Proof. intros Hm w Hw. by apply wp_run_atomically, Hm. Qed.
End keeps.

(** The value of a first step, known where the invariant holds. *)
Lemma keeps_bind_val {W A B} (I : W -> Prop) (P : A -> Prop) (p : prog W A) (k : A -> prog W B) :
  (forall w, I w -> wp (run p) (fun a w' => I w' /\ P a) w) ->
  (forall a, P a -> keeps I (k a)) -> keeps I (p ≫= k).
Proof.
  intros Hp Hk w Hw. apply wp_run_bind. eapply wp_mono; [by apply Hp|]. intros a w' [Hw' Ha]. by apply Hk.
Qed.

(** ** The wall clock

    [chrono::Utc::now().timestamp()] returns the readings of the clock one
    after another; nothing is assumed of them unless a theorem says so. *)
Record clock := Clock {
  reading : nat -> Z;
  ticks : nat;
}.

Definition tick : act clock Z := fun c => (reading c (ticks c), Clock (reading c) (S (ticks c))).

(** The [n]-th next reading. *)
Definition now_of (c : clock) (n : nat) : Z := reading c (ticks c + n).
