(* ===== verification/RustStr.v ===== *)
(** RustStr: the operations of Rust's [str] and of integer formatting that the
    program's key layouts and header parsers use.

    A Rust string is modelled by its UTF-8 bytes, a [string] of [ascii]; Rust
    orders strings by those bytes, which is [String.le]. *)
From S2P Require Import Prelude.
From stdpp Require Export pretty.

(** ** Searching and splitting *)

Fixpoint strip_prefix (p s : string) : option string :=
  match p, s with
  | "", _ => Some s
  | String a p', String b s' => if decide (a = b) then strip_prefix p' s' else None
  | String _ _, "" => None
  end.

Definition starts_with (s p : string) : bool := bool_decide (is_Some (strip_prefix p s)).

Fixpoint ends_with (s suf : string) : bool :=
  bool_decide (s = suf) || match s with "" => false | String _ s' => ends_with s' suf end.

(** [s.strip_suffix(suf)] *)
Fixpoint strip_suffix (suf s : string) : option string :=
  if decide (s = suf) then Some "" else
  match s with
  | "" => None
  | String a s' => String a <$> strip_suffix suf s'
  end.

(** [s.contains(c)] for a character [c] *)
Fixpoint contains_char (c : ascii) (s : string) : bool :=
  match s with
  | "" => false
  | String a s' => bool_decide (a = c) || contains_char c s'
  end.

(** [s.contains(p)] for a string [p] *)
Fixpoint contains_str (p s : string) : bool :=
  starts_with s p || match s with "" => false | String _ s' => contains_str p s' end.

(** [s.split_once(c)]: the text before and after the first [c]. *)
Fixpoint split_once (c : ascii) (s : string) : option (string * string) :=
  match s with
  | "" => None
  | String a s' =>
      if decide (a = c) then Some ("", s')
      else match split_once c s' with
           | Some (l, r) => Some (String a l, r)
           | None => None
           end
  end.

(** [s.split(c)]: always at least one segment. *)
Fixpoint split_char (c : ascii) (s : string) : list string :=
  match s with
  | "" => [""]
  | String a s' =>
      if decide (a = c) then "" :: split_char c s'
      else match split_char c s' with
           | seg :: segs => String a seg :: segs
           | [] => [String a ""]
           end
  end.

(** [s.split_once(p)] for a string pattern. *)
Fixpoint split_once_str (p s : string) : option (string * string) :=
  match strip_prefix p s with
  | Some r => Some ("", r)
  | None =>
      match s with
      | "" => None
      | String a s' =>
          match split_once_str p s' with
          | Some (l, r) => Some (String a l, r)
          | None => None
          end
      end
  end.

(** [segs.join(sep)] *)
Fixpoint join (sep : string) (segs : list string) : string :=
  match segs with
  | [] => ""
  | [s] => s
  | s :: rest => s +:+ sep +:+ join sep rest
  end.

(** ** Trimming *)

Fixpoint trim_start_char (c : ascii) (s : string) : string :=
  match s with
  | String a s' => if decide (a = c) then trim_start_char c s' else s
  | "" => ""
  end.

(** [s.trim_end_matches(c)] *)
Fixpoint trim_end_char (c : ascii) (s : string) : string :=
  match s with
  | "" => ""
  | String a s' =>
      match trim_end_char c s' with
      | "" => if decide (a = c) then "" else String a ""
      | r => String a r
      end
  end.

(** [s.trim_matches(c)] *)
Definition trim_matches (c : ascii) (s : string) : string :=
  trim_end_char c (trim_start_char c s).

(** The encodings of the characters with Unicode property White_Space, which
    [str::trim] removes. *)
Definition white_space : list string :=
  map string_of_bytes
    [[9]; [10]; [11]; [12]; [13]; [32]; [194; 133]; [194; 160]; [225; 154; 128];
     [226; 128; 128]; [226; 128; 129]; [226; 128; 130]; [226; 128; 131];
     [226; 128; 132]; [226; 128; 133]; [226; 128; 134]; [226; 128; 135];
     [226; 128; 136]; [226; 128; 137]; [226; 128; 138]; [226; 128; 168];
     [226; 128; 169]; [226; 128; 175]; [226; 129; 159]; [227; 128; 128]].

(** The rest of [s] after one leading white-space character. *)
Definition strip_white (s : string) : option string :=
  foldr (fun w acc => match strip_prefix w s with Some r => Some r | None => acc end)
    None white_space.

Fixpoint trim_start_fuel (fuel : nat) (s : string) : string :=
  match fuel with
  | O => s
  | S fuel => match strip_white s with Some r => trim_start_fuel fuel r | None => s end
  end.

Definition trim_start (s : string) : string := trim_start_fuel (String.length s) s.

(** Whether [s] consists of white space only. *)
Definition is_blank (s : string) : bool := bool_decide (trim_start s = "").

(** [s.trim_end()]: the shortest prefix whose remainder is white space. *)
Fixpoint trim_end (s : string) : string :=
  if is_blank s then "" else
  match s with
  | "" => ""
  | String a s' => String a (trim_end s')
  end.

Definition trim (s : string) : string := trim_end (trim_start s).

(** ** ASCII case *)

Definition ascii_lower (a : ascii) : ascii :=
  let n := nat_of_ascii a in
  if bool_decide (65 <= n /\ n <= 90) then ascii_of_nat (n + 32) else a.

Fixpoint to_ascii_lowercase (s : string) : string :=
  match s with
  | "" => ""
  | String a s' => String (ascii_lower a) (to_ascii_lowercase s')
  end.

Definition eq_ignore_ascii_case (s t : string) : bool :=
  bool_decide (to_ascii_lowercase s = to_ascii_lowercase t).

(** ** Integers *)

(** [n.to_string()] for an unsigned integer. *)
Definition show_N (n : N) : string := pretty n.

(** [format!("{n:0w}")] *)
Definition pad_zero (w : nat) (s : string) : string :=
  Nat.iter (w - String.length s) (String "0") s.

Definition digit (a : ascii) : option N :=
  let n := N_of_ascii a in
  if bool_decide (48 <= n /\ n <= 57)%N then Some (n - 48)%N else None.

Fixpoint digits_go (max acc : N) (s : string) : option N :=
  match s with
  | "" => Some acc
  | String a s' =>
      match digit a with
      | Some d =>
          let acc' := (10 * acc + d)%N in
          if bool_decide (acc' <= max)%N then digits_go max acc' s' else None
      | None => None
      end
  end.

(** [s.parse::<uN>().ok()] for the unsigned type whose largest value is [max]:
    an optional [+], then at least one decimal digit, and no overflow. *)
Definition parse_unsigned (max : N) (s : string) : option N :=
  let body := match s with String "+" s' => s' | _ => s end in
  match body with
  | "" => None
  | _ => digits_go max 0 body
  end.

(** ** UTF-8 *)

Definition byte_in (lo hi : N) (a : ascii) : bool :=
  let n := N_of_ascii a in bool_decide (lo <= n /\ n <= hi)%N.
Definition cont : ascii -> bool := byte_in 128 191.

(** [String::from_utf8(bytes).is_ok()]: every sequence is well formed (RFC
    3629), so no overlong form, no surrogate and nothing above U+10FFFF. *)
Fixpoint utf8_valid (s : string) : bool :=
  match s with
  | "" => true
  | String a s1 =>
      if byte_in 0 127 a then utf8_valid s1 else
      match s1 with
      | "" => false
      | String b s2 =>
          if byte_in 194 223 a then cont b && utf8_valid s2 else
          match s2 with
          | "" => false
          | String c s3 =>
              if byte_in 224 239 a then
                (if byte_in 224 224 a then byte_in 160 191 b
                 else if byte_in 237 237 a then byte_in 128 159 b else cont b)
                && cont c && utf8_valid s3
              else
              match s3 with
              | "" => false
              | String d s4 =>
                  byte_in 240 244 a &&
                  (if byte_in 240 240 a then byte_in 144 191 b
                   else if byte_in 244 244 a then byte_in 128 143 b else cont b)
                  && cont c && cont d && utf8_valid s4
              end
          end
      end
  end.

(** [String::pop] on a text that ends in an ASCII character. *)
Fixpoint pop (s : string) : string :=
  match s with
  | "" => ""
  | String a "" => ""
  | String a s => String a (pop s)
  end.

(** [s.chars()]: a character is a byte that starts one, with its continuation
    bytes. *)
Fixpoint chars (s : string) : list string :=
  match s with
  | "" => []
  | String a s =>
      match chars s with
      | String b t :: rest => if cont b then String a (String b t) :: rest else String a "" :: String b t :: rest
      | _ => [String a ""]
      end
  end.

Definition of_chars (l : list string) : string := foldr String.append "" l.

(** [char::is_control]: U+0000 to U+001F and U+007F to U+009F. *)
Definition is_control (c : string) : bool :=
  match c with
  | String a "" => byte_in 0 31 a || byte_in 127 127 a
  | String a (String b "") => byte_in 194 194 a && byte_in 128 159 b
  | _ => false
  end.

(** [s.replace(p, q)] for a pattern that is not empty. *)
Fixpoint replace_fuel (fuel : nat) (p q s : string) : string :=
  match fuel with
  | O => s
  | S fuel => match split_once_str p s with Some (l, r) => l +:+ q +:+ replace_fuel fuel p q r | None => s end
  end.
Definition replace_all (p q s : string) : string := replace_fuel (String.length s) p q s.

(** [s.ends_with(c)] for a character. *)
Fixpoint ends_with_char (c : ascii) (s : string) : bool :=
  match s with
  | "" => false
  | String a "" => bool_decide (a = c)
  | String _ s => ends_with_char c s
  end.

(** ** Lemmas *)

Lemma app_cons a s t : String a s +:+ t = String a (s +:+ t).
Proof. done. Qed.

Lemma app_nil_l s : "" +:+ s = s.
Proof. done. Qed.

Lemma app_nil_r s : s +:+ "" = s.
Proof. induction s as [|a s IH]; [done|]. by rewrite app_cons, IH. Qed.

Lemma app_assoc s t u : (s +:+ t) +:+ u = s +:+ (t +:+ u).
Proof. induction s as [|a s IH]; [done|]. by rewrite !app_cons, IH. Qed.

Lemma length_app s t : String.length (s +:+ t) = String.length s + String.length t.
Proof. induction s as [|a s IH]; [done|]. rewrite app_cons. cbn. lia. Qed.

Lemma app_inj_r t s1 s2 : s1 +:+ t = s2 +:+ t -> s1 = s2.
Proof.
  revert s2. induction s1 as [|a s1 IH]; intros [|b s2] H; [done| | |].
  - apply (f_equal String.length) in H. rewrite !length_app in H. cbn in H. lia.
  - apply (f_equal String.length) in H. rewrite !length_app in H. cbn in H. lia.
  - rewrite !app_cons in H. injection H as -> H. by rewrite (IH _ H).
Qed.

Lemma strip_prefix_Some p s r : strip_prefix p s = Some r <-> s = p +:+ r.
Proof.
  revert s. induction p as [|a p IH]; intros s.
  - destruct s; cbn; rewrite app_nil_l; naive_solver.
  - destruct s as [|b s]; cbn; rewrite app_cons; [naive_solver|].
    case_decide as Hd; [subst b|naive_solver].
    rewrite IH. naive_solver.
Qed.

Lemma strip_prefix_app p r : strip_prefix p (p +:+ r) = Some r.
Proof. by apply strip_prefix_Some. Qed.

Lemma starts_with_spec s p : starts_with s p = true <-> exists r, s = p +:+ r.
Proof.
  unfold starts_with. rewrite bool_decide_eq_true. split.
  - intros [r Hr]. exists r. by apply strip_prefix_Some.
  - intros [r ->]. exists r. apply strip_prefix_app.
Qed.

Lemma starts_with_app p r : starts_with (p +:+ r) p = true.
Proof. apply starts_with_spec. eauto. Qed.

Lemma ends_with_spec s suf : ends_with s suf = true <-> exists t, s = t +:+ suf.
Proof.
  induction s as [|a s IH]; cbn; rewrite orb_true_iff, bool_decide_eq_true.
  - split; [intros [H|H]; [|done]; subst suf; by exists ""|].
    intros [[|b t] H]; [by left|done].
  - rewrite IH. split.
    + intros [H|[t H]]; [subst suf; by exists ""|subst s; by exists (String a t)].
    + intros [[|b t] H]; [by left|]. rewrite app_cons in H.
      injection H as -> H. right. by exists t.
Qed.

Lemma ends_with_app t suf : ends_with (t +:+ suf) suf = true.
Proof. apply ends_with_spec. eauto. Qed.

Lemma contains_char_app c s t :
  contains_char c (s +:+ t) = contains_char c s || contains_char c t.
Proof. induction s as [|a s IH]; [done|]. rewrite app_cons. cbn. by rewrite IH, orb_assoc. Qed.

Lemma split_once_Some c s l r :
  split_once c s = Some (l, r) <-> s = l +:+ String c r /\ contains_char c l = false.
Proof.
  revert l. induction s as [|a s IH]; intros l; cbn.
  { split; [done|]. intros [H _]. by destruct l. }
  case_decide as Hd.
  - subst a. split; [by intros [= <- <-]|].
    intros [H Hl]. destruct l as [|b l]; [injection H as ->; done|].
    rewrite app_cons in H. injection H as -> H. cbn in Hl.
    by rewrite bool_decide_true in Hl.
  - destruct (split_once c s) as [[l' r']|] eqn:E.
    + split.
      * intros [= <- <-]. destruct (proj1 (IH l') eq_refl) as [-> Hl'].
        rewrite app_cons. split; [done|]. cbn. rewrite bool_decide_false by done. done.
      * intros [H Hl]. destruct l as [|b l].
        { rewrite app_nil_l in H. by injection H as -> ->. }
        rewrite app_cons in H. injection H as -> H. cbn in Hl.
        apply orb_false_iff in Hl as [_ Hl].
        by injection (proj2 (IH l) (conj H Hl)) as -> ->.
    + split; [done|]. intros [H Hl]. destruct l as [|b l].
      { rewrite app_nil_l in H. by injection H as -> ->. }
      rewrite app_cons in H. injection H as -> H. cbn in Hl.
      apply orb_false_iff in Hl as [_ Hl].
      by pose proof (proj2 (IH l) (conj H Hl)).
Qed.

Lemma split_once_app c l r :
  contains_char c l = false -> split_once c (l +:+ String c r) = Some (l, r).
Proof. intros. by apply split_once_Some. Qed.

Lemma split_once_None c s : split_once c s = None <-> contains_char c s = false.
Proof.
  induction s as [|a s IH]; cbn; [done|].
  case_decide as Hd.
  - rewrite bool_decide_true by done. done.
  - rewrite bool_decide_false by done. cbn. rewrite <- IH.
    by destruct (split_once c s) as [[]|].
Qed.

Lemma show_N_inj m n : show_N m = show_N n -> m = n.
Proof. apply (inj pretty). Qed.

Lemma digits_go_bound max acc s n : (acc <= max)%N -> digits_go max acc s = Some n -> (n <= max)%N.
Proof.
  revert acc. induction s as [|a s IH]; intros acc Hacc; cbn; [by intros [= <-]|].
  destruct (digit a); [|done]. case_bool_decide; [|done]. by apply IH.
Qed.

Lemma parse_unsigned_bound max s n : parse_unsigned max s = Some n -> (n <= max)%N.
Proof.
  unfold parse_unsigned. destruct (match s with String "+" s' => s' | _ => s end); [done|].
  apply digits_go_bound. lia.
Qed.

(** *** Order *)

Lemma compare_app p s t : String.compare (p +:+ s) (p +:+ t) = String.compare s t.
Proof.
  induction p as [|a p IH]; [done|]. rewrite !app_cons. cbn.
  assert (compare a a = Eq) as -> by apply N.compare_refl. apply IH.
Qed.

Lemma le_app p s t : String.le (p +:+ s) (p +:+ t) <-> String.le s t.
Proof. unfold String.le, String.leb. by rewrite compare_app. Qed.

Lemma le_app_r p s : String.le p (p +:+ s).
Proof. rewrite <- (app_nil_r p) at 1. rewrite le_app. by destruct s. Qed.

Lemma pop_app q a : pop (q +:+ String a "") = q.
Proof.
  induction q as [|b q IH]; [done|]. rewrite app_cons. cbn. rewrite IH.
  by destruct q.
Qed.

(** *** The last occurrence of a character *)

Lemma app_last_inj c s t f g :
  contains_char c f = false -> contains_char c g = false ->
  s +:+ String c f = t +:+ String c g -> s = t /\ f = g.
Proof.
  intros Hf Hg. revert t. induction s as [|a s IH]; intros [|b t] He.
  - rewrite !app_nil_l in He. by injection He.
  - rewrite app_nil_l, app_cons in He. injection He as -> ->.
    rewrite contains_char_app in Hf. cbn in Hf. rewrite bool_decide_true in Hf by done.
    by rewrite orb_true_r in Hf.
  - rewrite app_nil_l, app_cons in He. injection He as -> <-.
    rewrite contains_char_app in Hg. cbn in Hg. rewrite bool_decide_true in Hg by done.
    by rewrite orb_true_r in Hg.
  - rewrite !app_cons in He. injection He as -> He. by destruct (IH t He) as [-> ->].
Qed.

Lemma app_snoc_inj s t a b : s +:+ String a "" = t +:+ String b "" -> a = b.
Proof.
  revert t. induction s as [|x s IH]; intros [|y t] He.
  - rewrite !app_nil_l in He. by injection He.
  - rewrite app_nil_l, app_cons in He. injection He as _ He. by destruct t.
  - rewrite app_nil_l, app_cons in He. injection He as _ He. by destruct s.
  - rewrite !app_cons in He. injection He as _ He. by eapply IH.
Qed.

Lemma ends_with_sep c s f g :
  contains_char c f = false -> contains_char c g = false ->
  ends_with (s +:+ String c f) (String c g) = true <-> f = g.
Proof.
  intros Hf Hg. rewrite ends_with_spec. split.
  - intros [t He]. by eapply app_last_inj in He as [_ ?].
  - intros ->. by exists s.
Qed.

(** *** Trimming a text with a black first and last character *)

(** A character that no encoding of a white-space character contains. *)
Definition black (c : ascii) : bool := forallb (fun w => negb (contains_char c w)) white_space.

Lemma strip_prefix_keeps c p s r : contains_char c p = false -> strip_prefix p s = Some r ->
  contains_char c s = contains_char c r.
Proof. intros Hp ->%strip_prefix_Some. by rewrite contains_char_app, Hp. Qed.

Lemma strip_white_keeps c s r : black c = true -> strip_white s = Some r -> contains_char c s = contains_char c r.
Proof.
  unfold black, strip_white. induction white_space as [|w ws IH]; [done|]. cbn [foldr forallb].
  intros [Hw%negb_true_iff Hws]%andb_true_iff. destruct (strip_prefix w s) as [r'|] eqn:E; [|by apply IH].
  intros [= <-]. by eapply strip_prefix_keeps.
Qed.

Lemma trim_start_keeps c s : black c = true -> contains_char c (trim_start s) = contains_char c s.
Proof.
  intros Hc. unfold trim_start. generalize (String.length s). intros fuel. revert s.
  induction fuel as [|fuel IH]; intros s; cbn [trim_start_fuel]; [done|]. destruct (strip_white s) as [r|] eqn:E; [|done].
  rewrite IH. symmetry. by eapply strip_white_keeps.
Qed.

Lemma not_blank c s : black c = true -> contains_char c s = true -> is_blank s = false.
Proof.
  intros Hc Hs. unfold is_blank. apply bool_decide_eq_false. intros He.
  pose proof (trim_start_keeps c s Hc) as Hk. rewrite He, Hs in Hk. done.
Qed.

Lemma trim_end_black c s : black c = true -> trim_end (s +:+ String c "") = s +:+ String c "".
Proof.
  intros Hc. induction s as [|a s IH].
  - rewrite app_nil_l. cbn [trim_end]. rewrite (not_blank c); [done|done|]. cbn. by rewrite bool_decide_true.
  - rewrite app_cons. cbn [trim_end]. rewrite IH, (not_blank c); [done|done|].
    cbn. rewrite contains_char_app. cbn. rewrite (bool_decide_true (c = c)) by done. by rewrite !orb_true_r.
Qed.

(** The first bytes of the encodings of white space. *)
Definition white_first (c : ascii) : bool :=
  existsb (fun w => match w with String a _ => bool_decide (a = c) | "" => true end) white_space.

Lemma trim_start_black c s : white_first c = false -> trim_start (String c s) = String c s.
Proof.
  intros Hc. unfold trim_start. cbn [String.length trim_start_fuel].
  assert (strip_white (String c s) = None) as ->; [|done].
  revert Hc. unfold white_first, strip_white. induction white_space as [|w ws IH]; [done|]. cbn [existsb foldr].
  intros [Hw Hws]%orb_false_iff. rewrite IH by done.
  destruct w as [|a w]; [done|]. cbn [strip_prefix]. apply bool_decide_eq_false in Hw. by rewrite decide_False.
Qed.

Lemma trim_start_space s : trim_start (String " " s) = trim_start s.
Proof.
  unfold trim_start. cbn [String.length trim_start_fuel]. by assert (strip_white (String " " s) = Some s) as ->.
Qed.

Lemma trim_black c d s : white_first c = false -> black d = true ->
  trim (String c (s +:+ String d "")) = String c (s +:+ String d "").
Proof.
  intros Hc Hd. unfold trim. rewrite trim_start_black by done. by apply (trim_end_black d (String c s)).
Qed.

Lemma strip_suffix_app t s : strip_suffix t (s +:+ t) = Some s.
Proof.
  induction s as [|a s IH].
  - rewrite app_nil_l. destruct t; cbn; by rewrite decide_True.
  - rewrite app_cons. cbn [strip_suffix]. rewrite decide_False.
    + by rewrite IH.
    + intros He. apply (f_equal String.length) in He. cbn in He. rewrite length_app in He. lia.
Qed.

(** *** Splitting what was joined *)

Lemma split_char_app c s t : contains_char c s = false -> split_char c (s +:+ String c t) = s :: split_char c t.
Proof.
  induction s as [|a s IH]; intros Hs.
  - rewrite app_nil_l. cbn. by rewrite decide_True.
  - rewrite app_cons. cbn in Hs |- *. apply orb_false_iff in Hs as [Ha Hs]. apply bool_decide_eq_false in Ha.
    rewrite decide_False by done. by rewrite IH.
Qed.

Lemma split_char_cons c s : exists seg segs, split_char c s = seg :: segs.
Proof. destruct s as [|a s]; cbn; [eauto|]. case_decide; [eauto|]. destruct (split_char c s); eauto. Qed.

Lemma split_char_cat c s t : split_char c (s +:+ String c t) = split_char c s ++ split_char c t.
Proof.
  induction s as [|a s IH].
  - rewrite app_nil_l. cbn. by rewrite decide_True.
  - rewrite app_cons. cbn [split_char]. rewrite IH. case_decide; [done|].
    destruct (split_char_cons c s) as (seg & segs & ->). done.
Qed.

Lemma split_char_none c s : contains_char c s = false -> split_char c s = [s].
Proof.
  induction s as [|a s IH]; intros Hs; [done|]. cbn in Hs |- *.
  apply orb_false_iff in Hs as [Ha Hs]. apply bool_decide_eq_false in Ha.
  rewrite decide_False by done. by rewrite IH.
Qed.

(** *** Decimal texts *)

Fixpoint all_digits (s : string) : bool :=
  match s with "" => true | String a s => bool_decide (is_Some (digit a)) && all_digits s end.

Lemma digit_char d : (d < 10)%N -> digit (pretty_N_char d) = Some d.
Proof.
  intros Hd. assert (d = 0 \/ d = 1 \/ d = 2 \/ d = 3 \/ d = 4 \/ d = 5 \/ d = 6 \/ d = 7 \/ d = 8 \/ d = 9)%N as Hc by lia.
  repeat (destruct Hc as [->|Hc]; [vm_compute; reflexivity|]). by subst d.
Qed.

Lemma all_digits_go x s : all_digits s = true -> all_digits (pretty_N_go x s) = true.
Proof.
  revert s. induction (N.lt_wf_0 x) as [x _ IH]. intros s Hs.
  destruct (decide (x = 0)%N) as [->|]; [by rewrite pretty_N_go_0|].
  rewrite pretty_N_go_step by lia. apply IH; [apply N.div_lt; lia|]. cbn [all_digits].
  rewrite digit_char by (apply N.mod_lt; lia). rewrite bool_decide_true by eauto. done.
Qed.

Lemma all_digits_show n : all_digits (show_N n) = true.
Proof. unfold show_N, pretty, pretty_N. case_decide; [done|]. by apply all_digits_go. Qed.

Lemma all_digits_no c s : digit c = None -> all_digits s = true -> contains_char c s = false.
Proof.
  intros Hc. induction s as [|a s IH]; [done|]. cbn.
  intros [Ha Hs]%andb_true_iff. apply bool_decide_eq_true in Ha as [d Hd]. rewrite IH by done.
  rewrite bool_decide_false; [done|]. intros ->. congruence.
Qed.

Lemma show_N_no c n : digit c = None -> contains_char c (show_N n) = false.
Proof. intros Hc. apply all_digits_no; [done|apply all_digits_show]. Qed.

Lemma digits_go_show max x s : (x <= max)%N -> digits_go max 0 (pretty_N_go x s) = digits_go max x s.
Proof.
  revert s. induction (N.lt_wf_0 x) as [x _ IH]. intros s Hx.
  destruct (decide (x = 0)%N) as [->|]; [by rewrite pretty_N_go_0|].
  rewrite pretty_N_go_step by lia. assert (x / 10 < x)%N by (apply N.div_lt; lia). rewrite IH by lia.
  cbn [digits_go]. rewrite digit_char by (apply N.mod_lt; lia).
  rewrite <- N.div_mod by lia. by rewrite bool_decide_true.
Qed.

Lemma parse_body max s : all_digits s = true -> s <> "" -> parse_unsigned max s = digits_go max 0 s.
Proof.
  intros Hs Hne. unfold parse_unsigned. destruct s as [|a s]; [done|].
  assert (a <> "+"%char) as Ha by (intros ->; done).
  destruct a as [[] [] [] [] [] [] [] []]; done.
Qed.

(** A number that fits is read back from its text. *)
Lemma parse_show max n : (n <= max)%N -> parse_unsigned max (show_N n) = Some n.
Proof.
  intros Hn. rewrite parse_body; [|apply all_digits_show|].
  - unfold show_N, pretty, pretty_N. case_decide; [subst; by destruct max|]. by rewrite digits_go_show.
  - unfold show_N, pretty, pretty_N. case_decide as H0; [done|]. intros He.
    pose proof (digits_go_show max n "" Hn) as Hd. rewrite He in Hd. cbn in Hd. congruence.
Qed.

#[export] Hint Rewrite strip_prefix_app starts_with_app ends_with_app : rapi.
