(* ===== verification/Float64.v ===== *)
(** Float64: Rust's [f64], by the Standard Library's executable specification
    of binary64, and the exactness of the operations on small integers. *)
From S2P Require Import Prelude.
From Stdlib Require Export Floats.SpecFloat.

Definition f64 : Type := spec_float.

#[export] Instance f64_eq_dec : EqDecision f64.
Proof. solve_decision. Defined.

(** [f64::from(n)] and [n as f64] *)
Definition f64_of_Z (n : Z) : f64 := binary_normalize 53 1024 n 0 false.

Definition f64_add : f64 -> f64 -> f64 := SFadd 53 1024.
Definition f64_sub : f64 -> f64 -> f64 := SFsub 53 1024.
Definition f64_mul : f64 -> f64 -> f64 := SFmul 53 1024.
Definition f64_div : f64 -> f64 -> f64 := SFdiv 53 1024.
Definition f64_eqb : f64 -> f64 -> bool := SFeqb.
Definition f64_ltb : f64 -> f64 -> bool := SFltb.
Definition f64_leb : f64 -> f64 -> bool := SFleb.

(** [a.min(b)]: the other one when one of them is not a number. *)
Definition f64_min (a b : f64) : f64 :=
  match a, b with
  | S754_nan, _ => b
  | _, S754_nan => a
  | _, _ => if f64_ltb a b then a else b
  end.

(** [Duration::as_secs_f64] *)
Definition as_secs_f64 (d : Z) : f64 :=
  f64_add (f64_of_Z (d / 1000000000)) (f64_div (f64_of_Z (d mod 1000000000)) (f64_of_Z 1000000000)).

(** ** Integers below [2^33] are exact *)

#[local] Abbreviation digits := digits2_pos.

Lemma digits_bounds p : (2 ^ (Z.pos (digits p) - 1) <= Z.pos p < 2 ^ Z.pos (digits p))%Z.
Proof.
  induction p as [p IH|p IH|]; cbn [digits2_pos]; [| |cbn; lia].
  all: rewrite Pos2Z.inj_succ.
  all: replace (Z.succ (Z.pos (digits p)) - 1)%Z with (Z.succ (Z.pos (digits p) - 1)) by lia.
  all: rewrite !Z.pow_succ_r by lia; lia.
Qed.

Lemma digits_unique p d : (2 ^ (d - 1) <= Z.pos p < 2 ^ d)%Z -> Z.pos (digits p) = d.
Proof.
  intros Hd. pose proof (digits_bounds p) as Hp.
  assert (0 < d)%Z by (destruct (decide (0 < d)%Z); [done|]; rewrite (Z.pow_neg_r 2 (d - 1)) in Hd by lia;
    destruct (decide (d = 0)%Z) as [->|]; [lia|rewrite Z.pow_neg_r in Hd by lia; lia]).
  destruct (Z.lt_trichotomy (Z.pos (digits p)) d) as [Hlt|[Heq|Hgt]]; [|done|].
  - assert (2 ^ Z.pos (digits p) <= 2 ^ (d - 1))%Z by (apply Z.pow_le_mono_r; lia). lia.
  - assert (2 ^ d <= 2 ^ (Z.pos (digits p) - 1))%Z by (apply Z.pow_le_mono_r; lia). lia.
Qed.

Lemma digits_shift p k : (0 <= k)%Z -> Z.pos (digits (Z.to_pos (Z.pos p * 2 ^ k))) = (Z.pos (digits p) + k)%Z.
Proof.
  intros Hk. pose proof (digits_bounds p) as Hp. apply digits_unique.
  assert (0 < 2 ^ k)%Z by (apply Z.pow_pos_nonneg; lia).
  rewrite Z2Pos.id by nia.
  replace (Z.pos (digits p) + k - 1)%Z with ((Z.pos (digits p) - 1) + k)%Z by lia.
  rewrite !Z.pow_add_r by lia. nia.
Qed.

Lemma iter_xO p d : Z.pos (Pos.iter xO p d) = (Z.pos p * 2 ^ Z.pos d)%Z.
Proof.
  revert d. refine (Pos.peano_ind _ _ _); [cbn; lia|].
  intros d IH. rewrite Pos.iter_succ, Pos2Z.inj_xO, IH, Pos2Z.inj_succ, Z.pow_succ_r by lia. lia.
Qed.

Lemma iter_pos_eq {A} (f : A -> A) n x : iter_pos f n x = Pos.iter f x n.
Proof.
  revert x. induction n as [n IH|n IH|]; intros x; cbn; [|by rewrite !IH|done].
  rewrite !IH. f_equal. rewrite <- !Pos.iter_swap. done.
Qed.

Lemma iter_shr m d :
  iter_pos shr_1 d (Build_shr_record (Z.pos m * 2 ^ Z.pos d) false false) = Build_shr_record (Z.pos m) false false.
Proof.
  rewrite iter_pos_eq. revert d. refine (Pos.peano_ind _ _ _).
  - change (2 ^ 1)%Z with 2%Z. replace (Z.pos m * 2)%Z with (Z.pos (xO m)) by lia. done.
  - intros d IH. rewrite Pos.iter_succ_r, <- IH. f_equal.
    rewrite Pos2Z.inj_succ, Z.pow_succ_r by lia.
    replace (Z.pos m * (2 * 2 ^ Z.pos d))%Z with (2 * (Z.pos m * 2 ^ Z.pos d))%Z by lia.
    assert (0 < 2 ^ Z.pos d)%Z by (apply Z.pow_pos_nonneg; lia).
    assert (0 < Z.pos m * 2 ^ Z.pos d)%Z as Hz by lia.
    destruct (Z.pos m * 2 ^ Z.pos d)%Z; done.
Qed.

(** The float whose value is [p * 2 ^ x], when [p] has at most 53 digits. *)
Definition canon (p : positive) (x : Z) : f64 :=
  S754_finite false (Z.to_pos (Z.pos p * 2 ^ (53 - Z.pos (digits p)))) (Z.pos (digits p) + x - 53).

Section exact.
Context (p : positive) (x : Z).
Hypothesis (Hp : (Z.pos (digits p) <= 53)%Z) (Hx : (-900 <= x <= 900)%Z).

#[local] Abbreviation m := (Z.to_pos (Z.pos p * 2 ^ (53 - Z.pos (digits p)))).

Lemma digits_canon : Z.pos (digits m) = 53%Z.
Proof. rewrite digits_shift by lia. lia. Qed.

Lemma fexp_small d e : (d + e = Z.pos (digits p) + x)%Z -> fexp 53 1024 (d + e) = (Z.pos (digits p) + x - 53)%Z.
Proof. intros ->. unfold fexp, emin. lia. Qed.

Lemma shr_done e : e = (Z.pos (digits p) + x - 53)%Z ->
  shr_fexp 53 1024 (Z.pos m) e loc_Exact = (Build_shr_record (Z.pos m) false false, e).
Proof.
  intros He. unfold shr_fexp, shr, shr_record_of_loc. cbn [Zdigits2].
  rewrite fexp_small by (rewrite digits_canon; lia). rewrite <- He, Z.sub_diag. done.
Qed.

Lemma round_aux_exact q e : shr_fexp 53 1024 (Z.pos q) e loc_Exact =
    (Build_shr_record (Z.pos m) false false, (Z.pos (digits p) + x - 53)%Z) ->
  binary_round_aux 53 1024 false (Z.pos q) e loc_Exact = canon p x.
Proof.
  intros Hq. unfold binary_round_aux. rewrite Hq. cbn [shr_m loc_of_shr_record round_nearest_even].
  rewrite shr_done by done. cbn [shr_m].
  replace (Z.pos (digits p) + x - 53 <=? 1024 - 53)%Z with true by lia. done.
Qed.

(** An integer multiple of a power of two is rounded to itself. *)
Lemma normalize_exact q e k : (0 <= k)%Z -> (k + e = x)%Z -> Z.pos q = (Z.pos p * 2 ^ k)%Z ->
  binary_normalize 53 1024 (Z.pos q) e false = canon p x.
Proof.
  intros Hk Hke Hq.
  assert (Z.pos (digits q) = Z.pos (digits p) + k)%Z as Hd
    by (rewrite <- (digits_shift p k) by lia; by rewrite <- Hq).
  unfold binary_normalize, binary_round, shl_align. rewrite fexp_small by lia.
  destruct (Z.pos (digits p) + x - 53 - e)%Z as [|d|d] eqn:E.
  - apply round_aux_exact. assert (q = m) as ->
      by (apply (f_equal Z.to_pos) in Hq; cbn in Hq; rewrite Hq; f_equal; f_equal; f_equal; lia).
    replace e with (Z.pos (digits p) + x - 53)%Z by lia. by apply shr_done.
  - apply round_aux_exact. unfold shr_fexp, shr, shr_record_of_loc. cbn [Zdigits2].
    rewrite fexp_small by lia. rewrite E. f_equal; [|lia].
    replace (Z.pos q) with (Z.pos m * 2 ^ Z.pos d)%Z; [apply iter_shr|].
    rewrite Z2Pos.id by (apply Z.mul_pos_pos; [lia|apply Z.pow_pos_nonneg; lia]).
    rewrite Hq, <- Z.mul_assoc, <- Z.pow_add_r by lia. do 2 f_equal. lia.
  - apply round_aux_exact. replace (Pos.iter xO q d) with m; [by apply shr_done|].
    apply Pos2Z.inj. rewrite Z2Pos.id by (apply Z.mul_pos_pos; [lia|apply Z.pow_pos_nonneg; lia]).
    rewrite iter_xO, Hq, <- Z.mul_assoc, <- Z.pow_add_r by lia. do 2 f_equal. lia.
Qed.
End exact.

Lemma digits_le p n : (0 <= n)%Z -> (Z.pos p < 2 ^ n)%Z -> (Z.pos (digits p) <= n)%Z.
Proof.
  intros Hn Hp. pose proof (digits_bounds p) as Hd.
  destruct (decide (Z.pos (digits p) <= n)%Z) as [|Hgt]; [done|].
  assert (2 ^ n <= 2 ^ (Z.pos (digits p) - 1))%Z by (apply Z.pow_le_mono_r; lia). lia.
Qed.

Lemma of_Z_canon p : (Z.pos p < 2 ^ 53)%Z -> f64_of_Z (Z.pos p) = canon p 0.
Proof.
  intros Hp. apply (normalize_exact p 0 ltac:(by apply digits_le) ltac:(lia) p 0 0); lia.
Qed.

Lemma align_canon p z : (Z.pos (digits p) <= 53)%Z -> (z <= Z.pos (digits p) - 53)%Z ->
  Z.pos (fst (shl_align (Z.to_pos (Z.pos p * 2 ^ (53 - Z.pos (digits p)))) (Z.pos (digits p) + 0 - 53) z)) =
  (Z.pos p * 2 ^ (- z))%Z.
Proof.
  intros Hp Hz. unfold shl_align.
  assert (0 < Z.pos p * 2 ^ (53 - Z.pos (digits p)))%Z by (apply Z.mul_pos_pos; [lia|apply Z.pow_pos_nonneg; lia]).
  destruct (z - (Z.pos (digits p) + 0 - 53))%Z as [|d|d] eqn:E; [| lia |]; cbn [fst].
  - rewrite Z2Pos.id by lia. do 2 f_equal. lia.
  - rewrite iter_xO, Z2Pos.id, <- Z.mul_assoc, <- Z.pow_add_r by lia. do 2 f_equal. lia.
Qed.

Lemma sub_exact p q : (Z.pos q < Z.pos p < 2 ^ 53)%Z ->
  f64_sub (f64_of_Z (Z.pos p)) (f64_of_Z (Z.pos q)) = f64_of_Z (Z.pos p - Z.pos q).
Proof.
  intros Hpq. assert (Z.pos (digits p) <= 53)%Z by (apply digits_le; lia).
  assert (Z.pos (digits q) <= 53)%Z by (apply digits_le; lia).
  destruct (Z.pos p - Z.pos q)%Z as [|r|r] eqn:Er; [lia| |lia].
  rewrite !of_Z_canon by lia. unfold f64_sub, SFsub, canon, cond_Zopp.
  set (z := Z.min _ _). rewrite !align_canon by lia. rewrite <- Z.mul_sub_distr_r, Er.
  destruct (Z.pos r * 2 ^ (- z))%Z as [|s|s] eqn:Es;
    [assert (0 < Z.pos r * 2 ^ (- z))%Z by (apply Z.mul_pos_pos; [lia|apply Z.pow_pos_nonneg; lia]); lia| |
     assert (0 < Z.pos r * 2 ^ (- z))%Z by (apply Z.mul_pos_pos; [lia|apply Z.pow_pos_nonneg; lia]); lia].
  apply (normalize_exact r 0 ltac:(apply digits_le; lia) ltac:(lia) s z (- z)); lia.
Qed.

Lemma sub_self p : (Z.pos p < 2 ^ 53)%Z -> f64_sub (f64_of_Z (Z.pos p)) (f64_of_Z (Z.pos p)) = f64_of_Z 0.
Proof.
  intros Hp. rewrite of_Z_canon by done. unfold f64_sub, SFsub, canon, cond_Zopp. by rewrite Z.sub_diag.
Qed.

(** Subtraction of small naturals is exact. *)
Lemma f64_sub_exact a b : (0 < b <= a)%Z -> (a < 2 ^ 53)%Z -> f64_sub (f64_of_Z a) (f64_of_Z b) = f64_of_Z (a - b).
Proof.
  intros Hb Ha. destruct (decide (a = b)) as [->|].
  - rewrite Z.sub_diag. destruct b as [|p|p]; [lia|by apply sub_self|lia].
  - destruct a as [|p|p], b as [|q|q]; try lia. apply sub_exact. lia.
Qed.

Lemma compare_exact p q : (Z.pos p < 2 ^ 53)%Z -> (Z.pos q < 2 ^ 53)%Z ->
  SFcompare (f64_of_Z (Z.pos p)) (f64_of_Z (Z.pos q)) = Some (Z.compare (Z.pos p) (Z.pos q)).
Proof.
  intros Hp Hq. rewrite !of_Z_canon by done. unfold canon, SFcompare. f_equal.
  pose proof (digits_bounds p) as Dp. pose proof (digits_bounds q) as Dq.
  destruct (Z.compare_spec (Z.pos (digits p) + 0 - 53) (Z.pos (digits q) + 0 - 53)) as [He|Hlt|Hgt].
  - assert (Z.pos (digits p) = Z.pos (digits q)) as Hd by lia. rewrite Hd.
    assert (Z.pos (digits q) <= 53)%Z by (by apply digits_le).
    assert (0 < 2 ^ (53 - Z.pos (digits q)))%Z by (apply Z.pow_pos_nonneg; lia).
    change (Pos.compare_cont Eq) with Pos.compare.
    rewrite <- Z2Pos.inj_compare by nia. symmetry. apply Zmult_compare_compat_r. lia.
  - symmetry. apply Z.compare_lt_iff.
    assert (2 ^ Z.pos (digits p) <= 2 ^ (Z.pos (digits q) - 1))%Z by (apply Z.pow_le_mono_r; lia). lia.
  - symmetry. apply Z.compare_gt_iff.
    assert (2 ^ Z.pos (digits q) <= 2 ^ (Z.pos (digits p) - 1))%Z by (apply Z.pow_le_mono_r; lia). lia.
Qed.

Lemma compare_small a b : (0 <= a < 2 ^ 53)%Z -> (0 <= b < 2 ^ 53)%Z ->
  SFcompare (f64_of_Z a) (f64_of_Z b) = Some (Z.compare a b).
Proof.
  intros Ha Hb. destruct a as [|p|p], b as [|q|q]; try lia; [done| | |apply compare_exact; lia].
  all: rewrite of_Z_canon by lia; done.
Qed.

Lemma f64_leb_exact a b : (0 <= a < 2 ^ 53)%Z -> (0 <= b < 2 ^ 53)%Z -> f64_leb (f64_of_Z a) (f64_of_Z b) = (a <=? b)%Z.
Proof.
  intros Ha Hb. unfold f64_leb, SFleb. rewrite compare_small by done.
  unfold Z.leb. by destruct (Z.compare a b).
Qed.

Lemma of_Z_shape a : (0 <= a < 2 ^ 53)%Z ->
  f64_of_Z a = S754_zero false \/ exists m e, f64_of_Z a = S754_finite false m e.
Proof.
  intros Ha. destruct a as [|p|p]; [by left| |lia]. right. rewrite of_Z_canon by lia. unfold canon. eauto.
Qed.

Lemma f64_min_exact a b : (0 <= a < 2 ^ 53)%Z -> (0 <= b < 2 ^ 53)%Z ->
  f64_min (f64_of_Z a) (f64_of_Z b) = f64_of_Z (Z.min a b).
Proof.
  intros Ha Hb.
  assert (f64_min (f64_of_Z a) (f64_of_Z b) = if f64_ltb (f64_of_Z a) (f64_of_Z b) then f64_of_Z a else f64_of_Z b) as ->
    by (destruct (of_Z_shape a Ha) as [->|(? & ? & ->)], (of_Z_shape b Hb) as [->|(? & ? & ->)]; done).
  unfold f64_ltb, SFltb. rewrite compare_small by done.
  destruct (Z.compare_spec a b) as [He|Hl|Hg]; f_equal; lia.
Qed.

(** A positive rate over no time adds nothing. *)
Lemma no_time a m e : (0 <= a < 2 ^ 53)%Z ->
  f64_add (f64_of_Z a) (f64_mul (as_secs_f64 0) (S754_finite false m e)) = f64_of_Z a.
Proof.
  intros Ha. change (f64_mul (as_secs_f64 0) (S754_finite false m e)) with (S754_zero false).
  by destruct (of_Z_shape a Ha) as [->|(? & ? & ->)].
Qed.
