(* ===== verification/Hex.v ===== *)
(** Hex: bytes as lower-case hexadecimal text ([format!("{b:02x}")]), and the
    reading of such text ([u8::from_str_radix(_, 16)]). *)
From S2P Require Import Prelude.
From S2P Require Import RustStr.

Definition hex_digit (n : N) : string :=
  String.substring (N.to_nat n) 1 "0123456789abcdef".

(** [format!("{b:02x}")] of a byte. *)
Definition hex2 (b : N) : string := hex_digit (b / 16) +:+ hex_digit (b mod 16).

(** The bytes of a text. *)
Fixpoint bytes_of (s : string) : list N :=
  match s with
  | "" => []
  | String a s => N_of_ascii a :: bytes_of s
  end.

Definition hex_bytes (l : list N) : string := foldr (fun b acc => hex2 b +:+ acc) "" l.

(** [char::to_digit(16)], and [is_ascii_hexdigit] *)
Definition hex_val (a : ascii) : option N :=
  let n := N_of_ascii a in
  if (48 <=? n)%N && (n <=? 57)%N then Some (n - 48)%N
  else if (97 <=? n)%N && (n <=? 102)%N then Some (n - 87)%N
  else if (65 <=? n)%N && (n <=? 70)%N then Some (n - 55)%N
  else None.

Fixpoint all_hex (s : string) : bool :=
  match s with
  | "" => true
  | String a s => bool_decide (is_Some (hex_val a)) && all_hex s
  end.

(** ** Facts *)

Definition bytes_256 : list N := N.of_nat <$> seq 0 256.

Lemma in_bytes_256 x : (x < 256)%N -> In x bytes_256.
Proof.
  intros Hx. apply list_elem_of_In, list_elem_of_fmap. exists (N.to_nat x).
  split; [by rewrite N2Nat.id|]. apply elem_of_seq. lia.
Qed.

Lemma hex2_inj a b : (a < 256)%N -> (b < 256)%N -> hex2 a = hex2 b -> a = b.
Proof.
  assert (forallb (fun a => forallb (fun b => bool_decide (hex2 a = hex2 b -> a = b)) bytes_256) bytes_256 = true) as Hall
    by (vm_compute; reflexivity).
  intros Ha Hb. rewrite List.forallb_forall in Hall. specialize (Hall a (in_bytes_256 a Ha)).
  rewrite List.forallb_forall in Hall. specialize (Hall b (in_bytes_256 b Hb)). by apply bool_decide_eq_true in Hall.
Qed.

Lemma length_hex2 b : (b < 256)%N -> String.length (hex2 b) = 2.
Proof.
  assert (forallb (fun b => bool_decide (String.length (hex2 b) = 2)) bytes_256 = true) as Hall
    by (vm_compute; reflexivity).
  intros Hb. rewrite List.forallb_forall in Hall.
  specialize (Hall b (in_bytes_256 b Hb)). by apply bool_decide_eq_true in Hall.
Qed.

(** Texts of one length before a common rest. *)
Lemma app_inj_len s1 s2 t1 t2 :
  String.length s1 = String.length s2 -> s1 +:+ t1 = s2 +:+ t2 -> s1 = s2 /\ t1 = t2.
Proof.
  revert s2. induction s1 as [|a s1 IH]; intros [|b s2] Hl He; try done.
  rewrite !app_cons in He. injection He as -> He. injection Hl as Hl.
  by destruct (IH s2 Hl He) as [-> ->].
Qed.

Lemma length_hex_bytes l : Forall (fun b => b < 256)%N l -> String.length (hex_bytes l) = 2 * length l.
Proof.
  induction 1 as [|b l Hb Hl IH]; [done|]. cbn [hex_bytes foldr]. rewrite length_app, length_hex2 by done.
  fold (hex_bytes l). rewrite IH. cbn. lia.
Qed.

Lemma hex_bytes_inj l1 l2 : Forall (fun b => b < 256)%N l1 -> Forall (fun b => b < 256)%N l2 ->
  length l1 = length l2 -> hex_bytes l1 = hex_bytes l2 -> l1 = l2.
Proof.
  intros H1. revert l2. induction H1 as [|a l1 Ha H1 IH]; intros [|b l2] H2 Hl He; try done.
  apply Forall_cons in H2 as [Hb H2]. cbn [hex_bytes foldr] in He.
  apply app_inj_len in He as [Hab He]; [|by rewrite !length_hex2].
  f_equal; [by apply hex2_inj|]. apply IH; [done| |done]. by injection Hl.
Qed.

Lemma bytes_of_256 s : Forall (fun b => b < 256)%N (bytes_of s).
Proof. induction s as [|a s IH]; constructor; [apply N_ascii_bounded|done]. Qed.

Lemma bytes_of_inj s t : bytes_of s = bytes_of t -> s = t.
Proof.
  revert t. induction s as [|a s IH]; intros [|b t] He; try done. injection He as Ha He.
  apply (f_equal ascii_of_N) in Ha. rewrite !ascii_N_embedding in Ha. by rewrite Ha, (IH t).
Qed.

Lemma hex_text_inj s t : hex_bytes (bytes_of s) = hex_bytes (bytes_of t) -> s = t.
Proof.
  intros He. apply bytes_of_inj, hex_bytes_inj; [apply bytes_of_256..| |done].
  apply (f_equal String.length) in He. rewrite !length_hex_bytes in He by apply bytes_of_256. lia.
Qed.

Lemma all_hex_app s t : all_hex (s +:+ t) = all_hex s && all_hex t.
Proof. induction s as [|a s IH]; [done|]. rewrite app_cons. cbn. by rewrite IH, andb_assoc. Qed.

Lemma all_hex2 b : (b < 256)%N -> all_hex (hex2 b) = true.
Proof.
  assert (forallb (fun b => all_hex (hex2 b)) bytes_256 = true) as Hall by (vm_compute; reflexivity).
  intros Hb. rewrite List.forallb_forall in Hall. apply Hall, in_bytes_256, Hb.
Qed.

Lemma all_hex_bytes l : Forall (fun b => b < 256)%N l -> all_hex (hex_bytes l) = true.
Proof.
  induction 1 as [|b l Hb Hl IH]; [done|]. cbn [hex_bytes foldr]. fold (hex_bytes l).
  by rewrite all_hex_app, all_hex2, IH.
Qed.

(** No hexadecimal text holds another character. *)
Lemma all_hex_contains c s : hex_val c = None -> all_hex s = true -> contains_char c s = false.
Proof.
  intros Hc. induction s as [|a s IH]; [done|]. cbn. intros [Ha Hs]%andb_true_iff.
  rewrite IH by done. apply bool_decide_eq_true in Ha. rewrite bool_decide_false; [done|].
  intros ->. rewrite Hc in Ha. by destruct Ha.
Qed.
