(* ===== verification/Kv.v ===== *)
(** Kv: the interface of the [oxkv] key-value store, which the queue, the file
    store, the policy adapter, the change feed and the replicas call, and the
    serialization interface ([serde_json]).

    [oxkv] is a dependency, so its operations are the fields of a class
    [KvStore] and what the program relies on is the class [KvLaws]: reads do
    not change the data, a listing is in key order, a transaction reads its own
    writes over the committed data, a commit is atomic.  [ScriptKv] is a small
    store whose calls fail on demand; the examples run the components on it. *)
From S2P Require Import Prelude Effects RustStr.

(** [oxkv::StoreError], with the variant the program distinguishes. *)
Inductive StoreError : Type :=
| StoreFenced (reason : string)
| StoreOther (detail : string).

#[export] Instance StoreError_eq_dec : EqDecision StoreError.
Proof. solve_decision. Defined.

(** A stored value is a byte string. *)
Abbreviation bytes := string.

(** One entry of a listing ([oxkv::KeyValue]). *)
Abbreviation kv_pair := (string * bytes)%type.

(** The operations of a store handle with state [S] and transactions [T]. *)
Class KvStore (S T : Type) := {
  kv_get : string -> act S (result (option bytes) StoreError);
  kv_scan : option nat -> option string -> option string ->
            act S (result (list kv_pair) StoreError);
  kv_set : string -> bytes -> act S (result unit StoreError);
  kv_delete : string -> act S (result unit StoreError);
  kv_begin : act S (result T StoreError);
  tx_get : T -> string -> act S (result (option bytes) StoreError);
  tx_scan : T -> option nat -> option string -> option string ->
            act S (result (list kv_pair) StoreError);
  tx_set : T -> string -> bytes -> act S (result T StoreError);
  tx_delete : T -> string -> act S (result T StoreError);
  tx_commit : T -> act S (result unit StoreError);
  tx_rollback : T -> act S (result unit StoreError);
}.

(** ** Listings in key order *)

Definition key_le (a b : kv_pair) : Prop := String.le a.1 b.1.

#[export] Instance key_le_dec : RelDecision key_le.
Proof. intros a b. unfold key_le. apply _. Defined.

Definition in_range (from to : option string) (k : string) : bool :=
  match from with Some f => bool_decide (String.le f k) | None => true end &&
  match to with Some t => bool_decide (String.le k t) | None => true end.

(** Every entry of [m], ascending. *)
Definition kv_list (m : gmap string bytes) : list kv_pair :=
  merge_sort key_le (map_to_list m).

(** The entries with [from <= key <= to] (both bounds inclusive), ascending,
    at most [lim] of them. *)
Definition kv_range (m : gmap string bytes) (lim : option nat) (from to : option string) :
    list kv_pair :=
  let l := List.filter (fun kv => in_range from to kv.1) (kv_list m) in
  match lim with Some n => take n l | None => l end.

(** ** What the program relies on

    [kv_data] is the committed data, [tx_data] what a transaction reads,
    [kv_up] holds when the store answers (its calls succeed and it stays up). *)

(** A call that leaves the data alone and, on success, returns what [f] allows. *)
Definition kv_reads {S A} (data : S -> gmap string bytes) (up : S -> Prop)
    (m : act S (result A StoreError)) (f : S -> S -> A -> Prop) : Prop :=
  forall s, wp m (fun r s' =>
    data s' = data s /\
    (forall a, r = Ok a -> f s s' a) /\
    (up s -> up s' /\ is_ok r = true)) s.

(** A call that replaces the data by [g] of it, or fails; a failing write may
    have been applied, but never in part. *)
Definition kv_writes {S} (data : S -> gmap string bytes) (up : S -> Prop)
    (m : act S (result unit StoreError)) (g : S -> gmap string bytes) : Prop :=
  forall s, wp m (fun r s' =>
    (r = Ok tt -> data s' = g s) /\
    (data s' = g s \/ data s' = data s) /\
    (up s -> up s' /\ is_ok r = true)) s.

Class KvLaws (S T : Type) `{KvStore S T} := {
  kv_data : S -> gmap string bytes;
  tx_data : T -> S -> gmap string bytes;
  kv_up : S -> Prop;
  kv_get_law k : kv_reads kv_data kv_up (kv_get k) (fun s _ o => o = kv_data s !! k);
  kv_scan_law lim from to :
    kv_reads kv_data kv_up (kv_scan lim from to)
      (fun s _ l => l = kv_range (kv_data s) lim from to);
  kv_set_law k v : kv_writes kv_data kv_up (kv_set k v) (fun s => <[k:=v]> (kv_data s));
  kv_delete_law k : kv_writes kv_data kv_up (kv_delete k) (fun s => delete k (kv_data s));
  kv_begin_law : kv_reads kv_data kv_up kv_begin (fun s s' t => tx_data t s' = kv_data s);
  tx_get_law t k :
    kv_reads kv_data kv_up (tx_get t k)
      (fun s s' o => o = tx_data t s !! k /\ tx_data t s' = tx_data t s);
  tx_scan_law t lim from to :
    kv_reads kv_data kv_up (tx_scan t lim from to)
      (fun s s' l => l = kv_range (tx_data t s) lim from to /\ tx_data t s' = tx_data t s);
  tx_set_law t k v :
    kv_reads kv_data kv_up (tx_set t k v)
      (fun s s' t' => tx_data t' s' = <[k:=v]> (tx_data t s));
  tx_delete_law t k :
    kv_reads kv_data kv_up (tx_delete t k)
      (fun s s' t' => tx_data t' s' = delete k (tx_data t s));
  tx_commit_law t : kv_writes kv_data kv_up (tx_commit t) (fun s => tx_data t s);
  tx_rollback_law t : kv_reads kv_data kv_up (tx_rollback t) (fun _ _ _ => True);
}.

(** ** Serialization ([serde_json::to_vec] and [from_slice])

    The error is the decoder's message. *)
Class Serde (A : Type) := {
  to_vec : A -> result bytes string;
  from_slice : bytes -> result A string;
}.

(** A value that was encoded decodes to itself, and the program's records
    always encode. *)
Class SerdeLaws (A : Type) `{Serde A} := {
  to_vec_ok : forall a, exists b, to_vec a = Ok b;
  from_to : forall a b, to_vec a = Ok b -> from_slice b = Ok a;
}.

(** ** Facts about listings *)

Section listing.
Implicit Types (m : gmap string bytes) (l : list kv_pair).

#[export] Instance key_le_total : Total key_le.
Proof. intros a b. apply (total String.le). Qed.
#[export] Instance key_le_trans : Transitive key_le.
Proof. intros a b c. unfold key_le. apply transitivity. Qed.

Lemma kv_list_perm m : kv_list m ≡ₚ map_to_list m.
Proof. apply merge_sort_Permutation. Qed.

Lemma kv_list_sorted m : StronglySorted key_le (kv_list m).
Proof. apply (StronglySorted_merge_sort _ _). Qed.

Lemma elem_of_kv_list m k v : (k, v) ∈ kv_list m <-> m !! k = Some v.
Proof. by rewrite kv_list_perm, elem_of_map_to_list. Qed.

Lemma kv_list_NoDup m : NoDup (kv_list m).*1.
Proof. rewrite kv_list_perm. apply NoDup_fst_map_to_list. Qed.

Lemma elem_of_kv_range m from to k v :
  (k, v) ∈ kv_range m None from to <-> in_range from to k = true /\ m !! k = Some v.
Proof.
  unfold kv_range. rewrite list_elem_of_In, List.filter_In, <- list_elem_of_In.
  rewrite elem_of_kv_list. naive_solver.
Qed.

Lemma kv_range_full m : kv_range m None None None = kv_list m.
Proof.
  unfold kv_range. cbn. induction (kv_list m) as [|x l IH]; [done|].
  cbn. by rewrite IH.
Qed.
End listing.

(** ** Calls on a store that answers *)

Section up.
Context {S T : Type} `{!KvStore S T} `{!KvLaws S T}.
Implicit Types (s : S) (t : T).

Lemma wp_reads_up {A} (m : act S (result A StoreError)) (f : S -> S -> A -> Prop) Q s :
  kv_reads kv_data kv_up m f -> kv_up s ->
  (forall a s', kv_up s' -> kv_data s' = kv_data s -> f s s' a -> Q (Ok a) s') ->
  wp m Q s.
Proof.
  intros Hm Hup HQ. eapply wp_mono; [apply Hm|]. intros r s' (Hd & Hf & Hu).
  destruct (Hu Hup) as [Hup' Hok]. destruct r as [a|e]; [|done]. by apply HQ; [| |apply Hf].
Qed.

Lemma wp_writes_up (m : act S (result unit StoreError)) g Q s :
  kv_writes kv_data kv_up m g -> kv_up s ->
  (forall s', kv_up s' -> kv_data s' = g s -> Q (Ok tt) s') -> wp m Q s.
Proof.
  intros Hm Hup HQ. eapply wp_mono; [apply Hm|]. intros r s' (Hd & _ & Hu).
  destruct (Hu Hup) as [Hup' Hok]. destruct r as [[]|e]; [|done]. apply HQ; auto.
Qed.

Lemma wp_get_up k Q s : kv_up s ->
  (forall s', kv_up s' -> kv_data s' = kv_data s -> Q (Ok (kv_data s !! k)) s') ->
  wp (kv_get k) Q s.
Proof. intros Hup HQ. eapply wp_reads_up; [apply kv_get_law|done|]. intros a s' ?? ->. auto. Qed.

Lemma wp_scan_up lim from to Q s : kv_up s ->
  (forall s', kv_up s' -> kv_data s' = kv_data s -> Q (Ok (kv_range (kv_data s) lim from to)) s') ->
  wp (kv_scan lim from to) Q s.
Proof. intros Hup HQ. eapply wp_reads_up; [apply kv_scan_law|done|]. intros a s' ?? ->. auto. Qed.

Lemma wp_set_up k v Q s : kv_up s ->
  (forall s', kv_up s' -> kv_data s' = <[k := v]> (kv_data s) -> Q (Ok tt) s') ->
  wp (kv_set k v) Q s.
Proof. intros Hup HQ. eapply wp_writes_up; [apply kv_set_law|done|]. auto. Qed.

Lemma wp_delete_up k Q s : kv_up s ->
  (forall s', kv_up s' -> kv_data s' = delete k (kv_data s) -> Q (Ok tt) s') ->
  wp (kv_delete k) Q s.
Proof. intros Hup HQ. eapply wp_writes_up; [apply kv_delete_law|done|]. auto. Qed.

Lemma wp_begin_up Q s : kv_up s ->
  (forall t s', kv_up s' -> kv_data s' = kv_data s -> tx_data t s' = kv_data s -> Q (Ok t) s') ->
  wp kv_begin Q s.
Proof. intros Hup HQ. eapply wp_reads_up; [apply kv_begin_law|done|]. auto. Qed.

Lemma wp_tx_get_up t k Q s : kv_up s ->
  (forall s', kv_up s' -> kv_data s' = kv_data s -> tx_data t s' = tx_data t s ->
     Q (Ok (tx_data t s !! k)) s') ->
  wp (tx_get t k) Q s.
Proof. intros Hup HQ. eapply wp_reads_up; [apply tx_get_law|done|]. intros a s' ?? [-> ?]. auto. Qed.

Lemma wp_tx_scan_up t lim from to Q s : kv_up s ->
  (forall s', kv_up s' -> kv_data s' = kv_data s -> tx_data t s' = tx_data t s ->
     Q (Ok (kv_range (tx_data t s) lim from to)) s') ->
  wp (tx_scan t lim from to) Q s.
Proof. intros Hup HQ. eapply wp_reads_up; [apply tx_scan_law|done|]. intros a s' ?? [-> ?]. auto. Qed.

Lemma wp_tx_set_up t k v Q s : kv_up s ->
  (forall t' s', kv_up s' -> kv_data s' = kv_data s -> tx_data t' s' = <[k := v]> (tx_data t s) ->
     Q (Ok t') s') ->
  wp (tx_set t k v) Q s.
Proof. intros Hup HQ. eapply wp_reads_up; [apply tx_set_law|done|]. auto. Qed.

Lemma wp_tx_delete_up t k Q s : kv_up s ->
  (forall t' s', kv_up s' -> kv_data s' = kv_data s -> tx_data t' s' = delete k (tx_data t s) ->
     Q (Ok t') s') ->
  wp (tx_delete t k) Q s.
Proof. intros Hup HQ. eapply wp_reads_up; [apply tx_delete_law|done|]. auto. Qed.

Lemma wp_tx_commit_up t Q s : kv_up s ->
  (forall s', kv_up s' -> kv_data s' = tx_data t s -> Q (Ok tt) s') ->
  wp (tx_commit t) Q s.
Proof. intros Hup HQ. eapply wp_writes_up; [apply tx_commit_law|done|]. auto. Qed.

Lemma wp_tx_rollback_up t Q s : kv_up s ->
  (forall s', kv_up s' -> kv_data s' = kv_data s -> Q (Ok tt) s') ->
  wp (tx_rollback t) Q s.
Proof. intros Hup HQ. eapply wp_reads_up; [apply tx_rollback_law|done|]. intros [] *. auto. Qed.
End up.

(** Runs one call of a store that answers. *)
Ltac kv_step :=
  lazymatch goal with
  | |- wp (bindR _ _) _ _ => apply wp_bindR
  | |- wp (map_errM _ _) _ _ => apply wp_map_errM
  | |- wp (_ ≫= _) _ _ => apply wp_bind
  | |- wp (mret _) _ _ => apply wp_ret
  | |- wp (kv_get _) _ _ => apply wp_get_up; [done|]; intros ???
  | |- wp (kv_scan _ _ _) _ _ => apply wp_scan_up; [done|]; intros ???
  | |- wp (kv_set _ _) _ _ => apply wp_set_up; [done|]; intros ???
  | |- wp (kv_delete _) _ _ => apply wp_delete_up; [done|]; intros ???
  | |- wp kv_begin _ _ => apply wp_begin_up; [done|]; intros ?????
  | |- wp (tx_get _ _) _ _ => apply wp_tx_get_up; [done|]; intros ????
  | |- wp (tx_scan _ _ _ _) _ _ => apply wp_tx_scan_up; [done|]; intros ????
  | |- wp (tx_set _ _ _) _ _ => apply wp_tx_set_up; [done|]; intros ?????
  | |- wp (tx_delete _ _) _ _ => apply wp_tx_delete_up; [done|]; intros ?????
  | |- wp (tx_commit _) _ _ => apply wp_tx_commit_up; [done|]; intros ???
  | |- wp (tx_rollback _) _ _ => apply wp_tx_rollback_up; [done|]; intros ???
  end.

(** Expresses the data and the transactions of every later state by those of the
    first. *)
Ltac kv_norm :=
  repeat match goal with
  | H1 : kv_data ?a = _, H2 : context [kv_data ?a] |- _ => rewrite H1 in H2
  | H1 : tx_data ?t ?a = _, H2 : context [tx_data ?t ?a] |- _ => rewrite H1 in H2
  | H1 : kv_data ?a = _ |- context [kv_data ?a] => rewrite H1
  | H1 : tx_data ?t ?a = _ |- context [tx_data ?t ?a] => rewrite H1
  end.

Ltac kv_steps := repeat (kv_step; cbn [map_err]; kv_norm).

(** ** A store whose calls fail on demand

    The script lists, for the coming calls, the error each one fails with; a
    call past the end of the script succeeds. *)
Module ScriptKv.

Record store := Store {
  data : gmap string bytes;
  script : list (option StoreError);
}.

Definition tx := gmap string bytes.

(** Takes the next entry of the script and runs [f] if it is no failure. *)
Definition call {A} (f : gmap string bytes -> A * gmap string bytes) :
    act store (result A StoreError) := fun s =>
  match script s with
  | Some e :: rest => (Err e, Store (data s) rest)
  | None :: rest => let '(a, d) := f (data s) in (Ok a, Store d rest)
  | [] => let '(a, d) := f (data s) in (Ok a, Store d [])
  end.

#[export] Instance kv : KvStore store tx := {
  kv_get k := call (fun d => (d !! k, d));
  kv_scan lim from to := call (fun d => (kv_range d lim from to, d));
  kv_set k v := call (fun d => (tt, <[k:=v]> d));
  kv_delete k := call (fun d => (tt, delete k d));
  kv_begin := call (fun d => (d, d));
  tx_get t k := call (fun d => (t !! k, d));
  tx_scan t lim from to := call (fun d => (kv_range t lim from to, d));
  tx_set t k v := call (fun d => (<[k:=v]> t, d));
  tx_delete t k := call (fun d => (delete k t, d));
  tx_commit t := call (fun _ => (tt, t));
  tx_rollback t := call (fun d => (tt, d));
}.

(** The store answers when no failure is scripted. *)
Definition up (s : store) : Prop := script s = [].

Lemma call_reads {A} (f : gmap string bytes -> A * gmap string bytes)
    (P : store -> store -> A -> Prop) :
  (forall d, (f d).2 = d) ->
  (forall s s', data s' = data s -> P s s' (f (data s)).1) ->
  kv_reads data up (call f) P.
Proof.
  intros Hf HP s. unfold wp, call, up.
  destruct (script s) as [|[e|] rest] eqn:E; try done.
  all: destruct (f (data s)) as [a d] eqn:Efd;
    pose proof (Hf (data s)) as Hd; rewrite Efd in Hd; cbn in Hd; subst d; cbn.
  all: split_and!; [done| |naive_solver].
  all: intros a' [= <-]; replace a with (f (data s)).1 by (by rewrite Efd); by apply HP.
Qed.

Lemma call_writes (f : gmap string bytes -> unit * gmap string bytes)
    (g : store -> gmap string bytes) :
  (forall s, (f (data s)).2 = g s) -> kv_writes data up (call f) g.
Proof.
  intros Hf s. unfold wp, call, up. specialize (Hf s).
  destruct (script s) as [|[e|] rest]; cbn; [|naive_solver|].
  all: destruct (f (data s)) as [[] d]; cbn in *; naive_solver.
Qed.

#[export] Program Instance laws : KvLaws store tx := {|
  kv_data := data;
  tx_data t _ := t;
  kv_up := up;
|}.
Solve Obligations with
  (intros; first [apply call_writes | apply call_reads]; cbn; naive_solver).
End ScriptKv.

(** ** A serializer for every countable type

    It writes the binary code of the value; the examples use it where the
    program uses JSON. *)
Module CountableSerde.

Fixpoint show_pos (p : positive) : string :=
  match p with
  | xH => "1"
  | xO p => String "0" (show_pos p)
  | xI p => String "1" (show_pos p)
  end.

Fixpoint read_pos (s : string) : option positive :=
  match s with
  | "1" => Some xH
  | String "0" s => xO <$> read_pos s
  | String "1" s => xI <$> read_pos s
  | _ => None
  end.

Lemma read_show p : read_pos (show_pos p) = Some p.
Proof.
  induction p as [p IH|p IH|]; [| |done].
  - cbn. rewrite IH. by destruct p.
  - cbn. by rewrite IH.
Qed.

Definition serde (A : Type) `{Countable A} : Serde A := {|
  to_vec a := Ok (show_pos (encode a));
  from_slice b := match read_pos b ≫= decode with
                  | Some a => Ok a
                  | None => Err "expected value"
                  end;
|}.

Lemma serde_laws (A : Type) `{Countable A} : @SerdeLaws A (serde A).
Proof.
  split; cbn.
  - eauto.
  - intros a b [= <-]. rewrite read_show. cbn. by rewrite decode_encode.
Qed.
End CountableSerde.
