(* ===== verification/ObjStore.v ===== *)
(** ObjStore: the interface of the [object_store] crate, which the writer lease
    and the replica routes use directly.

    As for [Kv], the crate is a parameter: [ObjectStore] has its operations and
    [ObjectStoreLaws] the documented behaviour the program relies on, namely
    that [PutMode::Create] and [PutMode::Update] write only when their
    precondition holds and that a version stands for one content. *)
From S2P Require Import Prelude Effects.

(** [object_store::Error], with the variants the program distinguishes. *)
Inductive ObjError : Type :=
| ObjNotFound
| ObjPrecondition
| ObjAlreadyExists
| ObjOther (detail : string).

#[export] Instance ObjError_eq_dec : EqDecision ObjError.
Proof. solve_decision. Defined.

(** [object_store::UpdateVersion] *)
Record UpdateVersion := {
  e_tag : option string;
  version : option string;
}.

#[export] Instance UpdateVersion_eq_dec : EqDecision UpdateVersion.
Proof. solve_decision. Defined.

#[export] Instance UpdateVersion_countable : Countable UpdateVersion.
Proof.
  refine (inj_countable' (fun v => (e_tag v, version v))
            (fun '(e, v) => {| e_tag := e; version := v |}) _).
  by intros [].
Defined.

(** [object_store::PutMode] *)
Inductive PutMode : Type :=
| PutCreate
| PutOverwrite
| PutUpdate (v : UpdateVersion).

(** The operations over a store state [S]; [G] is the type of [GetResult],
    whose body is read by a second call. *)
Class ObjectStore (S G : Type) := {
  (** [ObjectPath::from] *)
  os_path : string -> string;
  os_get : string -> act S (result G ObjError);
  os_meta : G -> UpdateVersion;
  os_bytes : G -> act S (result string ObjError);
  os_put : string -> string -> PutMode -> act S (result unit ObjError);
  os_delete : string -> act S (result unit ObjError);
}.

(** An object: its bytes and the version of the write that stored them. *)
Abbreviation object := (string * UpdateVersion)%type.

Definition put_allowed (m : PutMode) (cur : option object) : Prop :=
  match m with
  | PutCreate => cur = None
  | PutOverwrite => True
  | PutUpdate v => exists b, cur = Some (b, v)
  end.

(** [os_hist] is a ghost: the content that every version ever given stood for.
    A version is either new or was given to the same bytes before (an ETag may
    be a digest), so it never stands for two contents. *)
Class ObjectStoreLaws (S G : Type) `{ObjectStore S G} := {
  os_data : S -> gmap string object;
  os_hist : S -> gmap UpdateVersion string;
  os_content : G -> string;
  os_inv : S -> Prop;
  (** the store answers: reads and deletes succeed, and a put fails only when
      refused *)
  os_up : S -> Prop;
  os_inv_law s p b v : os_inv s -> os_data s !! p = Some (b, v) -> os_hist s !! v = Some b;
  os_get_law p s : os_inv s -> wp (os_get p) (fun r s' =>
    os_inv s' /\ os_data s' = os_data s /\ os_hist s ⊆ os_hist s' /\
    match r return Prop with
    | Ok g => os_data s !! p = Some (os_content g, os_meta g)
    | Err ObjNotFound => os_data s !! p = None
    | Err _ => ~ os_up s
    end /\
    (os_up s -> os_up s')) s;
  os_bytes_law g s : os_inv s -> wp (os_bytes g) (fun r s' =>
    os_inv s' /\ os_data s' = os_data s /\ os_hist s ⊆ os_hist s' /\
    (forall b, r = Ok b -> b = os_content g) /\
    (os_up s -> os_up s' /\ is_ok r = true)) s;
  (** A put that fails may still have been applied, but only when it was allowed. *)
  os_put_law p b m s : os_inv s -> wp (os_put p b m) (fun r s' =>
    os_inv s' /\ os_hist s ⊆ os_hist s' /\
    ((r <> Ok tt /\ os_data s' = os_data s) \/
     (put_allowed m (os_data s !! p) /\
      exists v, os_data s' = <[p := (b, v)]> (os_data s))) /\
    (os_up s -> os_up s' /\
      (is_ok r = true \/ (~ put_allowed m (os_data s !! p) /\ (m <> PutCreate -> r = Err ObjPrecondition))))) s;
  os_delete_law p s : os_inv s -> wp (os_delete p) (fun r s' =>
    os_inv s' /\ os_hist s ⊆ os_hist s' /\
    (os_data s' = delete p (os_data s) \/ (r <> Ok tt /\ os_data s' = os_data s)) /\
    (os_up s -> os_up s' /\ is_ok r = true)) s;
}.

(** ** A store in memory, with scripted failures *)
Module MemStore.

Record store := Store {
  objects : gmap string object;
  given : list string;
  script : list (option ObjError);
}.

(** The version of the [n]-th write. *)
Definition version_of (n : nat) : UpdateVersion :=
  {| e_tag := Some (pretty.pretty (N.of_nat n)); version := None |}.

Definition fails (s : store) : option ObjError * store :=
  match script s with
  | e :: rest => (e, Store (objects s) (given s) rest)
  | [] => (None, s)
  end.

Definition refuses (m : PutMode) (cur : option object) : option ObjError :=
  match m, cur with
  | PutCreate, Some _ => Some ObjAlreadyExists
  | PutUpdate v, Some (_, v') => if decide (v = v') then None else Some ObjPrecondition
  | PutUpdate _, None => Some ObjPrecondition
  | _, _ => None
  end.

Definition put (p b : string) (s : store) : store :=
  Store (<[p := (b, version_of (length (given s)))]> (objects s)) (given s ++ [b]) (script s).

#[export] Instance os : ObjectStore store object := {
  os_path p := p;
  os_get p := fun s =>
    let '(e, s) := fails s in
    match e with
    | Some e => (match e with ObjNotFound => Err (ObjOther "io") | _ => Err e end, s)
    | None => (ok_or (objects s !! p) ObjNotFound, s)
    end;
  os_meta g := g.2;
  os_bytes g := fun s =>
    let '(e, s) := fails s in
    (match e with Some e => Err e | None => Ok g.1 end, s);
  os_put p b m := fun s =>
    let '(e, s) := fails s in
    match e with
    | Some e => (Err e, s)
    | None =>
        match refuses m (objects s !! p) with
        | Some e => (Err e, s)
        | None => (Ok tt, put p b s)
        end
    end;
  os_delete p := fun s =>
    let '(e, s) := fails s in
    match e with
    | Some e => (Err e, s)
    | None => (Ok tt, Store (delete p (objects s)) (given s) (script s))
    end;
}.

Definition hist (s : store) : gmap UpdateVersion string :=
  list_to_map (imap (fun n b => (version_of n, b)) (given s)).
#[global] Arguments hist : simpl never.

Definition inv (s : store) : Prop :=
  forall p b v, objects s !! p = Some (b, v) -> hist s !! v = Some b.

Lemma version_of_inj m n : version_of m = version_of n -> m = n.
Proof.
  unfold version_of. intros [= H]. apply (inj pretty.pretty) in H. lia.
Qed.

Lemma lookup_hist s v b :
  hist s !! v = Some b <-> exists n, given s !! n = Some b /\ v = version_of n.
Proof.
  unfold hist. rewrite <- elem_of_list_to_map.
  - rewrite list_elem_of_lookup. setoid_rewrite list_lookup_imap_Some. naive_solver.
  - apply NoDup_alt. intros i j x. rewrite !list_lookup_fmap, !list_lookup_imap.
    by destruct (given s !! i), (given s !! j); cbn; intros H1 H2; simplify_eq/=.
Qed.

Lemma hist_put s p b : hist s ⊆ hist (put p b s).
Proof.
  apply map_subseteq_spec. intros v c. rewrite !lookup_hist.
  intros (n & Hn & ->). exists n. split; [|done]. by apply lookup_app_l_Some.
Qed.

Lemma hist_eq s s' : given s' = given s -> hist s' = hist s.
Proof. unfold hist. by intros ->. Qed.

Lemma put_inv s p b : inv s -> inv (put p b s).
Proof.
  intros Hi p' c v. cbn. rewrite lookup_insert. case_decide.
  - intros [= <- <-]. apply lookup_hist. exists (length (given s)). split; [|done].
    cbn. by rewrite lookup_app_r, Nat.sub_diag.
  - intros Ho. eapply lookup_weaken; [by eapply Hi|apply hist_put].
Qed.

Lemma refuses_spec m cur : refuses m cur = None -> put_allowed m cur.
Proof.
  destruct m; destruct cur as [[b v']|]; cbn; try done.
  case_decide; [|done]. subst. eauto.
Qed.

Lemma refuses_why m cur e :
  refuses m cur = Some e -> ~ put_allowed m cur /\ (m <> PutCreate -> e = ObjPrecondition).
Proof.
  destruct m as [| |v]; destruct cur as [[b v']|]; cbn; intros H; simplify_eq; try done.
  - case_decide; simplify_eq. split; [|done]. intros [b' [=]]. congruence.
  - split; [|done]. by intros [].
Qed.

(** The store answers when no failure is scripted. *)
Definition up (s : store) : Prop := script s = [].

Lemma put_law s p b m : inv s ->
  wp (fun s => match refuses m (objects s !! p) with
               | Some e => (Err e, s)
               | None => (Ok tt, put p b s)
               end)
    (fun r s' => inv s' /\ hist s ⊆ hist s' /\
      ((r <> Ok tt /\ objects s' = objects s) \/
       (put_allowed m (objects s !! p) /\
        exists v, objects s' = <[p := (b, v)]> (objects s))) /\
      (up s -> up s' /\ (is_ok r = true \/
        (~ put_allowed m (objects s !! p) /\ (m <> PutCreate -> r = Err ObjPrecondition))))) s.
Proof.
  intros Hi. unfold wp. destruct (refuses m (objects s !! p)) as [e|] eqn:Ha.
  - apply refuses_why in Ha as [??]. split_and!; [done..|by left|]. naive_solver.
  - split_and!; [by apply put_inv|apply hist_put|right|].
    + split; [by apply refuses_spec|by eexists].
    + intros ?. split; [done|by left].
Qed.

Lemma up_scripted sc s : script s = sc -> sc <> [] -> ~ up s.
Proof. unfold up. by intros <-. Qed.

#[export] Program Instance laws : ObjectStoreLaws store object := {|
  os_data := objects;
  os_hist := hist;
  os_content g := g.1;
  os_inv := inv;
  os_up := up;
|}.
Next Obligation. intros s p b v Hi. apply Hi. Qed.
Next Obligation.
  intros p s Hi. unfold wp. cbn. unfold fails.
  destruct (script s) as [|[e|] rest] eqn:E; cbn.
  - split_and!; [done..| |done]. by destruct (objects s !! p) as [[]|].
  - assert (~ up s) by (eapply up_scripted; [exact E|done]). by destruct e.
  - assert (~ up s) by (eapply up_scripted; [exact E|done]).
    split_and!; try done. by destruct (objects s !! p) as [[]|].
Qed.
Next Obligation.
  intros g s Hi. unfold wp. cbn. unfold fails.
  destruct (script s) as [|[e|] rest] eqn:E; cbn.
  1: split_and!; [done..|by intros b [= <-]|done].
  all: assert (Hn : ~ up s) by (eapply up_scripted; [exact E|done]).
  - by split_and!.
  - split_and!; [done..|by intros b [= <-]|done].
Qed.
Next Obligation.
  intros p b m s Hi. unfold wp. cbn. unfold fails.
  destruct (script s) as [|[e|] rest] eqn:E; cbn.
  - by apply put_law.
  - assert (~ up s) by (eapply up_scripted; [exact E|done]). split_and!; [done..|by left|done].
  - pose proof (put_law (Store (objects s) (given s) rest) p b m Hi) as Hl.
    unfold wp in Hl. cbn in Hl.
    assert (Hn : ~ up s) by (eapply up_scripted; [exact E|done]).
    destruct (refuses m (objects s !! p)); destruct Hl as (?&?&?&_); by split_and!.
Qed.
Next Obligation.
  intros p s Hi. unfold wp. cbn. unfold fails.
  assert (Hd : forall sc, inv (Store (delete p (objects s)) (given s) sc)).
  { intros sc p' b v. cbn. rewrite lookup_delete. case_decide; [done|]. apply Hi. }
  destruct (script s) as [|[e|] rest] eqn:E; cbn.
  1: split_and!; [done..|by left|done].
  all: assert (Hn : ~ up s) by (eapply up_scripted; [exact E|done]).
  - split_and!; [done..|by right|done].
  - split_and!; [done..|by left|done].
Qed.
End MemStore.
