(* ===== verification/Lease.v ===== *)
(** Lease: single-writer enforcement ([src/src/lease.rs]), and the function of
    [src/src/main.rs] that claims the lease at start-up.

    Every store call and every reading of the clock is an atomic action of its
    own, so the tasks of this file interleave at the source's await points. *)
From S2P Require Import Prelude.
From S2P Require Import Effects.
From S2P Require Import RustStr.
From S2P Require Import Kv.
From S2P Require Import ObjStore.

(** ** Data *)

Definition LEASE_KEY : string := "_rust-api-writer-lease.json".

(** Where the lease of a prefix lies. *)
Definition lease_key (prefix : string) : string :=
  if bool_decide (prefix = "") then LEASE_KEY else prefix +:+ "/" +:+ LEASE_KEY.
Definition DEFAULT_LEASE_TTL_SECS : Z := 60.

Record LeaseRecord := {
  instance : string;
  claimed_at : Z;
  renewed_at : Z;
  ttl_secs : Z;
  pid : Z;
}.

#[export] Instance LeaseRecord_eq_dec : EqDecision LeaseRecord.
Proof. solve_decision. Defined.

#[export] Instance LeaseRecord_countable : Countable LeaseRecord.
Proof.
  refine (inj_countable'
    (fun r => (instance r, claimed_at r, renewed_at r, ttl_secs r, pid r))
    (fun '(a, b, c, d, e) =>
       {| instance := a; claimed_at := b; renewed_at := c; ttl_secs := d; pid := e |}) _).
  by intros [].
Defined.

Definition is_live_at (r : LeaseRecord) (now : Z) : bool :=
  match i64_checked_sub now (renewed_at r) with
  | Some age =>
      match u64_of_i64 age with
      | Some age => bool_decide (age < ttl_secs r)%Z
      | None => false
      end
  | None => true
  end.

Inductive LeaseError : Type :=
| LeaseHeld (prefix instance : string) (pid age ttl wait : Z)
| LeaseCorrupt (prefix detail : string)
| LeaseIo (prefix : string) (source : ObjError).

Definition held (prefix : string) (r : LeaseRecord) (age : Z) : LeaseError :=
  let wait := default 0%Z (u64_of_i64 age ≫= u64_checked_sub (ttl_secs r)) in
  LeaseHeld prefix (instance r) (pid r) age (ttl_secs r) (default i64_max (i64_of_u64 wait)).

(** What a process reads of its environment: the host names, a fresh UUID and
    its process id. *)
Record Process := {
  HOSTNAME : option string;
  COMPUTERNAME : option string;
  uuid_v7 : string;
  process_id : Z;
}.

Definition instance_id (p : Process) : string :=
  let host := match HOSTNAME p with
              | Some h => h
              | None => default "unknown-host" (COMPUTERNAME p)
              end in
  host +:+ ":" +:+ uuid_v7 p.

(** ** Operations *)

Record world (S : Type) := World { store : S; clk : clock }.
Arguments World {S} store clk.
Arguments store {S} w.
Arguments clk {S} w.

Section lease.
Context {S G : Type} `{!ObjectStore S G} `{!Serde LeaseRecord}.

#[local] Abbreviation task := (prog (world S)).

#[export] Instance store_lens : Lens S (world S) :=
  {| view := store; upd s w := World s (clk w) |}.
#[export] Instance clk_lens : Lens clock (world S) :=
  {| view := clk; upd c w := World (store w) c |}.

(** A store call, and [chrono::Utc::now().timestamp()]. *)
Definition call {A} (m : act S A) : task A := atomically (zoom m).
Definition now_secs : task Z := atomically (zoom tick).

Definition lease_path (prefix : string) : string := os_path (lease_key prefix).

Record Fetched := { f_record : LeaseRecord; f_version : UpdateVersion }.

Definition fetch (path prefix : string) : task (result (option Fetched) LeaseError) :=
  out ← call (os_get path);
  match out with
  | Err ObjNotFound => mret (Ok None)
  | Err source => mret (Err (LeaseIo prefix source))
  | Ok out =>
      let version := os_meta out in
      body ← call (os_bytes out);
      match body with
      | Err source => mret (Err (LeaseIo prefix source))
      | Ok body =>
          match from_slice body with
          | Ok r => mret (Ok (Some {| f_record := r; f_version := version |}))
          | Err e => mret (Err (LeaseCorrupt prefix e))
          end
      end
  end.

Inductive WriteMode : Type :=
| Create
| Overwrite
| Unchanged (v : UpdateVersion).

Definition put_mode (m : WriteMode) : PutMode :=
  match m with
  | Create => PutCreate
  | Overwrite => PutOverwrite
  | Unchanged v => PutUpdate v
  end.

Definition write_record (path : string) (r : LeaseRecord) (mode : WriteMode) :
    task (result unit ObjError) :=
  match to_vec r with
  | Err e => mret (Err (ObjOther e))
  | Ok body => call (os_put path body (put_mode mode))
  end.

Record WriterLease := {
  path : string;
  record : LeaseRecord;
  lost : bool;
}.

Definition new_lease (p : string) (r : LeaseRecord) : WriterLease :=
  {| path := p; record := r; lost := false |}.

(** The record a process claims with at [now]. *)
Definition claim_record (me : Process) (ttl now : Z) : LeaseRecord :=
  {| instance := instance_id me; claimed_at := now; renewed_at := now;
     ttl_secs := ttl; pid := process_id me |}.

(** The take-over: the write is conditional on the record judged stale, and a
    loser reads who won. *)
Definition take_over (path prefix : string) (r : LeaseRecord) (v : UpdateVersion) :
    task (result WriterLease LeaseError) :=
  w ← write_record path r (Unchanged v);
  match w with
  | Err ObjPrecondition =>
      won <-? fetch path prefix;
      winner <-? mret (ok_or won (LeaseIo prefix ObjNotFound));
      mret (Err (held prefix (f_record winner) 0))
  | Err source => mret (Err (LeaseIo prefix source))
  | Ok _ => mret (Ok (new_lease path r))
  end.

Definition acquire (me : Process) (db_prefix : string) (ttl : Z) :
    task (result WriterLease LeaseError) :=
  let prefix := trim_matches "/" db_prefix in
  let path := lease_path prefix in
  now ← now_secs;
  let r := claim_record me ttl now in
  w ← write_record path r Create;
  if is_ok w then mret (Ok (new_lease path r)) else
  fetched <-? fetch path prefix;
  cur <-? mret (ok_or fetched (LeaseIo prefix ObjNotFound));
  let age := i64_sub now (renewed_at (f_record cur)) in
  if is_live_at (f_record cur) now then mret (Err (held prefix (f_record cur) age))
  else take_over path prefix r (f_version cur).

Definition set_lost (l : WriterLease) : WriterLease :=
  {| path := path l; record := record l; lost := true |}.

Definition renewed (l : WriterLease) (now : Z) : WriterLease :=
  {| path := path l; lost := lost l;
     record := {| instance := instance (record l); claimed_at := claimed_at (record l);
                  renewed_at := now; ttl_secs := ttl_secs (record l);
                  pid := pid (record l) |} |}.

(** [renew] and [release] return the lease they changed. *)
Definition renew (l : WriterLease) : task (bool * WriterLease) :=
  if lost l then mret (false, l) else
  cur ← fetch (path l) "";
  let confirmed :=
    match cur with
    | Ok (Some c) => bool_decide (instance (f_record c) = instance (record l))
    | Ok None => true
    | Err _ => false
    end in
  if confirmed then
    now ← now_secs;
    let l := renewed l now in
    w ← write_record (path l) (record l) Overwrite;
    if is_ok w then mret (true, l) else mret (false, set_lost l)
  else mret (false, set_lost l).

Definition release (l : WriterLease) : task unit :=
  cur ← fetch (path l) "";
  match cur with
  | Ok (Some c) =>
      if bool_decide (instance (f_record c) <> instance (record l)) then mret tt
      else (_ ← call (os_delete (path l)); mret tt)
  | Ok None => _ ← call (os_delete (path l)); mret tt
  | Err _ => mret tt
  end.

(** What wakes the renewal task: its ticker, or the shutdown channel (a
    message, or the sender dropped). *)
Inductive renewer_event : Type := RenewTick | Shutdown.

(** The task of [spawn_renewer] on the events that wake it; without a
    [Shutdown] it is left waiting with its lease. *)
Fixpoint renewer (evs : list renewer_event) (l : WriterLease) : task WriterLease :=
  match evs with
  | [] => mret l
  | RenewTick :: evs => '(_, l) ← renew l; renewer evs l
  | Shutdown :: _ => _ ← release l; mret l
  end.

(** [claim_writer_lease] of [main.rs]: what it claims, and the interval of the
    renewals in seconds; [None] when enforcement is off. *)
Definition claim_writer_lease (memory_backend : bool) (me : Process) (db_prefix : string)
    (ttl : Z) : task (result (option (WriterLease * Z)) LeaseError) :=
  if bool_decide (ttl = 0%Z) || memory_backend then mret (Ok None) else
  lease <-? acquire me db_prefix ttl;
  mret (Ok (Some (lease, Z.max (ttl / 3) 1))).
End lease.

Arguments Fetched : clear implicits.
Arguments WriterLease : clear implicits.

(** ** The liveness test *)

(** A record is live exactly while its age is between 0 and its TTL (an age
    that does not fit an [i64] counts as live). *)
Lemma is_live_at_spec r now :
  is_live_at r now = true <->
  (0 <= now - renewed_at r < ttl_secs r)%Z \/ ~ in_i64 (now - renewed_at r).
Proof.
  unfold is_live_at, i64_checked_sub, u64_of_i64.
  repeat case_decide; rewrite ?bool_decide_eq_true; naive_solver lia.
Qed.

Lemma claim_record_live me ttl now :
  (0 < ttl)%Z -> is_live_at (claim_record me ttl now) now = true.
Proof. intros H. apply is_live_at_spec. cbn. lia. Qed.

Section lease_proofs.
Context {S G : Type} `{!ObjectStore S G} `{!ObjectStoreLaws S G}.
Context `{!Serde LeaseRecord} `{!SerdeLaws LeaseRecord}.
Implicit Types (w : world S) (s : S).
#[local] Abbreviation task := (prog (world S)).

Definition data w : gmap string object := os_data (store w).
Definition hist w : gmap UpdateVersion string := os_hist (store w).

(** *** Interleaved claims *)
Section claims.
Variables (p : string) (now : Z).

(** A live record at the lease's path at the time [now]. *)
Definition sealed w : Prop :=
  exists b v r, data w !! p = Some (b, v) /\ from_slice b = Ok r /\ is_live_at r now = true.

Definition good w : Prop :=
  os_inv (store w) /\ forall n, reading (clk w) n = now.

(** What a step of any claimant keeps: a live record stays as it is. *)
Definition R w w' : Prop :=
  good w -> good w' /\ hist w ⊆ hist w' /\ (sealed w -> data w' !! p = data w !! p).

#[export] Instance R_preorder : PreOrder R.
Proof.
  split.
  - intros w Hw. by split_and!.
  - intros w1 w2 w3 H1 H2 Hw. destruct (H1 Hw) as (Hw2 & Hh & Hs).
    destruct (H2 Hw2) as (Hw3 & Hh' & Hs'). split_and!; [done|by etrans|].
    intros Hsl. rewrite <- (Hs Hsl). apply Hs'.
    destruct Hsl as (b & v & r & Hd & Hl). exists b, v, r. rewrite Hs; [done|].
    by exists b, v, r.
Qed.

Lemma R_good w w' : R w w' -> good w -> good w'.
Proof. intros HR Hw. by destruct (HR Hw). Qed.

(** A version stands for one content from when it is first seen. *)
Definition known (v : UpdateVersion) (r : LeaseRecord) w : Prop :=
  exists b, hist w !! v = Some b /\ from_slice b = Ok r.

Lemma known_stable v r w w' : good w -> R w w' -> known v r w -> known v r w'.
Proof.
  intros Hw HR (b & Hb & Hr). destruct (HR Hw) as (_ & Hh & _).
  exists b. split; [by eapply lookup_weaken|done].
Qed.

Lemma wp_call {A} (m : act S A) (Q : A -> world S -> Prop) w :
  wp m (fun a s' => Q a (World s' (clk w))) (store w) -> wp (zoom m) Q w.
Proof. apply (wp_zoom (H := store_lens)). Qed.

Lemma rg_call {A} (m : act S A) (Q : A -> world S -> Prop) w : good w ->
  (forall w0, good w0 -> R w w0 -> wp m (fun a s' =>
     let w1 := World s' (clk w0) in
     os_inv s' /\ hist w0 ⊆ hist w1 /\ (sealed w0 -> data w1 !! p = data w0 !! p) /\
     forall w2, good w2 -> R w1 w2 -> Q a w2) (store w0)) ->
  rg R Q (call m) w.
Proof.
  intros Hw Hm. apply (rg_atomically R). intros w0 HR. apply wp_call.
  apply (R_good _ _ HR) in Hw as Hw0. eapply wp_mono; [by apply Hm|].
  cbn. intros a s' (Hi & Hh & Hs & HQ).
  assert (good (World s' (clk w0))) as Hg by (split; [done|apply Hw0]).
  split; [by intros _|]. intros w2 HR2. apply HQ; [by eapply R_good|done].
Qed.

Lemma rg_get path w : good w ->
  rg R (fun out w' => forall g, out = Ok g -> hist w' !! os_meta g = Some (os_content g))
    (call (os_get path)) w.
Proof.
  intros Hw. apply rg_call; [done|]. intros w0 [Hi Hc] HR.
  eapply wp_mono; [by apply os_get_law|]. intros out s' (Hi' & Hd & Hh & Hout & _). cbn.
  split_and!; [done..|by unfold data; cbn; rewrite Hd|].
  intros w2 Hw2 HR2 g ->. destruct HR2 as (_ & Hh2 & _); [by split|].
  eapply lookup_weaken; [|exact Hh2]. eapply lookup_weaken; [|exact Hh].
  by eapply os_inv_law.
Qed.

Lemma rg_bytes g w : good w ->
  rg R (fun out w' => forall b, out = Ok b -> b = os_content g) (call (os_bytes g)) w.
Proof.
  intros Hw. apply rg_call; [done|]. intros w0 [Hi Hc] HR.
  eapply wp_mono; [by apply os_bytes_law|]. intros out s' (Hi' & Hd & Hh & Hout & _). cbn.
  by split_and!; [..|unfold data; cbn; rewrite Hd|].
Qed.

(** Runs the rest of a task from the world its first part ended in. *)
Lemma rg_then {A B} (P : A -> world S -> Prop) (Q : B -> world S -> Prop) m
    (k : A -> task B) w : good w ->
  rg R P m w -> (forall a w', good w' -> R w w' -> P a w' -> rg R Q (k a) w') ->
  rg R Q (m ≫= k) w.
Proof.
  intros Hw Hm Hk. apply rg_bind; [apply _|].
  eapply rg_mono; [by apply rg_reach; [apply _|exact Hm]|].
  intros a w' [HR HP]. apply Hk; [by eapply R_good|done..].
Qed.

Lemma rg_thenR {A B E} (P : result A E -> world S -> Prop) (Q : result B E -> world S -> Prop) m
    (k : A -> task (result B E)) w : good w ->
  rg R P m w ->
  (forall a w', good w' -> R w w' -> P (Ok a) w' -> rg R Q (k a) w') ->
  (forall e w', Q (Err e) w') ->
  rg R Q (bindR m k) w.
Proof.
  intros Hw Hm Hk He. eapply rg_then; [done|exact Hm|]. intros [a|e] w'; [auto|].
  intros _ _ _. by apply rg_ret.
Qed.

Lemma rg_fetch path prefix w : good w ->
  rg R (fun out w' => forall c, out = Ok (Some c) -> known (f_version c) (f_record c) w')
    (fetch path prefix) w.
Proof.
  intros Hw. eapply rg_then; [done|by apply rg_get|].
  intros [g|[]] w1 Hw1 _ Hg; try by intros ??.
  eapply rg_then; [done|by apply rg_bytes|].
  intros [b|e] w2 Hw2 HR Hb; [|by intros ??].
  rewrite (Hb b eq_refl). destruct (from_slice (os_content g)) as [r|e] eqn:Er; [|by intros ??].
  intros w3 HR3 c [= <-]. eapply (known_stable _ _ w1); [done|by etrans|].
  exists (os_content g). split; [by apply Hg|done].
Qed.

Lemma rg_now w : good w -> rg R (fun n _ => n = now) now_secs w.
Proof.
  intros Hw. apply (rg_atomically R). intros w0 HR.
  apply (wp_zoom (H := clk_lens)). unfold wp, tick. cbn.
  apply (R_good _ _ HR) in Hw as Hw0. split; [|intros _ _; apply Hw0].
  intros _. split_and!; [|done|done]. split; [apply Hw0|]. intros n. apply Hw0.
Qed.

(** The lease's object holds [r]. *)
Definition holds (r : LeaseRecord) w : Prop :=
  exists b v, data w !! p = Some (b, v) /\ from_slice b = Ok r.

Lemma holds_stable r w w' : is_live_at r now = true ->
  good w -> R w w' -> holds r w -> holds r w'.
Proof.
  intros Hl Hw HR (b & v & Hd & Hr). destruct (HR Hw) as (_ & _ & Hs).
  exists b, v. rewrite Hs; [done|]. by exists b, v, r.
Qed.

(** A claim's write is applied only where it breaks no live record, and
    succeeds only if the object then holds the claimant's record. *)
Lemma rg_write r mode w : is_live_at r now = true -> good w ->
  match mode with
  | Create => True
  | Overwrite => False
  | Unchanged v => exists old, known v old w /\ is_live_at old now = false
  end ->
  rg R (fun out w' => out = Ok tt -> holds r w') (write_record p r mode) w.
Proof.
  intros Hl Hw Hmode. unfold write_record.
  destruct (to_vec_ok r) as [b Hb]. rewrite Hb. apply from_to in Hb.
  apply rg_call; [done|]. intros w0 [Hi Hc] HR.
  eapply wp_mono; [by apply os_put_law|]. intros out s' (Hi' & Hh & Hput & _). cbn.
  split_and!; [done..| |].
  - intros (b' & v' & old & Hd & Hold & Hlive). unfold data in *. cbn.
    destruct Hput as [[_ ->]|[Ha [v ->]]]; [done|]. exfalso.
    destruct mode as [| |v1]; cbn in Ha; [congruence|done|].
    destruct Ha as [b1 Hb1]. rewrite Hd in Hb1. simplify_eq.
    destruct Hmode as (o & Hk & Hdead).
    eapply known_stable in Hk as (b2 & Hb2 & Ho); [|exact Hw|exact HR].
    apply os_inv_law in Hd; [|done]. unfold hist in Hb2. congruence.
  - intros w2 Hw2 HR2 ->. apply (holds_stable r (World s' (clk w0)) w2 Hl); [by split|done|].
    destruct Hput as [[? _]|[_ [v Hv]]]; [done|]. exists b, v.
    unfold data. cbn. rewrite Hv. by rewrite lookup_insert_eq.
Qed.

Lemma rg_take_over prefix r v w : is_live_at r now = true -> good w ->
  (exists old, known v old w /\ is_live_at old now = false) ->
  rg R (fun out w' => is_ok out = true -> holds r w') (take_over p prefix r v) w.
Proof.
  intros Hl Hw Hold. unfold take_over. eapply rg_then; [done|by apply rg_write|].
  intros [[]|e] w1 Hw1 HR1 Hok.
  - intros w2 HR2 _. eapply holds_stable; eauto.
  - destruct e; try by intros ??.
    eapply rg_thenR; [done|by apply rg_fetch| |done].
    intros won w2 Hw2 _ _. by destruct won; intros ??.
Qed.

Lemma rg_acquire me db_prefix ttl w : (0 < ttl)%Z -> good w ->
  lease_path (trim_matches "/" db_prefix) = p ->
  rg R (fun out w' => is_ok out = true -> holds (claim_record me ttl now) w')
    (acquire me db_prefix ttl) w.
Proof.
  intros Httl Hw Hp. unfold acquire. rewrite Hp.
  eapply rg_then; [done|by apply rg_now|]. intros n w1 Hw1 _ ->.
  assert (is_live_at (claim_record me ttl now) now = true) as Hl by by apply claim_record_live.
  eapply rg_then; [done|by apply (rg_write _ Create)|]. intros [[]|e] w2 Hw2 _ Hok; cbn [is_ok].
  { intros w3 HR _. eapply holds_stable; eauto. }
  eapply rg_thenR; [done|by apply rg_fetch| |done]. intros cur w3 Hw3 _ Hcur.
  destruct cur as [c|]; cbn; [|by intros ??].
  destruct (is_live_at (f_record c) now) eqn:El; [by intros ??|].
  apply rg_take_over; [done..|]. exists (f_record c). split; [by apply Hcur|done].
Qed.
End claims.

(** *** One task alone *)

Lemma wp_call_run {A B} (m : act S A) (k : A -> task B) (Q : B -> world S -> Prop) w :
  wp m (fun a s' => wp (run (k a)) Q (World s' (clk w))) (store w) ->
  wp (run (call m ≫= k)) Q w.
Proof. intros Hm. apply wp_run_bind, wp_run_atomically. by apply wp_call. Qed.

Lemma wp_now_run {B} (k : Z -> task B) (Q : B -> world S -> Prop) w :
  wp (run (k (reading (clk w) (ticks (clk w))))) Q
     (World (store w) (Clock (reading (clk w)) (Datatypes.S (ticks (clk w))))) ->
  wp (run (now_secs ≫= k)) Q w.
Proof. intros Hk. by apply wp_run_bind, wp_run_atomically. Qed.

(** What a reader learns of the object at [path], when the store answers. *)
Definition fetch_result (path prefix : string) (d : gmap string object) :
    result (option Fetched) LeaseError :=
  match d !! path with
  | None => Ok None
  | Some (b, v) =>
      match from_slice b with
      | Ok r => Ok (Some {| f_record := r; f_version := v |})
      | Err e => Err (LeaseCorrupt prefix e)
      end
  end.

Lemma wp_fetch path prefix w : os_inv (store w) ->
  wp (run (fetch path prefix)) (fun out w' =>
    os_inv (store w') /\ data w' = data w /\ clk w' = clk w /\
    (out = fetch_result path prefix (data w) \/ ~ os_up (store w) /\ is_ok out = false) /\
    (os_up (store w) -> os_up (store w'))) w.
Proof.
  intros Hi. unfold fetch. apply wp_call_run. eapply wp_mono; [by apply os_get_law|].
  intros out s1 (Hi1 & Hd1 & _ & Hout & Hup1). unfold fetch_result, data in *. cbn.
  destruct out as [g|e].
  - apply wp_call_run. eapply wp_mono; [by apply os_bytes_law|].
    intros b s2 (Hi2 & Hd2 & _ & Hb & Hup2). cbn in *. rewrite Hout.
    destruct b as [b|e]; cbn.
    + rewrite (Hb b eq_refl). destruct (from_slice (os_content g)); apply wp_ret; cbn.
      all: split_and!; [done|congruence|done|by left|intros; by apply Hup2, Hup1].
    + apply wp_ret. cbn. split_and!; [done|congruence|done| |intros; by apply Hup2, Hup1].
      right. split; [|done]. intros Hu. by destruct (Hup2 (Hup1 Hu)).
  - destruct e; apply wp_ret; cbn; (split_and!; [done..| |done]).
    + left. by rewrite Hout.
    + by right. + by right. + by right.
Qed.

(** A write applies exactly when its mode allows it, when the store answers. *)
Lemma wp_write path r mode w : os_inv (store w) ->
  wp (run (write_record path r mode)) (fun out w' =>
    os_inv (store w') /\ clk w' = clk w /\
    ((out <> Ok tt /\ data w' = data w) \/
     (put_allowed (put_mode mode) (data w !! path) /\
      exists b v, data w' = <[path := (b, v)]> (data w) /\ from_slice b = Ok r)) /\
    (os_up (store w) -> os_up (store w') /\
      (is_ok out = true \/ ~ put_allowed (put_mode mode) (data w !! path)))) w.
Proof.
  intros Hi. unfold write_record. destruct (to_vec_ok r) as [b Hb]. rewrite Hb.
  apply from_to in Hb. unfold call. apply wp_run_atomically, wp_call.
  eapply wp_mono; [by apply os_put_law|]. unfold data.
  intros out s' (Hi' & _ & Hput & Hup). cbn. split_and!; [done..| |].
  - destruct Hput as [?|[? [v ?]]]; [by left|]. right. split; [done|]. by exists b, v.
  - intros Hu. destruct (Hup Hu) as [? [?|[? _]]]; split; auto.
Qed.

(** What [acquire] answers on its own, when the store answers: the object at
    the lease's path decides. *)
Definition acquire_result (me : Process) (prefix : string) (ttl now : Z)
    (cur : option object) : result LeaseRecord LeaseError :=
  let r := claim_record me ttl now in
  match cur with
  | None => Ok r
  | Some (b, _) =>
      match from_slice b with
      | Err e => Err (LeaseCorrupt prefix e)
      | Ok old =>
          if is_live_at old now then Err (held prefix old (i64_sub now (renewed_at old)))
          else Ok r
      end
  end.

Definition acquire_post (path : string) (res : result LeaseRecord LeaseError)
    (out : result WriterLease LeaseError) (w w' : world S) : Prop :=
  os_inv (store w') /\ os_up (store w') /\
  match res with
  | Ok r => out = Ok (new_lease path r) /\
      exists b v, data w' = <[path := (b, v)]> (data w) /\ from_slice b = Ok r
  | Err e => out = Err e /\ data w' = data w
  end.

Lemma wp_take_over path prefix r v b w :
  os_inv (store w) -> os_up (store w) -> data w !! path = Some (b, v) ->
  wp (run (take_over path prefix r v)) (fun out w' => acquire_post path (Ok r) out w w') w.
Proof.
  intros Hi Hup Hd. unfold take_over. apply wp_run_bind.
  eapply wp_mono; [by apply wp_write|]. intros out w1 (Hi1 & _ & Hw & Hup1).
  destruct (Hup1 Hup) as [Hu1 Hok]. destruct out as [[]|e]; cbn.
  - apply wp_ret. split_and!; [done..|]. destruct Hw as [[? _]|[_ ?]]; done.
  - exfalso. destruct Hok as [?|Hna]; [done|]. apply Hna. rewrite Hd. by exists b.
Qed.

Lemma wp_acquire me db_prefix ttl w :
  os_inv (store w) -> os_up (store w) ->
  let prefix := trim_matches "/" db_prefix in
  let path := lease_path prefix in
  wp (run (acquire me db_prefix ttl)) (fun out w' =>
    acquire_post path
      (acquire_result me prefix ttl (reading (clk w) (ticks (clk w))) (data w !! path))
      out w w') w.
Proof.
  intros Hi Hup prefix path. unfold acquire. fold prefix. fold path.
  apply wp_now_run. set (w0 := World (store w) _).
  set (now := reading _ _). set (r := claim_record me ttl now).
  apply wp_run_bind. eapply wp_mono; [by apply wp_write|].
  cbn [put_mode put_allowed]. change (data w0) with (data w). intros out w1 (Hi1 & _ & Hw & Hup1).
  destruct (Hup1 Hup) as [Hu1 Hok]. clear Hup1.
  destruct (is_ok out) eqn:Eo.
  { apply wp_ret. split; [done|]. split; [done|]. destruct Hw as [[? _]|[Ha Hw]]; [by destruct out as [[]|]|].
    unfold acquire_result. cbn in Ha. by rewrite Ha. }
  assert (data w1 = data w) as Hd1.
  { destruct Hok, Hw as [[_ ?]|[? _]]; done. }
  assert (exists b v, data w !! path = Some (b, v)) as (b & v & Hd).
  { destruct (data w !! path) as [[b v]|]; [by eauto|]. by destruct Hok. }
  apply wp_run_bindR. eapply wp_mono; [by apply wp_fetch|].
  intros f w2 (Hi2 & Hd2 & _ & Hf & Hup2). destruct Hf as [->|[? _]]; [|done].
  unfold fetch_result, acquire_result, acquire_post. rewrite Hd1, Hd. cbn.
  destruct (from_slice b) as [old|e] eqn:Eb; cbn; [|rewrite Hd2; auto].
  destruct (is_live_at old now) eqn:El; cbn; [apply wp_ret; rewrite Hd2; auto|].
  eapply wp_mono; [apply (wp_take_over _ _ _ _ b); [done|by auto|congruence]|].
  cbn. intros o w3 (? & ? & ? & b' & v' & -> & ?). split_and!; [done..|].
  exists b', v'. split; [congruence|done].
Qed.

(** [acquire] run alone on a store that answers.  With no record, or with
    one that is not live, the claim succeeds and its record is stored; with a
    live record it is refused with the holder's details, and with an
    unreadable one it reports the corruption; a refusal leaves the store's
    objects as they were. *)
Theorem acquire_alone me db_prefix ttl w :
  os_inv (store w) -> os_up (store w) ->
  let prefix := trim_matches "/" db_prefix in
  let path := lease_path prefix in
  wp (run (acquire me db_prefix ttl)) (fun out w' =>
    acquire_post path
      (acquire_result me prefix ttl (reading (clk w) (ticks (clk w))) (data w !! path))
      out w w') w.
Proof. apply wp_acquire. Qed.

(** The lease's object is in the hands of another instance than [r]'s. *)
Definition successor (r : LeaseRecord) (cur : option object) : Prop :=
  exists b v r', cur = Some (b, v) /\ from_slice b = Ok r' /\ instance r' <> instance r.

Definition own_or_free (r : LeaseRecord) (cur : option object) : Prop :=
  forall b v, cur = Some (b, v) -> exists r', from_slice b = Ok r' /\ instance r' = instance r.

Definition renew_post (l : WriterLease) (w : world S) (out : bool * WriterLease) (w' : world S) :
    Prop :=
  let '(ok, l') := out in
  os_inv (store w') /\ path l' = path l /\ instance (record l') = instance (record l) /\
  ok = negb (lost l') /\
  (lost l = true -> l' = l /\ w' = w) /\
  (successor (record l) (data w !! path l) -> ok = false /\ data w' = data w) /\
  (ok = true -> l' = renewed l (reading (clk w) (ticks (clk w))) /\
     exists b v, data w' = <[path l := (b, v)]> (data w) /\ from_slice b = Ok (record l')) /\
  (os_up (store w) -> lost l = false -> own_or_free (record l) (data w !! path l) -> ok = true) /\
  (os_up (store w) -> os_up (store w')).

Lemma fetch_confirmed l prefix d :
  match fetch_result (path l) prefix d with
  | Ok (Some c) => bool_decide (instance (f_record c) = instance (record l))
  | Ok None => true
  | Err _ => false
  end = true <-> own_or_free (record l) (d !! path l).
Proof.
  unfold fetch_result, own_or_free. destruct (d !! path l) as [[b v]|]; [|naive_solver].
  destruct (from_slice b) as [r|e] eqn:Eb; [rewrite bool_decide_eq_true; cbn|]; split; intros H.
  - intros ?? [= <- <-]. eauto.
  - destruct (H b v eq_refl) as (r' & ? & ?). congruence.
  - done.
  - destruct (H b v eq_refl) as (r' & ? & _). congruence.
Qed.

Lemma successor_not_own r cur : successor r cur -> ~ own_or_free r cur.
Proof. intros (b & v & r' & -> & Hr & Hne) Ho. destruct (Ho b v eq_refl) as (r'' & ? & ?). congruence. Qed.

Lemma wp_renew l w : os_inv (store w) -> wp (run (renew l)) (renew_post l w) w.
Proof.
  intros Hi. unfold renew, renew_post. destruct (lost l) eqn:El.
  { apply wp_ret. rewrite El. by split_and!. }
  apply wp_run_bind. eapply wp_mono; [by apply wp_fetch|].
  intros cur w1 (Hi1 & Hd1 & Hc1 & Hcur & Hup1).
  match goal with |- wp (run (if ?c then _ else _)) _ _ => destruct c eqn:Ec end.
  2: { apply wp_ret. cbn. split_and!; try done.
       intros Hu _ Ho. apply (fetch_confirmed _ "") in Ho.
       by destruct Hcur as [->|[? _]]; [congruence|]. }
  assert (own_or_free (record l) (data w !! path l)) as Ho.
  { apply (fetch_confirmed l ""). destruct Hcur as [<-|[_ Hf]]; [done|]. by destruct cur. }
  apply wp_now_run. rewrite Hc1. set (l1 := renewed l _).
  apply wp_run_bind. eapply wp_mono; [by apply wp_write|].
  intros out w2 (Hi2 & _ & Hw & Hup2). unfold data in *. cbn [store] in *. rewrite Hd1 in Hw.
  assert (successor (record l) (os_data (store w) !! path l) -> False) as Hns.
  { intros Hs. by eapply successor_not_own. }
  destruct out as [[]|e]; apply wp_ret; cbn; split_and!; try done.
  - by rewrite El.
  - intros _. split; [done|]. destruct Hw as [[? _]|[_ ?]]; done.
  - intros Hu. by apply Hup2, Hup1.
  - intros Hu _ _. destruct (Hup2 (Hup1 Hu)) as [_ [?|Hn]]; [done|]. by destruct Hn.
  - intros Hu. by apply Hup2, Hup1.
Qed.

Lemma wp_release l w : os_inv (store w) ->
  wp (run (release l)) (fun _ w' =>
    os_inv (store w') /\
    (data w' = data w \/ own_or_free (record l) (data w !! path l) /\ data w' = delete (path l) (data w)) /\
    (os_up (store w) -> os_up (store w') /\
      (own_or_free (record l) (data w !! path l) -> data w' = delete (path l) (data w)))) w.
Proof.
  intros Hi. unfold release. apply wp_run_bind. eapply wp_mono; [by apply wp_fetch|].
  intros cur w1 (Hi1 & Hd1 & _ & Hcur & Hup1).
  assert (is_ok cur = true -> cur = fetch_result (path l) "" (data w)) as Hc.
  { destruct Hcur as [?|[_ ?]]; [done|congruence]. }
  match goal with |- wp _ ?Q _ => assert (own_or_free (record l) (data w !! path l) ->
    wp (run (_ ← call (os_delete (path l)); mret tt)) Q w1) as Hdel end.
  { intros Ho. apply wp_call_run. eapply wp_mono; [by apply os_delete_law|].
    intros r s2 (Hi2 & _ & Hd2 & Hup2). apply wp_ret. unfold data in *. cbn [store].
    rewrite Hd1 in Hd2. split_and!; [done|naive_solver|]. intros Hu.
    destruct (Hup2 (Hup1 Hu)) as [? Hr]. split; [done|]. intros _.
    destruct Hd2 as [?|[Hn _]]; [done|]. by destruct r as [[]|]. }
  pose proof (fetch_confirmed l "" (data w)) as Hco.
  destruct cur as [[c|]|e].
  - rewrite <- Hc in Hco by done.
    destruct (decide (instance (f_record c) = instance (record l))) as [He|He].
    + rewrite bool_decide_eq_false_2 by auto. by apply Hdel, Hco, bool_decide_eq_true_2.
    + rewrite bool_decide_eq_true_2 by done. apply wp_ret. split_and!; [done|by left|].
      intros Hu. split; [by apply Hup1|]. intros Ho. apply Hco in Ho. by apply bool_decide_eq_true in Ho.
  - rewrite <- Hc in Hco by done. by apply Hdel, Hco.
  - apply wp_ret. split_and!; [done|by left|]. intros Hu. split; [by apply Hup1|].
    intros Ho. apply Hco in Ho. by destruct Hcur as [Hf|[? _]]; [rewrite <- Hf in Ho|].
Qed.

(** One renewal.  It reports [true] exactly when the lease is not marked
    lost afterwards, and then the store holds this process's record with the
    new time.  A lost lease stays lost and is never touched.  When another
    instance holds the record, or it is unreadable, the renewal reports
    [false] and writes nothing; on a store that answers, a holder that was
    not displaced renews. *)
Theorem renew_spec l w : os_inv (store w) -> wp (run (renew l)) (renew_post l w) w.
Proof. apply wp_renew. Qed.

Lemma wp_renewer evs l w :
  os_inv (store w) -> successor (record l) (data w !! path l) ->
  wp (run (renewer evs l)) (fun l' w' => data w' = data w /\
    (lost l = true \/ head evs = Some RenewTick -> lost l' = true)) w.
Proof.
  revert l w. induction evs as [|[] evs IH]; intros l w Hi Hs; cbn [renewer].
  - apply wp_ret. split; [done|]. by intros [|].
  - apply wp_run_bind. eapply wp_mono; [by apply wp_renew|].
    intros [ok l'] w1 (Hi1 & Hp & Hinst & Hok & _ & Hsucc & _).
    destruct (Hsucc Hs) as [-> Hd].
    eapply wp_mono; [apply IH; [done|]|].
    + rewrite Hp, Hd. destruct Hs as (b & v & r' & ? & ? & ?).
      exists b, v, r'. split_and!; [done..|congruence].
    + intros l2 w2 [Hd2 Hl2]. split; [congruence|]. intros _. apply Hl2. left.
      by destruct (lost l').
  - apply wp_run_bind. eapply wp_mono; [by apply wp_release|].
    intros _ w1 (_ & Hd & _). apply wp_ret. split; [|by intros [|]].
    destruct Hd as [?|[Ho _]]; [done|]. by destruct (successor_not_own _ _ Hs).
Qed.

(** Once another instance holds the record, the renewal task of the
    displaced process never writes and never deletes it, whatever wakes the
    task and in whatever order, its shutdown release included; and from its
    first tick on the lease is marked lost, which makes [/ready] fail. *)
Theorem renewer_yields evs l w :
  os_inv (store w) -> successor (record l) (data w !! path l) ->
  wp (run (renewer evs l)) (fun l' w' => data w' = data w /\
    (lost l = true \/ head evs = Some RenewTick -> lost l' = true)) w.
Proof. apply wp_renewer. Qed.

(** A renewer that nobody displaces, told to stop, leaves the prefix free,
    however many renewals came due before. *)
Lemma wp_renewals n l w : os_inv (store w) -> os_up (store w) -> lost l = false ->
  own_or_free (record l) (data w !! path l) ->
  wp (run (renewer (replicate n RenewTick ++ [Shutdown]) l)) (fun _ w' =>
    os_inv (store w') /\ os_up (store w') /\ data w' = delete (path l) (data w)) w.
Proof.
  revert l w. induction n as [|n IH]; intros l w Hi Hu Hl Ho; cbn [replicate app renewer].
  - apply wp_run_bind. eapply wp_mono; [by apply wp_release|]. intros [] w1 (Hi1 & _ & Hup).
    destruct (Hup Hu) as [Hu1 Hd]. apply wp_ret. split_and!; [done..|by apply Hd].
  - apply wp_run_bind. eapply wp_mono; [by apply wp_renew|].
    intros [ok l'] w1 (Hi1 & Hp & Hinst & Hok & _ & _ & Hw & Htrue & Hup).
    specialize (Htrue Hu Hl Ho). subst ok. destruct (Hw Htrue) as (_ & b & v & Hd & Hb).
    eapply wp_mono; [apply IH; [done|by apply Hup|by destruct (lost l')|]|].
    + rewrite Hp, Hd, lookup_insert_eq. intros b' v' [= <- <-]. by exists (record l').
    + intros l2 w2 (Hi2 & Hu2 & Hd2). split_and!; [done..|]. by rewrite Hd2, Hp, Hd, delete_insert_eq.
Qed.

(** A rolling restart.  On a store that answers, a process that claimed a
    free prefix and released it leaves the prefix free: the replacement
    claims it at once, whatever the time and however long the TTL. *)
Theorem release_hands_over old new db_prefix ttl w :
  os_inv (store w) -> os_up (store w) ->
  data w !! lease_path (trim_matches "/" db_prefix) = None ->
  wp (run (l <-? acquire old db_prefix ttl; _ ← release l; acquire new db_prefix ttl))
    (fun out w' => is_ok out = true) w.
Proof.
  intros Hi Hu Hfree. apply wp_run_bindR. eapply wp_mono; [by apply wp_acquire|].
  cbn zeta. rewrite Hfree. intros out w1 (Hi1 & Hu1 & -> & b & v & Hd & Hb).
  apply wp_run_bind. eapply wp_mono; [by apply wp_release|].
  cbn [path record new_lease]. rewrite Hd, lookup_insert_eq.
  intros _ w2 (Hi2 & _ & Hrel). destruct (Hrel Hu1) as [Hu2 Hd2].
  eapply wp_mono; [by apply wp_acquire|]. cbn zeta. rewrite Hd2.
  - rewrite lookup_delete_eq. by intros o w3 (_ & _ & -> & _).
  - intros ?? [= <- _]. eexists. by split.
Qed.

(** C1: no split brain.  Processes with distinct identities claim one prefix
    at the same time, each with its own TTL and in any interleaving of their
    store calls, over any initial store (a stale, a live or an unreadable
    record, failing calls, writes reported as failed that were applied); as
    long as their clocks read the same second, at most one claim succeeds,
    and a claim that succeeded finds its own record in the store. *)
Theorem claims_single_winner (cs : list (Process * Z)) db_prefix now w sched :
  os_inv (store w) -> (forall n, reading (clk w) n = now) ->
  NoDup ((fun c => instance_id c.1) <$> cs) -> Forall (fun c => (0 < c.2)%Z) cs ->
  let c := pool_run sched ((fun c => acquire c.1 db_prefix c.2) <$> cs, w) in
  forall i j li lj,
    c.1 !! i = Some (Ret (Ok li)) -> c.1 !! j = Some (Ret (Ok lj)) ->
    i = j /\ exists ci, cs !! i = Some ci /\
      holds (lease_path (trim_matches "/" db_prefix)) (claim_record ci.1 ci.2 now) c.2.
Proof.
  intros Hi Hn Hnd Httl c.
  set (p := lease_path (trim_matches "/" db_prefix)).
  set (posts := fun i (out : result WriterLease LeaseError) w' => is_ok out = true ->
    exists ci, cs !! i = Some ci /\ holds p (claim_record ci.1 ci.2 now) w').
  assert (forall i l, c.1 !! i = Some (Ret (Ok l)) -> posts i (Ok l) c.2) as Hpost.
  { intros i l Hl. apply (pool_rg_ret (R p now) posts sched _ w i (Ok l)); [|exact Hl].
    intros j q Hq. apply list_lookup_fmap_Some in Hq as (cj & -> & Hcj).
    eapply rg_mono; [apply (rg_acquire p now cj.1 db_prefix cj.2); [|by split|done]|].
    - by eapply (Forall_lookup_1 _ _ _ _ Httl).
    - intros a w' Ha Hok. exists cj. split; [done|by apply Ha]. }
  intros i j li lj Hli Hlj.
  destruct (Hpost i li Hli eq_refl) as (ci & Hci & b & v & Hd & Hb).
  destruct (Hpost j lj Hlj eq_refl) as (cj & Hcj & b' & v' & Hd' & Hb').
  split; [|by exists ci; split; [|exists b, v]].
  eapply (NoDup_lookup _ i j (instance_id ci.1)); [exact Hnd|by rewrite list_lookup_fmap, Hci|].
  rewrite list_lookup_fmap, Hcj. cbn. f_equal.
  enough (claim_record ci.1 ci.2 now = claim_record cj.1 cj.2 now) as E by (by injection E).
  congruence.
Qed.
End lease_proofs.

(** What a refused operator is told.  For a live record whose age fits an
    [i64], the reported wait is positive, the record is live at every second
    before it has passed, and it is stale once it has. *)
Theorem held_wait_exact prefix r now :
  in_i64 (renewed_at r) -> in_i64 now -> (0 <= ttl_secs r <= i64_max)%Z ->
  in_i64 (renewed_at r + ttl_secs r) ->
  is_live_at r now = true -> (0 <= now - renewed_at r)%Z ->
  in_i64 (now - renewed_at r) ->
  exists wait,
    held prefix r (i64_sub now (renewed_at r)) =
      LeaseHeld prefix (instance r) (pid r) (now - renewed_at r) (ttl_secs r) wait /\
    (0 < wait)%Z /\
    (forall t, (now <= t < now + wait)%Z -> is_live_at r t = true) /\
    is_live_at r (now + wait) = false.
Proof.
  intros Hr Hn Httl Hend Hlive Hage Hfit.
  apply is_live_at_spec in Hlive as [Hlive|?]; [|done].
  exists (ttl_secs r - (now - renewed_at r))%Z. unfold held.
  rewrite i64_sub_id by done. unfold u64_of_i64, u64_checked_sub, i64_of_u64.
  cbn zeta. rewrite (decide_True (P := (0 <= now - renewed_at r)%Z)) by done. cbn [mbind option_bind].
  rewrite (decide_True (P := in_u64 _)) by (ints; lia). cbn [default].
  rewrite decide_True by (cbn; ints; lia). cbn [default]. split_and!; [done|lia| |].
  - intros t Ht. apply is_live_at_spec. left. lia.
  - apply not_true_is_false. rewrite is_live_at_spec. ints. lia.
Qed.

(** ** Witnesses

    On a store in memory, with every claimant's record encoded. *)
Module LeaseExamples.

#[local] Existing Instances MemStore.os MemStore.laws.

#[local] Instance serde : Serde LeaseRecord := CountableSerde.serde LeaseRecord.
#[local] Instance serde_laws : SerdeLaws LeaseRecord := CountableSerde.serde_laws LeaseRecord.

Definition proc (n : string) (i : Z) : Process :=
  {| HOSTNAME := Some "pod"; COMPUTERNAME := None; uuid_v7 := n; process_id := i |}.
Definition alice := proc "a" 1.
Definition bob := proc "b" 2.

Definition stored (b : string) : MemStore.store :=
  MemStore.put (lease_path "db") b (MemStore.Store ∅ [] []).
Definition with_record (r : LeaseRecord) : MemStore.store :=
  stored (match to_vec r with Ok b => b | Err _ => "" end).
Definition free : MemStore.store := MemStore.Store ∅ [] [].

Definition at_ (t : Z) (s : MemStore.store) : world MemStore.store :=
  World s (Clock (fun _ => t) 0).

Definition old_record : LeaseRecord := claim_record alice 60 0.

Lemma inv_free : MemStore.inv free.
Proof. intros p b v. cbn. by rewrite lookup_empty. Qed.
Lemma inv_record r : MemStore.inv (with_record r).
Proof. apply MemStore.put_inv, inv_free. Qed.

Definition races : list (Process * Z) := [(alice, 60%Z); (bob, 30%Z)].
Definition schedule : list nat := [0;1;1;0;0;1;1;0;1;0;1;0;1;0;0;0].

(** Both find the stale record, race to replace it, and one wins. *)
Lemma claims_single_winner_witness :
  let c := pool_run schedule
    ((fun c => acquire c.1 "/db/" c.2) <$> races, at_ 100 (with_record old_record)) in
  (exists l, c.1 !! 1 = Some (Ret (Ok l))) /\
  (exists e, c.1 !! 0 = Some (Ret (Err e))) /\
  forall i j li lj,
    c.1 !! i = Some (Ret (Ok li)) -> c.1 !! j = Some (Ret (Ok lj)) ->
    i = j /\ exists ci, races !! i = Some ci /\
      holds (lease_path (trim_matches "/" "/db/")) (claim_record ci.1 ci.2 100) c.2.
Proof.
  split; [eexists; vm_compute; reflexivity|].
  split; [eexists; vm_compute; reflexivity|].
  apply (claims_single_winner races "/db/" 100 (at_ 100 (with_record old_record)) schedule).
  - apply inv_record.
  - reflexivity.
  - apply (bool_decide_unpack _). vm_compute. exact I.
  - repeat constructor.
Defined.

(** The same start with clocks one second apart has two winners: the slower
    claimant reads its clock first, finds the record of the faster one dated
    one second ahead, and [is_live_at] reads the negative age as stale. *)
Theorem two_winners_one_second_apart :
  exists sched l0 l1,
    let c := pool_run sched
      ((fun c => acquire c.1 "db" c.2) <$> races,
       World free (Clock (fun n => 100 + Z.of_nat n)%Z 0)) in
    c.1 = [Ret (Ok l0); Ret (Ok l1)] /\ instance (record l0) <> instance (record l1).
Proof.
  eexists [0;1;1;0;0;0;0], _, _. split; [vm_compute; reflexivity|]. vm_compute. discriminate.
Qed.

Lemma acquire_alone_witness :
  let w := at_ 100 (with_record old_record) in
  MemStore.inv (store w) /\ MemStore.up (store w) /\
  wp (run (acquire bob "db" 30)) (fun out w' =>
    acquire_post (lease_path "db")
      (acquire_result bob "db" 30 100 (data w !! lease_path "db")) out w w') w.
Proof.
  split; [apply inv_record|]. split; [reflexivity|].
  apply (acquire_alone bob "db" 30 (at_ 100 (with_record old_record)));
    [apply inv_record|reflexivity].
Defined.

Definition bobs_lease : WriterLease := new_lease (lease_path "db") (claim_record bob 30 90).

Lemma renew_spec_witness :
  wp (run (renew bobs_lease))
    (renew_post bobs_lease (at_ 100 (with_record old_record)))
    (at_ 100 (with_record old_record)).
Proof. apply (renew_spec bobs_lease (at_ 100 (with_record old_record))), inv_record. Defined.

Lemma renewer_yields_witness :
  let w := at_ 100 (with_record old_record) in
  wp (run (renewer [RenewTick; RenewTick; Shutdown] bobs_lease)) (fun l' w' =>
    data w' = data w /\ (lost bobs_lease = true \/
      head [RenewTick; RenewTick; Shutdown] = Some RenewTick -> lost l' = true)) w.
Proof.
  apply (renewer_yields [RenewTick; RenewTick; Shutdown] bobs_lease
           (at_ 100 (with_record old_record))); [apply inv_record|].
  eexists _, _, old_record. split_and!; [vm_compute; reflexivity..|discriminate].
Defined.

Lemma release_hands_over_witness :
  wp (run (l <-? acquire alice "db" 60; _ ← release l; acquire bob "db" 60))
    (fun out w' => is_ok out = true) (at_ 100 free).
Proof.
  apply (release_hands_over alice bob "db" 60 (at_ 100 free));
    [apply inv_free|reflexivity..].
Defined.

Lemma held_wait_exact_witness :
  exists wait,
    held "db" old_record (i64_sub 20 (renewed_at old_record)) =
      LeaseHeld "db" "pod:a" 1 20 60 wait /\ (0 < wait)%Z /\
    (forall t, (20 <= t < 20 + wait)%Z -> is_live_at old_record t = true) /\
    is_live_at old_record (20 + wait) = false.
Proof.
  apply (held_wait_exact "db" old_record 20); try (ints; cbn; lia). reflexivity.
Defined.
End LeaseExamples.
