(* ===== verification/LeaseGuard.v ===== *)
(** The guard of the writer lease: how the renewal task is told to stop, and how
    long that is waited for ([LeaseGuard] and [spawn_renewer] of
    [src/src/lease.rs]).

    The task runs beside the process, action by action: its moves are a list.
    What it does before a timer fires is the list of its moves in that time. *)
From S2P Require Import Prelude.
From S2P Require Import Effects.
From S2P Require Import RustStr.
From S2P Require Import Kv.
From S2P Require Import ObjStore.
From S2P Require Import Lease.

(** ** Data *)

(** [shutdown]: the sender is still there; [task]: so is the handle. *)
Record LeaseGuard := {
  shutdown : bool;
  task : bool;
}.

Definition RELEASE_TIMEOUT : Z := 10.

(** What the wait for the task comes to. *)
Inductive JoinOutcome : Type :=
| Joined
| JoinCancelled
| JoinPanicked
| TimedOut.

(** What can happen to the task: its ticker is due or its channel closed and it
    wakes up, it does its next action, it panics, or the runtime drops it. *)
Inductive move : Type := Tick | Fired | Step | Panic | Dropped.

Section guard.
Context {S G : Type} `{!ObjectStore S G} `{!Serde LeaseRecord}.

(** Where the task is: in [select!], in a renewal, in the release, or done. *)
Inductive task_stage : Type :=
| Waiting (l : WriterLease)
| Renewing (p : prog (world S) (bool * WriterLease))
| Releasing (p : prog (world S) unit)
| Ended
| Panicked
| Cancelled.

Record sys := Sys {
  guard : LeaseGuard;
  at_stage : task_stage;
  outside : world S;
}.

(** ** Operations *)

Definition spawn_renewer (lease : WriterLease) (w : world S) : sys :=
  Sys {| shutdown := true; task := true |} (Waiting lease) w.

Definition work (s : sys) : sys :=
  match at_stage s with
  | Renewing (Ret (_, l)) => Sys (guard s) (Waiting l) (outside s)
  | Renewing p => let '(p, w) := prog_step p (outside s) in Sys (guard s) (Renewing p) w
  | Releasing (Ret _) => Sys (guard s) Ended (outside s)
  | Releasing p => let '(p, w) := prog_step p (outside s) in Sys (guard s) (Releasing p) w
  | _ => s
  end.

Definition crash (to : task_stage) (s : sys) : sys :=
  match at_stage s with
  | Ended | Panicked | Cancelled => s
  | _ => Sys (guard s) to (outside s)
  end.

(** The [select!] takes either arm that is ready: the channel is closed once
    the sender is gone. *)
Definition task_move (s : sys) (m : move) : sys :=
  match m, at_stage s with
  | Tick, Waiting l => Sys (guard s) (Renewing (renew l)) (outside s)
  | Fired, Waiting l =>
      if shutdown (guard s) then s else Sys (guard s) (Releasing (release l)) (outside s)
  | Step, _ => work s
  | Panic, _ => crash Panicked s
  | Dropped, _ => crash Cancelled s
  | _, _ => s
  end.

Definition moved (ms : list move) (s : sys) : sys := fold_left task_move ms s.

(** [self.shutdown.take()], which is all that [Drop] does too, and
    [self.task.take()]. *)
Definition drop_guard : act sys unit := fun s =>
  (tt, Sys {| shutdown := false; task := task (guard s) |} (at_stage s) (outside s)).

Definition take_task : act sys bool := fun s =>
  (task (guard s), Sys {| shutdown := shutdown (guard s); task := false |} (at_stage s) (outside s)).

(** [tokio::time::timeout(timeout, task).await] *)
Definition join_within (moves : list move) : act sys JoinOutcome := fun s =>
  let s := moved moves s in
  (match at_stage s with
   | Ended => Joined
   | Panicked => JoinPanicked
   | Cancelled => JoinCancelled
   | _ => TimedOut
   end, s).

(** [release_within]: how the wait came out, [None] where the task had been
    taken before.  [during] is what the task does in so many seconds. *)
Definition release_within (during : Z -> list move) (timeout : Z) : act sys (option JoinOutcome) :=
  _ ← drop_guard;
  had ← take_task;
  if (had : bool) then timed_out ← join_within (during timeout); mret (Some timed_out)
  else mret None.

(** [LeaseGuard::release] takes the guard, which is dropped at its end. *)
Definition release_guard (during : Z -> list move) : act sys (option JoinOutcome) :=
  out ← release_within during RELEASE_TIMEOUT;
  _ ← drop_guard;
  mret out.

(** ** Facts *)

Lemma moved_app ms ms' s : moved (ms ++ ms') s = moved ms' (moved ms s).
Proof. apply fold_left_app. Qed.

Lemma guard_moved ms s : guard (moved ms s) = guard s.
Proof.
  revert s. induction ms as [|m ms IH]; intros s; cbn; [done|]. rewrite IH.
  destruct s as [g st w], m, st as [l|[[]|? ? ?]|[[]|? ? ?]| | |]; cbn; try done;
    unfold work; cbn; try (by destruct (f w)); by destruct (shutdown g).
Qed.

(** *** The task comes to its end *)

Definition crashed (st : task_stage) : Prop := st = Panicked \/ st = Cancelled.

Lemma ended_stays ms s : at_stage s = Ended -> moved ms s = s.
Proof.
  revert s. induction ms as [|m ms IH]; intros [g st w] E; cbn in *; [done|].
  assert (task_move (Sys g st w) m = Sys g st w) as -> by (subst; by destruct m). by apply IH.
Qed.

Lemma waiting_steps n g l w : moved (replicate n Step) (Sys g (Waiting l) w) = Sys g (Waiting l) w.
Proof. by induction n. Qed.

Lemma renewing_steps g p w : exists n l w', forall m, n <= m ->
  moved (replicate m Step) (Sys g (Renewing p) w) = Sys g (Waiting l) w'.
Proof.
  revert w. induction p as [[ok l]|X f k IH]; intros w.
  - exists 1, l, w. intros [|m] Hm; [lia|]. apply waiting_steps.
  - destruct (f w) as [x w1] eqn:E. destruct (IH x w1) as (n & l & w' & Hn).
    exists (1 + n), l, w'. intros [|m] Hm; [lia|]. cbn. unfold work. cbn. rewrite E. apply Hn. lia.
Qed.

Lemma releasing_steps g p w : exists n, forall m, n <= m ->
  at_stage (moved (replicate m Step) (Sys g (Releasing p) w)) = Ended.
Proof.
  revert w. induction p as [[]|X f k IH]; intros w.
  - exists 1. intros [|m] Hm; [lia|]. cbn. by rewrite ended_stays.
  - destruct (f w) as [x w1] eqn:E. destruct (IH x w1) as [n Hn].
    exists (1 + n). intros [|m] Hm; [lia|]. cbn. unfold work. cbn. rewrite E. apply Hn. lia.
Qed.

Definition long_enough (m : nat) : list move := replicate m Step ++ [Fired] ++ replicate m Step.

Lemma waiting_ends g l w : shutdown g = false -> exists n, forall m, n <= m ->
  at_stage (moved ([Fired] ++ replicate m Step) (Sys g (Waiting l) w)) = Ended.
Proof.
  intros Hg. destruct (releasing_steps g (release l) w) as [n Hn].
  exists n. intros m Hm. cbn. rewrite Hg. by apply Hn.
Qed.

Lemma given_time s : shutdown (guard s) = false -> ~ crashed (at_stage s) -> exists n, forall m, n <= m ->
  at_stage (moved (long_enough m) s) = Ended.
Proof.
  destruct s as [g [l|p|p| | |] w]; cbn [at_stage guard]; intros Hg Hc; unfold long_enough, crashed in *.
  - destruct (waiting_ends g l w Hg) as [n Hn]. exists n. intros m Hm.
    rewrite moved_app, waiting_steps. by apply Hn.
  - destruct (renewing_steps g p w) as (n1 & l & w' & H1). destruct (waiting_ends g l w' Hg) as [n2 H2].
    exists (n1 + n2). intros m Hm. rewrite moved_app, H1 by lia. apply H2. lia.
  - destruct (releasing_steps g p w) as [n Hn]. exists n. intros m Hm.
    rewrite moved_app, ended_stays by by apply Hn. by apply Hn.
  - exists 0. intros m _. by rewrite ended_stays.
  - tauto.
  - tauto.
Qed.

(** *** What the task leaves *)

Context `{!ObjectStoreLaws S G} `{!SerdeLaws LeaseRecord}.
Variable key : string.

Definition good (l : WriterLease) (w : world S) : Prop :=
  os_inv (store w) /\ os_up (store w) /\ lost l = false /\ path l = key /\
  own_or_free (record l) (data w !! key).

Definition freed (w : world S) : Prop :=
  os_inv (store w) /\ os_up (store w) /\ data w !! key = None.

(** The task only releases once the sender is gone, and a task that ended has
    left the key free. *)
Definition guard_inv (s : sys) : Prop :=
  match at_stage s with
  | Waiting l => good l (outside s)
  | Renewing p => wp (run p) (fun r w => good r.2 w) (outside s)
  | Releasing p => shutdown (guard s) = false /\ wp (run p) (fun _ w => freed w) (outside s)
  | Ended => shutdown (guard s) = false /\ freed (outside s)
  | Panicked | Cancelled => True
  end.

Lemma wp_prog_step {A} (p : prog (world S) A) Q w :
  wp (run p) Q w -> wp (run (prog_step p w).1) Q (prog_step p w).2.
Proof. destruct p as [a|X f k]; cbn; [done|]. unfold wp. cbn. by destruct (f w). Qed.

Lemma renew_good l w : good l w -> wp (run (renew l)) (fun r w' => good r.2 w') w.
Proof.
  intros (Hi & Hu & Hl & Hp & Ho). rewrite <- Hp in Ho. eapply wp_mono; [by apply wp_renew|].
  intros [ok l'] w1 (Hi1 & Hp1 & Hinst & Hok & _ & _ & Hw & Htrue & Hup).
  specialize (Htrue Hu Hl Ho). subst ok. destruct (Hw Htrue) as (_ & b & v & Hd & Hb). unfold good. cbn.
  split_and!; [done|by apply Hup|by destruct (lost l')|congruence|].
  rewrite Hd, <- Hp, lookup_insert_eq. intros b' v' [= <- <-]. by exists (record l').
Qed.

Lemma release_freed l w : good l w -> wp (run (release l)) (fun _ w' => freed w') w.
Proof.
  intros (Hi & Hu & Hl & Hp & Ho). rewrite <- Hp in Ho. eapply wp_mono; [by apply wp_release|].
  intros [] w1 (Hi1 & _ & Hup). destruct (Hup Hu) as [Hu1 Hd]. specialize (Hd Ho).
  split_and!; [done..|]. by rewrite Hd, <- Hp, lookup_delete_eq.
Qed.

Lemma work_inv s : guard_inv s -> guard_inv (work s).
Proof.
  destruct s as [g [l|p|p| | |] w]; unfold guard_inv, work; cbn; try done.
  - intros Hp. pose proof (wp_prog_step _ _ _ Hp) as Hs. destruct p as [[ok l]|X f k]; [done|].
    cbn [prog_step fst snd] in Hs |- *. destruct (f w) as [x w1]. exact Hs.
  - intros [Hg Hp]. pose proof (wp_prog_step _ _ _ Hp) as Hs. destruct p as [[]|X f k]; [done|].
    cbn [prog_step fst snd] in Hs |- *. by destruct (f w) as [x w1].
Qed.

Lemma task_move_inv s m : guard_inv s -> guard_inv (task_move s m).
Proof.
  intros Hs. destruct m; cbn [task_move]; [| |by apply work_inv|..];
    destruct s as [g [l|p|p| | |] w]; cbn [at_stage crash]; try done.
  - by apply renew_good.
  - cbn [guard]. destruct (shutdown g) eqn:E; [done|]. split; [done|]. by apply release_freed.
Qed.

Lemma moved_inv ms s : guard_inv s -> guard_inv (moved ms s).
Proof. revert s. induction ms as [|m ms IH]; intros s Hs; [done|]. by apply IH, task_move_inv. Qed.

Lemma drop_inv s : guard_inv s -> wp drop_guard (fun _ s' => guard_inv s') s.
Proof. destruct s as [g [l|p|p| | |] w]; unfold wp, guard_inv; cbn; tauto. Qed.

Lemma take_task_inv s : guard_inv s -> wp take_task (fun _ s' => guard_inv s') s.
Proof. destruct s as [g [l|p|p| | |] w]; unfold wp, guard_inv; cbn; tauto. Qed.

(** While the sender is there the task does not release. *)
Definition on_duty (st : task_stage) : Prop :=
  match st with Releasing _ | Ended => False | _ => True end.

Lemma guard_inv_duty s : guard_inv s -> shutdown (guard s) = true -> on_duty (at_stage s).
Proof. destruct s as [g [l|p|p| | |] w]; cbn; try done; intros [? _] ?; congruence. Qed.

Definition crash_free (ms : list move) : Prop := Forall (fun m => m <> Panic /\ m <> Dropped) ms.

Lemma moved_uncrashed ms s : crash_free ms -> ~ crashed (at_stage s) -> ~ crashed (at_stage (moved ms s)).
Proof.
  intros Hms. revert s. induction Hms as [|m ms [] _ IH]; intros s Hs; [done|]. apply IH.
  unfold crashed in *. destruct s as [g [l|p|p| | |] w], m; cbn in *; try done; try (by intros [?|?]).
  - destruct (shutdown g); by intros [?|?].
  - unfold work. cbn. destruct p as [[ok l]|X f k]; cbn; [by intros [?|?]|].
    destruct (f w); by intros [?|?].
  - unfold work. cbn. destruct p as [[]|X f k]; cbn; [by intros [?|?]|].
    destruct (f w); by intros [?|?].
Qed.

(** The first call lets go of both ends, the second finds neither. *)
Lemma release_within_first during timeout s : task (guard s) = true ->
  release_within during timeout s =
    let s' := moved (during timeout)
                (Sys {| shutdown := false; task := false |} (at_stage s) (outside s)) in
    (Some (match at_stage s' with
           | Ended => Joined | Panicked => JoinPanicked | Cancelled => JoinCancelled | _ => TimedOut
           end), s').
Proof. intros Ht. unfold release_within, mbind, act_bind. cbn. by rewrite Ht. Qed.

Lemma release_within_again during timeout s : guard s = {| shutdown := false; task := false |} ->
  release_within during timeout s = (None, s).
Proof. destruct s as [g st w]. cbn. by intros ->. Qed.

Lemma freed_ended s : guard_inv s -> at_stage s = Ended -> freed (outside s).
Proof. unfold guard_inv. intros Hs E. rewrite E in Hs. apply Hs. Qed.

Lemma let_go_inv s : guard_inv s ->
  guard_inv (Sys {| shutdown := false; task := false |} (at_stage s) (outside s)).
Proof. destruct s as [g [l|p|p| | |] w]; cbn; tauto. Qed.
End guard.

Section hands_over.
Context {S G : Type} `{!ObjectStore S G} `{!ObjectStoreLaws S G}.
Context `{!Serde LeaseRecord} `{!SerdeLaws LeaseRecord}.
Implicit Types w : world S.

Lemma acquire_freed me db_prefix ttl w : freed (lease_path (trim_matches "/" db_prefix)) w ->
  wp (run (acquire me db_prefix ttl)) (fun out _ => is_ok out = true) w.
Proof.
  intros (Hi & Hu & Hfree). eapply wp_mono; [by apply wp_acquire|]. cbn zeta.
  rewrite Hfree. intros out w1 (_ & _ & -> & _). done.
Qed.

(** C40: the guard hands the prefix over, and once.  On a store that answers,
    where nobody has displaced the holder or writes beside it, and whatever its
    task did before, the task does not release while the guard is held.  A release of the guard that
    sees the task end leaves the prefix to the next claim, whoever makes it and
    whatever the TTL; one that stops waiting leaves a task that, unless it
    crashed, frees the prefix on its own; and a release that waits long enough
    sees the task end.  A second release waits for nothing and changes nothing. *)
Theorem guard_hands_over db_prefix l before during timeout w :
  let key := lease_path (trim_matches "/" db_prefix) in
  good key l w ->
  let s := moved before (spawn_renewer l w) in
  on_duty (at_stage s) /\
  wp (release_within during timeout) (fun out s' =>
    is_Some out /\
    (out = Some Joined -> forall me ttl,
       wp (run (acquire me db_prefix ttl)) (fun r _ => is_ok r = true) (outside s')) /\
    (~ crashed (at_stage s') -> exists n, forall m, n <= m -> freed key (outside (moved (long_enough m) s'))) /\
    wp (release_within during timeout) (fun again s'' => again = None /\ s'' = s') s') s /\
  (crash_free before -> exists n, forall m, n <= m -> during timeout = long_enough m ->
     wp (release_within during timeout) (fun out _ => out = Some Joined) s).
Proof.
  intros key Hl s. assert (guard_inv key s) as Hs by by apply moved_inv.
  assert (guard s = {| shutdown := true; task := true |}) as Hg by apply guard_moved.
  pose proof (let_go_inv key s Hs) as Hs0. unfold wp. rewrite release_within_first by by rewrite Hg.
  cbn zeta. set (s0 := Sys _ _ _) in *. pose proof (guard_moved (during timeout) s0) as Hg1.
  pose proof (moved_inv key (during timeout) s0 Hs0) as Hs1. split_and!.
  - apply (guard_inv_duty key); [done|by rewrite Hg].
  - by eexists.
  - intros Hj me ttl. apply acquire_freed, (freed_ended key); [done|]. by destruct (at_stage (moved _ s0)).
  - intros Hc. destruct (given_time (moved (during timeout) s0)) as [n Hn]; [by rewrite Hg1|done|].
    exists n. intros m Hm. apply (freed_ended key); [by apply moved_inv|by apply Hn].
  - by rewrite release_within_again.
  - intros Hb. destruct (given_time s0) as [n Hn]; [done|apply moved_uncrashed; [done|by intros [|]]|].
    exists n. intros m Hm Ed. by rewrite Ed, Hn.
Qed.
End hands_over.

(** ** Examples *)

Module LeaseGuardExamples.
Import LeaseExamples.

#[local] Existing Instances MemStore.os MemStore.laws LeaseExamples.serde LeaseExamples.serde_laws.

Definition alices_lease : WriterLease := new_lease (lease_path "db") old_record.

Definition serving : sys (S := MemStore.store) :=
  moved [Tick; Step; Step] (spawn_renewer alices_lease (at_ 50 (with_record old_record))).

(** A release during a renewal, given enough time, too little, and none at all. *)
Example released_in_time :
  (release_guard (fun _ => long_enough 10) serving).1 = Some Joined /\
  data (outside (release_guard (fun _ => long_enough 10) serving).2) !! lease_path "db" = None.
Proof. by vm_compute. Qed.

Example released_too_late :
  (release_guard (fun _ => [Step; Step]) serving).1 = Some TimedOut /\
  is_Some (data (outside (release_guard (fun _ => [Step; Step]) serving).2) !! lease_path "db").
Proof. vm_compute. eauto. Qed.

Example dropped_at_exit :
  is_Some (data (outside (moved [Dropped; Fired; Step; Step; Step] (drop_guard serving).2)) !! lease_path "db").
Proof. vm_compute. eauto. Qed.

Lemma guard_hands_over_witness :
  on_duty (at_stage serving) /\
  wp (release_within (fun _ => long_enough 10) RELEASE_TIMEOUT) (fun out s' =>
    is_Some out /\
    (out = Some Joined -> forall me ttl,
       wp (run (acquire me "db" ttl)) (fun r _ => is_ok r = true) (outside s')) /\
    (~ crashed (at_stage s') -> exists n, forall m, n <= m ->
       freed (lease_path "db") (outside (moved (long_enough m) s'))) /\
    wp (release_within (fun _ => long_enough 10) RELEASE_TIMEOUT) (fun again s'' => again = None /\ s'' = s') s')
    serving /\
  (crash_free [Tick; Step; Step] -> exists n, forall m, n <= m -> long_enough 10 = long_enough m ->
     wp (release_within (fun _ => long_enough 10) RELEASE_TIMEOUT) (fun out _ => out = Some Joined) serving).
Proof.
  apply (guard_hands_over "db" alices_lease [Tick; Step; Step] (fun _ => long_enough 10) RELEASE_TIMEOUT
           (at_ 50 (with_record old_record))).
  split_and!; [apply inv_record|reflexivity..|].
  intros b v H. exists old_record. vm_compute in H. injection H as <- <-. by split; vm_compute.
Defined.
End LeaseGuardExamples.
