(* ===== verification/Queue.v ===== *)
(** Queue: the data of the job queue, its [JobQueue] interface with the contract
    every backend promises, and the worker loop that is its client
    ([src/src/queue.rs], [src/src/queue/worker.rs], [metrics.rs],
    [rabbitmq.rs]). *)
From S2P Require Import Prelude.
From S2P Require Import Effects.
From S2P Require Import RustStr.

(** ** Data *)

(** A UUID, as the 128-bit number it stands for. *)
Abbreviation Uuid := N.
Abbreviation JobId := Uuid.

Record Job := {
  id : Uuid;
  kind : string;
  payload : string;
  priority : Z;
  attempt : Z;
  max_attempts : Z;
  created_at : Z;
  scheduled_at : Z;
  idempotency_key : option string;
  headers : gmap string string;
}.

#[export] Instance Job_eq_dec : EqDecision Job.
Proof. solve_decision. Defined.

Record LeasedJob := {
  job : Job;
  lease_expires_at : Z;
}.

Inductive JobStatus : Type :=
| Queued
| Leased (worker : string) (expires_at : Z)
| Succeeded (res : option string) (finished_at : Z)
| Failed (error : string) (finished_at : Z)
| Dead (error : string) (finished_at : Z).

#[export] Instance JobStatus_eq_dec : EqDecision JobStatus.
Proof. solve_decision. Defined.

(** The delay is a [Duration]. *)
Inductive RetryPolicy : Type :=
| NoRetry
| Retry (delay : Z).

Inductive QueueError : Type :=
| QStore (detail : string)
| QNotFound (i : JobId)
| QAlreadyLeased
| QLeaseExpired
| QDuplicateIdempotency (key : string)
| QInvalid (detail : string)
| QUnsupported (detail : string)
| QIo (detail : string).

(** What a backend stores of a job, for every backend. *)
Record StoredJob := {
  sj_job : Job;
  sj_status : JobStatus;
}.

#[export] Instance StoredJob_eq_dec : EqDecision StoredJob.
Proof. solve_decision. Defined.

(** ** Trace headers *)

(** [inject_trace_context]: the registered propagator is called with a map that
    inserts each header it sets; [fields] are the headers the propagator sets
    for the current span. *)
Definition inject_trace_context (fields : list (string * string)) (h : gmap string string) :
    gmap string string :=
  foldl (fun h kv => <[kv.1 := kv.2]> h) h fields.

(** [MapExtractor::get]: the first header, in key order, whose name is [key] up
    to ASCII case. *)
Definition header_le (a b : string * string) : bool := bool_decide (String.le a.1 b.1).

Definition extract_header (h : gmap string string) (key : string) : option string :=
  snd <$> List.find (fun kv => eq_ignore_ascii_case kv.1 key) (sort_by header_le (map_to_list h)).

(** ** Metrics

    The counters and gauges are the list of the recordings made on them. *)
Inductive metric : Type :=
| m_enqueued
| m_reserved (count : Z)
| m_completed
| m_failed
| m_dead_lettered
| m_depth (depth : Z)
| m_duration.

Definition record_metric (m : metric) : act (list metric) unit := fun l => (tt, l ++ [m]).

(** ** The interface *)

Class JobQueue (W : Type) := {
  enqueue : Job -> prog W (result JobId QueueError);
  reserve : string -> nat -> Z -> prog W (result (list LeasedJob) QueueError);
  ack : JobId -> option string -> prog W (result unit QueueError);
  nack : JobId -> string -> RetryPolicy -> prog W (result unit QueueError);
  extend_lease : JobId -> Z -> prog W (result unit QueueError);
  status : JobId -> prog W (result JobStatus QueueError);
}.

(** The RabbitMQ backend reserves the seam and refuses every call. *)
Definition not_wired {W A : Type} : prog W (result A QueueError) :=
  mret (Err (QUnsupported "rabbitmq backend is not wired")).

Definition RabbitMqQueue (W : Type) : JobQueue W := {|
  enqueue _ := not_wired;
  reserve _ _ _ := not_wired;
  ack _ _ := not_wired;
  nack _ _ _ := not_wired;
  extend_lease _ _ := not_wired;
  status _ := not_wired;
|}.

(** ** What a backend promises

    The backends differ in how they store a job and in when other tasks can
    run; a call made alone does the same in all of them. *)

(** An expired lease is put back. *)
Definition expired (now : Z) (st : JobStatus) : bool :=
  match st with
  | Leased _ e => bool_decide (e <= now)%Z
  | _ => false
  end.

Definition sweep_job (now : Z) (sj : StoredJob) : StoredJob :=
  if expired now (sj_status sj)
  then {| sj_job := sj_job sj; sj_status := Queued |} else sj.

(** The jobs a worker may take at [now]. *)
Definition claimable (now : Z) (sj : StoredJob) : bool :=
  bool_decide (sj_status sj = Queued) && bool_decide (scheduled_at (sj_job sj) <= now)%Z.

(** The order in which jobs are handed out: the higher priority, then the older. *)
Definition job_le (a b : Job) : bool :=
  bool_decide (priority b < priority a)%Z ||
  (bool_decide (priority a = priority b) && bool_decide (created_at a <= created_at b)%Z).

Definition sj_le (a b : StoredJob) : bool := job_le (sj_job a) (sj_job b).

Definition lease_until (now lease : Z) : Z := i64_add now (u64_as_i64 (as_secs lease)).

Definition take_lease (worker : string) (e : Z) (sj : StoredJob) : StoredJob :=
  {| sj_job := sj_job sj; sj_status := Leased worker e |}.

Definition retried (j : Job) (now delay : Z) : Job :=
  {| id := id j; kind := kind j; payload := payload j; priority := priority j;
     attempt := u32_saturating_add (attempt j) 1; max_attempts := max_attempts j;
     created_at := created_at j; scheduled_at := lease_until now delay;
     idempotency_key := idempotency_key j; headers := headers j |}.

(** What a failed attempt makes of a job. *)
Definition nack_job (now : Z) (error : string) (retry : RetryPolicy) (sj : StoredJob) : StoredJob :=
  match retry with
  | NoRetry => {| sj_job := sj_job sj; sj_status := Failed error now |}
  | Retry delay =>
      if bool_decide (max_attempts (sj_job sj) <= u32_saturating_add (attempt (sj_job sj)) 1)%Z
      then {| sj_job := sj_job sj; sj_status := Dead error now |}
      else {| sj_job := retried (sj_job sj) now delay; sj_status := Queued |}
  end.

Definition with_headers (j : Job) (h : gmap string string) : Job :=
  {| id := id j; kind := kind j; payload := payload j; priority := priority j;
     attempt := attempt j; max_attempts := max_attempts j; created_at := created_at j;
     scheduled_at := scheduled_at j; idempotency_key := idempotency_key j; headers := h |}.

Definition enqueued (fields : list (string * string)) (j : Job) : StoredJob :=
  {| sj_job := with_headers j (inject_trace_context fields (headers j)); sj_status := Queued |}.

(** A queue as a client sees it: the job stored under each identifier, and the
    identifier each idempotency key stands for. *)
Record queue := {
  jobs : JobId -> option StoredJob;
  keys : string -> option JobId;
}.

Definition update {K V} `{EqDecision K} (f : K -> option V) (k : K) (v : V) : K -> option V :=
  fun k' => if decide (k' = k) then Some v else f k'.

(** Two queues a client cannot tell apart. *)
Definition queue_equiv (q1 q2 : queue) : Prop :=
  (forall i, jobs q1 i = jobs q2 i) /\ (forall k, keys q1 k = keys q2 k).

#[export] Instance queue_equivalence : Equivalence queue_equiv.
Proof.
  split.
  - by split.
  - intros ?? []. by split.
  - intros ??? [H1 H2] [H3 H4]. split; congruence.
Qed.

Definition sweep_queue (now : Z) (q : queue) : queue :=
  {| jobs i := sweep_job now <$> jobs q i; keys := keys q |}.

Definition set_job (i : JobId) (sj : StoredJob) (q : queue) : queue :=
  {| jobs := update (jobs q) i sj; keys := keys q |}.

Definition set_key (k : option string) (i : JobId) (q : queue) : queue :=
  match k with
  | Some k => {| jobs := jobs q; keys := update (keys q) k i |}
  | None => q
  end.

(** [l] lists the claimable jobs of [q], best first. *)
Definition candidates (now : Z) (q : queue) (l : list StoredJob) : Prop :=
  (forall sj, sj ∈ l <-> jobs q (id (sj_job sj)) = Some sj /\ claimable now sj = true) /\
  NoDup ((fun sj => id (sj_job sj)) <$> l) /\
  StronglySorted (fun a b => sj_le a b = true) l.

Definition lease_all (worker : string) (e : Z) (l : list StoredJob) (q : queue) : queue :=
  foldl (fun q sj => set_job (id (sj_job sj)) (take_lease worker e sj) q) q l.

Section spec.
Variable fields : list (string * string).

Definition enqueue_spec (j : Job) (q : queue) : result JobId QueueError * queue :=
  if bool_decide (max_attempts j = 0%Z)
  then (Err (QInvalid "max_attempts must be positive"), q)
  else match idempotency_key j ≫= keys q with
       | Some i => (Ok i, q)
       | None => (Ok (id j), set_key (idempotency_key j) (id j) (set_job (id j) (enqueued fields j) q))
       end.

(** A reservation may order jobs of one priority and age as it likes. *)
Definition reserve_spec (worker : string) (limit : nat) (lease t0 t1 : Z) (q : queue)
    (r : result (list LeasedJob) QueueError) (q' : queue) : Prop :=
  exists l, candidates t1 (sweep_queue t0 q) l /\
    let taken := take limit l in
    let e := lease_until t1 lease in
    r = Ok ((fun sj => {| job := sj_job sj; lease_expires_at := e |}) <$> taken) /\
    queue_equiv q' (lease_all worker e taken (sweep_queue t0 q)).

Definition finish_spec (i : JobId) (f : StoredJob -> StoredJob) (q : queue) :
    result unit QueueError * queue :=
  match jobs q i with
  | None => (Err (QNotFound i), q)
  | Some sj => (Ok tt, set_job i (f sj) q)
  end.

Definition ack_job (now : Z) (res : option string) (sj : StoredJob) : StoredJob :=
  {| sj_job := sj_job sj; sj_status := Succeeded res now |}.

Definition extend_spec (i : JobId) (lease t0 t1 : Z) (q : queue) :
    result unit QueueError * queue :=
  let q := sweep_queue t0 q in
  match jobs q i with
  | None => (Err (QNotFound i), q)
  | Some sj =>
      match sj_status sj with
      | Leased w e =>
          if bool_decide (e <= t1)%Z then (Err QLeaseExpired, q)
          else (Ok tt, set_job i (take_lease w (lease_until t1 lease) sj) q)
      | _ => (Err QAlreadyLeased, q)
      end
  end.

Definition status_spec (i : JobId) (t0 : Z) (q : queue) : result JobStatus QueueError * queue :=
  let q := sweep_queue t0 q in
  (match jobs q i with Some sj => Ok (sj_status sj) | None => Err (QNotFound i) end, q).
End spec.

(** The contract.  [q_inv] holds of a backend that is well formed and whose
    store answers; [q_clk] is the clock it reads. *)
Class JobQueueLaws (W : Type) (fields : list (string * string)) `{JobQueue W} := {
  q_inv : W -> Prop;
  q_view : W -> queue;
  q_clk : W -> clock;
  q_kept w w' := q_inv w' /\ reading (q_clk w') = reading (q_clk w);
  q_does {A} (spec : queue -> A * queue) w r w' :=
    q_kept w w' /\ r = (spec (q_view w)).1 /\ queue_equiv (q_view w') (spec (q_view w)).2;
  enqueue_law j w : q_inv w ->
    wp (run (enqueue j)) (q_does (enqueue_spec fields j) w) w;
  reserve_law wk n lease w : q_inv w -> wp (run (reserve wk n lease)) (fun r w' =>
    q_kept w w' /\
    reserve_spec wk n lease (now_of (q_clk w) 0) (now_of (q_clk w) 1) (q_view w) r (q_view w')) w;
  ack_law i res w : q_inv w ->
    wp (run (ack i res)) (q_does (finish_spec i (ack_job (now_of (q_clk w) 0) res)) w) w;
  nack_law i e retry w : q_inv w ->
    wp (run (nack i e retry)) (q_does (finish_spec i (nack_job (now_of (q_clk w) 0) e retry)) w) w;
  extend_law i lease w : q_inv w ->
    wp (run (extend_lease i lease))
      (q_does (extend_spec i lease (now_of (q_clk w) 0) (now_of (q_clk w) 1)) w) w;
  status_law i w : q_inv w ->
    wp (run (status i)) (q_does (status_spec i (now_of (q_clk w) 0)) w) w;
}.

(** *** Facts about the specification *)

#[export] Instance set_job_proper i sj : Proper (queue_equiv ==> queue_equiv) (set_job i sj).
Proof. intros q1 q2 [Hj Hk]. split; [|done]. intros i'. cbn. unfold update. by case_decide. Qed.

#[export] Instance set_key_proper k i : Proper (queue_equiv ==> queue_equiv) (set_key k i).
Proof.
  intros q1 q2 [Hj Hk]. destruct k as [k|]; [|by split].
  split; [done|]. intros k'. cbn. unfold update. by case_decide.
Qed.

#[export] Instance sweep_queue_proper t : Proper (queue_equiv ==> queue_equiv) (sweep_queue t).
Proof. intros q1 q2 [Hj Hk]. split; [|done]. intros i. cbn. by rewrite Hj. Qed.

Lemma lease_all_cons wk e sj l q :
  lease_all wk e (sj :: l) q = lease_all wk e l (set_job (id (sj_job sj)) (take_lease wk e sj) q).
Proof. done. Qed.
#[export] Hint Rewrite lease_all_cons : rapi.

#[export] Instance lease_all_proper wk e l : Proper (queue_equiv ==> queue_equiv) (lease_all wk e l).
Proof.
  induction l as [|sj l IH]; intros q1 q2 Hq; [done|].
  rewrite !lease_all_cons. apply IH. by rewrite Hq.
Qed.

Lemma update_eq {K V} `{EqDecision K} (f : K -> option V) k v : update f k v k = Some v.
Proof. unfold update. by rewrite decide_True. Qed.

Lemma update_ne {K V} `{EqDecision K} (f : K -> option V) k v k' :
  k' <> k -> update f k v k' = f k'.
Proof. intros. unfold update. by rewrite decide_False. Qed.

#[export] Hint Rewrite @update_eq @update_ne using done : rapi.

Lemma lease_all_keys wk e l q k : keys (lease_all wk e l q) k = keys q k.
Proof. revert q. induction l as [|sj l IH]; intros q; [done|].
  by rewrite lease_all_cons, IH. Qed.

Lemma lease_all_other wk e l q i :
  i ∉ ((fun sj => id (sj_job sj)) <$> l) -> jobs (lease_all wk e l q) i = jobs q i.
Proof.
  revert q. induction l as [|sj l IH]; intros q Hi; [done|].
  rewrite lease_all_cons. cbn in Hi.
  apply not_elem_of_cons in Hi as [Hne Hi]. rewrite IH by done. cbn. by apply update_ne.
Qed.

Lemma lease_all_taken wk e l q sj :
  NoDup ((fun sj => id (sj_job sj)) <$> l) -> sj ∈ l ->
  jobs (lease_all wk e l q) (id (sj_job sj)) = Some (take_lease wk e sj).
Proof.
  revert q. induction l as [|sj' l IH]; intros q Hnd Hin; [by apply elem_of_nil in Hin|].
  cbn in Hnd. apply NoDup_cons in Hnd as [Hn Hnd]. rewrite lease_all_cons.
  apply elem_of_cons in Hin as [<-|Hin]; [|by apply IH].
  rewrite lease_all_other by done. cbn. by rewrite update_eq.
Qed.

(** [job_le] is a total preorder. *)
Lemma job_le_total a b : job_le a b = false -> job_le b a = true.
Proof. unfold job_le. repeat case_bool_decide; cbn; try done; lia. Qed.

Lemma job_le_trans a b c : job_le a b = true -> job_le b c = true -> job_le a c = true.
Proof. unfold job_le. repeat case_bool_decide; cbn; try done; lia. Qed.

Lemma sweep_job_job t sj : sj_job (sweep_job t sj) = sj_job sj.
Proof. unfold sweep_job. by destruct (expired t (sj_status sj)). Qed.

Lemma sweep_job_done t sj : (forall w e, sj_status sj <> Leased w e) -> sweep_job t sj = sj.
Proof. unfold sweep_job, expired. intros H. destruct (sj_status sj) eqn:E; try done. by destruct (H _ _ eq_refl). Qed.

(** ** Histories

    A history of calls made one after another, and what the specification
    allows it to answer. *)
Inductive call : Type :=
| CallEnqueue (j : Job)
| CallReserve (worker : string) (limit : nat) (lease : Z)
| CallAck (i : JobId) (res : option string)
| CallNack (i : JobId) (error : string) (retry : RetryPolicy)
| CallExtend (i : JobId) (lease : Z)
| CallStatus (i : JobId).

Inductive reply : Type :=
| ReplyId (r : result JobId QueueError)
| ReplyJobs (r : result (list LeasedJob) QueueError)
| ReplyUnit (r : result unit QueueError)
| ReplyStatus (r : result JobStatus QueueError).

Definition perform {W} `{!JobQueue W} (c : call) : prog W reply :=
  match c with
  | CallEnqueue j => r ← enqueue j; mret (ReplyId r)
  | CallReserve wk n lease => r ← reserve wk n lease; mret (ReplyJobs r)
  | CallAck i res => r ← ack i res; mret (ReplyUnit r)
  | CallNack i e retry => r ← nack i e retry; mret (ReplyUnit r)
  | CallExtend i lease => r ← extend_lease i lease; mret (ReplyUnit r)
  | CallStatus i => r ← status i; mret (ReplyStatus r)
  end.

Fixpoint perform_all {W} `{!JobQueue W} (cs : list call) : prog W (list reply) :=
  match cs with
  | [] => mret []
  | c :: cs => r ← perform c; rs ← perform_all cs; mret (r :: rs)
  end.

(** One call on a queue, read at the times [t0] and [t1]. *)
Definition call_spec (fields : list (string * string)) (c : call) (t0 t1 : Z) (q : queue)
    (r : reply) (q' : queue) : Prop :=
  match c with
  | CallEnqueue j =>
      r = ReplyId (enqueue_spec fields j q).1 /\ queue_equiv q' (enqueue_spec fields j q).2
  | CallReserve wk n lease => exists out, r = ReplyJobs out /\ reserve_spec wk n lease t0 t1 q out q'
  | CallAck i res =>
      let o := finish_spec i (ack_job t0 res) q in r = ReplyUnit o.1 /\ queue_equiv q' o.2
  | CallNack i e retry =>
      let o := finish_spec i (nack_job t0 e retry) q in r = ReplyUnit o.1 /\ queue_equiv q' o.2
  | CallExtend i lease =>
      let o := extend_spec i lease t0 t1 q in r = ReplyUnit o.1 /\ queue_equiv q' o.2
  | CallStatus i => let o := status_spec i t0 q in r = ReplyStatus o.1 /\ queue_equiv q' o.2
  end.

(** A history allowed by the specification, its times being readings of a clock. *)
Inductive history (fields : list (string * string)) (clk : nat -> Z) :
    list call -> queue -> list reply -> queue -> Prop :=
| history_nil q : history fields clk [] q [] q
| history_cons c cs q r q1 rs q2 n :
    call_spec fields c (clk n) (clk (S n)) q r q1 ->
    history fields clk cs q1 rs q2 ->
    history fields clk (c :: cs) q (r :: rs) q2.

Section refinement.
Context {W : Type} (fields : list (string * string)).
Context `{!JobQueue W} `{!JobQueueLaws W fields}.

Lemma perform_spec c w : q_inv w ->
  wp (run (perform c)) (fun r w' => q_kept w w' /\
    call_spec fields c (now_of (q_clk w) 0) (now_of (q_clk w) 1) (q_view w) r (q_view w')) w.
Proof.
  intros Hi. destruct c; cbn [perform]; apply wp_run_bind.
  - eapply wp_mono; [by apply enqueue_law|]. intros r w' (Hk & -> & Hv). by apply wp_ret.
  - eapply wp_mono; [by apply reserve_law|]. intros r w' (Hk & Hv). apply wp_ret. split; [done|]. by exists r.
  - eapply wp_mono; [by apply ack_law|]. intros r w' (Hk & -> & Hv). by apply wp_ret.
  - eapply wp_mono; [by apply nack_law|]. intros r w' (Hk & -> & Hv). by apply wp_ret.
  - eapply wp_mono; [by apply extend_law|]. intros r w' (Hk & -> & Hv). by apply wp_ret.
  - eapply wp_mono; [by apply status_law|]. intros r w' (Hk & -> & Hv). by apply wp_ret.
Qed.

Lemma perform_all_spec cs w : q_inv w ->
  wp (run (perform_all cs)) (fun rs w' => q_kept w w' /\
    history fields (reading (q_clk w)) cs (q_view w) rs (q_view w')) w.
Proof.
  revert w. induction cs as [|c cs IH]; intros w Hi; cbn [perform_all].
  { apply wp_ret. split; [done|constructor]. }
  apply wp_run_bind. eapply wp_mono; [by apply perform_spec|]. intros r w1 [[Hi1 Hc1] Hs].
  apply wp_run_bind. eapply wp_mono; [by apply IH|]. intros rs w2 [[Hi2 Hc2] Hh].
  apply wp_ret. split; [split; [done|congruence]|]. rewrite Hc1 in Hh.
  eapply (history_cons _ _ _ _ _ _ _ _ _ (ticks (q_clk w))); [|exact Hh].
  revert Hs. unfold now_of. by rewrite Nat.add_0_r, Nat.add_1_r.
Qed.
End refinement.
