(* ===== verification/MemoryQueue.v ===== *)
(** MemoryQueue: the in-memory backend ([src/src/queue/memory.rs]).

    A call holds the mutex of the state over each block written [locked]; other
    tasks run between the blocks. *)
From S2P Require Import Prelude.
From S2P Require Import Effects.
From S2P Require Import RustStr.
From S2P Require Import Queue.

(** ** State *)

Record Record_ := {
  r_job : Job;
  r_status : JobStatus;
  r_worker : option string;
  r_lease_expires_at : option Z;
  r_result : option string;
  r_error : option string;
  r_finished_at : option Z;
}.

Record State := {
  records : gmap JobId Record_;
  idempotency : gmap string JobId;
}.

Record world := World {
  state : State;
  m_clk : clock;
  m_metrics : list metric;
}.

#[export] Instance clk_lens : Lens clock world :=
  {| view := m_clk; upd c w := World (state w) c (m_metrics w) |}.
#[export] Instance metrics_lens : Lens (list metric) world :=
  {| view := m_metrics; upd m w := World (state w) (m_clk w) m |}.

Definition get_state : act world State := fun w => (state w, w).
Definition set_state (s : State) : act world unit :=
  fun w => (tt, World s (m_clk w) (m_metrics w)).

(** [MemoryQueue::new] *)
Definition empty_state : State := {| records := ∅; idempotency := ∅ |}.

Definition now : act world Z := zoom tick.

(** A block run under the mutex. *)
Definition locked {A} (m : act world A) : prog world A := atomically m.
Definition count (m : metric) : prog world unit := atomically (zoom (record_metric m)).

Definition set_records (r : gmap JobId Record_) (s : State) : State :=
  {| records := r; idempotency := idempotency s |}.

Definition sweep_record (now : Z) (r : Record_) : Record_ :=
  match r_status r with
  | Leased _ expires_at =>
      if bool_decide (expires_at <= now)%Z then
        {| r_job := r_job r; r_status := Queued; r_worker := None; r_lease_expires_at := None;
           r_result := r_result r; r_error := r_error r; r_finished_at := r_finished_at r |}
      else r
  | _ => r
  end.

Definition sweep_expired : act world unit :=
  t ← now;
  s ← get_state;
  set_state (set_records (sweep_record t <$> records s) s).

(** ** Operations *)

Section ops.
Variable fields : list (string * string).

Definition new_record (j : Job) : Record_ :=
  {| r_job := j; r_status := Queued; r_worker := None; r_lease_expires_at := None;
     r_result := None; r_error := None; r_finished_at := None |}.

(** The part of [enqueue] under the first lock: the identifier and whether the
    job is new. *)
Definition enqueue_locked (j : Job) : act world (JobId * bool) :=
  s ← get_state;
  match idempotency_key j ≫= fun key => idempotency s !! key with
  | Some existing => mret (existing, false)
  | None =>
      let idem := match idempotency_key j with
                  | Some key => <[key := id j]> (idempotency s)
                  | None => idempotency s
                  end in
      _ ← set_state {| records := <[id j := new_record j]> (records s); idempotency := idem |};
      mret (id j, true)
  end.

Definition mq_enqueue (j : Job) : prog world (result JobId QueueError) :=
  if bool_decide (max_attempts j = 0%Z)
  then mret (Err (QInvalid "max_attempts must be positive")) else
  let j := with_headers j (inject_trace_context fields (headers j)) in
  '(i, fresh) ← locked (enqueue_locked j);
  if fresh : bool then
    _ ← count m_enqueued;
    depth ← locked (s ← get_state; mret (Z.of_nat (size (records s))));
    _ ← count (m_depth depth);
    mret (Ok i)
  else mret (Ok i).

(** Iteration over the records is in the order of their identifiers. *)
Definition id_le (a b : JobId * Record_) : bool := bool_decide (a.1 <= b.1)%N.
Definition rec_le (a b : JobId * Record_) : bool := job_le (r_job a.2) (r_job b.2).

Definition ready (t : Z) (r : Record_) : bool :=
  bool_decide (r_status r = Queued) && bool_decide (scheduled_at (r_job r) <= t)%Z.

Definition candidate_ids (t : Z) (s : State) : list JobId :=
  fst <$> sort_by rec_le
    (List.filter (fun kr => ready t kr.2) (sort_by id_le (map_to_list (records s)))).

Definition lease_record (worker : string) (e : Z) (r : Record_) : Record_ :=
  {| r_job := r_job r; r_status := Leased worker e; r_worker := Some worker;
     r_lease_expires_at := Some e; r_result := r_result r; r_error := r_error r;
     r_finished_at := r_finished_at r |}.

Fixpoint lease_loop (worker : string) (e : Z) (ids : list JobId) (s : State) :
    list LeasedJob * State :=
  match ids with
  | [] => ([], s)
  | i :: ids =>
      match records s !! i with
      | None => lease_loop worker e ids s
      | Some r =>
          let s := set_records (<[i := lease_record worker e r]> (records s)) s in
          let '(out, s) := lease_loop worker e ids s in
          ({| job := r_job r; lease_expires_at := e |} :: out, s)
      end
  end.

Definition reserve_locked (worker : string) (limit : nat) (lease : Z) : act world (list LeasedJob) :=
  _ ← sweep_expired;
  t ← now;
  s ← get_state;
  let '(out, s) := lease_loop worker (lease_until t lease) (take limit (candidate_ids t s)) s in
  _ ← set_state s;
  mret out.

Definition mq_reserve (worker : string) (limit : nat) (lease : Z) :
    prog world (result (list LeasedJob) QueueError) :=
  out ← locked (reserve_locked worker limit lease);
  _ ← count (m_reserved (Z.of_nat (length out)));
  mret (Ok out).

(** Looks a record up and replaces it by what [f] makes of it. *)
Definition with_record {A} (i : JobId) (f : Record_ -> act world (result A QueueError * Record_)) :
    act world (result A QueueError) :=
  s ← get_state;
  match records s !! i with
  | None => mret (Err (QNotFound i))
  | Some r =>
      '(out, r') ← f r;
      _ ← set_state (set_records (<[i := r']> (records s)) s);
      mret out
  end.

Definition acked (t : Z) (res : option string) (r : Record_) : Record_ :=
  {| r_job := r_job r; r_status := Succeeded res t; r_worker := None;
     r_lease_expires_at := None; r_result := res; r_error := r_error r;
     r_finished_at := Some t |}.

Definition mq_ack (i : JobId) (res : option string) : prog world (result unit QueueError) :=
  _ <-? locked (with_record i (fun r => t ← now; mret (Ok tt, acked t res r)));
  _ ← count m_completed;
  mret (Ok tt).

Definition failed (t : Z) (e : string) (st : JobStatus) (r : Record_) : Record_ :=
  {| r_job := r_job r; r_status := st; r_worker := None; r_lease_expires_at := None;
     r_result := r_result r; r_error := Some e; r_finished_at := Some t |}.

Definition requeued (t : Z) (e : string) (delay : Z) (r : Record_) : Record_ :=
  {| r_job := retried (r_job r) t delay; r_status := Queued; r_worker := None;
     r_lease_expires_at := None; r_result := r_result r; r_error := Some e;
     r_finished_at := r_finished_at r |}.

(** The replacement record, and whether the job is dead. *)
Definition nacked (t : Z) (e : string) (retry : RetryPolicy) (r : Record_) : bool * Record_ :=
  match retry with
  | NoRetry => (false, failed t e (Failed e t) r)
  | Retry delay =>
      let attempt := attempt (r_job r) in
      if bool_decide (max_attempts (r_job r) <= u32_saturating_add attempt 1)%Z
      then (true, failed t e (Dead e t) r)
      else (false, requeued t e delay r)
  end.

Definition mq_nack (i : JobId) (e : string) (retry : RetryPolicy) :
    prog world (result unit QueueError) :=
  dead <-? locked (with_record i (fun r =>
    t ← now; let '(dead, r) := nacked t e retry r in mret (Ok dead, r)));
  _ ← (if dead : bool then count m_dead_lettered else mret tt);
  _ ← count m_failed;
  mret (Ok tt).

Definition extended (w : string) (e : Z) (r : Record_) : Record_ :=
  {| r_job := r_job r; r_status := Leased w e; r_worker := r_worker r;
     r_lease_expires_at := Some e; r_result := r_result r; r_error := r_error r;
     r_finished_at := r_finished_at r |}.

Definition mq_extend_lease (i : JobId) (lease : Z) : prog world (result unit QueueError) :=
  locked (
    _ ← sweep_expired;
    with_record i (fun r =>
      match r_status r with
      | Leased _ expires_at =>
          t ← now;
          if bool_decide (expires_at <= t)%Z then mret (Err QLeaseExpired, r)
          else mret (Ok tt, extended (default "" (r_worker r)) (lease_until t lease) r)
      | _ => mret (Err QAlreadyLeased, r)
      end)).

Definition mq_status (i : JobId) : prog world (result JobStatus QueueError) :=
  locked (
    _ ← sweep_expired;
    s ← get_state;
    match records s !! i with
    | None => mret (Err (QNotFound i))
    | Some r => mret (Ok (r_status r))
    end).

#[export] Instance MemoryQueue : JobQueue world := {|
  enqueue := mq_enqueue;
  reserve := mq_reserve;
  ack := mq_ack;
  nack := mq_nack;
  extend_lease := mq_extend_lease;
  status := mq_status;
|}.
End ops.

(** ** Well-formed states *)

Definition record_ok (i : JobId) (r : Record_) : Prop :=
  id (r_job r) = i /\ max_attempts (r_job r) <> 0%Z /\
  match r_status r with
  | Leased w e => r_worker r = Some w /\ r_lease_expires_at r = Some e
  | _ => r_worker r = None /\ r_lease_expires_at r = None
  end.

Definition state_ok (s : State) : Prop :=
  map_Forall record_ok (records s) /\
  map_Forall (fun _ i => is_Some (records s !! i)) (idempotency s).

(** *** What a client sees *)

Definition stored (r : Record_) : StoredJob := {| sj_job := r_job r; sj_status := r_status r |}.

Definition view (s : State) : queue :=
  {| jobs i := stored <$> records s !! i; keys k := idempotency s !! k |}.

Lemma state_ok_insert i r s : record_ok i r -> state_ok s ->
  state_ok (set_records (<[i := r]> (records s)) s).
Proof.
  intros Hr [Hs Hk]. split; cbn; [by apply map_Forall_insert_2|].
  intros k j Hj. apply Hk in Hj. rewrite lookup_insert. by case_decide.
Qed.

Lemma view_insert i r s :
  queue_equiv (view (set_records (<[i := r]> (records s)) s)) (set_job i (stored r) (view s)).
Proof.
  split; [|done]. intros i'. cbn. unfold update. rewrite lookup_insert.
  repeat case_decide; by subst.
Qed.

Lemma stored_sweep t r : stored (sweep_record t r) = sweep_job t (stored r).
Proof.
  unfold sweep_record, sweep_job, stored, expired. cbn.
  destruct (r_status r) eqn:E; try done; [by rewrite E..| | | |]; try by rewrite E.
  by case_bool_decide; cbn; rewrite ?E.
Qed.

Lemma record_ok_sweep t i r : record_ok i r -> record_ok i (sweep_record t r).
Proof.
  unfold record_ok, sweep_record. destruct (r_status r) eqn:E; try (by rewrite E).
  case_bool_decide; cbn; [naive_solver|by rewrite E].
Qed.

Definition swept (t : Z) (s : State) : State := set_records (sweep_record t <$> records s) s.

Lemma swept_ok t s : state_ok s -> state_ok (swept t s).
Proof.
  intros [Hs Hk]. split; cbn.
  - intros i r. rewrite lookup_fmap. destruct (records s !! i) as [r'|] eqn:E; [|done].
    intros [= <-]. by apply record_ok_sweep, Hs.
  - intros k i Hi. rewrite lookup_fmap. apply Hk in Hi. by apply fmap_is_Some.
Qed.

Lemma view_swept t s : queue_equiv (view (swept t s)) (sweep_queue t (view s)).
Proof.
  split; [|done]. intros i. cbn. rewrite lookup_fmap.
  destruct (records s !! i); [|done]. cbn. by rewrite stored_sweep.
Qed.

(** The loop over the chosen candidates leases each of them. *)
Lemma lease_loop_spec wk e (l : list (JobId * Record_)) s :
  state_ok s -> NoDup l.*1 -> (forall i r, (i, r) ∈ l -> records s !! i = Some r) ->
  let '(out, s') := lease_loop wk e l.*1 s in
  out = (fun r => {| job := r_job r; lease_expires_at := e |}) <$> l.*2 /\
  state_ok s' /\ queue_equiv (view s') (lease_all wk e (stored <$> l.*2) (view s)).
Proof.
  revert s. induction l as [|[i r] l IH]; intros s Hs Hnd Hl; [by cbn|]. cbn.
  assert (records s !! i = Some r) as Hi by (apply Hl; left). rewrite Hi.
  destruct (proj1 Hs i r Hi) as (Hid & Hm & _).
  set (s1 := set_records (<[i:=lease_record wk e r]> (records s)) s).
  cbn in Hnd. apply NoDup_cons in Hnd as [Hni Hnd].
  specialize (IH s1). destruct (lease_loop wk e l.*1 s1) as [out s'].
  destruct IH as (-> & Hs' & Hv); [|done| |].
  - by apply state_ok_insert; [repeat split|].
  - intros j r' Hj. cbn. rewrite lookup_insert_ne; [apply Hl; by right|].
    intros <-. apply Hni. by eapply (list_elem_of_fmap_2 fst) in Hj.
  - split_and!; [done..|]. rewrite Hv. apply lease_all_proper.
    unfold s1. rewrite view_insert. by rewrite <- Hid.
Qed.

Definition candidate_records (t : Z) (s : State) : list (JobId * Record_) :=
  sort_by rec_le (List.filter (fun kr => ready t kr.2) (sort_by id_le (map_to_list (records s)))).

Lemma elem_of_candidates t s i r :
  (i, r) ∈ candidate_records t s <-> records s !! i = Some r /\ ready t r = true.
Proof.
  unfold candidate_records. rewrite (sort_by_perm rec_le).
  rewrite list_elem_of_In, List.filter_In, <- list_elem_of_In, (sort_by_perm id_le).
  by rewrite elem_of_map_to_list.
Qed.

Lemma NoDup_filter_fst {A B} (f : A * B -> bool) (l : list (A * B)) :
  NoDup l.*1 -> NoDup (List.filter f l).*1.
Proof.
  intros Hl. eapply sublist_NoDup; [exact Hl|]. apply fmap_sublist.
  induction l as [|x l IH]; [done|]. cbn in *. apply NoDup_cons in Hl as [_ Hl].
  destruct (f x); [by apply sublist_skip, IH|by apply sublist_cons, IH].
Qed.

Lemma candidates_NoDup t s : NoDup (candidate_records t s).*1.
Proof.
  unfold candidate_records. rewrite (sort_by_perm rec_le). apply NoDup_filter_fst.
  rewrite (sort_by_perm id_le). apply NoDup_fst_map_to_list.
Qed.

Lemma candidates_spec t s :
  state_ok s -> candidates t (view s) (stored <$> (candidate_records t s).*2).
Proof.
  intros [Hs _].
  assert (forall i r, (i, r) ∈ candidate_records t s -> id (r_job r) = i) as Hid.
  { intros i r Hi. apply elem_of_candidates in Hi as [Hi _]. by apply (Hs i r). }
  split_and!.
  - intros sj. rewrite list_elem_of_fmap. split.
    + intros (r & -> & Hr). apply list_elem_of_fmap in Hr as ([i r'] & -> & Hr). cbn.
      rewrite (Hid i) by done. apply elem_of_candidates in Hr as [-> Hr]. by split.
    + cbn. intros [Hj Hc]. destruct (records s !! _) as [r|] eqn:Er; [|done].
      injection Hj as <-. exists r. split; [done|]. apply list_elem_of_fmap.
      eexists (_, r). split; [done|]. by apply elem_of_candidates.
  - replace ((fun sj => id (sj_job sj)) <$> (stored <$> (candidate_records t s).*2))
      with (candidate_records t s).*1; [apply candidates_NoDup|].
    rewrite <- !list_fmap_compose. apply list_fmap_ext.
    intros n [i r] Hn. cbn. symmetry. apply Hid. by eapply list_elem_of_lookup_2.
  - rewrite <- list_fmap_compose.
    assert (StronglySorted (fun a b => rec_le a b = true) (candidate_records t s)) as Hsort.
    { apply sort_by_sorted; intros *; [apply job_le_total|apply job_le_trans]. }
    clear Hid. induction Hsort as [|x l Hl IH Hx]; cbn; [constructor|constructor; [done|]].
    by apply Forall_fmap.
Qed.

(** ** The contract holds *)

Section laws.
Variable fields : list (string * string).


Definition ok_world (w : world) : Prop := state_ok (state w).
Definition world_view (w : world) : queue := view (state w).

Lemma run_locked {A B} (m : act world A) (k : A -> prog world B) Q w :
  wp m (fun a w' => wp (run (k a)) Q w') w -> wp (run (locked m ≫= k)) Q w.
Proof. intros Hm. by apply wp_run_bind, wp_run_atomically. Qed.

Lemma run_count {B} m (k : unit -> prog world B) Q w :
  wp (run (k tt)) Q (World (state w) (m_clk w) (m_metrics w ++ [m])) ->
  wp (run (count m ≫= k)) Q w.
Proof. intros Hk. by apply run_locked. Qed.

(** One step of the clock. *)
Definition ticked (w : world) : world :=
  World (state w) (Clock (reading (m_clk w)) (S (ticks (m_clk w)))) (m_metrics w).

Lemma wp_now {B} (k : Z -> act world B) Q w :
  wp (k (now_of (m_clk w) 0)) Q (ticked w) -> wp (now ≫= k) Q w.
Proof. unfold now_of. rewrite Nat.add_0_r. intros Hk. by apply wp_bind. Qed.

Lemma wp_sweep Q w :
  Q tt (World (swept (now_of (m_clk w) 0) (state w)) (m_clk (ticked w)) (m_metrics w)) ->
  wp sweep_expired Q w.
Proof. intros HQ. unfold sweep_expired. by apply wp_now. Qed.

Lemma wp_get_state {B} (k : State -> act world B) Q w :
  wp (k (state w)) Q w -> wp (get_state ≫= k) Q w.
Proof. intros Hk. by apply wp_bind. Qed.

Lemma wp_set_state {B} s (k : unit -> act world B) Q w :
  wp (k tt) Q (World s (m_clk w) (m_metrics w)) -> wp (set_state s ≫= k) Q w.
Proof. intros Hk. by apply wp_bind. Qed.

Lemma wp_with_record {A} i (f : Record_ -> act world (result A QueueError * Record_))
    (Q : result A QueueError -> world -> Prop) w :
  match records (state w) !! i with
  | None => Q (Err (QNotFound i)) w
  | Some r => wp (f r) (fun p w' =>
      Q p.1 (World (set_records (<[i := p.2]> (records (state w))) (state w))
               (m_clk w') (m_metrics w'))) w
  end -> wp (with_record i f) Q w.
Proof.
  unfold with_record. intros H. apply wp_get_state.
  destruct (records (state w) !! i) as [r|]; [|done].
  apply wp_bind. eapply wp_mono; [exact H|]. intros [out r'] w' HQ. by apply wp_set_state.
Qed.

Lemma wp_tt_bind {B} (k : unit -> act world B) m Q w :
  wp m (fun _ w' => wp (k tt) Q w') w -> wp (m ≫= k) Q w.
Proof. intros Hm. apply wp_bind. eapply wp_mono; [exact Hm|]. by intros []. Qed.

(** The job of a well-formed record is under its identifier. *)
Lemma view_finish i r r' s : state_ok s -> records s !! i = Some r ->
  (forall j, record_ok j r -> record_ok j r') ->
  state_ok (set_records (<[i := r']> (records s)) s) /\
  queue_equiv (view (set_records (<[i := r']> (records s)) s)) (set_job i (stored r') (view s)).
Proof.
  intros Hs Hi Hr. split; [|apply view_insert]. apply state_ok_insert; [|done].
  by apply Hr, (proj1 Hs).
Qed.

(** The whole reservation happens under one lock. *)
Lemma wp_reserve_locked wk n lease w : ok_world w ->
  wp (reserve_locked wk n lease) (fun out w' =>
    ok_world w' /\ reading (m_clk w') = reading (m_clk w) /\
    reserve_spec wk n lease (now_of (m_clk w) 0) (now_of (m_clk w) 1) (world_view w) (Ok out)
      (world_view w')) w.
Proof.
  intros Hw. unfold reserve_locked. apply wp_tt_bind, wp_sweep, wp_now, wp_get_state.
  set (t0 := now_of (m_clk w) 0).
  replace (now_of (m_clk (World _ _ _)) 0) with (now_of (m_clk w) 1)
    by (unfold now_of; cbn; f_equal; lia).
  set (t1 := now_of (m_clk w) 1). cbn [state ticked]. set (s := swept t0 (state w)).
  assert (state_ok s) as Hs by by apply swept_ok.
  pose proof (lease_loop_spec wk (lease_until t1 lease) (take n (candidate_records t1 s)) s) as Hl.
  unfold candidate_ids. fold (candidate_records t1 s). rewrite <- fmap_take.
  destruct (lease_loop _ _ _ _) as [out s'].
  destruct Hl as (-> & Hs' & Hv); [done| | |].
  { rewrite fmap_take. apply NoDup_take, candidates_NoDup. }
  { intros i r Hi. apply elem_of_take_list, elem_of_candidates in Hi. naive_solver. }
  apply wp_set_state, wp_ret. split; [done|]. split; [done|].
  exists (stored <$> (candidate_records t1 s).*2).
  assert (queue_equiv (view s) (sweep_queue t0 (world_view w))) as He by apply view_swept.
  split.
  - destruct (candidates_spec t1 s Hs) as (Hin & ? & ?). split_and!; [|done..].
    intros sj. by rewrite Hin, (proj1 He).
  - cbn zeta. rewrite <- !fmap_take. split; [by rewrite <- (list_fmap_compose stored)|].
    cbn. rewrite Hv. by apply lease_all_proper.
Qed.

#[export] Program Instance laws : @JobQueueLaws world fields (MemoryQueue fields) := {|
  q_inv := ok_world;
  q_view := world_view;
  q_clk := m_clk;
|}.
Next Obligation.
  intros j w Hw. unfold enqueue, MemoryQueue, mq_enqueue, enqueue_spec.
  case_bool_decide as Hm; [by apply wp_ret|].
  apply run_locked. unfold enqueue_locked. apply wp_get_state. cbn [idempotency_key with_headers].
  change (keys (world_view w)) with (fun k => idempotency (state w) !! k). cbn beta.
  destruct (idempotency_key j ≫= _) as [i|] eqn:Ek; [by apply wp_ret|].
  apply wp_set_state, wp_ret. cbn [id with_headers].
  apply run_count, run_locked, wp_get_state, wp_ret, run_count, wp_ret.
  split; [split; [|done]|split; [done|]].
  - destruct Hw as [Hs Hk]. split; cbn.
    + by apply map_Forall_insert_2; [repeat split|].
    + destruct (idempotency_key j) as [key|]; [apply map_Forall_insert_2|].
      * rewrite lookup_insert_eq. eauto.
      * intros k i Hi. apply Hk in Hi. rewrite lookup_insert. by case_decide.
      * intros k i Hi. apply Hk in Hi. rewrite lookup_insert. by case_decide.
  - split; cbn.
    + intros i. rewrite lookup_insert. destruct (idempotency_key j); cbn; unfold update;
        by repeat case_decide; subst.
    + intros k. destruct (idempotency_key j) as [key|]; cbn; [|done].
      unfold update. rewrite lookup_insert. by repeat case_decide; subst.
Qed.
Next Obligation.
  intros wk n lease w Hw. unfold reserve, MemoryQueue, mq_reserve.
  apply run_locked. eapply wp_mono; [by apply wp_reserve_locked|].
  intros out w' (Hw' & Hr & Hs). by apply run_count, wp_ret.
Qed.
Next Obligation.
  intros i res w Hw. unfold ack, MemoryQueue, mq_ack, finish_spec. cbn [world_view view jobs].
  apply wp_run_bindR, wp_run_atomically, wp_with_record.
  destruct (records (state w) !! i) as [r|] eqn:Er; [|done].
  apply wp_now, wp_ret, run_count, wp_ret. cbn.
  destruct (view_finish i r (acked (now_of (m_clk w) 0) res r) (state w)); try done.
  unfold record_ok. naive_solver.
Qed.
Next Obligation.
  intros i e retry w Hw. unfold nack, MemoryQueue, mq_nack, finish_spec. cbn [world_view view jobs].
  apply wp_run_bindR, wp_run_atomically, wp_with_record.
  destruct (records (state w) !! i) as [r|] eqn:Er; [|done]. apply wp_now.
  set (t := now_of (m_clk w) 0).
  destruct (view_finish i r (nacked t e retry r).2 (state w)) as [Hs Hv]; try done.
  { intros j. unfold nacked, record_ok. destruct retry; cbn; [naive_solver|].
    case_bool_decide; cbn; naive_solver. }
  assert (stored (nacked t e retry r).2 = nack_job t e retry (stored r)) as Hst.
  { unfold nacked, nack_job. destruct retry; [done|]. cbn. by case_bool_decide. }
  destruct (nacked t e retry r) as [dead r']. cbn in *.
  apply wp_ret. destruct dead; [apply run_count|]; apply run_count, wp_ret; cbn.
  all: split; [by split|split; [done|by rewrite <- Hst]].
Qed.
Next Obligation.
  intros i lease w Hw. unfold extend_lease, MemoryQueue, mq_extend_lease, extend_spec.
  apply wp_run_atomically, wp_tt_bind, wp_sweep, wp_with_record. cbn [state].
  set (t0 := now_of (m_clk w) 0). set (s := swept t0 (state w)).
  assert (state_ok s) as Hs by by apply swept_ok.
  assert (queue_equiv (view s) (sweep_queue t0 (world_view w))) as He by apply view_swept.
  clearbody s. cbn zeta. rewrite <- (proj1 He). cbn [view jobs].
  destruct (records s !! i) as [r|] eqn:Er; [|by split]. cbn [fmap option_fmap option_map stored sj_status].
  assert (forall st, set_records (<[i := r]> (records s)) s = st -> state_ok st /\ queue_equiv (view st) (view s))
    as Hsame.
  { intros st <-. split; [by apply state_ok_insert; [apply (proj1 Hs)|]|].
    split; [|done]. intros j. cbn. rewrite lookup_insert. case_decide; [by subst; rewrite Er|done]. }
  destruct (r_status r) as [|wk e|res f|err f|err f] eqn:Est.
  2: { apply wp_now. replace (now_of (m_clk (World _ _ _)) 0) with (now_of (m_clk w) 1)
         by (unfold now_of; cbn; f_equal; lia).
       set (t1 := now_of (m_clk w) 1). case_bool_decide.
       - apply wp_ret. destruct (Hsame _ eq_refl) as [? Hv].
         split; [by split|split; [done|]]. cbn. by rewrite Hv.
       - apply wp_ret. cbn. destruct (proj1 Hs i r Er) as (Hid & Hmax & Hl).
         rewrite Est in Hl. destruct Hl as [Hw' _]. rewrite Hw'. cbn.
         destruct (view_finish i r (extended wk (lease_until t1 lease) r) s) as [Hs' Hv]; try done.
         { unfold record_ok. cbn. naive_solver. }
         split; [by split|split; [done|]]. rewrite Hv, He. done. }
  all: apply wp_ret; destruct (Hsame _ eq_refl) as [? Hv]; split; [by split|split; [done|]];
    cbn; by rewrite Hv.
Qed.
Next Obligation.
  intros i w Hw. unfold status, MemoryQueue, mq_status, status_spec.
  apply wp_run_atomically, wp_tt_bind, wp_sweep, wp_get_state. cbn [state].
  set (t0 := now_of (m_clk w) 0). set (s := swept t0 (state w)).
  assert (state_ok s) as Hs by by apply swept_ok.
  assert (queue_equiv (view s) (sweep_queue t0 (world_view w))) as He by apply view_swept.
  cbn zeta. rewrite <- (proj1 He). cbn [view jobs].
  destruct (records s !! i) as [r|]; apply wp_ret; by split.
Qed.
End laws.
