(* ===== verification/DurableQueue.v ===== *)
(** DurableQueue: the backend over an OxKV store ([src/src/queue/durable.rs]).

    A block under a guard of the store's lock is one atomic action; other tasks
    run between the blocks, which is what makes [reserve] of this backend
    different from the in-memory one. *)
From S2P Require Import Prelude.
From S2P Require Import Effects.
From S2P Require Import RustStr.
From S2P Require Import Kv.
From S2P Require Import Queue.

(** The [uuid] crate: the hyphenated form, and the parser, which reads it back. *)
Class UuidText := {
  uuid_show : Uuid -> string;
  uuid_parse : string -> option Uuid;
}.

Class UuidTextLaws `{UuidText} := {
  uuid_parse_show u : uuid_parse (uuid_show u) = Some u;
  uuid_show_utf8 u : utf8_valid (uuid_show u) = true;
}.

(** The texts of library errors. *)
Class ErrorText := {
  store_error_text : StoreError -> string;
  utf8_error_text : bytes -> string;
}.

Record world (S : Type) := World {
  d_store : S;
  d_clk : clock;
  d_metrics : list metric;
}.
Arguments World {S} d_store d_clk d_metrics.
Arguments d_store {S} w.
Arguments d_clk {S} w.
Arguments d_metrics {S} w.

Section durable.
Context {S T : Type} `{!KvStore S T} `{!Serde StoredJob} `{!UuidText} `{!ErrorText}.
Variable fields : list (string * string).

#[local] Abbreviation task := (prog (world S)).

#[export] Instance store_lens : Lens S (world S) :=
  {| view := d_store; upd s w := World s (d_clk w) (d_metrics w) |}.
#[export] Instance clk_lens : Lens clock (world S) :=
  {| view := d_clk; upd c w := World (d_store w) c (d_metrics w) |}.
#[export] Instance metrics_lens : Lens (list metric) (world S) :=
  {| view := d_metrics; upd m w := World (d_store w) (d_clk w) m |}.

Definition now : task Z := atomically (zoom tick).
Definition count (m : metric) : task unit := atomically (zoom (record_metric m)).

(** A block under the store's guard. *)
Definition guarded {A} (m : act S A) : task A := atomically (zoom m).

Definition store_err (e : StoreError) : QueueError := QStore (store_error_text e).
Definition kv_err {A} (m : act S (result A StoreError)) : act S (result A QueueError) :=
  map_errM store_err m.

Definition to_vec_q (sj : StoredJob) : result bytes QueueError := map_err QStore (to_vec sj).

Definition job_key (i : Uuid) : string := "job:" +:+ uuid_show i.
Definition idempotency_key_of (key : string) : string := "idemp:" +:+ key.

(** A transaction that makes the given writes. *)
Fixpoint tx_sets (t : T) (kvs : list (string * bytes)) : act S (result T StoreError) :=
  match kvs with
  | [] => mret (Ok t)
  | (k, v) :: kvs => t <-? tx_set t k v; tx_sets t kvs
  end.

Definition write_all (kvs : list (string * bytes)) : act S (result unit QueueError) :=
  kv_err (t <-? kv_begin; t <-? tx_sets t kvs; tx_commit t).

(** The identifiers of the expired leases in a listing. *)
Definition expired_ids (t : Z) (kvs : list kv_pair) : list Uuid :=
  omap (fun kv =>
    if starts_with kv.1 "job:" then
      match from_slice kv.2 with
      | Ok sj =>
          if expired t (sj_status sj) then strip_prefix "job:" kv.1 ≫= uuid_parse else None
      | Err _ => None
      end
    else None) kvs.

Definition is_leased (st : JobStatus) : bool := match st with Leased _ _ => true | _ => false end.

(** Puts one job back, if it is still leased when its record is read again. *)
Definition requeue (i : Uuid) : act S (result unit QueueError) :=
  let key := job_key i in
  kv_err kv_begin ≫= fun r =>
  match r with
  | Err e => mret (Err e)
  | Ok t =>
      cur <-? kv_err (tx_get t key);
      match cur ≫= (fun b => ok (from_slice b)) with
      | Some sj =>
          if is_leased (sj_status sj) then
            v <-? mret (to_vec_q {| sj_job := sj_job sj; sj_status := Queued |});
            t <-? kv_err (tx_set t key v);
            kv_err (tx_commit t)
          else _ ← tx_rollback t; mret (Ok tt)
      | None => _ ← tx_rollback t; mret (Ok tt)
      end
  end.

Fixpoint requeue_all (ids : list Uuid) : task (result unit QueueError) :=
  match ids with
  | [] => mret (Ok tt)
  | i :: ids => _ <-? guarded (requeue i); requeue_all ids
  end.

Definition sweep_expired : task (result unit QueueError) :=
  kvs <-? guarded (kv_err (kv_scan None None None));
  t ← now;
  requeue_all (expired_ids t kvs).

Definition load (i : JobId) : task (result StoredJob QueueError) :=
  b <-? guarded (kv_err (kv_get (job_key i)));
  b <-? mret (ok_or b (QNotFound i));
  mret (map_err QStore (from_slice b)).

(** The identifier an idempotency key already stands for. *)
Definition lookup_key (j : Job) : task (result (option JobId) QueueError) :=
  match idempotency_key j with
  | None => mret (Ok None)
  | Some key =>
      b <-? guarded (kv_err (kv_get (idempotency_key_of key)));
      match b with
      | None => mret (Ok None)
      | Some b =>
          if utf8_valid b then mret (Ok (uuid_parse b))
          else mret (Err (QStore (utf8_error_text b)))
      end
  end.

Definition count_jobs (r : result (list kv_pair) StoreError) : Z :=
  match r with
  | Ok kvs => Z.of_nat (length (List.filter (fun kv => starts_with kv.1 "job:") kvs))
  | Err _ => 0
  end.

Definition dq_enqueue (j : Job) : task (result JobId QueueError) :=
  if bool_decide (max_attempts j = 0%Z)
  then mret (Err (QInvalid "max_attempts must be positive")) else
  let j := with_headers j (inject_trace_context fields (headers j)) in
  existing <-? lookup_key j;
  match existing with
  | Some i => mret (Ok i)
  | None =>
      let i := id j in
      v <-? mret (to_vec_q {| sj_job := j; sj_status := Queued |});
      _ <-? guarded (write_all ((job_key i, v) ::
        match idempotency_key j with
        | Some key => [(idempotency_key_of key, uuid_show i)]
        | None => []
        end));
      _ ← count m_enqueued;
      listing ← guarded (kv_scan None None None);
      _ ← count (m_depth (count_jobs listing));
      mret (Ok i)
  end.

(** The claimable jobs of a listing. *)
Definition decoded (kvs : list kv_pair) : list StoredJob :=
  omap (fun kv => if starts_with kv.1 "job:" then ok (from_slice kv.2) else None) kvs.

Definition candidates_of (t : Z) (kvs : list kv_pair) : list StoredJob :=
  sort_by sj_le (List.filter (claimable t) (decoded kvs)).

Fixpoint lease_jobs (worker : string) (e : Z) (l : list StoredJob) :
    task (result (list LeasedJob) QueueError) :=
  match l with
  | [] => mret (Ok [])
  | sj :: l =>
      v <-? mret (to_vec_q (take_lease worker e sj));
      _ <-? guarded (write_all [(job_key (id (sj_job sj)), v)]);
      out <-? lease_jobs worker e l;
      mret (Ok ({| job := sj_job sj; lease_expires_at := e |} :: out))
  end.

Definition dq_reserve (worker : string) (limit : nat) (lease : Z) :
    task (result (list LeasedJob) QueueError) :=
  _ <-? sweep_expired;
  kvs <-? guarded (kv_err (kv_scan None None None));
  t ← now;
  out <-? lease_jobs worker (lease_until t lease) (take limit (candidates_of t kvs));
  _ ← count (m_reserved (Z.of_nat (length out)));
  mret (Ok out).

Definition dq_ack (i : JobId) (res : option string) : task (result unit QueueError) :=
  sj <-? load i;
  t ← now;
  v <-? mret (to_vec_q (ack_job t res sj));
  _ <-? guarded (write_all [(job_key i, v)]);
  _ ← count m_completed;
  mret (Ok tt).

Definition dq_nack (i : JobId) (e : string) (retry : RetryPolicy) : task (result unit QueueError) :=
  sj <-? load i;
  t ← now;
  let sj' := nack_job t e retry sj in
  v <-? mret (to_vec_q sj');
  _ <-? guarded (write_all [(job_key i, v)]);
  _ ← (match sj_status sj' with Dead _ _ => count m_dead_lettered | _ => mret tt end);
  _ ← count m_failed;
  mret (Ok tt).

Definition dq_extend_lease (i : JobId) (lease : Z) : task (result unit QueueError) :=
  _ <-? sweep_expired;
  sj <-? load i;
  t ← now;
  match sj_status sj with
  | Leased worker expires_at =>
      if bool_decide (expires_at <= t)%Z then mret (Err QLeaseExpired) else
      v <-? mret (to_vec_q (take_lease worker (lease_until t lease) sj));
      guarded (write_all [(job_key i, v)])
  | _ => mret (Err QAlreadyLeased)
  end.

Definition dq_status (i : JobId) : task (result JobStatus QueueError) :=
  _ <-? sweep_expired;
  sj <-? load i;
  mret (Ok (sj_status sj)).

#[export] Instance DurableQueue : JobQueue (world S) := {|
  enqueue := dq_enqueue;
  reserve := dq_reserve;
  ack := dq_ack;
  nack := dq_nack;
  extend_lease := dq_extend_lease;
  status := dq_status;
|}.
End durable.

(** ** Well-formed stores *)

Section durable_laws.
Context {S T : Type} `{!KvStore S T} `{!KvLaws S T}.
Context `{!Serde StoredJob} `{!SerdeLaws StoredJob} `{!UuidText} `{!UuidTextLaws} `{!ErrorText}.
Variable fields : list (string * string).
Implicit Types (d : gmap string bytes) (w : world S).

(** Every job is readable and under its own key; every idempotency entry
    names an identifier. *)
Definition data_ok d : Prop :=
  (forall k v, d !! k = Some v -> starts_with k "job:" = true ->
     exists sj, from_slice v = Ok sj /\ k = job_key (id (sj_job sj))) /\
  (forall key v, d !! idempotency_key_of key = Some v -> exists i, v = uuid_show i).

Definition data_view d : queue :=
  {| jobs i := d !! job_key i ≫= fun v => ok (from_slice v);
     keys k := d !! idempotency_key_of k ≫= uuid_parse |}.

Lemma job_key_inj i j : job_key i = job_key j -> i = j.
Proof.
  unfold job_key. intros He. cbn in He. injection He as He. rewrite !app_nil_l in He.
  pose proof (uuid_parse_show i) as Hi. rewrite He, uuid_parse_show in Hi. by injection Hi.
Qed.

Lemma job_key_prefix i : starts_with (job_key i) "job:" = true.
Proof. apply starts_with_app. Qed.

Lemma job_key_not_idemp i key : job_key i <> idempotency_key_of key.
Proof. done. Qed.

Lemma idemp_inj k1 k2 : idempotency_key_of k1 = idempotency_key_of k2 -> k1 = k2.
Proof. unfold idempotency_key_of. cbn. intros He. injection He as He. by rewrite !app_nil_l in He. Qed.

Lemma idemp_not_job key : starts_with (idempotency_key_of key) "job:" = false.
Proof. done. Qed.

Lemma data_ok_job i v sj d : from_slice v = Ok sj -> id (sj_job sj) = i -> data_ok d ->
  data_ok (<[job_key i := v]> d).
Proof.
  intros Hv Hid [Hj Hk]. split.
  - intros k v'. rewrite lookup_insert. case_decide as Hd; [|apply Hj].
    intros [= <-] _. exists sj. by rewrite Hid.
  - intros key v'. rewrite lookup_insert_ne by done. apply Hk.
Qed.

Lemma view_job i v sj d : from_slice v = Ok sj ->
  queue_equiv (data_view (<[job_key i := v]> d)) (set_job i sj (data_view d)).
Proof.
  intros Hv. split.
  - intros j. cbn. unfold update. rewrite lookup_insert. case_decide as Hd.
    + apply job_key_inj in Hd as ->. rewrite decide_True by done. cbn. by rewrite Hv.
    + rewrite decide_False by congruence. done.
  - intros k. cbn. by rewrite lookup_insert_ne.
Qed.

Lemma data_ok_key key i d : data_ok d -> data_ok (<[idempotency_key_of key := uuid_show i]> d).
Proof.
  intros [Hj Hk]. split.
  - intros k v. rewrite lookup_insert. case_decide as Hd; [|apply Hj].
    intros _. by rewrite <- Hd, idemp_not_job.
  - intros key' v. rewrite lookup_insert. case_decide; [|apply Hk]. intros [= <-]. eauto.
Qed.

Lemma view_key key i d :
  queue_equiv (data_view (<[idempotency_key_of key := uuid_show i]> d))
    (set_key (Some key) i (data_view d)).
Proof.
  split.
  - intros j. cbn. rewrite lookup_insert_ne; [done|]. by intros He.
  - intros k. cbn. unfold update. rewrite lookup_insert. case_decide as Hd.
    + apply idemp_inj in Hd as ->. rewrite decide_True by done. cbn. apply uuid_parse_show.
    + rewrite decide_False by congruence. done.
Qed.

(** A job of the view, as an entry of the store. *)
Lemma view_lookup i sj d : data_ok d ->
  jobs (data_view d) i = Some sj ->
  id (sj_job sj) = i /\ exists v, d !! job_key i = Some v /\ from_slice v = Ok sj.
Proof.
  intros [Hj _]. cbn. destruct (d !! job_key i) as [v|] eqn:E; [|done]. cbn.
  destruct (Hj _ _ E (job_key_prefix i)) as (sj' & Hv & Hk). rewrite Hv. cbn. intros [= ->].
  split; [|by exists v]. symmetry. by apply job_key_inj.
Qed.

Lemma view_entry k v sj d : data_ok d -> d !! k = Some v -> starts_with k "job:" = true ->
  from_slice v = Ok sj ->
  k = job_key (id (sj_job sj)) /\ jobs (data_view d) (id (sj_job sj)) = Some sj.
Proof.
  intros [Hj _] Hk Hp Hv. destruct (Hj k v Hk Hp) as (sj' & Hv' & ->).
  assert (sj' = sj) as -> by congruence. split; [done|]. cbn. rewrite Hk. cbn. by rewrite Hv.
Qed.

Lemma elem_of_expired_ids t i d : data_ok d ->
  i ∈ expired_ids t (kv_list d) <->
  exists sj, jobs (data_view d) i = Some sj /\ expired t (sj_status sj) = true.
Proof.
  intros Hd. unfold expired_ids. rewrite list_elem_of_omap. split.
  - intros ([k v] & Hkv & Hi). apply elem_of_kv_list in Hkv. cbn [fst snd] in Hi.
    destruct (starts_with k "job:") eqn:Ep; [|done].
    destruct (from_slice v) as [sj|] eqn:Ev; [|done].
    destruct (expired t (sj_status sj)) eqn:Ee; [|done].
    destruct (view_entry k v sj d) as [-> Hj]; try done.
    unfold job_key in Hi. rewrite strip_prefix_app in Hi. cbn in Hi.
    rewrite uuid_parse_show in Hi. injection Hi as <-. by exists sj.
  - intros (sj & Hj & He). apply view_lookup in Hj as (Hid & v & Hv & Hf); [|done].
    exists (job_key i, v). split; [by apply elem_of_kv_list|]. cbn [fst snd].
    rewrite job_key_prefix, Hf, He. unfold job_key. rewrite strip_prefix_app. cbn.
    apply uuid_parse_show.
Qed.

Lemma elem_of_decoded sj d : data_ok d ->
  sj ∈ decoded (kv_list d) <-> jobs (data_view d) (id (sj_job sj)) = Some sj.
Proof.
  intros Hd. unfold decoded. rewrite list_elem_of_omap. split.
  - intros ([k v] & Hkv & Hi). apply elem_of_kv_list in Hkv. cbn [fst snd] in Hi.
    destruct (starts_with k "job:") eqn:Ep; [|done].
    destruct (from_slice v) as [sj'|] eqn:Ev; [|done]. injection Hi as <-.
    by destruct (view_entry k v sj' d).
  - intros Hj. apply view_lookup in Hj as (Hid & v & Hv & Hf); [|done].
    eexists (_, v). split; [by apply elem_of_kv_list|]. cbn [fst snd]. by rewrite job_key_prefix, Hf.
Qed.

Lemma decoded_NoDup d : data_ok d ->
  NoDup ((fun sj => id (sj_job sj)) <$> decoded (kv_list d)).
Proof.
  intros Hd. apply (NoDup_fmap_1 job_key).
  assert (forall l, (forall kv, kv ∈ l -> d !! kv.1 = Some kv.2) ->
    (job_key <$> ((fun sj => id (sj_job sj)) <$> decoded l)) `sublist_of` l.*1) as Hsub.
  { induction l as [|[k v] l IH]; intros Hl; [done|].
    assert (forall kv, kv ∈ l -> d !! kv.1 = Some kv.2) as Hl' by (intros; apply Hl; by right).
    specialize (Hl (k, v) ltac:(left)). unfold decoded. cbn [omap list_omap fst snd] in *.
    destruct (starts_with k "job:") eqn:Ep; [|by apply sublist_cons, IH].
    destruct (from_slice v) as [sj|] eqn:Ev; [|by apply sublist_cons, IH]. cbn.
    destruct (view_entry k v sj d) as [-> _]; try done. by apply sublist_skip, IH. }
  eapply sublist_NoDup; [apply (kv_list_NoDup d)|]. apply Hsub.
  intros [k v]. apply elem_of_kv_list.
Qed.

Lemma candidates_of_spec t d : data_ok d ->
  candidates t (data_view d) (candidates_of t (kv_list d)).
Proof.
  intros Hd. unfold candidates_of. split_and!.
  - intros sj. rewrite (sort_by_perm sj_le), list_elem_of_In, List.filter_In, <- list_elem_of_In.
    by rewrite elem_of_decoded.
  - rewrite (sort_by_perm sj_le). eapply sublist_NoDup; [by apply (decoded_NoDup d)|].
    apply fmap_sublist. induction (decoded _) as [|x l IH]; [done|]. cbn.
    by destruct (claimable t x); [apply sublist_skip|apply sublist_cons].
  - apply sort_by_sorted; intros *; [apply job_le_total|apply job_le_trans].
Qed.

(** *** The calls, on a store that answers *)

Definition dq_ok w : Prop := kv_up (d_store w) /\ data_ok (kv_data (d_store w)).
Definition dq_view w : queue := data_view (kv_data (d_store w)).

Lemma run_guarded {A B E} (m : act S (result A E)) (k : A -> prog (world S) (result B E)) Q w :
  wp m (fun r s' => match r with
                    | Ok a => wp (run (k a)) Q (World s' (d_clk w) (d_metrics w))
                    | Err e => Q (Err e) (World s' (d_clk w) (d_metrics w))
                    end) (d_store w) ->
  wp (run (bindR (guarded m) k)) Q w.
Proof.
  intros Hm. apply wp_run_bindR, wp_run_atomically, (wp_zoom (H := store_lens)).
  eapply wp_mono; [exact Hm|]. by intros [a|e] s'.
Qed.

Lemma run_now {B} (k : Z -> prog (world S) B) Q w :
  wp (run (k (now_of (d_clk w) 0))) Q
    (World (d_store w) (Clock (reading (d_clk w)) (Datatypes.S (ticks (d_clk w)))) (d_metrics w)) ->
  wp (run (now ≫= k)) Q w.
Proof.
  unfold now_of. rewrite Nat.add_0_r. intros Hk. by apply wp_run_bind, wp_run_atomically.
Qed.

Lemma run_count_d {B} m (k : unit -> prog (world S) B) Q w :
  wp (run (k tt)) Q (World (d_store w) (d_clk w) (d_metrics w ++ [m])) ->
  wp (run (count m ≫= k)) Q w.
Proof. intros Hk. by apply wp_run_bind, wp_run_atomically. Qed.

Definition inserts (kvs : list (string * bytes)) d : gmap string bytes :=
  foldl (fun d kv => <[kv.1 := kv.2]> d) d kvs.

Lemma wp_tx_sets t kvs (s : S) Q : kv_up s ->
  (forall t' s', kv_up s' -> kv_data s' = kv_data s -> tx_data t' s' = inserts kvs (tx_data t s) ->
    Q (Ok t') s') -> wp (tx_sets t kvs) Q s.
Proof.
  revert t s. induction kvs as [|[k v] kvs IH]; intros t s Hup HQ; cbn [tx_sets].
  { apply wp_ret. by apply HQ. }
  kv_step. kv_step. apply IH; [done|]. intros t2 s2 Hu2 Hd2 Ht2. apply HQ; [done|congruence|].
  unfold inserts in *. cbn. congruence.
Qed.

Lemma wp_write_all kvs (s : S) Q : kv_up s ->
  (forall s', kv_up s' -> kv_data s' = inserts kvs (kv_data s) -> Q (Ok tt) s') ->
  wp (write_all kvs) Q s.
Proof.
  intros Hup HQ. unfold write_all, kv_err. repeat kv_step. apply wp_tx_sets; [done|].
  intros t9 s9 Hup9 Hd9 Ht9. kv_step. apply HQ; [done|]. congruence.
Qed.

(** Puts a leased job back. *)
Definition unlease (sj : StoredJob) : StoredJob :=
  if is_leased (sj_status sj) then {| sj_job := sj_job sj; sj_status := Queued |} else sj.

Definition unlease_in (ids : list Uuid) (q : queue) : queue :=
  {| jobs i := if decide (i ∈ ids) then unlease <$> jobs q i else jobs q i; keys := keys q |}.

Lemma wp_requeue i (s : S) : kv_up s -> data_ok (kv_data s) ->
  wp (requeue i) (fun r s' => r = Ok tt /\ kv_up s' /\ data_ok (kv_data s') /\
    queue_equiv (data_view (kv_data s')) (unlease_in [i] (data_view (kv_data s)))) s.
Proof.
  intros Hup Hd. unfold requeue, kv_err. kv_steps.
  assert (forall q, (forall sj, jobs q i = Some sj -> unlease sj = sj) -> queue_equiv q (unlease_in [i] q))
    as Hnone.
  { intros q Hq. split; [|done]. intros j. cbn. case_decide as Hj; [|done].
    apply list_elem_of_singleton in Hj as ->. destruct (jobs q i) eqn:E; [|done]. cbn. f_equal.
    by rewrite Hq. }
  destruct (kv_data s !! job_key i ≫= _) as [sj|] eqn:Ej.
  2: { kv_steps. split_and!; [done..|]. apply Hnone. cbn. by rewrite Ej. }
  assert (jobs (data_view (kv_data s)) i = Some sj) as Hj by done.
  apply view_lookup in Hj as [Hid _]; [|done].
  destruct (is_leased (sj_status sj)) eqn:El.
  2: { kv_steps. split_and!; [done..|]. apply Hnone. cbn. rewrite Ej. intros ? [= <-].
       unfold unlease. by rewrite El. }
  destruct (to_vec_ok {| sj_job := sj_job sj; sj_status := Queued |}) as [v Hv].
  unfold to_vec_q. rewrite Hv. apply from_to in Hv. kv_steps.
  split_and!; [done..|by eapply data_ok_job|]. rewrite view_job by exact Hv.
  split; [|done]. intros j. cbn. unfold update. case_decide as Hd1; subst.
  - rewrite decide_True by by left. rewrite Ej. cbn. unfold unlease. by rewrite El.
  - rewrite decide_False; [done|]. by rewrite list_elem_of_singleton.
Qed.

Lemma unlease_in_cons i ids q q' q'' :
  queue_equiv q' (unlease_in [i] q) -> queue_equiv q'' (unlease_in ids q') ->
  queue_equiv q'' (unlease_in (i :: ids) q).
Proof.
  intros [Hj Hk] [Hj' Hk']. split; [|by intros k; rewrite Hk'; cbn; rewrite Hk].
  intros j. rewrite Hj'. cbn. rewrite Hj. cbn.
  assert (forall sj, unlease (unlease sj) = unlease sj) as Hu.
  { intros sj. unfold unlease. by destruct (is_leased (sj_status sj)) eqn:E; cbn; rewrite ?E. }
  destruct (decide (j ∈ i :: ids)) as [Hc|Hc], (decide (j ∈ ids)) as [Ht|Ht],
    (decide (j ∈ [i])) as [Hi|Hi]; rewrite elem_of_cons in Hc; rewrite list_elem_of_singleton in Hi;
    try tauto; destruct (jobs q j); cbn; rewrite ?Hu; done.
Qed.

Lemma wp_requeue_all ids w : dq_ok w ->
  wp (run (requeue_all ids)) (fun r w' => r = Ok tt /\ dq_ok w' /\ d_clk w' = d_clk w /\
    queue_equiv (dq_view w') (unlease_in ids (dq_view w))) w.
Proof.
  revert w. induction ids as [|i ids IH]; intros w [Hup Hd]; cbn [requeue_all].
  { apply wp_ret. split_and!; try done. }
  apply run_guarded. eapply wp_mono; [by apply wp_requeue|].
  intros r s' (-> & Hup' & Hd' & Hv). eapply wp_mono; [by apply IH|].
  intros r w' (-> & Hok & Hc & Hv'). split_and!; [done|apply Hok..|done|].
  by eapply unlease_in_cons.
Qed.

(** The sweep alone puts back exactly the expired leases. *)
Lemma wp_sweep_d (Q : result unit QueueError -> world S -> Prop) w : dq_ok w ->
  (forall w', dq_ok w' -> reading (d_clk w') = reading (d_clk w) ->
     ticks (d_clk w') = Datatypes.S (ticks (d_clk w)) ->
     queue_equiv (dq_view w') (sweep_queue (now_of (d_clk w) 0) (dq_view w)) ->
     Q (Ok tt) w') ->
  wp (run sweep_expired) Q w.
Proof.
  intros [Hup Hd] HQ. unfold sweep_expired, kv_err. apply run_guarded. kv_steps.
  apply run_now. set (t := now_of _ 0). cbn [d_clk d_store].
  eapply wp_mono; [apply wp_requeue_all; by split; cbn; kv_norm|].
  intros r w' (-> & Hok & Hc & Hv). apply HQ; [done|by rewrite Hc..|]. rewrite Hv.
  unfold dq_view. cbn [d_store]. kv_norm. rewrite kv_range_full.
  split; [|done]. intros i. cbn -[data_view]. change (now_of (d_clk w) 0) with t.
  destruct (jobs (data_view (kv_data (d_store w))) i) as [sj|] eqn:Ej; [|by case_decide].
  cbn [fmap option_fmap option_map]. unfold sweep_job, unlease. case_decide as Hi.
  - apply elem_of_expired_ids in Hi as (sj' & Hj' & He); [|done].
    assert (sj' = sj) as -> by congruence. rewrite He.
    unfold expired in He. by destruct (sj_status sj).
  - destruct (expired t (sj_status sj)) eqn:He; [|done]. destruct Hi.
    apply elem_of_expired_ids; [done|]. by exists sj.
Qed.

(** The same queue at the same time. *)
Definition same w w' : Prop :=
  dq_ok w' /\ d_clk w' = d_clk w /\ kv_data (d_store w') = kv_data (d_store w).

Lemma wp_load i w : dq_ok w ->
  wp (run (load i)) (fun r w' => same w w' /\ r = ok_or (jobs (dq_view w) i) (QNotFound i)) w.
Proof.
  intros [Hup Hd]. unfold load, kv_err. apply run_guarded. kv_steps.
  unfold dq_view. cbn [data_view jobs].
  destruct (kv_data (d_store w) !! job_key i) as [v|] eqn:E; cbn.
  - destruct (proj1 Hd _ _ E (job_key_prefix i)) as (sj & Hv & _). rewrite Hv. cbn.
    apply wp_ret. split; [|done]. split_and!; [split|..]; cbn; kv_norm; done.
  - apply wp_ret. split; [|done]. split_and!; [split|..]; cbn; kv_norm; done.
Qed.

Lemma same_view w w' : same w w' -> dq_view w' = dq_view w.
Proof. intros (_ & _ & Hd). unfold dq_view. by rewrite Hd. Qed.

(** Writes one job back. *)
Lemma wp_store_job {B} i sj (k : unit -> prog (world S) (result B QueueError)) Q w :
  dq_ok w -> id (sj_job sj) = i ->
  (forall w', dq_ok w' -> d_clk w' = d_clk w -> queue_equiv (dq_view w') (set_job i sj (dq_view w)) ->
     wp (run (k tt)) Q w') ->
  wp (run (v <-? mret (to_vec_q sj); _ <-? guarded (write_all [(job_key i, v)]); k tt)) Q w.
Proof.
  intros [Hup Hd] Hid HQ. destruct (to_vec_ok sj) as [v Hv]. unfold to_vec_q. rewrite Hv. cbn [map_err].
  apply from_to in Hv. apply (run_guarded (write_all _)). apply wp_write_all; [done|].
  intros s' Hup' Hd'. cbn in Hd'. apply HQ; [split; [done|]|done|]; unfold dq_view; cbn [d_store]; rewrite Hd'.
  - by eapply data_ok_job.
  - by apply view_job.
Qed.

Lemma wp_lease_jobs wk e l w : dq_ok w ->
  wp (run (lease_jobs wk e l)) (fun r w' => dq_ok w' /\ d_clk w' = d_clk w /\
    r = Ok ((fun sj => {| job := sj_job sj; lease_expires_at := e |}) <$> l) /\
    queue_equiv (dq_view w') (lease_all wk e l (dq_view w))) w.
Proof.
  revert w. induction l as [|sj l IH]; intros w Hok; cbn [lease_jobs]; [by apply wp_ret|].
  apply (wp_store_job _ (take_lease wk e sj)
    (fun _ => out <-? lease_jobs wk e l; mret (Ok ({| job := sj_job sj; lease_expires_at := e |} :: out))));
    [done..|]. intros w1 Hok1 Hc1 Hv1.
  apply wp_run_bindR. eapply wp_mono; [by apply IH|]. intros r w2 (Hok2 & Hc2 & -> & Hv2).
  apply wp_ret. split_and!; [apply Hok2..|congruence|done|].
  rewrite Hv2, lease_all_cons. by apply lease_all_proper.
Qed.

#[export] Program Instance laws : @JobQueueLaws (world S) fields (DurableQueue fields) := {|
  q_inv := dq_ok;
  q_view := dq_view;
  q_clk := d_clk;
|}.
Next Obligation.
  intros j w Hok. unfold enqueue, DurableQueue, dq_enqueue, enqueue_spec.
  case_bool_decide as Hm; [by apply wp_ret|]. set (j' := with_headers j _).
  assert (wp (run (lookup_key j')) (fun r w' => same w w' /\
    r = Ok (idempotency_key j ≫= keys (dq_view w))) w) as Hlook.
  { unfold lookup_key. cbn [idempotency_key with_headers j'].
    destruct (idempotency_key j) as [key|]; [|by apply wp_ret].
    unfold kv_err. destruct Hok as [Hup Hd]. apply run_guarded. kv_steps.
    unfold dq_view. cbn [data_view keys mbind option_bind].
    destruct (kv_data (d_store w) !! idempotency_key_of key) as [v|] eqn:E.
    - destruct (proj2 Hd _ _ E) as [i ->]. rewrite uuid_show_utf8. cbn. apply wp_ret.
      split; [|done]. split_and!; [split|..]; cbn; kv_norm; done.
    - apply wp_ret. split; [|done]. split_and!; [split|..]; cbn; kv_norm; done. }
  apply wp_run_bindR. eapply wp_mono; [exact Hlook|]. intros r w1 [Hs ->].
  pose proof (same_view _ _ Hs) as Hv1. destruct Hs as (Hok1 & Hc1 & _).
  destruct (idempotency_key j ≫= _) as [i|] eqn:Ek; [apply wp_ret; by rewrite <- Hv1, <- Hc1|].
  destruct (to_vec_ok {| sj_job := j'; sj_status := Queued |}) as [v Hv].
  unfold to_vec_q. rewrite Hv. cbn [map_err]. apply from_to in Hv.
  apply (run_guarded (write_all _)). destruct Hok1 as [Hup1 Hd1]. apply wp_write_all; [done|].
  intros s2 Hup2 Hd2. apply run_count_d, wp_run_bind, wp_run_atomically, (wp_zoom (H := store_lens)).
  eapply wp_mono; [apply kv_scan_law|]. intros r s3 (Hd3 & _ & Hu3). apply run_count_d, wp_ret.
  destruct (Hu3 Hup2) as [Hup3 _]. cbn in Hd3, Hd2 |- *.
  change (id j') with (id j) in *. change (idempotency_key j') with (idempotency_key j) in *.
  split; [split; [split|]|split; [done|]].
  - done.
  - cbn. rewrite Hd3, Hd2. destruct (idempotency_key j); cbn; [apply data_ok_key|]; by eapply data_ok_job.
  - cbn. by rewrite Hc1.
  - unfold dq_view. cbn. rewrite Hd3, Hd2. fold (dq_view w). rewrite <- Hv1.
    destruct (idempotency_key j) as [key|]; cbn -[data_view set_key]; [rewrite view_key|];
      [apply set_key_proper|]; by apply view_job.
Qed.
Next Obligation.
  intros wk n lease w Hok. unfold reserve, DurableQueue, dq_reserve, kv_err.
  apply wp_run_bindR. apply wp_sweep_d; [done|]. intros w1 Hok1 Hr1 Ht1 Hv1.
  destruct Hok1 as [Hup1 Hd1]. apply run_guarded. kv_steps. apply run_now. cbn [d_clk d_store].
  rewrite kv_range_full.
  replace (now_of (d_clk w1) 0) with (now_of (d_clk w) 1)
    by (unfold now_of; rewrite Hr1, Ht1; f_equal; lia).
  set (t1 := now_of (d_clk w) 1). apply wp_run_bindR.
  eapply wp_mono; [apply wp_lease_jobs; split; cbn; by kv_norm|].
  intros r w2 (Hok2 & Hc2 & -> & Hv2). apply run_count_d, wp_ret.
  split; [split; [done|cbn; by rewrite Hc2, <- Hr1]|].
  exists (candidates_of t1 (kv_list (kv_data (d_store w1)))).
  pose proof (candidates_of_spec t1 _ Hd1) as (Hin & ? & ?).
  split; [split_and!; [|done..]|split; [done|]].
  - intros sj. by rewrite Hin, (proj1 Hv1).
  - unfold dq_view in *. cbn [d_store] in *. rewrite Hv2. kv_norm. by apply lease_all_proper.
Qed.
Next Obligation.
  intros i res w Hok. unfold ack, DurableQueue, dq_ack, finish_spec.
  apply wp_run_bindR. eapply wp_mono; [by apply wp_load|]. intros r w1 [Hs ->].
  rewrite <- (same_view _ _ Hs). destruct Hs as (Hok1 & Hc1 & _). rewrite <- Hc1.
  destruct (jobs (dq_view w1) i) as [sj|] eqn:Ej; cbn [ok_or];
    [|by split; [split; [done|by rewrite Hc1]|]].
  apply view_lookup in Ej as [Hid _]; [|apply Hok1].
  apply run_now. set (t := now_of _ 0).
  apply (wp_store_job _ (ack_job t res sj) (fun _ => _ ← count m_completed; mret (Ok tt)));
    [done..|]. intros w2 Hok2 Hc2 Hv2. apply run_count_d, wp_ret.
  split; [split; [done|by cbn; rewrite Hc2; cbn; rewrite Hc1]|]. by split.
Qed.
Next Obligation.
  intros i e retry w Hok. unfold nack, DurableQueue, dq_nack, finish_spec.
  apply wp_run_bindR. eapply wp_mono; [by apply wp_load|]. intros r w1 [Hs ->].
  rewrite <- (same_view _ _ Hs). destruct Hs as (Hok1 & Hc1 & _). rewrite <- Hc1.
  destruct (jobs (dq_view w1) i) as [sj|] eqn:Ej; cbn [ok_or];
    [|by split; [split; [done|by rewrite Hc1]|]].
  apply view_lookup in Ej as [Hid _]; [|apply Hok1].
  apply run_now. set (t := now_of _ 0). set (sj' := nack_job t e retry sj).
  assert (id (sj_job sj') = i) as Hid'.
  { unfold sj', nack_job. destruct retry; [done|]. by case_bool_decide. }
  apply (wp_store_job _ sj' (fun _ =>
    _ ← (match sj_status sj' with Dead _ _ => count m_dead_lettered | _ => mret tt end);
    _ ← count m_failed; mret (Ok tt)));
    [done..|]. intros w2 Hok2 Hc2 Hv2. cbn in Hc2.
  destruct (sj_status sj'); repeat apply run_count_d; apply wp_ret.
  all: split; [split; [done|by cbn; rewrite Hc2; cbn; rewrite Hc1]|]; by split.
Qed.
Next Obligation.
  intros i lease w Hok. unfold extend_lease, DurableQueue, dq_extend_lease, extend_spec.
  apply wp_run_bindR. apply wp_sweep_d; [done|]. intros w0 Hok0 Hr0 Ht0 Hv0.
  apply wp_run_bindR. eapply wp_mono; [by apply wp_load|]. intros r w1 [Hs ->].
  pose proof (same_view _ _ Hs) as Hvw. destruct Hs as (Hok1 & Hc1 & _).
  cbn zeta. rewrite <- (proj1 Hv0), <- Hvw. rewrite <- Hvw in Hv0.
  assert (reading (d_clk w1) = reading (d_clk w)) as Hr1 by by rewrite Hc1.
  destruct (jobs (dq_view w1) i) as [sj|] eqn:Ej; cbn [ok_or]; [|by split].
  apply view_lookup in Ej as [Hid _]; [|apply Hok1]. apply run_now.
  replace (now_of (d_clk w1) 0) with (now_of (d_clk w) 1)
    by (unfold now_of; rewrite Hc1, Hr0, Ht0; f_equal; lia).
  set (t1 := now_of (d_clk w) 1).
  destruct (sj_status sj) as [|wk e|res f|err f|err f]; try by apply wp_ret.
  case_bool_decide; [by apply wp_ret|].
  destruct (to_vec_ok (take_lease wk (lease_until t1 lease) sj)) as [v Hv].
  unfold to_vec_q. rewrite Hv. cbn [map_err]. apply from_to in Hv.
  apply wp_run_atomically, (wp_zoom (H := store_lens)), wp_write_all; [apply Hok1|].
  intros s2 Hup2 Hd2. cbn in Hd2. split; [split; [|done]|split; [done|]].
  - split; [done|]. cbn. rewrite Hd2. by eapply data_ok_job; [exact Hv| |apply Hok1].
  - unfold dq_view at 1. cbn [d_store upd store_lens]. rewrite Hd2, view_job by exact Hv.
    cbn [snd]. by apply set_job_proper.
Qed.
Next Obligation.
  intros i w Hok. unfold status, DurableQueue, dq_status, status_spec.
  apply wp_run_bindR. apply wp_sweep_d; [done|]. intros w0 Hok0 Hr0 Ht0 Hv0.
  apply wp_run_bindR. eapply wp_mono; [by apply wp_load|]. intros r w1 [Hs ->].
  pose proof (same_view _ _ Hs) as Hvw. destruct Hs as (Hok1 & Hc1 & _).
  cbn zeta. rewrite <- (proj1 Hv0), <- Hvw. rewrite <- Hvw in Hv0.
  destruct (jobs (dq_view w1) i) as [sj|] eqn:Ej; cbn [ok_or]; [apply wp_ret|].
  all: by split; [split; [done|by rewrite Hc1]|].
Qed.
End durable_laws.
