(* ===== verification/Worker.v ===== *)
(** Worker: the clients of the job queue, proved against its interface: the
    worker loop ([src/src/queue/worker.rs]), and what callers of any backend can
    rely on. *)
From S2P Require Import Prelude.
From S2P Require Import Effects.
From S2P Require Import Queue.

(** ** The worker *)

(** A handler's kind and what it makes of a job. *)
Record JobHandler := {
  h_kind : string;
  handle : Job -> result (option string) string;
}.

Record QueueWorker := {
  handlers : list JobHandler;
  worker_id : string;
  batch_size : nat;
  w_lease : Z;
  poll_interval : Z;
}.

Definition new_worker (hs : list JobHandler) (name : string) : QueueWorker :=
  {| handlers := hs; worker_id := name; batch_size := 4; w_lease := from_secs 30;
     poll_interval := from_millis 200 |}.

Definition handler_for (w : QueueWorker) (k : string) : option JobHandler :=
  List.find (fun h => bool_decide (h_kind h = k)) (handlers w).

Section worker.
Context {W : Type} `{!JobQueue W}.

(** The lease extensions made while a handler runs; their results are dropped. *)
Fixpoint beats (n : nat) (i : JobId) (lease : Z) : prog W unit :=
  match n with
  | O => mret tt
  | S n => _ ← extend_lease i lease; beats n i lease
  end.

(** [process]; [n] is how often the heartbeat fires before the handler is
    done.  The value is the list of the metrics recorded. *)
Definition process (w : QueueWorker) (n : nat) (leased : LeasedJob) : prog W (list metric) :=
  let j := job leased in
  let job_id := id j in
  match handler_for w (kind j) with
  | None =>
      _ ← nack job_id "no handler for kind" NoRetry;
      mret [m_failed; m_duration]
  | Some h =>
      _ ← beats n job_id (w_lease w);
      match handle h j with
      | Ok res => _ ← ack job_id res; mret [m_completed; m_duration]
      | Err e => _ ← nack job_id e (Retry (from_secs 1)); mret [m_failed; m_duration]
      end
  end.

Fixpoint process_all (w : QueueWorker) (n : nat) (jobs : list LeasedJob) : prog W (list metric) :=
  match jobs with
  | [] => mret []
  | j :: jobs =>
      ms ← process w n j;
      ms' ← process_all w n jobs;
      mret (ms ++ ms')
  end.

(** [run], on the answers the cancel token gives; past their end the worker is
    still running. *)
Fixpoint worker_run (w : QueueWorker) (n : nat) (cancelled : list bool) : prog W (list metric) :=
  match cancelled with
  | false :: cancelled =>
      r ← reserve (worker_id w) (batch_size w) (w_lease w);
      match r with
      | Err _ => worker_run w n cancelled
      | Ok jobs =>
          ms ← process_all w n jobs;
          ms' ← worker_run w n cancelled;
          mret (ms ++ ms')
      end
  | _ => mret []
  end.

(** Reservations made one after another. *)
Fixpoint reserve_many (lease : Z) (calls : list (string * nat)) : prog W (list LeasedJob) :=
  match calls with
  | [] => mret []
  | (wk, n) :: calls =>
      r ← reserve wk n lease;
      rest ← reserve_many lease calls;
      mret (default [] (ok r) ++ rest)
  end.

(** A job whose attempts keep failing. *)
Fixpoint nack_many (n : nat) (i : JobId) (e : string) (delay : Z) : prog W unit :=
  match n with
  | O => mret tt
  | S n => _ ← nack i e (Retry delay); nack_many n i e delay
  end.
End worker.

(** What the worker makes of a job it took, by the job's handler. *)
Definition outcome (w : QueueWorker) (now : Z) (j : Job) : StoredJob :=
  let sj := {| sj_job := j; sj_status := Queued |} in
  match handler_for w (kind j) with
  | None => nack_job now "no handler for kind" NoRetry sj
  | Some h =>
      match handle h j with
      | Ok res => ack_job now res sj
      | Err e => nack_job now e (Retry (from_secs 1)) sj
      end
  end.

(** ** Facts about the contract *)

Section clients.
Context {W : Type} (fields : list (string * string)).
Context `{!JobQueue W} `{!JobQueueLaws W fields}.
Implicit Types (w : W) (q : queue).

Definition leased_ids (l : list LeasedJob) : list JobId := (fun j => id (job j)) <$> l.

(** The job [i] is leased beyond every reading of the clock. *)
Definition held_past (c : clock) (i : JobId) q : Prop :=
  exists sj wk e, jobs q i = Some sj /\ sj_status sj = Leased wk e /\ forall n, (reading c n < e)%Z.

Lemma held_past_equiv c i q q' : queue_equiv q q' -> held_past c i q -> held_past c i q'.
Proof. intros [Hj _] (sj & wk & e & Hi & ?). exists sj, wk, e. by rewrite <- Hj. Qed.

Lemma held_past_swept c i q n : held_past c i q -> held_past c i (sweep_queue (now_of c n) q).
Proof.
  intros (sj & wk & e & Hi & Hs & He). exists sj, wk, e. cbn. rewrite Hi. cbn.
  unfold sweep_job, expired. rewrite Hs, bool_decide_eq_false_2; [done|].
  specialize (He (ticks c + n)). unfold now_of. lia.
Qed.

Lemma held_not_claimable c i q t sj :
  held_past c i q -> jobs q i = Some sj -> claimable t sj = false.
Proof.
  intros (sj' & wk & e & Hi & Hs & _) Hj. simplify_eq. unfold claimable.
  by rewrite bool_decide_eq_false_2 by congruence.
Qed.

(** A reservation takes no job that is held, and holds what it takes. *)
Lemma reserve_holds c wk n lease t q r q' H :
  (forall m, (reading c m < lease_until t lease)%Z) ->
  Forall (fun i => held_past c i q) H -> NoDup H ->
  reserve_spec wk n lease (now_of c 0) t q r q' ->
  exists out, r = Ok out /\ NoDup (leased_ids out ++ H) /\
    Forall (fun i => held_past c i q') (leased_ids out ++ H).
Proof.
  intros Hlong HH Hnd (l & (Hin & Hndl & _) & -> & Hq').
  set (q0 := sweep_queue (now_of c 0) q) in *. eexists. split; [done|].
  assert (leased_ids ((fun sj => {| job := sj_job sj; lease_expires_at := lease_until t lease |}) <$> take n l)
    = (fun sj => id (sj_job sj)) <$> take n l) as ->.
  { unfold leased_ids. by rewrite <- list_fmap_compose. }
  assert (NoDup ((fun sj => id (sj_job sj)) <$> take n l)) as Hndt.
  { rewrite fmap_take. by apply NoDup_take. }
  assert (Forall (fun i => held_past c i q0) H) as HH0.
  { eapply Forall_impl; [exact HH|]. intros i. apply held_past_swept. }
  assert (forall i, i ∈ (fun sj => id (sj_job sj)) <$> take n l -> i ∉ H) as Hdisj.
  { intros i Hi HiH. apply list_elem_of_fmap in Hi as (sj & -> & Hsj).
    apply elem_of_take_list, Hin in Hsj as [Hsj Hc].
    eapply Forall_forall in HH0; [|exact HiH].
    by rewrite (held_not_claimable c _ _ _ _ HH0 Hsj) in Hc. }
  split; [by apply NoDup_app|]. apply Forall_app. split; apply Forall_forall; intros i Hi.
  - apply list_elem_of_fmap in Hi as (sj & -> & Hsj).
    eapply held_past_equiv; [symmetry; exact Hq'|].
    eexists _, wk, _. split; [by apply lease_all_taken|]. done.
  - eapply held_past_equiv; [symmetry; exact Hq'|].
    eapply Forall_forall in HH0; [|exact Hi]. destruct HH0 as (sj & wk' & e & Hj & ?).
    exists sj, wk', e. rewrite lease_all_other; [done|]. intros Hi'. by apply (Hdisj i).
Qed.

Lemma held_past_reading c c' i q : reading c = reading c' -> held_past c i q -> held_past c' i q.
Proof. unfold held_past. by intros ->. Qed.

Lemma reserve_many_holds lease calls w H :
  q_inv w ->
  (forall n m, (reading (q_clk w) n < lease_until (reading (q_clk w) m) lease)%Z) ->
  Forall (fun i => held_past (q_clk w) i (q_view w)) H -> NoDup H ->
  wp (run (reserve_many lease calls)) (fun out w' =>
    q_inv w' /\ NoDup (leased_ids out ++ H)) w.
Proof.
  revert w H. induction calls as [|[wk n] calls IH]; intros w H Hi Hlong HH Hnd; cbn.
  { by apply wp_ret. }
  apply wp_run_bind. eapply wp_mono; [by apply reserve_law|].
  intros r w1 [[Hi1 Hc] Hspec].
  destruct (reserve_holds (q_clk w) wk n lease (now_of (q_clk w) 1) (q_view w) r (q_view w1) H)
    as (out & -> & Hnd1 & HH1); [intros m; apply Hlong|done..|].
  apply wp_run_bind. eapply wp_mono; [apply (IH w1 (leased_ids out ++ H)); [done| | |done]|].
  - rewrite Hc. apply Hlong.
  - eapply Forall_impl; [exact HH1|]. intros i. by apply held_past_reading.
  - intros rest w2 [Hi2 Hnd2]. apply wp_ret. split; [done|]. cbn.
    unfold leased_ids. rewrite fmap_app. rewrite (Permutation_app_comm (_ <$> out)).
    by rewrite <- app_assoc.
Qed.

(** A job is handed to one worker.  On every backend that keeps the
    contract, reservations made one after another by any workers return each
    job at most once, as long as no clock reading reaches the end of a lease
    taken at any reading. *)
Theorem reserve_exclusive lease calls w :
  q_inv w ->
  (forall n m, (reading (q_clk w) n < lease_until (reading (q_clk w) m) lease)%Z) ->
  wp (run (reserve_many lease calls)) (fun out _ => NoDup (leased_ids out)) w.
Proof.
  intros Hi Hlong.
  eapply wp_mono; [by apply (reserve_many_holds _ _ _ []); [| |constructor|constructor]|].
  intros out w' [_ Hnd]. by rewrite app_nil_r in Hnd.
Qed.

(** What [n] failed attempts make of a job. *)
Definition after_nacks (n : nat) (sj sj' : StoredJob) : Prop :=
  let left := (max_attempts (sj_job sj) - attempt (sj_job sj))%Z in
  if decide (n = 0) then sj' = sj
  else if decide (Z.of_nat n < left)%Z
  then attempt (sj_job sj') = (attempt (sj_job sj) + Z.of_nat n)%Z /\ sj_status sj' = Queued
  else attempt (sj_job sj') = (max_attempts (sj_job sj) - 1)%Z /\
       exists e t, sj_status sj' = Dead e t.

Lemma nack_job_step t e d sj :
  (0 <= attempt (sj_job sj) < max_attempts (sj_job sj))%Z -> (max_attempts (sj_job sj) <= u32_max)%Z ->
  let sj' := nack_job t e (Retry d) sj in
  max_attempts (sj_job sj') = max_attempts (sj_job sj) /\
  ((attempt (sj_job sj) + 1 < max_attempts (sj_job sj))%Z ->
    attempt (sj_job sj') = (attempt (sj_job sj) + 1)%Z /\ sj_status sj' = Queued) /\
  (attempt (sj_job sj) + 1 = max_attempts (sj_job sj) ->
    attempt (sj_job sj') = attempt (sj_job sj) /\ sj_status sj' = Dead e t)%Z.
Proof.
  unfold nack_job, u32_saturating_add. ints. intros Ha Hm. cbn zeta.
  rewrite Z.min_r by lia. case_bool_decide; cbn; split_and!; try done; try lia.
  unfold u32_saturating_add. ints. intros. split; [lia|done].
Qed.

Lemma nack_many_spec n i e d w sj :
  q_inv w -> jobs (q_view w) i = Some sj ->
  (0 <= attempt (sj_job sj) < max_attempts (sj_job sj))%Z -> (max_attempts (sj_job sj) <= u32_max)%Z ->
  wp (run (nack_many n i e d)) (fun _ w' =>
    q_inv w' /\ exists sj', jobs (q_view w') i = Some sj' /\ after_nacks n sj sj' /\
      max_attempts (sj_job sj') = max_attempts (sj_job sj)) w.
Proof.
  revert w sj. induction n as [|n IH]; intros w sj Hi Hj Ha Hm; cbn [nack_many].
  { apply wp_ret. split; [done|]. by exists sj. }
  apply wp_run_bind. eapply wp_mono; [by apply nack_law|].
  intros r w1 ([Hi1 Hc] & _ & Hv & _). set (sj1 := nack_job (now_of (q_clk w) 0) e (Retry d) sj).
  specialize (Hv i). unfold finish_spec in Hv. rewrite Hj in Hv.
  cbn [snd set_job jobs] in Hv. rewrite update_eq in Hv. fold sj1 in Hv.
  destruct (nack_job_step (now_of (q_clk w) 0) e d sj) as (Hm1 & Hlt & Heq); [done..|].
  fold sj1 in Hm1, Hlt, Heq.
  assert (0 <= attempt (sj_job sj1) < max_attempts (sj_job sj1))%Z as Ha1 by lia.
  eapply wp_mono; [by apply (IH w1 sj1); [..|lia]|].
  intros _ w2 (Hi2 & sj2 & Hj2 & Haft & Hm2). split; [done|]. exists sj2.
  split; [done|]. split; [|congruence]. unfold after_nacks in *.
  rewrite Hm1 in Haft. clear Hj2 Hv Hj.
  destruct (decide (n = 0)) as [->|Hn].
  - subst sj2. destruct (decide _); [lia|]. case_decide.
    + destruct Hlt as [-> ?]; [lia|]. split; [lia|done].
    + destruct Heq as [-> ?]; [lia|]. split; [lia|]. by eexists _, _.
  - destruct (decide (S n = 0)); [lia|].
    destruct (Z.lt_ge_cases (attempt (sj_job sj) + 1) (max_attempts (sj_job sj))) as [Hx|Hx].
    + destruct (Hlt Hx) as [Hatt _]. rewrite Hatt in Haft.
      repeat case_decide; try lia; [|done]. destruct Haft as [-> ?]. split; [lia|done].
    + destruct Heq as [Hatt _]; [lia|]. rewrite Hatt in Haft.
      repeat case_decide; try lia. done.
Qed.

(** A job that keeps failing is retried until its attempts are used up and
    is then dead: after [n] failures it is back in the queue with [n] more
    attempts counted while [n] is below the attempts it had left, and dead
    with its last attempt counted from then on. *)
Theorem nack_until_dead n i e d w sj :
  q_inv w -> jobs (q_view w) i = Some sj ->
  (0 <= attempt (sj_job sj) < max_attempts (sj_job sj))%Z -> (max_attempts (sj_job sj) <= u32_max)%Z ->
  wp (run (nack_many n i e d)) (fun _ w' =>
    exists sj', jobs (q_view w') i = Some sj' /\ after_nacks n sj sj') w.
Proof.
  intros. eapply wp_mono; [by apply nack_many_spec|]. naive_solver.
Qed.

(** Both jobs carry the key, and can be enqueued. *)
Definition share_key (j1 j2 : Job) (k : string) : Prop :=
  idempotency_key j1 = Some k /\ idempotency_key j2 = Some k /\
  max_attempts j1 <> 0%Z /\ max_attempts j2 <> 0%Z.

(** An idempotency key is honoured: enqueueing a second job under the same
    key returns the first job's identifier and changes nothing a client can
    see. *)
Theorem enqueue_idempotent j1 j2 k w :
  q_inv w -> share_key j1 j2 k ->
  wp (run (enqueue j1)) (fun r1 w1 => is_ok r1 = true /\
    wp (run (enqueue j2)) (fun r2 w2 => r2 = r1 /\ queue_equiv (q_view w2) (q_view w1)) w1) w.
Proof.
  intros Hi (Hk1 & Hk2 & Hm1 & Hm2). eapply wp_mono; [by apply enqueue_law|].
  intros r1 w1 ([Hi1 _] & Hr1 & Hv1). revert Hr1 Hv1. unfold enqueue_spec.
  rewrite bool_decide_eq_false_2 by done. rewrite Hk1. cbn. intros Hr1 Hv1.
  assert (exists i, r1 = Ok i /\ keys (q_view w1) k = Some i) as (i & -> & Hki).
  { destruct (keys (q_view w) k) as [i|] eqn:E; exists (if keys (q_view w) k is Some i then i else id j1);
      rewrite E; (split; [done|]); rewrite (proj2 Hv1); [done|]. cbn. by rewrite update_eq. }
  split; [done|]. eapply wp_mono; [by apply enqueue_law|].
  intros r2 w2 (_ & Hr2 & Hv2). revert Hr2 Hv2. unfold enqueue_spec.
  rewrite bool_decide_eq_false_2 by done. rewrite Hk2. cbn. rewrite Hki. by intros -> ->.
Qed.

(** Every job of [P] keeps its content, and its status too unless it is leased. *)
Definition steady (P : JobId -> Prop) q q' : Prop :=
  forall i sj, P i -> jobs q i = Some sj -> exists sj', jobs q' i = Some sj' /\
    sj_job sj' = sj_job sj /\ ((forall wk e, sj_status sj <> Leased wk e) -> sj' = sj).

Lemma steady_trans (P : JobId -> Prop) q1 q2 q3 : steady P q1 q2 -> steady P q2 q3 -> steady P q1 q3.
Proof.
  intros H12 H23 i sj HP Hj. destruct (H12 i sj HP Hj) as (sj2 & Hj2 & E2 & S2).
  destruct (H23 i sj2 HP Hj2) as (sj3 & Hj3 & E3 & S3). exists sj3.
  split; [done|]. split; [congruence|]. intros Hs. rewrite <- (S2 Hs). apply S3.
  by rewrite (S2 Hs).
Qed.

Lemma steady_weaken (P P' : JobId -> Prop) q q' : (forall i, P' i -> P i) -> steady P q q' -> steady P' q q'.
Proof. intros HP Hs i sj Hi. apply Hs. auto. Qed.

Lemma steady_equiv P q q' q'' : queue_equiv q'' q' -> steady P q q' -> steady P q q''.
Proof. intros [Hj _] Hs i sj HP Hi. rewrite Hj. by apply Hs. Qed.

Lemma steady_sweep P t q : steady P q (sweep_queue t q).
Proof.
  intros i sj _ Hj. exists (sweep_job t sj). cbn. rewrite Hj.
  split; [done|]. split; [apply sweep_job_job|apply sweep_job_done].
Qed.

Lemma steady_set i sj q : steady (fun i' => i' <> i) q (set_job i sj q).
Proof. intros i' sj' Hne Hj. exists sj'. cbn. by rewrite update_ne. Qed.

Lemma steady_extend i lease t0 t1 q : steady (fun _ => True) q (extend_spec i lease t0 t1 q).2.
Proof.
  unfold extend_spec. eapply steady_trans; [apply (steady_sweep _ t0)|]. cbn zeta.
  set (q' := sweep_queue t0 q). clearbody q'.
  destruct (jobs q' i) as [sj|] eqn:Ej; [|by apply (steady_weaken (fun _ => True)); [|intros ? sj ? ?; exists sj]].
  destruct (sj_status sj) eqn:Es; try (by intros ? sj' ? ?; exists sj').
  case_bool_decide; [by intros ? sj' ? ?; exists sj'|].
  intros i' sj' _ Hj. cbn. unfold update. case_decide as Hi; [|by exists sj'].
  subst. simplify_eq. eexists. split; [done|]. split; [done|]. intros Hn. by destruct (Hn _ _ Es).
Qed.

Lemma wp_beats n i lease w : q_inv w ->
  wp (run (beats n i lease)) (fun _ w' => q_inv w' /\ steady (fun _ => True) (q_view w) (q_view w')) w.
Proof.
  revert w. induction n as [|n IH]; intros w Hi; cbn [beats].
  { apply wp_ret. split; [done|]. intros ? sj ? ?. by exists sj. }
  apply wp_run_bind. eapply wp_mono; [by apply extend_law|]. intros _ w1 ([Hi1 _] & _ & Hv).
  eapply wp_mono; [by apply IH|]. intros _ w2 [Hi2 Hs]. split; [done|].
  eapply steady_trans; [|exact Hs]. eapply steady_equiv; [exact Hv|]. apply steady_extend.
Qed.

Lemma outcome_settled wk t j wk' e : sj_status (outcome wk t j) <> Leased wk' e.
Proof.
  unfold outcome. destruct (handler_for wk (kind j)) as [h|]; [|done].
  destruct (handle h j); [done|]. unfold nack_job. by case_bool_decide.
Qed.

Lemma nack_job_content t e r sj st :
  nack_job t e r sj = nack_job t e r {| sj_job := sj_job sj; sj_status := st |}.
Proof. done. Qed.

Lemma wp_finish (p : prog W (result unit QueueError)) i f w sj Q :
  jobs (q_view w) i = Some sj ->
  wp (run p) (q_does (finish_spec i f) w) w ->
  (forall w', q_inv w' -> jobs (q_view w') i = Some (f sj) ->
     steady (fun i' => i' <> i) (q_view w) (q_view w') -> Q w') ->
  wp (run p) (fun _ w' => Q w') w.
Proof.
  intros Hj Hp HQ. eapply wp_mono; [exact Hp|]. intros r w' ([Hi _] & _ & Hv).
  unfold finish_spec in Hv. rewrite Hj in Hv. cbn in Hv. apply HQ; [done| |].
  - rewrite (proj1 Hv). cbn. by rewrite update_eq.
  - eapply steady_equiv; [exact Hv|]. apply steady_set.
Qed.

Lemma wp_process wk n l w sj :
  q_inv w -> jobs (q_view w) (id (job l)) = Some sj -> sj_job sj = job l ->
  wp (run (process wk n l)) (fun _ w' => q_inv w' /\
    (exists t, jobs (q_view w') (id (job l)) = Some (outcome wk t (job l))) /\
    steady (fun i => i <> id (job l)) (q_view w) (q_view w')) w.
Proof.
  intros Hi Hj Hc. unfold process, outcome.
  destruct (handler_for wk (kind (job l))) as [h|].
  2: { apply wp_run_bind. eapply wp_finish; [done|by apply nack_law|]. cbn beta.
       intros w1 Hi1 Hj1 Hs. apply wp_ret. split; [done|]. split; [|done].
       eexists. by rewrite Hj1, <- Hc. }
  apply wp_run_bind. eapply wp_mono; [by apply wp_beats|]. intros _ w0 [Hi0 Hs0].
  destruct (Hs0 _ _ I Hj) as (sj0 & Hj0 & Hc0 & _). rewrite Hc in Hc0.
  apply (steady_weaken _ (fun i => i <> id (job l))) in Hs0; [|done].
  destruct (handle h (job l)) as [res|e]; apply wp_run_bind.
  - eapply wp_finish; [done|by apply ack_law|]. cbn beta. intros w1 Hi1 Hj1 Hs1.
    apply wp_ret. split; [done|]. split; [|by eapply steady_trans].
    eexists. by rewrite Hj1, <- Hc0.
  - eapply wp_finish; [done|by apply nack_law|]. cbn beta. intros w1 Hi1 Hj1 Hs1.
    apply wp_ret. split; [done|]. split; [|by eapply steady_trans].
    eexists. by rewrite Hj1, <- Hc0.
Qed.

Lemma wp_process_all wk n ls w :
  q_inv w -> NoDup (leased_ids ls) ->
  (forall l, l ∈ ls -> exists sj, jobs (q_view w) (id (job l)) = Some sj /\ sj_job sj = job l) ->
  wp (run (process_all wk n ls)) (fun _ w' => q_inv w' /\
    (forall l, l ∈ ls -> exists t, jobs (q_view w') (id (job l)) = Some (outcome wk t (job l))) /\
    steady (fun i => i ∉ leased_ids ls) (q_view w) (q_view w')) w.
Proof.
  revert w. induction ls as [|l ls IH]; intros w Hi Hnd Hls; cbn [process_all].
  { apply wp_ret. split; [done|]. split; [by intros l ?%elem_of_nil|].
    intros i sj _ Hj. by exists sj. }
  cbn in Hnd. apply NoDup_cons in Hnd as [Hn Hnd].
  destruct (Hls l) as (sj & Hj & Hc); [by left|].
  apply wp_run_bind. eapply wp_mono; [by eapply wp_process|].
  intros ms w1 (Hi1 & [t Ht] & Hs1). apply wp_run_bind.
  assert (forall l', l' ∈ ls -> id (job l') <> id (job l)) as Hne.
  { intros l' Hl' He. apply Hn. rewrite <- He. by apply (list_elem_of_fmap_2 (fun j => id (job j))). }
  eapply wp_mono; [apply IH; [done..|]|].
  { intros l' Hl'. destruct (Hls l') as (sj' & Hj' & Hc'); [by right|].
    destruct (Hs1 _ sj' (Hne l' Hl') Hj') as (sj2 & ? & ? & _). exists sj2. split; congruence. }
  intros ms' w2 (Hi2 & Hout & Hs2). apply wp_ret. split; [done|]. split.
  - intros l' [->|Hl']%elem_of_cons; [|by apply Hout]. exists t.
    destruct (Hs2 _ _ Hn Ht) as (sj2 & -> & _ & Hsame). f_equal. apply Hsame, outcome_settled.
  - eapply steady_trans; eapply steady_weaken; [|exact Hs1| |exact Hs2]; cbn; intros i Hni;
      apply not_elem_of_cons in Hni as [??]; done.
Qed.

(** One round of the worker.  It takes the best claimable jobs, at most a
    batch of them, and every job it took ends as its handler decides: acked
    with the handler's result, put back or buried after a failure, failed for
    good when no handler knows its kind, however often the heartbeat extended
    the lease meanwhile. *)
Theorem worker_round wk n w :
  q_inv w ->
  wp (run (worker_run wk n [false])) (fun _ w' => exists l,
    candidates (now_of (q_clk w) 1) (sweep_queue (now_of (q_clk w) 0) (q_view w)) l /\
    forall sj, sj ∈ take (batch_size wk) l -> exists t,
      jobs (q_view w') (id (sj_job sj)) = Some (outcome wk t (sj_job sj))) w.
Proof.
  intros Hi. cbn [worker_run]. apply wp_run_bind. eapply wp_mono; [by apply reserve_law|].
  intros r w1 ([Hi1 _] & l & Hl & -> & Hv). pose proof Hl as (_ & Hnd & _).
  set (taken := take (batch_size wk) l) in *.
  assert (NoDup ((fun sj => id (sj_job sj)) <$> taken)) as Hndt.
  { unfold taken. rewrite fmap_take. by apply NoDup_take. }
  apply wp_run_bind. eapply wp_mono; [apply wp_process_all; [done| |]|].
  - unfold leased_ids. by rewrite <- list_fmap_compose.
  - intros lj (sj & -> & Hsj)%list_elem_of_fmap. cbn. rewrite (proj1 Hv).
    eexists. by split; [apply lease_all_taken|].
  - intros ms w2 (_ & Hout & _). apply wp_run_bind, wp_ret, wp_ret. exists l. split; [done|].
    intros sj Hsj. eapply (Hout {| job := sj_job sj; lease_expires_at := _ |}).
    apply list_elem_of_fmap. by exists sj.
Qed.
End clients.
