(* ===== verification/QueueRaces.v ===== *)
(** QueueRaces: the two stored backends of the job queue compared.  Run alone,
    both implement the specification of [Queue]; under interleaving the
    in-memory one keeps its promises, and the durable one, which gives up its
    lock between reading and writing, does not. *)
From S2P Require Import Prelude.
From S2P Require Import Effects.
From S2P Require Import RustStr.
From S2P Require Import Kv.
From S2P Require Import Queue.
From S2P Require Import MemoryQueue.
From S2P Require Import DurableQueue.
From S2P Require Import Worker.

(** ** Refinement *)

(** The calls [cs], made one after another on the queue of [w], answer and leave
    it as the specification allows, at times its clock gave, and keep [inv]. *)
Definition follows_spec {W} `{!JobQueue W} (inv : W -> Prop) (clk : W -> clock) (q : W -> queue)
    (fields : list (string * string)) (cs : list call) (w : W) : Prop :=
  wp (run (perform_all cs)) (fun rs w' =>
    inv w' /\ history fields (reading (clk w)) cs (q w) rs (q w')) w.

(** C5: the in-memory backend implements the specification: every history of
    calls, made one after another on a well-formed queue, answers and leaves the
    queue as the specification allows, at times its clock gave, and the queue
    stays well formed. *)
Theorem memory_refines_spec fields cs (w : MemoryQueue.world) :
  state_ok (state w) ->
  follows_spec (JobQueue0 := MemoryQueue fields) (fun w => state_ok (state w)) m_clk
    (fun w => view (state w)) fields cs w.
Proof.
  intros Hw. unfold follows_spec. eapply wp_mono; [by apply (perform_all_spec (W := MemoryQueue.world) fields)|].
  by intros rs w' [[? _] ?].
Qed.

Section durable.
Context {S T : Type} `{!KvStore S T} `{!KvLaws S T}.
Context `{!Serde StoredJob} `{!SerdeLaws StoredJob} `{!UuidText} `{!UuidTextLaws} `{!ErrorText}.

(** C6: the durable backend implements the same specification, on a store that
    answers and holds only readable jobs under their own keys. *)
Theorem durable_refines_spec fields cs (w : DurableQueue.world S) :
  kv_up (d_store w) -> data_ok (kv_data (d_store w)) ->
  follows_spec (JobQueue0 := DurableQueue fields)
    (fun w => kv_up (d_store w) /\ data_ok (kv_data (d_store w))) d_clk
    (fun w => data_view (kv_data (d_store w))) fields cs w.
Proof.
  intros Hup Hd. unfold follows_spec. eapply wp_mono; [by apply (perform_all_spec (W := DurableQueue.world S) fields)|].
  by intros rs w' [[[] _] ?].
Qed.
End durable.

(** ** Interleaved clients of the in-memory queue *)

Section memory_races.
Variables (fields : list (string * string)) (f : nat -> Z).
Implicit Types (w : MemoryQueue.world).

Definition good w : Prop := state_ok (state w) /\ reading (m_clk w) = f.

(** Leased to [wk] beyond every reading of the clock. *)
Definition held_by (wk : string) (sj : StoredJob) : Prop :=
  exists e, sj_status sj = Leased wk e /\ forall n, (f n < e)%Z.

Definition keeps_held w w' : Prop :=
  good w -> good w' /\ forall i sj wk, jobs (view (state w)) i = Some sj -> held_by wk sj ->
    jobs (view (state w')) i = Some sj.

#[export] Instance keeps_held_preorder : PreOrder keeps_held.
Proof.
  split; [by intros w Hw|]. intros w1 w2 w3 H12 H23 Hw.
  destruct (H12 Hw) as [Hw2 Hk]. destruct (H23 Hw2) as [Hw3 Hk']. split; [done|]. eauto.
Qed.

Lemma rg_reserve wk n lease w :
  good w -> (forall n m, (f n < lease_until (f m) lease)%Z) ->
  rg keeps_held (fun r w' => forall out lj, r = Ok out -> lj ∈ out ->
      exists sj, jobs (view (state w')) (id (job lj)) = Some sj /\ held_by wk sj)
    (mq_reserve wk n lease) w.
Proof.
  intros Hw Hlong. apply rg_bind; [apply _|]. apply rg_atomically.
  intros w0 HR. destruct (HR Hw) as [[Hok Hf] _].
  eapply wp_mono; [by apply wp_reserve_locked|].
  intros out w1 (Hok1 & Hr1 & l & (Hin & Hnd & _) & Hout & Hv). injection Hout as ->.
  set (t1 := now_of (m_clk w0) 1) in *. set (q0 := sweep_queue _ _) in *.
  assert (good w1) as Hg1 by (split; [done|congruence]).
  assert (NoDup ((fun sj => id (sj_job sj)) <$> take n l)) as Hndt.
  { rewrite fmap_take. by apply NoDup_take. }
  assert (forall i sj wk', jobs (view (state w0)) i = Some sj -> held_by wk' sj -> jobs q0 i = Some sj)
    as Hq0.
  { intros i sj wk' Hj (e & Hs & He). unfold q0. cbn in Hj |- *. rewrite Hj. cbn. f_equal.
    unfold sweep_job, expired. rewrite Hs, bool_decide_eq_false_2; [done|].
    unfold now_of. rewrite Hf. specialize (He (ticks (m_clk w0) + 0)). lia. }
  split.
  - intros _. split; [done|]. intros i sj wk' Hj Hh. pose proof (Hq0 i sj wk' Hj Hh) as Hj0.
    change (jobs (world_view w1) i = Some sj). rewrite (proj1 Hv), lease_all_other; [done|].
    intros (sj' & -> & Hsj')%list_elem_of_fmap. apply elem_of_take_list, Hin in Hsj' as [Hj' Hc].
    assert (sj' = sj) as -> by congruence. destruct Hh as (e & Hs & _).
    unfold claimable in Hc. by rewrite Hs in Hc.
  - intros w2 HR2. destruct (HR2 Hg1) as [Hg2 Hk2]. apply rg_bind; [apply _|].
    apply rg_atomically. intros w3 HR3. split; [by intros []|].
    intros w4 HR4 w5 HR5 out' lj [= <-] (sj & -> & Hsj)%list_elem_of_fmap.
    exists (take_lease wk (lease_until t1 lease) sj).
    assert (held_by wk (take_lease wk (lease_until t1 lease) sj)) as Hh.
    { exists (lease_until t1 lease). split; [done|]. intros m. unfold t1, now_of. rewrite Hf. apply Hlong. }
    split; [|done]. cbn [job].
    assert (keeps_held w1 w5) as HR15.
    { etrans; [exact HR2|]. etrans; [exact HR3|]. etrans; [|exact HR5]. etrans; [|exact HR4].
      by intros []. }
    destruct (HR15 Hg1) as [_ Hk]. apply (Hk _ _ wk); [|done].
    change (jobs (world_view w1) (id (sj_job sj)) = Some (take_lease wk (lease_until t1 lease) sj)).
    by rewrite (proj1 Hv), lease_all_taken.
Qed.

(** C30: on the in-memory queue no interleaving hands a job out twice: workers
    with distinct names reserve concurrently, in any schedule, and no job is
    in the answers of two of them, while no clock reading reaches the end of a
    lease. *)
Theorem memory_reserve_race (ws : list (string * nat)) lease w sched :
  good w -> (forall n m, (f n < lease_until (f m) lease)%Z) -> NoDup ws.*1 ->
  let c := pool_run sched ((fun x => mq_reserve x.1 x.2 lease) <$> ws, w) in
  forall i1 i2 out1 out2 j1 j2,
    c.1 !! i1 = Some (Ret (Ok out1)) -> c.1 !! i2 = Some (Ret (Ok out2)) ->
    j1 ∈ out1 -> j2 ∈ out2 -> id (job j1) = id (job j2) -> i1 = i2.
Proof.
  intros Hw Hlong Hnd c i1 i2 out1 out2 j1 j2 H1 H2 Hj1 Hj2 Hid.
  set (posts := fun i (r : result (list LeasedJob) QueueError) w' => forall out lj,
    r = Ok out -> lj ∈ out -> exists x sj, ws !! i = Some x /\
      jobs (view (state w')) (id (job lj)) = Some sj /\ held_by x.1 sj).
  assert (forall i out, c.1 !! i = Some (Ret (Ok out)) -> posts i (Ok out) c.2) as Hpost.
  { intros i out Hi. apply (pool_rg_ret keeps_held posts sched _ w i (Ok out)); [|exact Hi].
    intros j p Hp. apply list_lookup_fmap_Some in Hp as (x & -> & Hx).
    eapply rg_mono; [by apply rg_reserve|]. intros r w' Hr out' lj Ho Hlj.
    destruct (Hr out' lj Ho Hlj) as (sj & ? & ?). by exists x, sj. }
  destruct (Hpost i1 out1 H1 out1 j1 eq_refl Hj1) as (x1 & sj1 & Hx1 & Hs1 & e1 & Hl1 & _).
  destruct (Hpost i2 out2 H2 out2 j2 eq_refl Hj2) as (x2 & sj2 & Hx2 & Hs2 & e2 & Hl2 & _).
  assert (sj1 = sj2) as <- by congruence. assert (x1.1 = x2.1) as Hn by congruence.
  eapply NoDup_lookup; [exact Hnd|rewrite list_lookup_fmap, Hx1; done|].
  rewrite list_lookup_fmap, Hx2. cbn. by rewrite Hn.
Qed.

(** *** Enqueueing under one idempotency key *)

(** A job stored with an idempotency key is the one the key stands for. *)
Definition keyed (s : State) : Prop :=
  forall i r k, records s !! i = Some r -> idempotency_key (r_job r) = Some k ->
    idempotency s !! k = Some i.

Definition keeps_keys w w' : Prop :=
  keyed (state w) -> keyed (state w') /\ idempotency (state w) ⊆ idempotency (state w').

#[export] Instance keeps_keys_preorder : PreOrder keeps_keys.
Proof.
  split; [by intros w Hw|]. intros w1 w2 w3 H12 H23 Hw.
  destruct (H12 Hw) as [Hw2 Hk]. destruct (H23 Hw2) as [Hw3 Hk']. split; [done|]. by etrans.
Qed.

Lemma rg_enqueue j k w :
  keyed (state w) -> idempotency_key j = Some k ->
  rg keeps_keys (fun r w' => keyed (state w') /\
      forall i, r = Ok i -> idempotency (state w') !! k = Some i)
    (mq_enqueue fields j) w.
Proof.
  intros Hw Hk. unfold mq_enqueue. case_bool_decide.
  { intros w0 HR. split; [by apply HR|done]. }
  apply rg_bind; [apply _|]. apply rg_atomically. intros w0 HR.
  destruct (HR Hw) as [Hw0 _]. unfold enqueue_locked. apply wp_get_state.
  cbn [idempotency_key with_headers id]. rewrite Hk. cbn [mbind option_bind].
  destruct (idempotency (state w0) !! k) as [i|] eqn:Ek.
  - apply wp_ret. split; [done|]. intros w1 HR1 w2 HR2.
    assert (keeps_keys w0 w2) as HR02 by by etrans.
    destruct (HR02 Hw0) as [Hw2 Hsub]. split; [done|]. intros i' [= <-].
    by eapply lookup_weaken.
  - apply wp_set_state, wp_ret. set (w1 := MemoryQueue.World _ _ _).
    assert (keyed (state w1)) as Hw1.
    { intros i r k'. cbn. rewrite !lookup_insert. case_decide as Hi.
      - intros [= <-]. cbn. rewrite Hk. intros [= <-]. subst i. by rewrite decide_True.
      - intros Hr Hk'. pose proof (Hw0 _ _ _ Hr Hk'). rewrite decide_False; [done|congruence]. }
    assert (idempotency (state w1) !! k = Some (id j)) as Hk1 by apply lookup_insert_eq.
    split; [intros _; split; [done|by apply insert_subseteq]|].
    intros w2 HR2. eapply (rg_mono _ (fun r w' => keeps_keys w2 w' /\ r = Ok (id j))).
    { apply rg_reach; [apply _|].
      repeat (apply rg_bind; [apply _|]; apply rg_atomically; intros; split; [by intros|]; intros).
      by intros w9 HR9. }
    intros r w9 [HR9 ->]. assert (keeps_keys w1 w9) as HR19 by by etrans.
    destruct (HR19 Hw1) as [? Hsub]. split; [done|]. intros i [= <-]. by eapply lookup_weaken.
Qed.

(** On the in-memory queue an idempotency key survives every race: clients
    that enqueue jobs under one key concurrently, in any schedule, all get the
    same identifier, and it is the only stored job with that key. *)
Theorem memory_enqueue_race (js : list Job) k w sched :
  keyed (state w) -> Forall (fun j => idempotency_key j = Some k) js ->
  let c := pool_run sched ((fun j => mq_enqueue fields j) <$> js, w) in
  forall i1 i2 a1 a2,
    c.1 !! i1 = Some (Ret (Ok a1)) -> c.1 !! i2 = Some (Ret (Ok a2)) ->
    a1 = a2 /\ forall i r, records (state c.2) !! i = Some r ->
      idempotency_key (r_job r) = Some k -> i = a1.
Proof.
  intros Hw Hjs c i1 i2 a1 a2 H1 H2.
  set (posts := fun (_ : nat) (r : result JobId QueueError) w' => keyed (state w') /\
    forall i, r = Ok i -> idempotency (state w') !! k = Some i).
  assert (forall i a, c.1 !! i = Some (Ret (Ok a)) -> posts i (Ok a) c.2) as Hpost.
  { intros i a Hi. apply (pool_rg_ret keeps_keys posts sched _ w i (Ok a)); [|exact Hi].
    intros n p Hp. apply list_lookup_fmap_Some in Hp as (j & -> & Hj).
    apply rg_enqueue; [done|]. by eapply (Forall_lookup_1 _ _ _ _ Hjs). }
  destruct (Hpost _ _ H1) as [Hkeyed Hk1]. destruct (Hpost _ _ H2) as [_ Hk2].
  specialize (Hk1 a1 eq_refl). specialize (Hk2 a2 eq_refl). split; [congruence|].
  intros i r Hr Hk. pose proof (Hkeyed i r k Hr Hk). congruence.
Qed.
End memory_races.

(** ** Examples

    A store in memory, identifiers written in binary. *)

#[export] Instance Job_countable : Countable Job.
Proof.
  refine (inj_countable'
    (fun j => (id j, kind j, payload j, priority j, attempt j, max_attempts j, created_at j,
               scheduled_at j, idempotency_key j, headers j))
    (fun '(a, b, c, d, e, f, g, h, i, j) =>
       {| id := a; kind := b; payload := c; priority := d; attempt := e; max_attempts := f;
          created_at := g; scheduled_at := h; idempotency_key := i; headers := j |}) _).
  by intros [].
Defined.

#[export] Instance JobStatus_countable : Countable JobStatus.
Proof.
  refine (inj_countable'
    (fun s => match s with
              | Queued => inl (inl tt)
              | Leased w e => inl (inr (w, e))
              | Succeeded r t => inr (inl (inl (r, t)))
              | Failed e t => inr (inl (inr (e, t)))
              | Dead e t => inr (inr (e, t))
              end)
    (fun s => match s with
              | inl (inl _) => Queued
              | inl (inr (w, e)) => Leased w e
              | inr (inl (inl (r, t))) => Succeeded r t
              | inr (inl (inr (e, t))) => Failed e t
              | inr (inr (e, t)) => Dead e t
              end) _).
  by intros [].
Defined.

#[export] Instance StoredJob_countable : Countable StoredJob.
Proof.
  refine (inj_countable' (fun s => (sj_job s, sj_status s))
    (fun '(j, st) => {| sj_job := j; sj_status := st |}) _).
  by intros [].
Defined.

Module QueueExamples.

#[local] Existing Instances ScriptKv.kv ScriptKv.laws.
#[local] Instance serde : Serde StoredJob := CountableSerde.serde StoredJob.
#[local] Instance serde_laws : SerdeLaws StoredJob := CountableSerde.serde_laws StoredJob.

#[local] Instance text : UuidText := {|
  uuid_show u := CountableSerde.show_pos (N.succ_pos u);
  uuid_parse s := Pos.pred_N <$> CountableSerde.read_pos s;
|}.

Lemma show_pos_utf8 p : utf8_valid (CountableSerde.show_pos p) = true.
Proof. by induction p. Qed.

#[local] Instance text_laws : UuidTextLaws.
Proof.
  split; intros u; cbn; [|apply show_pos_utf8].
  rewrite CountableSerde.read_show. cbn. f_equal. lia.
Qed.

#[local] Instance errors : ErrorText := {|
  store_error_text e := "store error";
  utf8_error_text b := "invalid utf-8";
|}.

Definition a_job (i : Uuid) (prio : Z) (key : option string) : Job :=
  {| id := i; kind := "mail"; payload := ""; priority := prio; attempt := 0; max_attempts := 3;
     created_at := 5; scheduled_at := 5; idempotency_key := key; headers := ∅ |}.

Definition clock_at (t : Z) : clock := Clock (fun _ => t) 0.
Definition half_minute : Z := from_secs 30.

Definition memory (js : list Job) (t : Z) : MemoryQueue.world :=
  MemoryQueue.World
    {| records := list_to_map ((fun j => (id j, new_record j)) <$> js); idempotency := ∅ |}
    (clock_at t) [].

Definition stored_jobs (js : list StoredJob) : gmap string bytes :=
  list_to_map ((fun sj => (job_key (id (sj_job sj)), CountableSerde.show_pos (encode sj))) <$> js).

Definition durable (js : list StoredJob) (t : Z) : DurableQueue.world ScriptKv.store :=
  DurableQueue.World (ScriptKv.Store (stored_jobs js) []) (clock_at t) [].

Definition queued (j : Job) : StoredJob := {| sj_job := j; sj_status := Queued |}.

Lemma memory_ok js t : Forall (fun j => max_attempts j <> 0%Z) js -> state_ok (state (memory js t)).
Proof.
  intros Hjs. split; [|apply map_Forall_empty]. intros i r Hi. cbn in Hi.
  apply elem_of_list_to_map_2, list_elem_of_fmap in Hi as (j & [= -> ->] & Hj).
  split; [done|]. split; [by eapply Forall_forall in Hjs|done].
Qed.

Lemma durable_ok js t : data_ok (kv_data (d_store (durable js t))).
Proof.
  assert (forall k v, stored_jobs js !! k = Some v ->
    exists sj, from_slice v = Ok sj /\ k = job_key (id (sj_job sj))) as Hall.
  { intros k v Hk. apply elem_of_list_to_map_2, list_elem_of_fmap in Hk as (sj & [= -> ->] & _).
    exists sj. split; [|done]. by apply from_to. }
  split.
  - intros k v Hk _. by apply Hall.
  - intros key v Hk. by apply Hall in Hk as (sj & _ & ?).
Qed.

Definition calls : list call :=
  [CallEnqueue (a_job 1 0 (Some "k")); CallEnqueue (a_job 2 0 (Some "k"));
   CallReserve "w" 5 half_minute; CallNack 1 "boom" (Retry 0); CallStatus 1].

Lemma memory_refines_spec_witness :
  state_ok (state (memory [] 9)) /\
  wp (run (perform_all (JobQueue0 := MemoryQueue []) calls)) (fun rs w' =>
    state_ok (state w') /\
    history [] (fun _ => 9%Z) calls (view (state (memory [] 9))) rs (view (state w'))) (memory [] 9).
Proof.
  split; [by apply memory_ok|].
  apply (memory_refines_spec [] calls (memory [] 9)). by apply memory_ok.
Defined.

Lemma durable_refines_spec_witness :
  follows_spec (JobQueue0 := DurableQueue [])
    (fun w => kv_up (d_store w) /\ data_ok (kv_data (d_store w))) d_clk
    (fun w => data_view (kv_data (d_store w))) [] calls (durable [] 9).
Proof.
  apply (durable_refines_spec [] calls (durable [] 9)); [reflexivity|apply durable_ok].
Defined.

Definition three : list Job := [a_job 1 0 None; a_job 2 7 None; a_job 3 0 None].
Definition workers : list (string * nat) := [("w1", 2); ("w2", 2)].

Lemma memory_reserve_race_witness :
  let c := pool_run [0; 1; 1; 0] ((fun x => mq_reserve x.1 x.2 half_minute) <$> workers, memory three 9) in
  (exists o1 o2, c.1 = [Ret (Ok o1); Ret (Ok o2)] /\ leased_ids o1 = [2; 1]%N /\ leased_ids o2 = [3]%N) /\
  forall i1 i2 out1 out2 j1 j2,
    c.1 !! i1 = Some (Ret (Ok out1)) -> c.1 !! i2 = Some (Ret (Ok out2)) ->
    j1 ∈ out1 -> j2 ∈ out2 -> id (job j1) = id (job j2) -> i1 = i2.
Proof.
  split; [eexists _, _; split; [vm_compute; reflexivity|split; reflexivity]|].
  apply (memory_reserve_race (fun _ => 9%Z) workers half_minute (memory three 9) [0; 1; 1; 0]).
  - split; [by apply memory_ok; repeat constructor|reflexivity].
  - intros n m. reflexivity.
  - apply (bool_decide_unpack _). vm_compute. exact I.
Defined.

Definition twins : list Job := [a_job 1 0 (Some "k"); a_job 2 0 (Some "k")].

Lemma memory_enqueue_race_witness :
  let c := pool_run [1; 0; 0; 1; 1; 1; 0] ((fun j => mq_enqueue [] j) <$> twins, memory [] 9) in
  c.1 = [Ret (Ok 2%N); Ret (Ok 2%N)] /\
  forall i1 i2 a1 a2,
    c.1 !! i1 = Some (Ret (Ok a1)) -> c.1 !! i2 = Some (Ret (Ok a2)) ->
    a1 = a2 /\ forall i r, records (state c.2) !! i = Some r ->
      idempotency_key (r_job r) = Some "k" -> i = a1.
Proof.
  split; [vm_compute; reflexivity|].
  apply (memory_enqueue_race [] twins "k" (memory [] 9) [1; 0; 0; 1; 1; 1; 0]).
  - intros i r k. cbn. by rewrite lookup_empty.
  - repeat constructor.
Defined.

(** On the durable queue two workers that reserve at the same time are
    handed the same job: both list the store before either writes its lease,
    and the write is not conditional on the status that was read. *)
Theorem durable_double_reserve :
  exists sched out1 out2,
    (pool_run sched ([dq_reserve "w1" 1 half_minute; dq_reserve "w2" 1 half_minute],
       durable [queued (a_job 1 0 None)] 9)).1 = [Ret (Ok out1); Ret (Ok out2)] /\
    leased_ids out1 = [1%N] /\ leased_ids out2 = [1%N].
Proof.
  eexists [0; 0; 0; 0; 1; 1; 1; 1; 0; 1; 0; 1], _, _.
  split; [vm_compute; reflexivity|]. split; reflexivity.
Qed.

(** On the durable queue an idempotency key does not survive a race: two
    clients that look the key up before either writes it each store their own
    job and get different identifiers. *)
Theorem durable_duplicate_enqueue :
  exists sched,
    let c := pool_run sched
      ([dq_enqueue [] (a_job 1 0 (Some "k")); dq_enqueue [] (a_job 2 0 (Some "k"))],
       durable [] 9) in
    let q := data_view (kv_data (d_store c.2)) in
    c.1 = [Ret (Ok 1%N); Ret (Ok 2%N)] /\
    jobs q 1%N = Some (queued (a_job 1 0 (Some "k"))) /\
    jobs q 2%N = Some (queued (a_job 2 0 (Some "k"))).
Proof. exists [0; 1; 0; 1; 0; 0; 0; 1; 1; 1]. split_and!; vm_compute; reflexivity. Qed.

(** On the durable queue a sweep can put back a job whose lease was just
    extended: it chooses the expired jobs from a listing and only checks again
    that they are leased, not that they are still expired. *)
Theorem durable_sweep_drops_live_lease :
  exists sched,
    let c := pool_run sched
      ([perform (JobQueue0 := DurableQueue []) (CallExtend 1 half_minute);
        perform (JobQueue0 := DurableQueue []) (CallStatus 1)],
       DurableQueue.World
         (ScriptKv.Store (stored_jobs [ {| sj_job := a_job 1 0 None; sj_status := Leased "w" 9 |} ]) [])
         (Clock (fun n => if decide (n < 2) then 8%Z else 9%Z) 0) []) in
    c.1 = [Ret (ReplyUnit (Ok tt)); Ret (ReplyStatus (Ok Queued))] /\
    jobs (data_view (kv_data (d_store c.2))) 1%N = Some (queued (a_job 1 0 None)).
Proof. exists [0; 0; 0; 0; 1; 1; 0; 1; 1]. split_and!; vm_compute; reflexivity. Qed.

(** *** The clients of [Worker], on the in-memory queue *)

#[local] Instance mq : JobQueue MemoryQueue.world := MemoryQueue [].
#[local] Instance mq_laws : JobQueueLaws MemoryQueue.world [] := MemoryQueue.laws [].

Lemma three_ok : state_ok (state (memory three 9)).
Proof. apply memory_ok. repeat constructor; discriminate. Qed.

Lemma reserve_exclusive_witness :
  leased_ids (run (reserve_many half_minute workers) (memory three 9)).1 = [2; 1; 3]%N /\
  wp (run (reserve_many half_minute workers)) (fun out _ => NoDup (leased_ids out)) (memory three 9).
Proof.
  split; [vm_compute; reflexivity|].
  apply (reserve_exclusive [] half_minute workers (memory three 9)); [apply three_ok|].
  intros n m. reflexivity.
Defined.

Lemma nack_until_dead_witness :
  wp (run (nack_many 3 1%N "boom" 0)) (fun _ w' =>
    exists sj', jobs (q_view w') 1%N = Some sj' /\
      after_nacks 3 (queued (a_job 1 0 None)) sj') (memory three 9).
Proof.
  apply (nack_until_dead [] 3 1%N "boom" 0 (memory three 9) (queued (a_job 1 0 None)));
    [apply three_ok|vm_compute; reflexivity|cbn; lia|cbn; ints; lia].
Defined.

Lemma enqueue_idempotent_witness :
  wp (run (enqueue (a_job 1 0 (Some "k")))) (fun r1 w1 => is_ok r1 = true /\
    wp (run (enqueue (a_job 2 0 (Some "k")))) (fun r2 w2 =>
      r2 = r1 /\ queue_equiv (q_view w2) (q_view w1)) w1) (memory three 9).
Proof.
  apply (enqueue_idempotent [] (a_job 1 0 (Some "k")) (a_job 2 0 (Some "k")) "k" (memory three 9));
    [apply three_ok|by repeat split].
Defined.

Definition mailer : QueueWorker :=
  new_worker [ {| h_kind := "mail"; handle j := if bool_decide (id j = 1%N) then Err "boom" else Ok None |} ] "w".

Lemma worker_round_witness :
  wp (run (worker_run mailer 2 [false])) (fun _ w' => exists l,
    candidates (now_of (q_clk (memory three 9)) 1)
      (sweep_queue (now_of (q_clk (memory three 9)) 0) (q_view (memory three 9))) l /\
    forall sj, sj ∈ take (batch_size mailer) l -> exists t,
      jobs (q_view w') (id (sj_job sj)) = Some (outcome mailer t (sj_job sj))) (memory three 9).
Proof. apply (worker_round [] mailer 2 (memory three 9)). apply three_ok. Defined.
End QueueExamples.
