(* ===== verification/FsTypes.v ===== *)
(** FsTypes: the data of the file store: the records of the change feed
    ([src/src/records.rs]), errors ([fs/error.rs]), request validation
    ([fs/model.rs]), relation keys ([fs/relation.rs]) and the fencing latch
    ([fencing.rs]). *)
From S2P Require Import Prelude.
From S2P Require Import Effects.
From S2P Require Import RustStr.
From S2P Require Import Kv.

(** ** The change feed *)

Record FileRecord := {
  fr_id : string;
  fr_name : string;
  fr_mimetype : string;
  fr_size : Z;
  fr_s3_key : string;
  fr_owner_sub : string;
  fr_created_at : Z;
}.

#[export] Instance FileRecord_eq_dec : EqDecision FileRecord.
Proof. solve_decision. Defined.

Inductive WalOp : Type :=
| PolicyAdd (obj : string)
| PolicyRemove (obj : string)
| PolicyRuleAdd (sub obj act : string)
| PolicyRuleRemove (sub obj act : string)
| GroupAdd (user group : string)
| GroupRemove (user group : string)
| GroupDelete (group : string)
| Attach (row_type row_id file_id : string)
| Detach (row_type row_id file_id : string)
| FileCreate (rec : FileRecord)
| FileDelete (file_id : string).

#[export] Instance WalOp_eq_dec : EqDecision WalOp.
Proof. solve_decision. Defined.

Definition is_legacy_policy_mark (op : WalOp) : bool :=
  match op with PolicyAdd _ | PolicyRemove _ => true | _ => false end.

Record WalEntry := { we_seq : Z; we_op : WalOp; we_ts : Z }.

(** The sink's failure is an opaque text. *)
Class ChangeSink (F : Type) := {
  append : WalOp -> act F (result unit string);
}.

(** A feed that answers keeps what it is given, in order. *)
Class SinkLaws (F : Type) `{!ChangeSink F} := {
  sink_up : F -> Prop;
  sink_ops : F -> list WalOp;
  sink_append op f : sink_up f -> wp (append op) (fun r f' =>
    r = Ok tt /\ sink_up f' /\ sink_ops f' = sink_ops f ++ [op]) f;
}.

(** ** Errors *)

Inductive FsError : Type :=
| FsBadRequest (d : string)
| FsPayloadTooLarge
| FsForbidden
| FsNotFound (d : string)
| FsInternal (d : string)
| FsStoreErr (d : string)
| FsTooManyRequests
| FsFenced (d : string).

#[export] Instance FsError_eq_dec : EqDecision FsError.
Proof. solve_decision. Defined.

(** The text of a store error, which is the library's. *)
Class StoreText := { store_text : StoreError -> string }.

Definition fs_of_store `{StoreText} (e : StoreError) : FsError :=
  match e with
  | StoreFenced reason => FsFenced reason
  | other => FsStoreErr (store_text other)
  end.

Definition is_fencing_loss (e : FsError) : bool := match e with FsFenced _ => true | _ => false end.

Definition detail (e : FsError) : string :=
  match e with
  | FsBadRequest d | FsNotFound d | FsInternal d | FsStoreErr d | FsFenced d => d
  | FsPayloadTooLarge | FsForbidden | FsTooManyRequests => ""
  end.

Definition client_message (e : FsError) : string :=
  match e with
  | FsBadRequest _ => "bad request"
  | FsForbidden => "forbidden"
  | FsNotFound _ => "not found"
  | FsPayloadTooLarge => "payload too large"
  | FsInternal _ | FsStoreErr _ | FsFenced _ => "internal server error"
  | FsTooManyRequests => "too many requests"
  end.

Definition code (e : FsError) : string :=
  match e with
  | FsBadRequest _ => "invalid_request"
  | FsPayloadTooLarge => "payload_too_large"
  | FsForbidden => "forbidden"
  | FsNotFound _ => "not_found"
  | FsInternal _ | FsStoreErr _ | FsFenced _ => "internal_error"
  | FsTooManyRequests => "too_many_requests"
  end.

(** [Display for FsError] *)
Definition fs_text (e : FsError) : string :=
  match e with
  | FsBadRequest d | FsNotFound d => d
  | FsPayloadTooLarge => "payload too large"
  | FsForbidden => "forbidden"
  | FsInternal _ | FsStoreErr _ | FsFenced _ => "internal server error"
  | FsTooManyRequests => "too many requests"
  end.

Definition status_code (e : FsError) : Z :=
  match e with
  | FsBadRequest _ => 400
  | FsPayloadTooLarge => 413
  | FsForbidden => 403
  | FsNotFound _ => 404
  | FsInternal _ | FsStoreErr _ | FsFenced _ => 500
  | FsTooManyRequests => 429
  end.

(** ** The fencing latch

    [trip] sets the flag and keeps what it logs as an error: only the first
    trip does. *)
Record Latch := { tripped : bool; alarms : list (string * string) }.

Definition new_latch : Latch := {| tripped := false; alarms := [] |}.

Definition trip (source reason : string) : act Latch unit := fun l =>
  if tripped l then (tt, l)
  else (tt, {| tripped := true; alarms := alarms l ++ [(source, reason)] |}).

Definition is_tripped (l : Latch) : bool := tripped l.

(** ** Requests *)

Record InitRequest := {
  file_size : Z;
  part_size : Z;
  file_total_parts : Z;
}.

Definition MAX_MULTIPART_PARTS : Z := 10000.

Definition u64_text (z : Z) : string := show_N (Z.to_N z).

(** [u64::div_ceil] *)
Definition div_ceil (a b : Z) : Z :=
  let q := (a / b)%Z in if bool_decide (a mod b = 0)%Z then q else u64_add q 1.

Definition bad {A} (d : string) : result A FsError := Err (FsBadRequest d).

Definition validate_init (r : InitRequest) : result unit FsError :=
  if bool_decide (file_size r = 0)%Z then bad "file_size cannot be empty" else
  if bool_decide (part_size r = 0)%Z then bad "part_size cannot be zero" else
  if bool_decide (file_total_parts r = 0)%Z then bad "total_parts cannot be zero" else
  if bool_decide (file_total_parts r = 1)%Z then
    if bool_decide (part_size r <> file_size r) then
      bad ("For a single-part upload, part_size (" +:+ u64_text (part_size r) +:+
           ") must be equal to the file_size (" +:+ u64_text (file_size r) +:+ ")")
    else if bool_decide (file_size r > 10 * 1024 * 1024)%Z then
      bad "For a single-part upload, cannot be bigger than 10 MB"
    else Ok tt
  else
    if bool_decide (file_total_parts r > MAX_MULTIPART_PARTS)%Z then
      bad ("file_total_parts must be at most " +:+ u64_text MAX_MULTIPART_PARTS +:+
           " (S3's per-upload part limit); got " +:+ u64_text (file_total_parts r) +:+
           ". Raise part_size (max 512 KB) to split a larger file.")
    else if negb (bool_decide (part_size r mod 1024 = 0)%Z) || negb (bool_decide (part_size r <= 524288)%Z) then
      bad "part_size must be a multiple of 1 KB up to 512 KB (e.g., 131072, 262144, 524288)"
    else
      let expected := div_ceil (file_size r) (part_size r) in
      if bool_decide (file_total_parts r <> expected) then
        bad ("Inconsistent math: file_total_parts must be exactly " +:+ u64_text expected +:+
             " for a file of this size split by " +:+ u64_text (part_size r) +:+ " bytes")
      else
        let last_part_start := u64_mul (u64_sub (file_total_parts r) 1) (part_size r) in
        let covered := u64_mul (file_total_parts r) (part_size r) in
        if bool_decide (file_size r <= last_part_start)%Z || bool_decide (file_size r > covered)%Z then
          bad ("Inconsistent math: file_size (" +:+ u64_text (file_size r) +:+
               ") must be greater than " +:+ u64_text last_part_start +:+
               " and at most " +:+ u64_text covered)
        else Ok tt.

Record CompleteRequest := { cr_name : string; cr_mimetype : string }.

Definition validate_complete (r : CompleteRequest) : result unit FsError :=
  if bool_decide (trim (cr_name r) = "") then bad "name cannot be empty"
  else if bool_decide (trim (cr_mimetype r) = "") then bad "mimetype cannot be empty"
  else Ok tt.

Record FileMetadata := { md_id : string; md_name : string; md_mimetype : string; md_size : Z }.

Record ProgressResponse := {
  pr_file_id : string;
  pr_file_size : Z;
  pr_part_size : Z;
  pr_total_parts : Z;
  pr_uploaded_parts : list Z;
  pr_percent : Z;
}.

(** ** Stored records *)

Record UploadSession := {
  us_id : string;
  us_file_size : Z;
  us_part_size : Z;
  us_file_total_parts : Z;
  us_s3_upload_id : option string;
  us_s3_key : string;
  us_owner_sub : string;
  us_created_at : Z;
  us_etags : list (option string);
  us_checksums : list (option string);
}.

Definition is_expired (s : UploadSession) (now ttl_secs : Z) : bool :=
  bool_decide (i64_sub now (us_created_at s) > ttl_secs)%Z.

Record PersistedMultipart := {
  pm_upload_id : string;
  pm_bucket : string;
  pm_key : string;
  pm_s3_upload_id : string;
  pm_parts : gmap nat string;
  pm_created_at : Z;
}.

Record RefInfo := { count : Z; orphan_since : option Z }.

Definition default_ref_info : RefInfo := {| count := 0; orphan_since := None |}.

(** ** Keys *)

Definition rel_key (row_type row_id file_id : string) : string :=
  "fs:rel:" +:+ row_type +:+ ":" +:+ row_id +:+ ":" +:+ file_id.
Definition refs_key (file_id : string) : string := "fs:files:" +:+ file_id +:+ ":refs".
Definition rel_prefix_for_row (row_type row_id : string) : string :=
  "fs:rel:" +:+ row_type +:+ ":" +:+ row_id +:+ ":".
Definition REL_PREFIX : string := "fs:rel:".
Definition FILES_PREFIX : string := "fs:files:".
Definition FILE_META_SUFFIX : string := ":meta".
Definition session_key (id : string) : string := "fs:uploads:" +:+ id +:+ ":meta".
Definition staged_key (id : string) (idx : Z) : string :=
  "fs:uploads:" +:+ id +:+ ":part:" +:+ u64_text idx.
Definition multipart_key (upload_id : string) : string := "fs:mp:" +:+ upload_id.
Definition file_key (id : string) : string := FILES_PREFIX +:+ id +:+ FILE_META_SUFFIX.

Definition prefix_scan_end (prefix : string) : string := pop prefix +:+ ";".

(** ** Theorems *)

(** An accepted upload request describes an exact cover of the file: the
    parts before the last are full, the last part is not empty and not longer
    than the others, no arithmetic wrapped, and the number of parts is one that
    the object store takes. *)
Lemma validate_init_geometry r :
  in_u64 (file_size r) -> in_u64 (part_size r) -> in_u64 (file_total_parts r) ->
  validate_init r = Ok tt ->
  let last := (file_size r - (file_total_parts r - 1) * part_size r)%Z in
  (1 <= file_total_parts r <= MAX_MULTIPART_PARTS)%Z /\
  (0 < last <= part_size r)%Z /\
  (file_size r = (file_total_parts r - 1) * part_size r + last)%Z /\
  in_u64 (file_total_parts r * part_size r).
Proof.
  unfold validate_init, bad, MAX_MULTIPART_PARTS. ints. intros Hf Hp Ht.
  destruct (bool_decide_reflect (file_size r = 0)%Z); [done|].
  destruct (bool_decide_reflect (part_size r = 0)%Z); [done|].
  destruct (bool_decide_reflect (file_total_parts r = 0)%Z); [done|].
  destruct (bool_decide_reflect (file_total_parts r = 1)%Z) as [Hone|].
  { destruct (bool_decide_reflect (part_size r <> file_size r)); [done|].
    destruct (bool_decide_reflect (file_size r > 10 * 1024 * 1024)%Z); [done|]. intros _.
    rewrite Hone. cbn zeta. lia. }
  destruct (bool_decide_reflect (file_total_parts r > 10000)%Z); [done|].
  destruct (bool_decide_reflect (part_size r mod 1024 = 0)%Z); [|done].
  destruct (bool_decide_reflect (part_size r <= 524288)%Z); [|done]. cbn [negb orb].
  destruct (bool_decide_reflect (file_total_parts r <> div_ceil (file_size r) (part_size r))); [done|].
  assert (file_total_parts r * part_size r <= 10000 * 524288)%Z as Hprod by nia.
  rewrite (u64_sub_id (file_total_parts r)) by (ints; lia).
  rewrite !u64_mul_id by (ints; nia).
  destruct (bool_decide_reflect (file_size r <= (file_total_parts r - 1) * part_size r)%Z); [done|].
  destruct (bool_decide_reflect (file_size r > file_total_parts r * part_size r)%Z); [done|]. intros _. cbn zeta. nia.
Qed.

(** Requests are not refused without cause: a split of a file into equal
    parts of a permitted size, the last part possibly shorter, is accepted. *)
Theorem validate_init_accepts r :
  in_u64 (file_size r) -> (0 < file_size r)%Z ->
  (2 <= file_total_parts r <= MAX_MULTIPART_PARTS)%Z ->
  (part_size r mod 1024 = 0)%Z -> (0 < part_size r <= 524288)%Z ->
  ((file_total_parts r - 1) * part_size r < file_size r <= file_total_parts r * part_size r)%Z ->
  validate_init r = Ok tt.
Proof.
  unfold validate_init, MAX_MULTIPART_PARTS. intros Hf Hpos Ht Hm Hp Hc.
  rewrite !(bool_decide_eq_false_2 (_ = _)) by lia.
  rewrite (bool_decide_eq_false_2 (_ > 10000)%Z) by lia.
  rewrite (bool_decide_eq_true_2 (_ mod 1024 = _)%Z) by done.
  rewrite (bool_decide_eq_true_2 (_ <= 524288)%Z) by lia. cbn [negb orb].
  assert (div_ceil (file_size r) (part_size r) = file_total_parts r) as ->.
  { unfold div_ceil. pose proof (Z.div_mod (file_size r) (part_size r)) as Hdm.
    pose proof (Z.mod_pos_bound (file_size r) (part_size r)) as Hb.
    case_bool_decide as Hz; [nia|]. rewrite u64_add_id by (ints; nia). nia. }
  rewrite (bool_decide_eq_false_2 (_ <> _)) by tauto.
  rewrite (u64_sub_id (file_total_parts r)) by (ints; lia).
  rewrite !u64_mul_id by (ints; nia).
  by rewrite !bool_decide_eq_false_2 by lia.
Qed.

(** What a failure tells a client depends only on its kind: the answer's
    message, code and status never carry the detail of an internal, store or
    fencing error, and these three cannot be told apart. *)
Theorem internal_errors_look_alike e1 e2 :
  status_code e1 = 500%Z -> status_code e2 = 500%Z ->
  client_message e1 = client_message e2 /\ code e1 = code e2.
Proof. by destruct e1, e2. Qed.

(** The latch never reopens and raises its alarm once: after any sequence of
    trips it is tripped iff there was one, and it logged the first of them. *)
Theorem latch_trips_once (trips : list (string * string)) :
  let l := foldl (fun l t => (trip t.1 t.2 l).2) new_latch trips in
  is_tripped l = bool_decide (trips <> []) /\ alarms l = take 1 trips.
Proof.
  destruct trips as [|[s r] trips]; [done|]. cbn.
  enough (forall l, tripped l = true -> foldl (fun l t => (trip t.1 t.2 l).2) l trips = l) as Hf
    by by rewrite Hf.
  induction trips as [|t trips IH]; intros l Hl; [done|]. cbn. unfold trip at 2. rewrite Hl. by apply IH.
Qed.
