(* ===== verification/Tokio.v ===== *)
(** Tokio: intervals and timeouts of the runtime that the background tasks run
    on, and the pairing of a runtime with the state of a task. *)
From S2P Require Import Prelude.
From S2P Require Import Effects.

(** [tokio::time]: an interval of a period, over a state [C] of the runtime;
    [tick_within d] is [timeout(d, interval.tick()).await.is_ok()]. *)
Class Tokio (C : Type) := {
  tick_interval : act C unit;
  tick_within : Z -> act C bool;
}.

(** What is documented of a tick under a timeout: one that is due by the end of
    the timeout completes, and the next is due a [period] after it; one that
    gives up has waited for the timeout and consumes nothing. *)
Class TickLaws (C : Type) `{!Tokio C} (period : Z) := {
  clock_at : C -> Z;
  next_tick : C -> Z;
  law_within d c : wp (tick_within d) (fun ok c' =>
    ((next_tick c <= clock_at c + d)%Z -> ok = true) /\
    if ok then next_tick c' = (next_tick c + period)%Z /\ (clock_at c <= clock_at c')%Z
    else next_tick c' = next_tick c /\ (clock_at c + d <= clock_at c')%Z) c;
}.

(** A runtime [C] and the state [W] of a task. *)
Definition on_runtime {C W A} (m : act C A) : act (C * W) A := fun w => let '(a, c) := m w.1 in (a, (c, w.2)).
Definition on_state {C W A} (m : act W A) : act (C * W) A := fun w => let '(a, x) := m w.2 in (a, (w.1, x)).

Lemma wp_on_runtime {C W A} (m : act C A) (Q : A -> C * W -> Prop) c x :
  wp m (fun a c' => Q a (c', x)) c -> wp (on_runtime m) Q (c, x).
Proof. unfold wp, on_runtime. cbn. by destruct (m c). Qed.

Lemma wp_on_state {C W A} (m : act W A) (Q : A -> C * W -> Prop) c x :
  wp m (fun a x' => Q a (c, x')) x -> wp (on_state m) Q (c, x).
Proof. unfold wp, on_state. cbn. by destruct (m x). Qed.
