(* ===== verification/Http.v ===== *)
(** Http: what the routes share: the error answers ([src/src/http/error.rs],
    the rendering half of [fs/error.rs]), the validated request body
    ([http/validation.rs]), the route prefixes and the request pipeline's small
    parts ([http/mod.rs], [http/middleware/bearer_token.rs], [request_id.rs],
    [server_time.rs]) and the health probes ([http/health.rs]).

    [actix_web] is a dependency: a request is what its accessors return, a
    response is its status, its headers and the value its body is made from. *)
From S2P Require Import Prelude.
From S2P Require Import Effects.
From S2P Require Import RustStr.
From S2P Require Import FsTypes.
From S2P Require Import Tokio.

(** ** Requests and responses *)

(** [req.headers().get(name).and_then(|v| v.to_str().ok())] and
    [req.cookie(name).map(|c| c.value())]. *)
Record HttpRequest := {
  header_str : string -> option string;
  cookie : string -> option string;
}.

Abbreviation headers := (list (string * string)).

Record HttpResponse (A : Type) := Resp {
  status : Z;
  resp_headers : headers;
  body : option A;
}.
Arguments Resp {A} status resp_headers body.
Arguments status {A} _.
Arguments resp_headers {A} _.
Arguments body {A} _.

(** [HeaderMap::insert] replaces, [append] adds. *)
Definition insert_header (kv : string * string) (hs : headers) : headers :=
  filter (fun h => h.1 <> kv.1) hs ++ [kv].
Definition append_header (kv : string * string) (hs : headers) : headers := hs ++ [kv].

(** [headers().get(name)] of a response *)
Fixpoint get_header (name : string) (hs : headers) : option string :=
  match hs with
  | [] => None
  | h :: hs => if bool_decide (h.1 = name) then Some h.2 else get_header name hs
  end.

Definition map_headers {A} (f : headers -> headers) (r : HttpResponse A) : HttpResponse A :=
  Resp (status r) (f (resp_headers r)) (body r).

(** ** Errors *)

(** [details] is always [None]. *)
Record ErrorBody := { eb_error : string; eb_code : option string }.

(** The cause of the two variants that carry one is a text. *)
Inductive ApiError : Type :=
| MissingCredentials
| BadRequest
| InvalidCredentials (cause : string)
| Forbidden
| Internal (cause : string)
| Conflict
| TooManyRequests.

#[export] Instance ApiError_eq_dec : EqDecision ApiError.
Proof. solve_decision. Defined.

Definition api_status (e : ApiError) : Z :=
  match e with
  | BadRequest => 400
  | MissingCredentials | InvalidCredentials _ => 401
  | Forbidden => 403
  | Internal _ => 500
  | Conflict => 409
  | TooManyRequests => 429
  end.

Definition api_code (e : ApiError) : string :=
  match e with
  | BadRequest => "invalid_request"
  | MissingCredentials => "authentication_required"
  | InvalidCredentials _ => "invalid_credentials"
  | Forbidden => "forbidden"
  | Internal _ => "internal_error"
  | Conflict => "conflict"
  | TooManyRequests => "too_many_requests"
  end.

(** [Display for ApiError] *)
Definition api_text (e : ApiError) : string :=
  match e with
  | MissingCredentials => "authentication required"
  | BadRequest => "bad request"
  | InvalidCredentials _ => "invalid credentials"
  | Forbidden => "forbidden"
  | Internal _ => "internal server error"
  | Conflict => "conflict"
  | TooManyRequests => "too many requests"
  end.

Definition envelope (status : Z) (message : string) (code : option string) : HttpResponse ErrorBody :=
  Resp status [("content-type", "application/json")] (Some {| eb_error := message; eb_code := code |}).

Definition api_error_response (e : ApiError) : HttpResponse ErrorBody :=
  envelope (api_status e) (api_text e) (Some (api_code e)).

Definition fs_error_response (e : FsError) : HttpResponse ErrorBody :=
  envelope (status_code e) (client_message e) (Some (code e)).

(** ** Validated bodies *)

(** [Validate]: the check of a request type. *)
Class Validate (T : Type) := { validate_request : T -> result unit string }.

(** [ValidatedJson::from_request]; [json] is what the JSON extractor gives. *)
Definition validated_json {T} `{Validate T} (json : result T string) : result T ApiError :=
  match json with
  | Err _ => Err BadRequest
  | Ok v => match validate_request v with Err _ => Err BadRequest | Ok _ => Ok v end
  end.

(** ** Route prefixes *)

Fixpoint check_prefixes_from (seen prefixes : list string) : result unit string :=
  match prefixes with
  | [] => Ok tt
  | p :: rest => if bool_decide (p ∈ seen) then Err p else check_prefixes_from (seen ++ [p]) rest
  end.

Definition check_prefixes (prefixes : list string) : result unit string := check_prefixes_from [] prefixes.

Lemma check_prefixes_from_ok seen prefixes : NoDup seen ->
  check_prefixes_from seen prefixes = Ok tt <-> NoDup (seen ++ prefixes).
Proof.
  revert seen. induction prefixes as [|p rest IH]; intros seen Hs; cbn.
  - by rewrite List.app_nil_r.
  - case_bool_decide as Hp.
    + split; [done|]. rewrite NoDup_app. intros (_ & Hd & _). exfalso. apply (Hd p Hp). by left.
    + rewrite IH.
      * by rewrite <- List.app_assoc.
      * apply NoDup_app. split; [done|]. split; [by intros x Hx ->%list_elem_of_singleton|apply NoDup_singleton].
Qed.

(** ** The bearer token *)

Definition parse_bearer_token (auth_str : string) : option string :=
  '(scheme, token) ← split_once " " auth_str;
  if eq_ignore_ascii_case scheme "Bearer" then
    if bool_decide (trim token = "") then None else Some token
  else None.

Definition extract_bearer_token (req : HttpRequest) : option string :=
  header_str req "authorization" ≫= parse_bearer_token.

(** ** The request id

    [ok] is [HeaderValue::from_str(_).is_ok()]; [fresh] the generated
    identifier. *)
Definition request_id (ok : string -> bool) (fresh : string) (req : HttpRequest) : string :=
  match header_str req "x-request-id" with
  | Some s => if bool_decide (s = "") then fresh else if ok s then s else fresh
  | None => fresh
  end.

Definition request_id_call {W A} (ok : string -> bool) (fresh : string) (req : HttpRequest)
    (svc : string -> prog W (result (HttpResponse A) ApiError)) : prog W (result (HttpResponse A) ApiError) :=
  let id := request_id ok fresh req in
  let value := if ok id then id else "invalid-request-id" in
  res <-? svc id;
  mret (Ok (map_headers (insert_header ("x-request-id", value)) res)).

(** ** The server's time; the clock reads milliseconds since the epoch. *)

Definition now_ms (elapsed : option Z) : Z :=
  match elapsed with
  | Some ms => if bool_decide (ms <= u64_max)%Z then ms else u64_max
  | None => 0
  end.

Definition server_time_call {W A} (read : act W (option Z)) (svc : prog W (result (HttpResponse A) ApiError)) :
    prog W (result (HttpResponse A) ApiError) :=
  res <-? svc;
  t ← atomically read;
  mret (Ok (map_headers (insert_header ("x-server-time-ms", u64_text (now_ms t))) res)).

(** ** Health *)

Record DependencyHealth := { s3 : bool; oidc : bool }.

Definition new_health : DependencyHealth := {| s3 := true; oidc := true |}.
Definition is_healthy (h : DependencyHealth) : bool := s3 h && oidc h.
Definition set_s3 (v : bool) : act DependencyHealth unit := fun h => (tt, {| s3 := v; oidc := oidc h |}).
Definition set_oidc (v : bool) : act DependencyHealth unit := fun h => (tt, {| s3 := s3 h; oidc := v |}).

Definition ready (check : option bool) (health : option DependencyHealth) : Z :=
  match check with
  | Some false => 503
  | _ => match health with Some h => if is_healthy h then 200 else 503 | None => 200 end
  end.

Definition PROBE_PERIOD : Z := from_secs 10.
Definition PROBE_TICK_TIMEOUT : Z := from_millis 100.

Section probes.
Context {C : Type} `{!Tokio C} (cancelled : act C bool) (list_s3 get_discovery : act C bool).

#[local] Abbreviation world := (C * DependencyHealth)%type.

Definition on_health {A} (m : act DependencyHealth A) : act world A := on_state m.

(** One pass of the loop; [false] ends it. *)
Definition probe_round : prog world bool :=
  _ ← atomically (on_runtime tick_interval);
  stop ← atomically (on_runtime cancelled);
  if (stop : bool) then Ret false else
  ticked ← atomically (on_runtime (tick_within PROBE_TICK_TIMEOUT));
  if negb ticked then Ret true else
  stop ← atomically (on_runtime cancelled);
  if (stop : bool) then Ret false else
  s3_ok ← atomically (on_runtime list_s3);
  _ ← atomically (on_health (set_s3 s3_ok));
  oidc_ok ← atomically (on_runtime get_discovery);
  _ ← atomically (on_health (set_oidc oidc_ok));
  Ret true.

(** The first [n] passes. *)
Fixpoint spawn_probes (n : nat) : prog world unit :=
  match n with
  | O => Ret tt
  | S n => go ← probe_round; if (go : bool) then spawn_probes n else Ret tt
  end.
End probes.

(** What [tokio] documents of an interval with period [PROBE_PERIOD] in a
    runtime that wakes a task within [lag] of the instant it waits for: a tick
    that is due completes then, the next one is due a period later, and a
    timeout that ends before the tick is due gives up and consumes nothing. *)
Class TokioLaws (C : Type) `{!Tokio C} (lag : Z) := {
  now_at : C -> Z;
  due_at : C -> Z;
  law_tick c : (now_at c <= due_at c)%Z ->
    wp tick_interval (fun _ c' => due_at c' = (due_at c + PROBE_PERIOD)%Z /\ (now_at c' <= due_at c + lag)%Z) c;
  law_tick_within d c : (now_at c + d + lag < due_at c)%Z ->
    wp (tick_within d) (fun ok c' => ok = false /\ due_at c' = due_at c /\ (now_at c' <= now_at c + d + lag)%Z) c;
}.


Section probes_idle.
Context {C : Type} `{!Tokio C} {lag : Z} `{laws : !TokioLaws C lag} (cancelled list_s3 get_discovery : act C bool).
Hypothesis Hlag : (2 * lag + PROBE_TICK_TIMEOUT < PROBE_PERIOD)%Z.
Hypothesis Hcancel : forall c, wp cancelled (fun _ c' => c' = c) c.

#[local] Abbreviation idle h := (fun w : C * DependencyHealth => w.2 = h /\ (now_at w.1 <= due_at w.1)%Z).

Lemma wp_probe_round c h : (now_at c <= due_at c)%Z ->
  wp (run (probe_round cancelled list_s3 get_discovery)) (fun _ => idle h) (c, h).
Proof using Hlag Hcancel laws.
  intros Hc. unfold probe_round.
  apply wp_run_bind, wp_run_atomically, wp_on_runtime. eapply wp_mono; [by apply law_tick|].
  intros _ c1 [Hd1 Hn1]. assert (now_at c1 <= due_at c1)%Z by (assert (0 < PROBE_PERIOD)%Z by done; assert (0 <= PROBE_TICK_TIMEOUT)%Z by done; lia).
  apply wp_run_bind, wp_run_atomically, wp_on_runtime. eapply wp_mono; [apply Hcancel|].
  intros [] ? ->; [by split|].
  apply wp_run_bind, wp_run_atomically, wp_on_runtime. eapply wp_mono; [apply law_tick_within; lia|].
  intros ? c2 (-> & Hd2 & Hn2). split; cbn; [done|lia].
Qed.

(** The dependency probes never run: each pass of the probe loop waits for
    a second tick of the ten-second interval under a timeout of a hundred
    milliseconds, so in a runtime that wakes tasks within 4.9 seconds every
    pass gives up, and however long the task runs, the health flags that
    [/ready] reads stay as they were at the start. *)
Theorem probes_never_run n c h : (now_at c <= due_at c)%Z ->
  wp (run (spawn_probes cancelled list_s3 get_discovery n)) (fun _ w => w.2 = h) (c, h).
Proof using Hlag Hcancel laws.
  revert c. induction n as [|n IH]; intros c Hc; [done|]. cbn [spawn_probes].
  apply wp_run_bind. eapply wp_mono; [by apply (wp_probe_round c h)|].
  intros go [c1 h1] [Hh Hc1]. cbn in Hh, Hc1. subst h1. destruct go; [by apply IH|done].
Qed.
End probes_idle.

(** ** Examples *)

Module HttpExamples.

(** A runtime that wakes a task at once; the interval's next tick is the
    second component. *)
Definition Runtime : Type := Z * Z.

#[local] Instance prompt : Tokio Runtime := {
  tick_interval := fun c => (tt, (Z.max c.1 c.2, c.2 + PROBE_PERIOD)%Z);
  tick_within d := fun c => if bool_decide (c.2 <= c.1 + d)%Z then (true, (Z.max c.1 c.2, c.2 + PROBE_PERIOD)%Z)
                            else (false, (c.1 + d, c.2)%Z);
}.

#[local] Instance prompt_laws : TokioLaws Runtime 0.
Proof.
  refine {| now_at := fst : Runtime -> Z; due_at := snd : Runtime -> Z |}.
  - intros [n d]. cbn. intros Hc. unfold wp. cbn. lia.
  - intros x [n d]. cbn. intros Hc. unfold wp. cbn. rewrite bool_decide_false by lia. cbn. lia.
Defined.

Lemma probes_never_run_witness :
  (0 <= 0)%Z /\
  wp (run (spawn_probes (mret false) (mret false) (mret false) 3)) (fun _ w => is_healthy w.2 = true) ((0, 0)%Z, new_health).
Proof.
  split; [lia|]. eapply wp_mono.
  - apply (probes_never_run (C := Runtime) (lag := 0) (mret false) (mret false) (mret false));
      [vm_compute; done|intros c; reflexivity|cbn; lia].
  - intros u [c h] Hw. cbn in Hw |- *. by subst h.
Defined.
End HttpExamples.
