(* ===== verification/Limits.v ===== *)
(** Limits: the cost control of the requests ([src/src/limits.rs]): the token
    bucket per peer with its bounded map, and the middleware that applies it.
    The gate of the downloads is in Gate.

    The map is behind one mutex, so each use of it is one atomic action; the
    sweep counter is an atomic integer outside the mutex. *)
From S2P Require Import Prelude.
From S2P Require Import Effects.
From S2P Require Import RustStr.
From S2P Require Import Float64.
From S2P Require Import FsTypes.
From S2P Require Import Http.

Definition IDLE_EVICT : Z := from_secs 600.
Definition IDLE_SWEEP_EVERY : Z := 64.
Definition MAX_TRACKED_PEERS : nat := 4096.

(** ** The token bucket *)

Record BucketState := { tokens : f64; last : Z }.

(** The shared part of a [TokenBucket], with the readings of the monotonic
    clock, in nanoseconds. *)
Record limiter := Limiter {
  buckets : gmap string BucketState;
  since_sweep : Z;
  instants : clock;
}.

Record TokenBucket := { capacity : f64; refill_per_sec : f64 }.

Definition new_bucket (cap per_minute : Z) : TokenBucket :=
  {| capacity := f64_of_Z cap; refill_per_sec := f64_div (f64_of_Z per_minute) (f64_of_Z 60) |}.

Definition new_limiter (c : clock) : limiter := Limiter ∅ (IDLE_SWEEP_EVERY - 1) c.

(** The order in which a [HashMap] is iterated. *)
Class HashOrder := {
  hash_iter : gmap string BucketState -> list (string * BucketState);
  hash_iter_perm m : hash_iter m ≡ₚ map_to_list m;
}.

(** [Iterator::min_by_key]: the first of the least. *)
Fixpoint min_by {A} (key : A -> Z) (l : list A) : option A :=
  match l with
  | [] => None
  | a :: l =>
      match min_by key l with
      | Some b => if bool_decide (key b < key a)%Z then Some b else Some a
      | None => Some a
      end
  end.

Definition set_buckets (m : gmap string BucketState) (l : limiter) : limiter := Limiter m (since_sweep l) (instants l).
Definition set_since_sweep (n : Z) (l : limiter) : limiter := Limiter (buckets l) n (instants l).

(** [Instant::now()] *)
Definition instant : act limiter Z := fun l =>
  let '(t, c) := tick (instants l) in (t, Limiter (buckets l) (since_sweep l) c).

(** [a.duration_since(b)] *)
Definition duration_since (a b : Z) : Z := Z.max 0 (a - b).

Section bucket.
Context `{!HashOrder} (b : TokenBucket).

(** The loop of [make_room] runs at most once per entry. *)
Fixpoint make_room_fuel (fuel : nat) (m : gmap string BucketState) : gmap string BucketState :=
  match fuel with
  | O => m
  | S fuel =>
      if bool_decide (MAX_TRACKED_PEERS <= size m) then
        match min_by (fun kb => last kb.2) (hash_iter m) with
        | Some coldest => make_room_fuel fuel (delete coldest.1 m)
        | None => m
        end
      else m
  end.

Definition make_room (m : gmap string BucketState) : gmap string BucketState := make_room_fuel (size m) m.

Definition is_disabled : bool := f64_eqb (refill_per_sec b) (f64_of_Z 0).

(** [fetch_add] and [fetch_sub] of the counter return its value before. *)
Definition fetch_add (n : Z) : act limiter Z := fun l => (since_sweep l, set_since_sweep (u64_add (since_sweep l) n) l).
Definition fetch_sub (n : Z) : act limiter Z := fun l => (since_sweep l, set_since_sweep (u64_sub (since_sweep l) n) l).

Definition sweep_due : prog limiter bool :=
  seen ← atomically (fetch_add 1);
  if bool_decide (u64_add seen 1 < IDLE_SWEEP_EVERY)%Z then Ret false else
  _ ← atomically (fetch_sub (u64_add seen 1));
  Ret true.

(** The bucket of a key after the time since its last request. *)
Definition refilled (now : Z) (s : BucketState) : f64 :=
  f64_min (f64_add (tokens s) (f64_mul (as_secs_f64 (duration_since now (last s))) (refill_per_sec b))) (capacity b).

Definition take_locked (key : string) (now : Z) : act limiter bool := fun l =>
  let m := if bool_decide (is_Some (buckets l !! key)) then buckets l else make_room (buckets l) in
  let state := default {| tokens := capacity b; last := now |} (m !! key) in
  let t := refilled now state in
  let granted := f64_leb (f64_of_Z 1) t in
  let t := if granted then f64_sub t (f64_of_Z 1) else t in
  (granted, set_buckets (<[key := {| tokens := t; last := now |}]> m) l).

Definition take (key : string) : prog limiter bool :=
  if is_disabled then Ret true else
  now ← atomically instant;
  atomically (take_locked key now).

Definition evict_locked (now : Z) : act limiter unit := fun l =>
  (tt, set_buckets (filter (fun kb => duration_since now (last kb.2) < IDLE_EVICT)%Z (buckets l)) l).

Definition evict_idle : prog limiter unit :=
  if is_disabled then Ret tt else
  atomically (now ← instant; evict_locked now).

(** ** Peer keys *)

Inductive IpAddr : Type := V4 (a b c d : N) | V6 (segments : list N).

Definition v4_text (a b c d : N) : string := join "." (show_N <$> [a; b; c; d]).

(** [format!("{:x}")] of a 16-bit number *)
Fixpoint hex_text_fuel (fuel : nat) (n : N) : string :=
  match fuel with
  | O => ""
  | S fuel =>
      let d := String (ascii_of_N (let r := n mod 16 in if bool_decide (r < 10) then 48 + r else 87 + r)%N) "" in
      if bool_decide (n < 16)%N then d else hex_text_fuel fuel (n / 16) +:+ d
  end.

(** The first longest run of zeros: its start and its length. *)
Fixpoint longest_zeros (i : nat) (current best : nat * nat) (segs : list N) : nat * nat :=
  match segs with
  | [] => best
  | s :: segs =>
      if bool_decide (s = 0%N) then
        let current := if bool_decide (current.2 = 0) then (i, 1) else (current.1, S current.2) in
        longest_zeros (S i) current (if bool_decide (best.2 < current.2) then current else best) segs
      else longest_zeros (S i) (0, 0) best segs
  end.

(** [Display for Ipv6Addr] *)
Definition v6_text (segs : list N) : string :=
  match segs with
  | [0; 0; 0; 0; 0; 65535; ab; cd]%N => "::ffff:" +:+ v4_text (ab / 256) (ab mod 256) (cd / 256) (cd mod 256)
  | _ =>
      let '(start, len) := longest_zeros 0 (0, 0) (0, 0) segs in
      let part l := join ":" (hex_text_fuel 4 <$> l) in
      if bool_decide (1 < len) then part (firstn start segs) +:+ "::" +:+ part (drop (start + len) segs) else part segs
  end.

Definition peer_key (addr : option IpAddr) : string :=
  match addr with
  | Some (V4 a b c d) => v4_text a b c d
  | Some (V6 segs) => v6_text segs
  | None => "unknown"
  end.

(** ** The middleware *)

Definition too_many : HttpResponse ErrorBody := api_error_response TooManyRequests.

(** [RateLimitMiddleware::call]: the inner answer, or the refusal. *)
Definition rate_limit_call {A} (service : prog limiter A) (peer : option IpAddr) : prog limiter (A + HttpResponse ErrorBody) :=
  due ← sweep_due;
  _ ← (if (due : bool) then evict_idle else Ret tt);
  granted ← take (peer_key peer);
  if (granted : bool) then a ← service; Ret (inl a) else Ret (inr too_many).
End bucket.

(** ** Facts *)

Lemma min_by_None {A} (key : A -> Z) l : min_by key l = None -> l = [].
Proof.
  destruct l as [|a l]; [done|]. cbn. destruct (min_by key l) as [x|]; [|done]. by case_bool_decide.
Qed.

Lemma min_by_Some {A} (key : A -> Z) l x :
  min_by key l = Some x -> x ∈ l /\ forall y, y ∈ l -> (key x <= key y)%Z.
Proof.
  revert x. induction l as [|a l IH]; intros x; cbn; [done|].
  destruct (min_by key l) as [y|] eqn:E.
  - destruct (IH y eq_refl) as [Hy Hle]. case_bool_decide; intros [= <-].
    + split; [by right|]. intros z [->|Hz]%elem_of_cons; [lia|by apply Hle].
    + split; [by left|]. intros z [->|Hz]%elem_of_cons; [lia|]. specialize (Hle z Hz). lia.
  - apply min_by_None in E as ->. intros [= <-]. split; [by left|].
    intros z ->%list_elem_of_singleton. lia.
Qed.

Section bucket_facts.
Context `{order : !HashOrder} (b : TokenBucket).

Implicit Types m : gmap string BucketState.

Lemma coldest_spec m kb : min_by (fun kb => last kb.2) (hash_iter m) = Some kb ->
  m !! kb.1 = Some kb.2 /\ forall k s, m !! k = Some s -> (last kb.2 <= last s)%Z.
Proof.
  intros [Hin Hle]%min_by_Some. rewrite hash_iter_perm in Hin. split.
  - apply elem_of_map_to_list. by destruct kb.
  - intros k s Hk. apply (Hle (k, s)). rewrite hash_iter_perm. by apply elem_of_map_to_list.
Qed.

Lemma coldest_none m : min_by (fun kb => last kb.2) (hash_iter m) = None -> size m = 0.
Proof.
  intros Hn%min_by_None. rewrite <- length_map_to_list.
  pose proof (hash_iter_perm m) as Hp. rewrite Hn in Hp. symmetry in Hp. apply Permutation_nil_r in Hp. by rewrite Hp.
Qed.

(** [make_room] leaves fewer than the cap. *)
Lemma make_room_room m : size (make_room m) < MAX_TRACKED_PEERS.
Proof.
  unfold make_room. generalize (le_n (size m)). generalize (size m) at 2 3.
  intros fuel. revert m. induction fuel as [|fuel IH]; intros m Hm; cbn [make_room_fuel];
    [unfold MAX_TRACKED_PEERS; lia|].
  case_bool_decide as Hfull; [|lia].
  destruct (min_by _ (hash_iter m)) as [kb|] eqn:E.
  - apply IH. destruct (coldest_spec m kb E) as [Hkb _]. rewrite map_size_delete_Some by eauto. lia.
  - apply coldest_none in E. unfold MAX_TRACKED_PEERS in *. lia.
Qed.

Lemma make_room_small m : size m < MAX_TRACKED_PEERS -> make_room m = m.
Proof.
  intros Hm. unfold make_room. destruct (size m) eqn:E; [done|]. cbn [make_room_fuel].
  by rewrite bool_decide_false by lia.
Qed.

(** At the cap, it drops one entry, one of the coldest. *)
Lemma make_room_full m : size m = MAX_TRACKED_PEERS -> exists k s,
  m !! k = Some s /\ (forall k' s', m !! k' = Some s' -> (last s <= last s')%Z) /\ make_room m = delete k m.
Proof.
  intros Hm. unfold make_room. assert (exists n, size m = S n) as [n Hn]
    by (unfold MAX_TRACKED_PEERS in Hm; destruct (size m) as [|n]; [done|by exists n]).
  rewrite Hn. cbn [make_room_fuel]. rewrite bool_decide_true by lia.
  destruct (min_by _ (hash_iter m)) as [kb|] eqn:E; [|apply coldest_none in E; lia].
  destruct (coldest_spec m kb E) as [Hkb Hcold]. exists kb.1, kb.2. split; [done|]. split; [done|].
  destruct n as [|n]; [done|]. cbn [make_room_fuel].
  rewrite bool_decide_false; [done|]. rewrite map_size_delete_Some by eauto. unfold MAX_TRACKED_PEERS in *. lia.
Qed.

Lemma make_room_subseteq m : make_room m ⊆ m.
Proof.
  unfold make_room. generalize (size m) at 1. intros fuel. revert m.
  induction fuel as [|fuel IH]; intros m; cbn [make_room_fuel]; [done|].
  case_bool_decide; [|done]. destruct (min_by _ _); [|done]. etrans; [apply IH|]. apply delete_subseteq.
Qed.

Definition bounded (l : limiter) : Prop := size (buckets l) <= MAX_TRACKED_PEERS.

Lemma take_locked_bounded key now l : bounded l -> wp (take_locked b key now) (fun _ l' => bounded l') l.
Proof.
  unfold bounded, wp, take_locked. intros Hl. cbn.
  case_bool_decide as Hk.
  - rewrite map_size_insert_Some by done. done.
  - pose proof (make_room_room (buckets l)) as Hroom. rewrite map_size_insert.
    destruct (make_room (buckets l) !! key); unfold id; lia.
Qed.

Lemma evict_locked_bounded now l : bounded l -> wp (evict_locked now) (fun _ l' => bounded l') l.
Proof.
  unfold bounded, wp, evict_locked. cbn. intros Hl. etrans; [|exact Hl].
  apply map_subseteq_size, map_filter_subseteq.
Qed.
End bucket_facts.

(** ** The bound on the map, under every interleaving *)

Section interleaved.
Context `{order : !HashOrder} (b : TokenBucket).

Definition keeps_bound (l l' : limiter) : Prop := bounded l -> bounded l'.

#[local] Instance keeps_bound_preorder : PreOrder keeps_bound.
Proof. unfold keeps_bound. split; [by intros l|]. intros l1 l2 l3. auto. Qed.

#[local] Abbreviation safe p := (forall l, rg keeps_bound (fun _ _ => True) p l).

Lemma safe_atomically {X} (m : act limiter X) :
  (forall l, bounded l -> wp m (fun _ l' => bounded l') l) -> safe (atomically m).
Proof.
  intros Hm l. apply rg_atomically. intros l0 _. specialize (Hm l0). unfold keeps_bound, wp in *.
  destruct (m l0). auto.
Qed.

Lemma safe_bind {X Y} (p : prog limiter X) (k : X -> prog limiter Y) :
  safe p -> (forall x, safe (k x)) -> safe (p ≫= k).
Proof. intros Hp Hk l. apply rg_bind; [apply _|]. eapply rg_mono; [apply Hp|]. by intros x l' _. Qed.

Lemma safe_ret {X} (x : X) : safe (Ret x).
Proof. by intros l l' _. Qed.

Lemma safe_sweep_due : safe sweep_due.
Proof.
  unfold sweep_due. apply safe_bind; [by apply safe_atomically|]. intros seen. case_bool_decide; [apply safe_ret|].
  apply safe_bind; [by apply safe_atomically|]. intros _. apply safe_ret.
Qed.

Lemma wp_instant Q l : (forall l', buckets l' = buckets l -> Q (reading (instants l) (ticks (instants l))) l') -> wp instant Q l.
Proof. intros HQ. by apply HQ. Qed.

Lemma safe_evict_idle : safe (evict_idle b).
Proof.
  unfold evict_idle. destruct (is_disabled b); [apply safe_ret|]. apply safe_atomically. intros l Hl.
  apply wp_bind, wp_instant. intros l' Hl'. apply evict_locked_bounded. unfold bounded. by rewrite Hl'.
Qed.

Lemma safe_take key : safe (take b key).
Proof.
  unfold take. destruct (is_disabled b); [apply safe_ret|]. apply safe_bind.
  - apply safe_atomically. intros l Hl. apply wp_instant. intros l' Hl'. unfold bounded. by rewrite Hl'.
  - intros now. apply safe_atomically. intros l. apply take_locked_bounded.
Qed.

Lemma safe_rate_limit_call peer : safe (rate_limit_call b (Ret tt) peer).
Proof.
  unfold rate_limit_call. apply safe_bind; [apply safe_sweep_due|]. intros due.
  apply safe_bind; [destruct due; [apply safe_evict_idle|apply safe_ret]|]. intros _.
  apply safe_bind; [apply safe_take|]. intros []; apply safe_ret.
Qed.

(** C38: however many requests from however many peers pass through the limiter
    at the same time, and in whatever order their steps interleave, the map
    never tracks more than [MAX_TRACKED_PEERS] peers. *)
Theorem tracked_bounded peers sched l : size (buckets l) <= MAX_TRACKED_PEERS ->
  size (buckets (pool_run sched (rate_limit_call b (Ret tt) <$> peers, l)).2) <= MAX_TRACKED_PEERS.
Proof.
  intros Hl. destruct (pool_rg keeps_bound (fun _ _ _ => True) sched (rate_limit_call b (Ret tt) <$> peers) l) as [HR _].
  - intros i p Hp. apply list_lookup_fmap_Some in Hp as (peer & -> & _). apply safe_rate_limit_call.
  - by apply HR.
Qed.
End interleaved.

(** ** A burst *)

Section burst.
Context `{order : !HashOrder} (b : TokenBucket).

(** [n] requests of one peer, one after another. *)
Fixpoint takes (n : nat) (key : string) : prog limiter (list bool) :=
  match n with
  | O => Ret []
  | S n => g ← take b key; gs ← takes n key; Ret (g :: gs)
  end.

Context (n : Z) (m : positive) (e : Z).
Hypothesis Hn : (0 <= n <= u32_max)%Z.
Hypothesis Hcap : capacity b = f64_of_Z n.
Hypothesis Hrate : refill_per_sec b = S754_finite false m e.

Lemma refilled_now (j now : Z) : (0 <= j <= n)%Z -> refilled b now {| tokens := f64_of_Z j; last := now |} = f64_of_Z j.
Proof using Hn Hcap Hrate.
  intros Hj. unfold refilled, duration_since. cbn [tokens last]. rewrite Z.sub_diag, Hcap, Hrate.
  change (Z.max 0 0) with 0%Z. unfold u32_max in Hn.
  rewrite no_time by lia. rewrite f64_min_exact by lia. f_equal. lia.
Qed.

(** The grants of a peer that has [j] tokens, and then of one with none. *)
Definition grants (j : Z) (k : nat) : list bool := (fun i => bool_decide (Z.of_nat i < j)%Z) <$> seq 0 k.

Definition holds (key : string) (j now : Z) (l : limiter) : Prop :=
  (forall i, reading (instants l) i = now) /\
  (buckets l !! key = Some {| tokens := f64_of_Z j; last := now |} \/ buckets l !! key = None /\ j = n).

Lemma wp_take key j now l : (0 <= j <= n)%Z -> holds key j now l ->
  wp (run (take b key)) (fun g l' => g = bool_decide (0 < j)%Z /\ holds key (Z.max 0 (j - 1)) now l') l.
Proof using Hn Hcap Hrate.
  intros Hj [Hclock Hkey]. unfold take.
  assert (is_disabled b = false) as -> by (unfold is_disabled; by rewrite Hrate).
  apply wp_run_bind, wp_run_atomically. unfold wp at 1, instant, tick. cbn [instants ticks reading].
  apply wp_run_atomically. unfold wp, take_locked. cbn [buckets set_buckets instants].
  rewrite (Hclock _). set (m0 := if bool_decide _ then _ else _).
  assert (default {| tokens := capacity b; last := now |} (m0 !! key) = {| tokens := f64_of_Z j; last := now |}) as ->.
  { subst m0. destruct Hkey as [Hk|[Hk ->]].
    - rewrite bool_decide_true by eauto. by rewrite Hk.
    - rewrite bool_decide_false by (rewrite Hk; by intros []).
      destruct (make_room (buckets l) !! key) as [s|] eqn:E; [|by rewrite Hcap].
      by rewrite (lookup_weaken _ _ _ _ E (make_room_subseteq _)) in Hk. }
  rewrite refilled_now by done. unfold u32_max in Hn.
  rewrite f64_leb_exact by lia. split; [destruct (Z.leb_spec 1 j); case_bool_decide; lia || done|].
  split; [done|]. left. cbn [buckets set_buckets]. rewrite lookup_insert_eq. do 2 f_equal.
  destruct (Z.leb_spec 1 j); [rewrite f64_sub_exact by lia|]; f_equal; lia.
Qed.

(** A peer that has not been seen is granted exactly [capacity] requests
    of those it sends at one instant, and refused from then on, for every
    capacity that fits in 32 bits and every positive rate. *)
Theorem burst_exact k key (now : Z) l :
  (forall i, reading (instants l) i = now) -> buckets l !! key = None ->
  wp (run (takes k key)) (fun gs _ => gs = grants n k) l.
Proof using Hn Hcap Hrate.
  intros Hclock Hkey.
  enough (forall j i, (0 <= j <= n)%Z -> holds key j now l ->
    wp (run (takes k key)) (fun gs _ => gs = (fun x => bool_decide (Z.of_nat x < Z.of_nat i + j)%Z) <$> seq i k) l) as He.
  { apply (He n 0); [lia|]. split; [done|]. by right. }
  clear Hclock Hkey. revert l. induction k as [|k IH]; intros l j i Hj Hl; [done|]. cbn [takes].
  apply wp_run_bind. eapply wp_mono; [by apply wp_take|]. cbv beta. intros g l1 [-> Hl1].
  apply wp_run_bind. destruct (decide (j = 0)%Z) as [->|].
  - eapply wp_mono; [apply (IH l1 0%Z (S i)); [lia|exact Hl1]|]. cbv beta. intros gs l2 ->.
    apply wp_ret. cbn. f_equal; [case_bool_decide; case_bool_decide; lia || done|].
    apply list_fmap_ext. intros x y Hy%list_elem_of_lookup_2%elem_of_seq. apply bool_decide_ext. lia.
  - eapply wp_mono; [apply (IH l1 (j - 1)%Z (S i)); [lia|]|].
    + by replace (Z.max 0 (j - 1)) with (j - 1)%Z in Hl1 by lia.
    + cbv beta. intros gs l2 ->. apply wp_ret. cbn. f_equal; [case_bool_decide; case_bool_decide; lia || done|].
      apply list_fmap_ext. intros x y Hy. apply bool_decide_ext. lia.
Qed.
End burst.

(** ** Eviction *)

Section eviction.
Context `{order : !HashOrder} (b : TokenBucket).

(** A request of one peer leaves every other tracked peer its bucket,
    tokens and all, except that a new peer at the cap displaces one peer whose
    last request is the oldest of all. *)
Theorem others_keep_buckets key now l k s : size (buckets l) <= MAX_TRACKED_PEERS -> k <> key -> buckets l !! k = Some s ->
  wp (take_locked b key now) (fun _ l' =>
    buckets l' !! k = Some s \/
    (buckets l' !! k = None /\ buckets l !! key = None /\ size (buckets l) = MAX_TRACKED_PEERS /\
     forall k' s', buckets l !! k' = Some s' -> (last s <= last s')%Z)) l.
Proof.
  intros Hl Hne Hk. unfold wp, take_locked. cbn [buckets set_buckets]. rewrite lookup_insert_ne by done.
  case_bool_decide as Hkey; [by left|]. apply eq_None_not_Some in Hkey.
  destruct (decide (size (buckets l) = MAX_TRACKED_PEERS)) as [Hfull|].
  - destruct (make_room_full (buckets l) Hfull) as (k1 & s1 & Hk1 & Hcold & ->).
    destruct (decide (k1 = k)) as [->|]; [|left; by rewrite lookup_delete_ne].
    right. rewrite lookup_delete_eq. simplify_eq. done.
  - left. by rewrite make_room_small by lia.
Qed.
End eviction.

Module LimitsExamples.

#[local] Instance list_order : HashOrder := { hash_iter := map_to_list; hash_iter_perm _ := Permutation_refl _ }.

Definition stopped : clock := Clock (fun _ => 1000%Z) 0.
Definition ten_a_minute : TokenBucket := new_bucket 3 10.

Lemma tracked_bounded_witness :
  size (buckets (pool_run [0; 1; 0; 1; 0; 1; 1; 0; 0; 1]
    (rate_limit_call ten_a_minute (Ret tt) <$> [Some (V4 10 0 0 1); None], new_limiter stopped)).2) <= MAX_TRACKED_PEERS.
Proof. apply (tracked_bounded ten_a_minute). apply Nat.le_0_l. Defined.

Lemma burst_exact_witness :
  wp (run (takes ten_a_minute 5 "10.0.0.1")) (fun gs _ => gs = [true; true; true; false; false]) (new_limiter stopped).
Proof.
  assert (exists m e, refill_per_sec ten_a_minute = S754_finite false m e) as (m & e & Hr)
    by (eexists _, _; vm_compute; reflexivity).
  apply (burst_exact ten_a_minute 3 m e ltac:(unfold u32_max; lia) eq_refl Hr 5 "10.0.0.1" 1000); done.
Defined.

Lemma others_keep_buckets_witness :
  let s := {| tokens := f64_of_Z 1; last := 7 |} in
  let l := Limiter {["a" := s]} 0 stopped in
  wp (take_locked ten_a_minute "b" 1000) (fun _ l' =>
    buckets l' !! "a" = Some s \/
    (buckets l' !! "a" = None /\ buckets l !! "b" = None /\ size (buckets l) = MAX_TRACKED_PEERS /\
     forall k' s', buckets l !! k' = Some s' -> (last s <= last s')%Z)) l.
Proof.
  intros s l. apply (others_keep_buckets ten_a_minute "b" 1000 l "a" s); [|done|done].
  unfold l. cbn [buckets]. rewrite map_size_singleton. unfold MAX_TRACKED_PEERS. lia.
Defined.

(** Two requests that arrive together at the end of a window both claim
    the sweep, and the second reset takes the counter below zero, to the top of
    the 64-bit range. *)
Theorem sweep_claimed_twice :
  pool_run [0; 1; 0; 1] ([sweep_due; sweep_due], new_limiter stopped) =
  ([Ret true; Ret true], Limiter ∅ 18446744073709551552 stopped).
Proof. reflexivity. Qed.

(** Addresses as keys. *)
Example v6_texts :
  v6_text [0; 0; 0; 0; 0; 0; 0; 1]%N = "::1" /\ v6_text [8193; 3512; 0; 0; 1; 0; 0; 1]%N = "2001:db8::1:0:0:1" /\
  v6_text [0; 0; 0; 0; 0; 65535; 49320; 257]%N = "::ffff:192.168.1.1" /\ v6_text [0; 0; 0; 0; 0; 0; 0; 0]%N = "::".
Proof. vm_compute. done. Qed.
End LimitsExamples.
