(* ===== verification/Pipeline.v ===== *)
(** Pipeline: the composed application ([src/src/http/mod.rs]) and the metrics of
    its requests ([http/middleware/request_tracing.rs]).

    [app_call] nests the middleware the way [wired_app!] wraps it: the last one
    wrapped is the outermost.  CORS and compression are the framework's, and so
    are parameters; spans are left out.  A middleware passes an error of the
    service inside it on; [deliver] is the framework's answer to one. *)
From S2P Require Import Prelude.
From S2P Require Import Effects.
From S2P Require Import RustStr.
From S2P Require Import FsTypes.
From S2P Require Import Http.
From S2P Require Import Limits.

(** ** The service *)

Definition MAX_PAYLOAD_BYTES : Z := 16 * 1024 * 1024.
Definition MAX_JSON_BYTES : Z := 1024 * 1024.
Definition SHUTDOWN_TIMEOUT_SECS : Z := 30.
Definition CLIENT_TIMEOUT : Z := from_secs 60.

(** [cors]: what the framework's CORS is told; credentials are supported. *)
Record CorsOptions := {
  co_methods : list string;
  co_headers : list string;
  co_exposed : list string;
  co_max_age : Z;
  co_origins : list string;
}.

Definition cors_options (allowed_origins : list string) : CorsOptions :=
  {| co_methods := ["GET"; "POST"; "PUT"; "DELETE"; "OPTIONS"];
     co_headers := ["authorization"; "content-type"; "if-none-match"; "range"; "content-length"; "x-checksum-sha256"; "checksum-sha256"];
     co_exposed := ["etag"; "content-range"; "accept-ranges"; "date"; "x-server-time-ms"];
     co_max_age := 3600; co_origins := allowed_origins |}.

(** [M] stands for the routes of a module; readiness is its check. *)
Record ApiService (M : Type) := {
  as_modules : list (string * M);
  as_readiness : option (unit -> bool);
  as_cors_origins : list string;
  as_bucket : TokenBucket;
}.
Arguments as_modules {M} _.
Arguments as_readiness {M} _.
Arguments as_cors_origins {M} _.
Arguments as_bucket {M} _.

Section service.
Context {M : Type}.

Definition new_service : ApiService M :=
  {| as_modules := []; as_readiness := None; as_cors_origins := []; as_bucket := new_bucket 0 0 |}.

Definition with_cors_origins (origins : list string) (s : ApiService M) : ApiService M :=
  {| as_modules := as_modules s; as_readiness := as_readiness s; as_cors_origins := origins; as_bucket := as_bucket s |}.
Definition register_module (m : string * M) (s : ApiService M) : ApiService M :=
  {| as_modules := as_modules s ++ [m]; as_readiness := as_readiness s; as_cors_origins := as_cors_origins s; as_bucket := as_bucket s |}.
Definition with_rate_limit (b : TokenBucket) (s : ApiService M) : ApiService M :=
  {| as_modules := as_modules s; as_readiness := as_readiness s; as_cors_origins := as_cors_origins s; as_bucket := b |}.
Definition with_readiness_check (check : unit -> bool) (s : ApiService M) : ApiService M :=
  {| as_modules := as_modules s; as_readiness := Some check; as_cors_origins := as_cors_origins s; as_bucket := as_bucket s |}.

Definition duplicate_text (prefix : string) : string :=
  "two API modules both claim the route prefix `" +:+ prefix +:+ "`: the first registered answers every `" +:+ prefix +:+
  "`/* request and the second's routes are unreachable. Merge them into one module, or give one a different prefix.".

(** [start]: the check comes before the listener; [served] is the outcome of
    binding and of serving until the signal to stop. *)
Definition start (s : ApiService M) (served : result unit string) : result unit string :=
  match check_prefixes (as_modules s).*1 with
  | Err p => Err (duplicate_text p)
  | Ok _ => served
  end.

(** The service that [serve] registers. *)
Definition served_service (origins : list string) (b : TokenBucket) (check : unit -> bool)
    (oidc setup policy fs sync : M) : ApiService M :=
  register_module ("/sync", sync) (register_module ("/fs", fs) (register_module ("/policy", policy)
    (register_module ("/setup", setup) (register_module ("/auth", oidc)
      (with_readiness_check check (with_rate_limit b (with_cors_origins origins new_service))))))).
End service.

(** The five modules of the server do not collide, so it gets to its listener. *)
Lemma served_starts {M} origins b check (m1 m2 m3 m4 m5 : M) served :
  start (served_service origins b check m1 m2 m3 m4 m5) served = served.
Proof. reflexivity. Qed.

(** The readiness of [serve]: each of four reasons takes the instance out. *)
Definition serve_ready (unlocked lease_lost primary_loss : bool) (health : DependencyHealth) : bool :=
  unlocked && negb lease_lost && negb primary_loss && is_healthy health.

(** ** One request *)

Record AppRequest := {
  ar_http : HttpRequest;
  ar_method : string;
  ar_pattern : option string;
  ar_path : string;
  ar_peer : option IpAddr;
}.

(** A record of [HTTP_METRICS]: its attributes, and the milliseconds. *)
Record Measure := { ms_method : string; ms_route : string; ms_status : Z; ms_elapsed : Z }.

Record edge_world (R : Type) := EdgeWorld { ew_limiter : limiter; ew_metrics : list Measure; ew_rest : R }.
Arguments EdgeWorld {R} _ _ _.
Arguments ew_limiter {R} _.
Arguments ew_metrics {R} _.
Arguments ew_rest {R} _.

#[export] Instance limiter_lens {R} : Lens limiter (edge_world R) :=
  {| view := ew_limiter; upd l w := EdgeWorld l (ew_metrics w) (ew_rest w) |}.
#[export] Instance limiter_lens_laws {R} : LensLaws limiter (edge_world R).
Proof. by split; intros; destruct w. Qed.
#[export] Instance rest_lens {R} : Lens R (edge_world R) :=
  {| view := ew_rest; upd r w := EdgeWorld (ew_limiter w) (ew_metrics w) r |}.
#[export] Instance rest_lens_laws {R} : LensLaws R (edge_world R).
Proof. by split; intros; destruct w. Qed.

Section edge.
Context {R B : Type} `{!HashOrder}.
Variables (b : TokenBucket) (wall : act R (option Z)) (instant_ms : act R Z).

#[local] Abbreviation W := (edge_world R).
#[local] Abbreviation task := (prog W).
#[local] Abbreviation reply := (HttpResponse (B + ErrorBody)).

Definition refusal (r : HttpResponse ErrorBody) : reply := Resp (status r) (resp_headers r) (inr <$> body r).

(** [RateLimit] around a service of any world with a limiter. *)
Definition limited (peer : option IpAddr) (svc : task (result reply ApiError)) : task (result reply ApiError) :=
  verdict ← zoom_prog (rate_limit_call b (Ret tt) peer);
  match verdict with
  | inl _ => svc
  | inr r => mret (Ok (refusal r))
  end.

Definition record_request (m : Measure) : act W unit :=
  fun w => (tt, EdgeWorld (ew_limiter w) (ew_metrics w ++ [m]) (ew_rest w)).

(** [RequestTracingMiddleware::call] *)
Definition request_tracing_call (req : AppRequest) (svc : task (result reply ApiError)) : task (result reply ApiError) :=
  let route := default (ar_path req) (ar_pattern req) in
  start ← atomically (zoom instant_ms);
  res <-? svc;
  stop ← atomically (zoom instant_ms);
  _ ← atomically (record_request {| ms_method := ar_method req; ms_route := route; ms_status := status res;
                                     ms_elapsed := Z.max 0 (stop - start) |});
  mret (Ok res).

(** The framework's CORS and compression, what makes a header value valid, and
    a fresh identifier. *)
Variables (cors : HttpRequest -> task (result reply ApiError) -> task (result reply ApiError))
  (compress : reply -> reply) (valid : string -> bool) (uuid : string).

(** [wired_app!] *)
Definition app_call (req : AppRequest) (routes : option string -> string -> task (result reply ApiError)) :
    task (result reply ApiError) :=
  server_time_call (zoom wall) (limited (ar_peer req) (
    let bearer := extract_bearer_token (ar_http req) in
    request_tracing_call req (
      res <-? request_id_call valid uuid (ar_http req) (fun id => cors (ar_http req) (routes bearer id));
      mret (Ok (compress res))))).

Definition deliver (r : result reply ApiError) : reply :=
  match r with Ok res => res | Err e => refusal (api_error_response e) end.
End edge.

(** ** What the edge does to an answer *)

Lemma get_insert name v hs : get_header name (insert_header (name, v) hs) = Some v.
Proof.
  unfold insert_header. cbn [fst]. induction hs as [|h hs IH]; [cbn; by rewrite bool_decide_eq_true_2|].
  rewrite filter_cons. case_decide as Hh; [|done]. cbn. by rewrite bool_decide_eq_false_2.
Qed.

Lemma get_insert_other name name' v hs : name <> name' -> get_header name (insert_header (name', v) hs) = get_header name hs.
Proof.
  intros Hne. unfold insert_header. cbn [fst]. induction hs as [|h hs IH]; [cbn; by rewrite bool_decide_eq_false_2|].
  rewrite filter_cons. case_decide as Hh; cbn; [by rewrite IH|].
  rewrite bool_decide_eq_false_2; [done|]. congruence.
Qed.

Section answers.
Context {R B : Type} `{!HashOrder}.
Variables (b : TokenBucket) (wall : act R (option Z)) (instant_ms : act R Z).

#[local] Abbreviation W := (edge_world R).
#[local] Abbreviation reply := (HttpResponse (B + ErrorBody)).

Variables (cors : HttpRequest -> prog W (result reply ApiError) -> prog W (result reply ApiError))
  (compress : reply -> reply) (valid : string -> bool) (uuid : string).

(** Compression keeps the status and every header but its own. *)
Hypothesis compress_status : forall r, status (compress r) = status r.
Hypothesis compress_header : forall r, get_header "x-request-id" (resp_headers (compress r)) = get_header "x-request-id" (resp_headers r).

(** The answer of the routes with the request's identifier. *)
Definition tagged (id : string) (resp : reply) : reply :=
  Resp (status resp) (insert_header ("x-request-id", if valid id then id else "invalid-request-id") (resp_headers resp)) (body resp).

(** [r] is [r'] with the server's time. *)
Definition stamped (t : option Z) (r' r : reply) : Prop :=
  status r = status r' /\ body r = body r' /\
  resp_headers r = insert_header ("x-server-time-ms", u64_text (now_ms t)) (resp_headers r').

Definition timed (r : reply) : Prop := exists t, get_header "x-server-time-ms" (resp_headers r) = Some (u64_text (now_ms t)).

Lemma refused_too_many peer l r l' : run (rate_limit_call b (Ret tt) peer) l = (inr r, l') -> r = too_many.
Proof.
  assert (wp (run (rate_limit_call b (Ret tt) peer)) (fun v _ => forall r, v = inr r -> r = too_many) l) as Hw.
  { unfold rate_limit_call. do 3 (apply wp_run_bind, wp_intro; intros ? ? _). case_match; [|apply wp_ret; by intros ? [= <-]].
    by apply wp_run_bind, wp_ret, wp_ret. }
  intros Hr. unfold wp in Hw. rewrite Hr in Hw. by apply Hw.
Qed.

Lemma wp_server_time (svc : prog W (result reply ApiError)) Q (w : W) :
  wp (run svc) (fun r w1 => match r with
    | Ok res => forall t x, wall (ew_rest w1) = (t, x) ->
        Q (Ok (map_headers (insert_header ("x-server-time-ms", u64_text (now_ms t))) res)) (@upd _ _ rest_lens x w1)
    | Err e => Q (Err e) w1
    end) w -> wp (run (server_time_call (zoom wall) svc)) Q w.
Proof.
  intros Hsvc. unfold server_time_call. apply wp_run_bindR. eapply wp_mono; [exact Hsvc|]. intros [res|e] w1; [|done].
  intros HQ. apply wp_run_bind, wp_run_atomically, (wp_zoom (H := rest_lens)), wp_intro. intros t x Ht. by apply wp_ret, HQ.
Qed.

(** C22: what a request meets at the edge.  The peer's budget comes first: a
    refused request reaches no other part, and gets the 429 of the limiter with
    the server's time.  An admitted one is answered as its routes, behind the
    framework's CORS, answer: the status is theirs, the body and the headers are
    what the framework's compression, which keeps the status and the identifier,
    makes of theirs with the request's identifier, and to these the
    server's time is added, with no other header gone, changed or added; it is
    measured once, with that status and the time between the readings before and
    after.  But an error that the service inside returns, as the token middleware
    does for a credential it refuses, passes by every layer: the answer that the
    framework makes of it has neither header, and it is not measured. *)
Theorem edge_answers req routes (w : W) :
  let id := request_id valid uuid (ar_http req) in
  let inner := cors (ar_http req) (routes (extract_bearer_token (ar_http req)) id) in
  let verdict := run (rate_limit_call b (Ret tt) (ar_peer req)) (ew_limiter w) in
  wp (run (app_call b wall instant_ms cors compress valid uuid req routes)) (fun r w' =>
    match verdict.1 with
    | inr _ => status (deliver r) = 429%Z /\ stamped (wall (ew_rest w)).1 (refusal too_many) (deliver r) /\
        timed (deliver r) /\ ew_limiter w' = verdict.2 /\
        ew_metrics w' = ew_metrics w /\ ew_rest w' = (wall (ew_rest w)).2
    | inl _ =>
        let '(started, rest) := instant_ms (ew_rest w) in
        let '(res, w1) := run inner (EdgeWorld verdict.2 (ew_metrics w) rest) in
        match res with
        | Ok resp =>
            let '(stopped, rest1) := instant_ms (ew_rest w1) in
            status (deliver r) = status resp /\
            stamped (wall rest1).1 (compress (tagged id resp)) (deliver r) /\ timed (deliver r) /\
            get_header "x-request-id" (resp_headers (deliver r)) = Some (if valid id then id else "invalid-request-id") /\
            w' = EdgeWorld (ew_limiter w1)
                   (ew_metrics w1 ++ [{| ms_method := ar_method req; ms_route := default (ar_path req) (ar_pattern req);
                                         ms_status := status resp; ms_elapsed := Z.max 0 (stopped - started) |}])
                   (wall rest1).2
        | Err e => deliver r = refusal (api_error_response e) /\ w' = w1 /\
            get_header "x-server-time-ms" (resp_headers (deliver r)) = None /\
            get_header "x-request-id" (resp_headers (deliver r)) = None
        end
    end) w.
Proof.
  intros id inner verdict. unfold app_call. apply wp_server_time. unfold limited.
  apply wp_run_bind, (wp_zoom_prog (H := limiter_lens)), wp_intro. intros v l Hv. change (view w) with (ew_limiter w) in Hv.
  unfold verdict. rewrite Hv. cbn [fst snd]. destruct v as [[]|refused].
  2: { assert (refused = too_many) as -> by (by eapply refused_too_many).
       apply wp_ret. intros t x Ht. cbn in Ht. cbn [deliver]. rewrite Ht. split; [done|]. split; [done|]. split; [|done].
       exists t. unfold map_headers. cbn [resp_headers]. apply get_insert. }
  unfold request_tracing_call, request_id_call. cbn zeta. fold id. fold inner.
  apply wp_run_bind, wp_run_atomically, (wp_zoom (H := rest_lens)), wp_intro. intros t0 x0 Hx0. cbn [view rest_lens upd limiter_lens ew_rest ew_limiter ew_metrics] in Hx0.
  rewrite Hx0. set (w0 := EdgeWorld l (ew_metrics w) x0). change (@upd _ _ rest_lens x0 _) with w0.
  destruct (run inner w0) as [res w1] eqn:Ei.
  assert (wp (run inner) (fun r w' => r = res /\ w' = w1) w0) as Hi by (unfold wp; by rewrite Ei).
  apply wp_run_bindR, wp_run_bindR, wp_run_bindR. eapply wp_mono; [exact Hi|]. intros r w' [-> ->].
  destruct res as [resp|e]; [|by split_and!].
  apply wp_ret, wp_ret, wp_run_bind, wp_run_atomically, (wp_zoom (H := rest_lens)), wp_intro. intros t1 x1 Hx1.
  cbn [view rest_lens] in Hx1. rewrite Hx1. change (@upd _ _ rest_lens x1 w1) with (EdgeWorld (ew_limiter w1) (ew_metrics w1) x1).
  apply wp_run_bind, wp_run_atomically. unfold wp at 1, record_request. cbn [run mret]. apply wp_ret. intros t x Ht.
  cbn [ew_rest upd rest_lens] in Ht. rewrite Ht. cbn [deliver fst snd]. change (map_headers _ resp) with (tagged id resp).
  unfold map_headers. cbn [status]. rewrite compress_status.
  split; [done|]. split; [by split; cbn [status]; [rewrite compress_status|]|]. split; [exists t; apply get_insert|].
  split; [|by destruct w1].
  cbn [resp_headers]. rewrite get_insert_other, compress_header by done. apply get_insert.
Qed.
End answers.
