(* ===== verification/Gate.v ===== *)
(** Gate: the concurrency gate of the downloads ([ConcurrencyGate] and
    [GatedStream] of [src/src/limits.rs]) and the retry helper
    ([src/src/retry.rs]).

    The semaphore is [tokio]'s: its operations are the class [Semaphore], and
    what it documents is [SemaphoreLaws]. *)
From S2P Require Import Prelude.
From S2P Require Import Effects.
From S2P Require Import FsTypes.

(** ** The gate *)

(** [try_acquire_owned().is_ok()], and the drop of the permit. *)
Class Semaphore (S : Type) := {
  sem_new : nat -> S;
  sem_try_acquire : act S bool;
  sem_release : act S unit;
}.

Class SemaphoreLaws (S : Type) `{!Semaphore S} := {
  permits : S -> nat;
  permits_new n : permits (sem_new n) = n;
  law_try_acquire s : wp sem_try_acquire (fun got s' =>
    if got : bool then permits s = Datatypes.S (permits s') else permits s = 0 /\ permits s' = 0) s;
  law_release s : wp sem_release (fun _ s' => permits s' = Datatypes.S (permits s)) s;
}.

Section gate.
Context {S : Type} `{!Semaphore S}.

Record ConcurrencyGate := Gate { gate_max : option nat; semaphore : S }.

Definition gate_new (max : nat) : ConcurrencyGate :=
  match max with
  | O => Gate None (sem_new 0)
  | n => Gate (Some n) (sem_new n)
  end.

Definition gate_disabled (g : ConcurrencyGate) : bool := bool_decide (gate_max g = None).

Definition on_semaphore {A} (m : act S A) : act ConcurrencyGate A := fun g =>
  let '(a, s) := m (semaphore g) in (a, Gate (gate_max g) s).

(** [Some tt] is an owned permit. *)
Definition gate_acquire : act ConcurrencyGate (option unit) := fun g =>
  if gate_disabled g then (None, g)
  else (got ← on_semaphore sem_try_acquire; mret (if got : bool then Some tt else None)) g.

(** The slot of a download, taken before the object is opened. *)
Definition admit_download : act ConcurrencyGate (result (option unit) FsError) := fun g =>
  (permit ← gate_acquire;
   mret (if bool_decide (permit = None) && negb (gate_disabled g) then Err FsTooManyRequests else Ok permit)) g.

(** The end of a [GatedStream], whatever ends it. *)
Definition drop_stream (permit : option unit) : act ConcurrencyGate unit :=
  match permit with
  | Some _ => on_semaphore sem_release
  | None => mret tt
  end.

(** *** Downloads over time: the gate and the permits of the open streams *)

Abbreviation downloads := (ConcurrencyGate * list (option unit))%type.

Inductive download_step : downloads -> downloads -> Prop :=
| step_open g g' permit open : admit_download g = (Ok permit, g') ->
    download_step (g, open) (g', permit :: open)
| step_refuse g g' e open : admit_download g = (Err e, g') ->
    download_step (g, open) (g', open)
| step_close g permit before after :
    download_step (g, before ++ permit :: after) ((drop_stream permit g).2, before ++ after).

Context `{laws : !SemaphoreLaws S}.

(** Every open stream holds a permit, and the permits are all accounted for. *)
Definition slots_inv (max : nat) (d : downloads) : Prop :=
  match max with
  | O => gate_max d.1 = None /\ Forall (eq None) d.2
  | _ => gate_max d.1 = Some max /\ Forall (eq (Some tt)) d.2 /\ permits (semaphore d.1) + length d.2 = max
  end.

Lemma slots_inv_new max : slots_inv max (gate_new max, []).
Proof. destruct max as [|n]; cbn; [done|]. rewrite permits_new. auto with lia. Qed.

Lemma admit_disabled g : gate_max g = None -> admit_download g = (Ok None, g).
Proof.
  intros Hg. unfold admit_download, gate_acquire, mbind, act_bind.
  assert (gate_disabled g = true) as Hd by (unfold gate_disabled; by rewrite bool_decide_true). by rewrite Hd.
Qed.

Lemma admit_enabled n g : gate_max g = Some n ->
  wp admit_download (fun r g' => gate_max g' = Some n /\
    match r with
    | Ok permit => permit = Some tt /\ permits (semaphore g) = Datatypes.S (permits (semaphore g'))
    | Err e => e = FsTooManyRequests /\ permits (semaphore g) = 0 /\ permits (semaphore g') = 0
    end) g.
Proof using laws.
  intros Hg. assert (gate_disabled g = false) as Hd by (unfold gate_disabled; by rewrite Hg).
  unfold wp, admit_download, gate_acquire, mbind, act_bind, on_semaphore. rewrite Hd.
  pose proof (law_try_acquire (semaphore g)) as Ht. unfold wp in Ht.
  destruct (sem_try_acquire (semaphore g)) as [[] s]; cbn; by rewrite Hg.
Qed.

Lemma slots_inv_step max d d' : slots_inv max d -> download_step d d' -> slots_inv max d'.
Proof using laws.
  intros Hd Hs. destruct max as [|n].
  - destruct Hd as [Hm Hall]. cbn in Hm, Hall.
    inversion Hs as [g g' permit open He|g g' e open He|g permit before after]; subst; cbn in *.
    + rewrite admit_disabled in He by done. simplify_eq. split; [done|by constructor].
    + rewrite admit_disabled in He by done. by simplify_eq.
    + apply Forall_app in Hall as [Hb Ha]. apply Forall_cons in Ha as [<- Ha]. cbn.
      split; [done|]. by apply Forall_app.
  - destruct Hd as (Hm & Hall & Hn). cbn in Hm, Hall, Hn.
    inversion Hs as [g g' permit open He|g g' e open He|g permit before after]; subst; cbn in *.
    + pose proof (wp_elim _ _ _ _ _ (admit_enabled _ _ Hm) He) as (Hm' & -> & Hp).
      split; [done|]. split; [by constructor|]. cbn. lia.
    + pose proof (wp_elim _ _ _ _ _ (admit_enabled _ _ Hm) He) as (Hm' & _ & Hp & Hp'). split; [done|]. split; [done|]. lia.
    + apply Forall_app in Hall as [Hb Ha]. apply Forall_cons in Ha as [<- Ha]. cbn.
      unfold on_semaphore. pose proof (law_release (semaphore g)) as Hr. unfold wp in Hr.
      destruct (sem_release (semaphore g)) as [u s]. cbn.
      rewrite List.length_app in *. cbn in Hn. split; [done|]. split; [by apply Forall_app|]. rewrite Hr. lia.
Qed.

Lemma slots_inv_reach max d : rtc download_step (gate_new max, []) d -> slots_inv max d.
Proof using laws.
  intros Hd. assert (slots_inv max (gate_new max, [])) as Hi by apply slots_inv_new.
  revert Hi. induction Hd as [|x y z Hs _ IH]; [done|]. intros Hi. apply IH. by eapply slots_inv_step.
Qed.

(** C31: a gate of [max] slots, [max] not zero, never has more than [max]
    downloads open, and refuses one only when exactly [max] are; a slot comes
    back when its stream ends, and never twice. *)
Theorem downloads_bounded max d : 0 < max -> rtc download_step (gate_new max, []) d ->
  length d.2 <= max /\ ((exists e, (admit_download d.1).1 = Err e) <-> length d.2 = max).
Proof using laws.
  intros Hmax Hd%slots_inv_reach. destruct max as [|n]; [lia|]. destruct Hd as (Hm & _ & Hn).
  split; [lia|]. pose proof (admit_enabled _ _ Hm) as Ha. unfold wp in Ha.
  destruct (admit_download d.1) as [[permit|e] g']; cbn.
  - destruct Ha as (_ & _ & Hp). split; [by intros [? ?]|lia].
  - destruct Ha as (_ & _ & Hp & _). split; [lia|eauto].
Qed.
End gate.
Arguments ConcurrencyGate S : clear implicits.

(** ** Retry *)

(** The largest [Duration], in nanoseconds. *)
Definition DURATION_MAX : Z := (u64_max * 1000000000 + 999999999)%Z.
Definition saturating_mul (d factor : Z) : Z := Z.min DURATION_MAX (d * factor).

Definition backoff (base_delay : Z) (attempt : nat) : Z :=
  saturating_mul base_delay (Z.shiftl 1 (Z.of_nat (attempt `min` 31))).

Section retry.
Context {W T E : Type} (sleep : Z -> prog W unit) (f : prog W (result T E)).

(** The passes from [attempt] on, [more] of them. *)
Fixpoint retry_loop (base_delay : Z) (attempts attempt more : nat) (last_error : option E) : prog W (option (result T E)) :=
  match more with
  | O => Ret (Err <$> last_error)
  | S more =>
      r ← f;
      match r with
      | Ok value => Ret (Some (Ok value))
      | Err error =>
          _ ← (if bool_decide (attempt + 1 < attempts) then sleep (backoff base_delay attempt) else Ret tt);
          retry_loop base_delay attempts (attempt + 1) more (Some error)
      end
  end.

(** [None] is the panic of no attempts. *)
Definition retry_with_backoff (attempts : nat) (base_delay : Z) : prog W (option (result T E)) :=
  retry_loop base_delay attempts 0 attempts None.
End retry.

(** *** What it does, seen from the calls and the sleeps *)

Record retry_trace := Trace { calls : nat; slept : list Z }.

Definition traced {T E} (outcome : nat -> result T E) : prog retry_trace (result T E) :=
  atomically (fun t => (outcome (calls t), Trace (S (calls t)) (slept t))).
Definition traced_sleep (d : Z) : prog retry_trace unit :=
  atomically (fun t => (tt, Trace (calls t) (slept t ++ [d]))).

(** The calls of [n] attempts: up to the first success. *)
Fixpoint calls_needed {T E} (outcome : nat -> result T E) (i n : nat) : nat :=
  match n with
  | O => i
  | S n => if is_ok (outcome i) then S i else calls_needed outcome (S i) n
  end.

Lemma calls_needed_bounds {T E} (o : nat -> result T E) i n :
  i <= calls_needed o i n <= i + n.
Proof.
  revert i. induction n as [|n IH]; intros i; cbn; [lia|].
  destruct (is_ok (o i)); [lia|]. specialize (IH (S i)). lia.
Qed.

Lemma calls_needed_pos {T E} (o : nat -> result T E) i n : 0 < n -> i < calls_needed o i n.
Proof.
  destruct n as [|n]; [lia|]. intros _. cbn. destruct (is_ok (o i)); [lia|].
  pose proof (calls_needed_bounds o (S i) n). lia.
Qed.

Lemma calls_needed_first {T E} (o : nat -> result T E) n : let k := calls_needed o 0 n in
  (forall i, i < k - 1 -> is_ok (o i) = false) /\ (k < n -> is_ok (o (k - 1)) = true).
Proof.
  enough (forall i, (forall j, j < i -> is_ok (o j) = false) ->
    (forall j, j < calls_needed o i n - 1 -> is_ok (o j) = false) /\
    (calls_needed o i n < i + n -> is_ok (o (calls_needed o i n - 1)) = true)) as He by (apply (He 0); lia).
  induction n as [|n IH]; intros i Hi; cbn; [split; [intros j Hj; apply Hi|]; lia|].
  destruct (is_ok (o i)) eqn:Eo.
  - replace (S i - 1) with i by lia. auto.
  - replace (i + S n) with (S i + n) by lia. apply IH. intros j Hj.
    destruct (decide (j = i)) as [->|]; [done|]. apply Hi. lia.
Qed.

Lemma calls_needed_S {T E} (o : nat -> result T E) i n :
  calls_needed o i (S n) = if is_ok (o i) then S i else calls_needed o (S i) n.
Proof. done. Qed.

Lemma retry_loop_S {W T E} sleep (f : prog W (result T E)) base attempts i more last :
  retry_loop sleep f base attempts i (S more) last =
  (r ← f;
   match r with
   | Ok value => Ret (Some (Ok value))
   | Err error =>
       _ ← (if bool_decide (i + 1 < attempts) then sleep (backoff base i) else Ret tt);
       retry_loop sleep f base attempts (i + 1) more (Some error)
   end).
Proof. done. Qed.

Lemma wp_retry_loop {T E} (o : nat -> result T E) base attempts more i last :
  i + S more = attempts ->
  wp (run (retry_loop traced_sleep (traced o) base attempts i (S more) last))
    (fun r t => let k := calls_needed o i (S more) in r = Some (o (k - 1)) /\ t = Trace k (backoff base <$> seq 0 (k - 1)))
    (Trace i (backoff base <$> seq 0 i)).
Proof.
  revert i last. induction more as [|more IH]; intros i last Hi; rewrite retry_loop_S, calls_needed_S;
    apply wp_run_bind, wp_run_atomically; unfold wp at 1; cbn [calls slept].
  - rewrite bool_decide_false by lia.
    destruct (o i) as [v|e] eqn:Eo; cbn [is_ok calls_needed]; apply wp_ret; cbv zeta;
      replace (S i - 1) with i by lia; by rewrite Eo.
  - destruct (o i) as [v|e] eqn:Eo; cbn [is_ok].
    + apply wp_ret. cbv zeta. replace (S i - 1) with i by lia. by rewrite Eo.
    + rewrite bool_decide_true by lia. apply wp_run_bind, wp_run_atomically. unfold wp at 1. cbn [calls slept].
      replace ((backoff base <$> seq 0 i) ++ [backoff base i]) with (backoff base <$> seq 0 (S i))
        by (rewrite seq_S, fmap_app; done).
      replace (i + 1) with (S i) by lia. apply IH. lia.
Qed.

(** C36: with at least one attempt the helper ends, with the first success among
    the attempts and otherwise the last error; it calls the operation that
    many times and not once more, and between two calls it sleeps the base
    delay doubled at each attempt, held at the largest factor and the largest
    duration. *)
Theorem retry_exact {T E} (outcome : nat -> result T E) attempts base : 0 < attempts ->
  wp (run (retry_with_backoff traced_sleep (traced outcome) attempts base))
    (fun r t => let k := calls_needed outcome 0 attempts in
      0 < k <= attempts /\ r = Some (outcome (k - 1)) /\ t = Trace k (backoff base <$> seq 0 (k - 1)) /\
      (forall i, i < k - 1 -> is_ok (outcome i) = false) /\ (k < attempts -> is_ok (outcome (k - 1)) = true))
    (Trace 0 []).
Proof.
  intros Ha. destruct attempts as [|n]; [lia|]. unfold retry_with_backoff.
  eapply wp_mono; [apply (wp_retry_loop outcome base (S n) n 0 None); lia|]. cbv beta zeta. intros r t [-> ->].
  pose proof (calls_needed_bounds outcome 0 (S n)). pose proof (calls_needed_pos outcome 0 (S n) ltac:(lia)).
  split; [lia|]. split; [done|]. split; [done|]. apply calls_needed_first.
Qed.

(** ** Examples *)

Module GateExamples.

(** A semaphore that counts. *)
#[export] Instance counter : Semaphore nat := {
  sem_new n := n;
  sem_try_acquire := fun n => match n with O => (false, O) | S n => (true, n) end;
  sem_release := fun n => (tt, S n);
}.

#[export] Instance counter_laws : SemaphoreLaws nat.
Proof. refine {| permits n := n |}; [done|by intros []|done]. Defined.

Lemma downloads_bounded_witness :
  let d := (Gate (Some 2) 0, [Some tt; Some tt]) in
  length d.2 <= 2 /\ ((exists e, (admit_download d.1).1 = Err e) <-> length d.2 = 2).
Proof.
  intros d. apply (downloads_bounded 2 d); [lia|].
  eapply rtc_l; [by apply step_open|]. eapply rtc_l; [by apply step_open|]. constructor.
Defined.

Lemma retry_exact_witness :
  wp (run (retry_with_backoff traced_sleep (traced (fun i => if i =? 2 then Ok "done" else Err i)) 5 100))
    (fun r t => r = Some (Ok "done") /\ t = Trace 3 [100; 200]%Z) (Trace 0 []).
Proof.
  eapply wp_mono; [apply (retry_exact (fun i => if i =? 2 then Ok "done" else Err i) 5 100); lia|].
  intros r t (_ & -> & -> & _). split; [reflexivity|]. vm_compute. reflexivity.
Defined.
End GateExamples.
