(* ===== verification/Auth.v ===== *)
(** Auth: the verification of the provider's tokens: the key cache
    ([src/src/http/middleware/jwks.rs]) and the middleware that turns a token
    into claims ([http/middleware/jwt.rs]).

    [jsonwebtoken] is a dependency: the decoding of a header, the decoding and
    validation of a token and the making of a verification key are parameters. *)
From S2P Require Import Prelude.
From S2P Require Import Effects.
From S2P Require Import RustStr.
From S2P Require Import FsTypes.
From S2P Require Import Http.

(** ** Keys *)

(** [jsonwebtoken::jwk]: a published key [J]; [K] is [DecodingKey]. *)
Class JwkLib (J K Alg : Type) := {
  jwk_octet : J -> bool;
  (** the [alg] member: [Some None] is one the library does not know *)
  jwk_algorithm : J -> option (option Alg);
  jwk_decoding_key : J -> option K;
  jwk_kid : J -> option string;
  alg_rs256 : Alg;
  (** [Algorithm::from_str(&alg.to_string()).ok()] *)
  alg_for_signing : Alg -> option Alg;
}.

Record SigningKey (K Alg : Type) := { sk_key : K; sk_alg : Alg }.
Arguments sk_key {K Alg} _.
Arguments sk_alg {K Alg} _.

Definition JWKS_REFRESH_DEBOUNCE : Z := from_secs 5.

(** The cache: the keys, the instant of the last refresh, and the readings of
    the monotonic clock; [N] is the network. *)
Record jwks_state (K Alg N : Type) := Jwks {
  jw_keys : gmap string (SigningKey K Alg);
  jw_last : Z;
  jw_clock : clock;
  jw_net : N;
}.
Arguments Jwks {K Alg N} jw_keys jw_last jw_clock jw_net.
Arguments jw_keys {K Alg N} _.
Arguments jw_last {K Alg N} _.
Arguments jw_clock {K Alg N} _.
Arguments jw_net {K Alg N} _.

Section jwks.
Context {J K Alg N : Type} `{!JwkLib J K Alg} (download : act N (result (list J) string)).

#[local] Abbreviation W := (jwks_state K Alg N).
#[local] Abbreviation task := (prog W).
#[local] Abbreviation keys := (gmap string (SigningKey K Alg)).

Definition to_signing_key (jwk : J) : option (string * SigningKey K Alg) :=
  if jwk_octet jwk then None else
  algorithm ← (match jwk_algorithm jwk with
               | None | Some None => Some alg_rs256
               | Some (Some alg) => alg_for_signing alg
               end);
  key ← jwk_decoding_key jwk;
  kid ← jwk_kid jwk;
  Some (kid, {| sk_key := key; sk_alg := algorithm |}).

(** [collect] into a map: the last of the keys with one identifier. *)
Definition collect_keys (l : list J) : keys := foldl (fun m kv => <[kv.1 := kv.2]> m) ∅ (omap to_signing_key l).

Definition fetch_keys : act W (result keys string) := fun w =>
  let '(r, n) := download (jw_net w) in
  (match r with Ok l => Ok (collect_keys l) | Err e => Err e end, Jwks (jw_keys w) (jw_last w) (jw_clock w) n).

Definition jwks_now : act W Z := fun w =>
  let '(t, c) := tick (jw_clock w) in (t, Jwks (jw_keys w) (jw_last w) c (jw_net w)).
Definition set_last (t : Z) : act W unit := fun w => (tt, Jwks (jw_keys w) t (jw_clock w) (jw_net w)).
Definition set_keys (m : keys) : act W unit := fun w => (tt, Jwks m (jw_last w) (jw_clock w) (jw_net w)).

(** A new cache; a set without a usable key is an error. *)
Definition build (url : string) (c : clock) (n : N) : result W string :=
  let '(r, n) := download n in
  match r with
  | Err e => Err e
  | Ok l =>
      let ks := collect_keys l in
      if bool_decide (ks = ∅) then Err ("No usable signing keys found in JWKS at " +:+ url)
      else let '(t, c) := tick c in Ok (Jwks ks t c n)
  end.

Definition lookup_key (kid : option string) (ks : keys) : option (SigningKey K Alg) :=
  match kid with
  | Some id => ks !! id
  | None => match map_to_list ks with [(_, key)] => Some key | _ => None end
  end.

Definition lookup (kid : option string) : task (option (SigningKey K Alg)) :=
  atomically (fun w => (lookup_key kid (jw_keys w), w)).

(** The critical section of the timestamp: whether this caller fetches. *)
Definition claim_refresh (debounce : Z) : act W bool :=
  now ← jwks_now;
  last ← (fun w => (jw_last w, w));
  if bool_decide (Z.max 0 (now - last) < debounce)%Z then mret false else
  now ← jwks_now;
  _ ← set_last now;
  mret true.

Definition maybe_refresh (debounce : Z) : task unit :=
  mine ← atomically (claim_refresh debounce);
  if negb mine then Ret tt else
  r ← atomically fetch_keys;
  match r with
  | Ok ks => if bool_decide (ks = ∅) then Ret tt else atomically (set_keys ks)
  | Err _ => Ret tt
  end.

Definition get (debounce : Z) (kid : option string) : task (option (SigningKey K Alg)) :=
  k ← lookup kid;
  match k with
  | Some key => Ret (Some key)
  | None => _ ← maybe_refresh debounce; lookup kid
  end.
End jwks.

(** ** Issuers *)

Definition TENANT_PLACEHOLDER : string := "{tenantid}".
Definition AUTH_COOKIE : string := "auth_token".

Record IssuerTemplate := { it_prefix : string; it_suffix : string; it_allowed : list string }.

Definition parse_template (issuer : string) (allowed : list string) : option IssuerTemplate :=
  '(prefix, suffix) ← split_once_str TENANT_PLACEHOLDER issuer;
  Some {| it_prefix := prefix; it_suffix := suffix; it_allowed := allowed |}.

Definition resolve (t : IssuerTemplate) (tenant_id : string) : string := it_prefix t +:+ tenant_id +:+ it_suffix t.

Definition resolve_checked (t : IssuerTemplate) (tenant_id : string) : result string string :=
  if negb (bool_decide (tenant_id ∈ it_allowed t))
  then Err ("tenant `" +:+ tenant_id +:+ "` is not in the configured allowlist")
  else Ok (resolve t tenant_id).

(** ** Tokens *)

Record Validation (Alg : Type) := { va_algorithms : list Alg; va_audience : list string; va_issuers : option (list string) }.
Arguments va_algorithms {Alg} _.
Arguments va_audience {Alg} _.
Arguments va_issuers {Alg} _.

(** [jsonwebtoken]'s decoding; [C] is the type of the claims, and the clock
    reading is the wall time a validation looks at. *)
Class JwtDecoder (K Alg C : Type) := {
  decode_header : string -> result (option string) string;
  decode_token : string -> K -> Validation Alg -> Z -> result C string;
  (** base64url and JSON of a payload segment: its string members *)
  decode_payload : string -> option (string -> option string);
}.

Section middleware.
Context {J K Alg N C A : Type} `{!JwkLib J K Alg} `{!JwtDecoder K Alg C}.
Context (download : act N (result (list J) string)).

#[local] Abbreviation W := (jwks_state K Alg N).
#[local] Abbreviation task := (prog W).

Definition extract_unverified_claim (token field : string) : option string :=
  payload_b64 ← split_char "." token !! 1;
  members ← decode_payload payload_b64;
  members field.

(** [JwtClaimsMiddleware] *)
Record JwtClaimsMiddleware := {
  jm_debounce : Z;
  jm_validation : Validation Alg;
  jm_template : option IssuerTemplate;
}.

(** [new_with_jks] without the keys; [rs256] is its algorithm. *)
Definition new_with_jks (audience issuer : string) : JwtClaimsMiddleware :=
  let template := parse_template issuer [] in
  {| jm_debounce := JWKS_REFRESH_DEBOUNCE;
     jm_validation := {| va_algorithms := [alg_rs256]; va_audience := [audience];
                         va_issuers := match template with None => Some [issuer] | Some _ => None end |};
     jm_template := template |}.

Definition with_allowed_tenants (m : JwtClaimsMiddleware) (tenants : list string) : JwtClaimsMiddleware :=
  {| jm_debounce := jm_debounce m; jm_validation := jm_validation m;
     jm_template := (fun t => {| it_prefix := it_prefix t; it_suffix := it_suffix t; it_allowed := tenants |}) <$> jm_template m |}.

Context (m : JwtClaimsMiddleware).

(** The issuers that the token must name. *)
Definition expected_issuers (token : string) : result (option (list string)) string :=
  match jm_template m with
  | None => Ok (va_issuers (jm_validation m))
  | Some template =>
      match (t ← extract_unverified_claim token "tid"; if bool_decide (t = "") then None else Some t) with
      | None => Err "token has no tenant identifier"
      | Some tenant_id => match resolve_checked template tenant_id with Ok e => Ok (Some [e]) | Err e => Err e end
      end
  end.

(** The claims of a token; [true] marks a hard failure. *)
Definition claims_of (token : string) (wall : act W Z) : task (result C (string * bool)) :=
  match decode_header token with
  | Err e => Ret (Err ("undecodable header: " +:+ e, true))
  | Ok kid =>
      key ← get download (jm_debounce m) kid;
      match key with
      | None => Ret (Err ("no signing key matches kid", true))
      | Some signing_key =>
          match expected_issuers token with
          | Err cause => Ret (Err (cause, true))
          | Ok issuers =>
              let validation := {| va_algorithms := [sk_alg signing_key]; va_audience := va_audience (jm_validation m);
                                   va_issuers := issuers |} in
              now ← atomically wall;
              match decode_token token (sk_key signing_key) validation now with
              | Ok c => Ret (Ok c)
              | Err e => Ret (Err ("token failed validation: " +:+ e, false))
              end
          end
      end
  end.

Definition sets_session (v : string) : bool :=
  starts_with v (AUTH_COOKIE +:+ "=") && negb (starts_with v (AUTH_COOKIE +:+ "=;")).

(** [Set-Cookie] values are ASCII here, so [to_str] succeeds. *)
Definition handler_set_session (hs : headers) : bool :=
  existsb (fun h => bool_decide (h.1 = "set-cookie") && sets_session h.2) hs.

Definition CLEAR_SESSION : string := "auth_token=; Path=/; Max-Age=0; HttpOnly; SameSite=Lax".

(** The middleware's [call]; the service sees the claims, if any. *)
Definition jwt_call (bearer : option string) (req : HttpRequest) (wall : act W Z)
    (svc : option C -> task (result (HttpResponse A) ApiError)) : task (result (HttpResponse A) ApiError) :=
  let cookie_token := cookie req AUTH_COOKIE in
  let chosen_from_cookie := bool_decide (bearer = None) && bool_decide (cookie_token <> None) in
  let finish (claims : option C) (unusable : bool) :=
    resp <-? svc claims;
    let clears_session := unusable && chosen_from_cookie in
    mret (Ok (if clears_session && negb (handler_set_session (resp_headers resp))
              then map_headers (append_header ("set-cookie", CLEAR_SESSION)) resp else resp)) in
  match (match bearer with Some t => Some t | None => cookie_token end) with
  | None => finish None false
  | Some token =>
      claims ← claims_of token wall;
      match claims with
      | Ok c => finish (Some c) false
      | Err (reason, true) => Ret (Err (InvalidCredentials reason))
      | Err (reason, false) => finish None true
      end
  end.

(** [Validated::from_request] *)
Definition validated (claims : option C) : result C ApiError := ok_or claims MissingCredentials.
End middleware.
