(* ===== verification/AuthRules.v ===== *)
(** AuthRules: what the key cache keeps under concurrent requests, and what the
    token middleware lets through. *)
From S2P Require Import Prelude.
From S2P Require Import Effects.
From S2P Require Import RustStr.
From S2P Require Import FsTypes.
From S2P Require Import Http.
From S2P Require Import Auth.

Section cache.
Context {J K Alg N : Type} `{!JwkLib J K Alg} (download : act N (result (list J) string)) (debounce : Z).
Hypothesis debounce_pos : (0 < debounce)%Z.

#[local] Abbreviation W := (jwks_state K Alg N).

(** [Instant] never goes back. *)
Definition monotone (w : W) : Prop := forall i j, i <= j -> (reading (jw_clock w) i <= reading (jw_clock w) j)%Z.

(** What every step keeps: a cache with keys has keys, and the instant of the
    last refresh stays or moves on by the debounce window at least. *)
Definition cache_step (w w' : W) : Prop := monotone w ->
  monotone w' /\ (jw_keys w <> ∅ -> jw_keys w' <> ∅) /\
  (jw_last w' = jw_last w \/ (jw_last w + debounce <= jw_last w')%Z).

#[local] Instance cache_step_preorder : PreOrder cache_step.
Proof using debounce_pos.
  split; [intros w Hm; auto|]. intros a b c Hab Hbc Ha. destruct (Hab Ha) as (Hb & Hk & Hl).
  destruct (Hbc Hb) as (Hc & Hk' & Hl'). split; [done|]. split; [auto|]. lia.
Qed.

#[local] Abbreviation safe p := (forall w, rg cache_step (fun _ _ => True) p w).

Lemma safe_step {X} (f : act W X) : (forall w, wp f (fun _ w' => cache_step w w') w) -> safe (atomically f).
Proof using debounce_pos.
  intros Hf w. apply rg_atomically. intros w0 _. eapply wp_mono; [apply Hf|]. by intros x w1 Hw1.
Qed.

Lemma safe_then {X Y} (p : prog W X) (k : X -> prog W Y) : safe p -> (forall x, safe (k x)) -> safe (p ≫= k).
Proof using debounce_pos. intros Hp Hk w. apply rg_bind; [apply _|]. eapply rg_mono; [apply Hp|]. by intros x w' _. Qed.

Lemma safe_value {X} (x : X) : safe (Ret x).
Proof. by intros w w' _. Qed.

Lemma claim_refresh_step w : wp (claim_refresh debounce) (fun mine w' => cache_step w w' /\
  (mine = true -> monotone w -> (jw_last w + debounce <= jw_last w')%Z)) w.
Proof using debounce_pos.
  unfold claim_refresh, wp, mbind, act_bind, jwks_now, tick. cbn. case_bool_decide as Hd; cbn.
  - split; [|done]. intros Hm. split; [done|]. auto.
  - assert (monotone w -> (jw_last w + debounce <= reading (jw_clock w) (S (ticks (jw_clock w))))%Z) as Hb.
    { intros Hm. specialize (Hm (ticks (jw_clock w)) (S (ticks (jw_clock w))) ltac:(lia)). lia. }
    split; [|auto]. intros Hm. split; [done|]. auto.
Qed.

Lemma safe_get kid : safe (get download debounce kid).
Proof using debounce_pos.
  assert (forall kid, safe (lookup (K := K) (Alg := Alg) (N := N) kid)) as Hl
    by (intros k; apply safe_step; intros w; unfold wp; cbn; reflexivity).
  unfold get. apply safe_then; [apply Hl|]. intros [key|]; [apply safe_value|].
  apply safe_then; [|intros _; apply Hl]. unfold maybe_refresh. apply safe_then.
  { apply safe_step. intros w. eapply wp_mono; [apply claim_refresh_step|]. by intros b w' [Hs _]. }
  intros []; [|apply safe_value]. cbn [negb]. apply safe_then.
  - apply safe_step. intros w. unfold wp, fetch_keys. destruct (download (jw_net w)) as [r n]. intros Hm. by auto.
  - intros [ks|e]; [|apply safe_value]. case_bool_decide as Hks; [apply safe_value|].
    apply safe_step. intros w. unfold wp, set_keys. intros Hm. cbn. by auto.
Qed.

(** C24: however many requests miss the cache at the same time, and whatever the
    provider answers, a cache that has keys never loses them all, and no step
    moves the instant of the last refresh, after which a fetch is made, by less
    than the debounce window. *)
Theorem cache_safe kids sched i (w : W) : monotone w -> jw_keys w <> ∅ ->
  let c := pool_run sched (get download debounce <$> kids, w) in
  let c' := pool_step i c in
  jw_keys c.2 <> ∅ /\ (jw_last c'.2 = jw_last c.2 \/ (jw_last c.2 + debounce <= jw_last c'.2)%Z).
Proof using debounce_pos.
  intros Hm Hk c c'.
  destruct (pool_rg cache_step (fun _ _ _ => True) sched (get download debounce <$> kids) w) as [HR Hall].
  { intros j p Hp. apply list_lookup_fmap_Some in Hp as (kid & -> & _). apply safe_get. }
  fold c in HR, Hall. destruct (HR Hm) as (Hmc & Hkc & _). split; [auto|].
  subst c'. unfold pool_step. destruct (c.1 !! i) as [p|] eqn:Ei; [|by left].
  destruct (prog_step p c.2) as [p' w'] eqn:Es. cbn.
  destruct (rg_step cache_step _ _ _ _ _ (Hall i p Ei) Es) as [Hs _]. by apply Hs.
Qed.

(** ** Rotation *)

(** Whether the debounce window is over at the next reading of the clock, and
    the keys that a refresh leaves. *)
Definition refresh_due (w : W) : bool :=
  bool_decide (debounce <= reading (jw_clock w) (ticks (jw_clock w)) - jw_last w)%Z.

Definition refreshed (w : W) : gmap string (SigningKey K Alg) :=
  match (download (jw_net w)).1 with
  | Ok l => if refresh_due w && negb (bool_decide (collect_keys l = ∅)) then collect_keys l else jw_keys w
  | Err _ => jw_keys w
  end.

(** What a request for a key that is not cached does.  Within the debounce
    window it finds nothing and does not reach the provider.  Past it, it asks
    the provider once: a set with usable keys replaces the cache, so a key that
    was rotated in is found at the first request that names it, and a failure
    or a set without usable keys leaves the cache as it was. *)
Theorem miss_exact kid (w : W) : jw_keys w !! kid = None ->
  wp (run (get download debounce (Some kid))) (fun r w' =>
    r = refreshed w !! kid /\ jw_keys w' = refreshed w /\
    jw_net w' = if refresh_due w then (download (jw_net w)).2 else jw_net w) w.
Proof using debounce_pos.
  intros Hno. unfold refreshed, refresh_due. destruct (download (jw_net w)) as [answer n'] eqn:Hd.
  unfold get, lookup, maybe_refresh. apply wp_run_bind, wp_run_atomically. unfold wp at 1, lookup_key. rewrite Hno.
  apply wp_run_bind, wp_run_bind, wp_run_atomically. unfold wp at 1, claim_refresh, mbind, act_bind, jwks_now, tick. cbn.
  destruct (bool_decide_reflect (debounce <= reading (jw_clock w) (ticks (jw_clock w)) - jw_last w)%Z) as [Hdue|Hdue].
  - rewrite bool_decide_false by lia. cbn. unfold wp, fetch_keys. cbn [run]. cbn. rewrite Hd.
    destruct answer as [l|e]; cbn; [|by rewrite Hno].
    case_bool_decide as Hks; cbn; [by rewrite Hno|done].
  - rewrite bool_decide_true by lia. cbn. unfold wp. cbn. rewrite Hno. by destruct answer.
Qed.
End cache.

(** ** What the middleware lets through *)

Section tokens.
Context {J K Alg N C A : Type} `{!JwkLib J K Alg} `{!JwtDecoder K Alg C}.
Context (download : act N (result (list J) string)) (m : JwtClaimsMiddleware (Alg := Alg)) (wall : act (jwks_state K Alg N) Z).

#[local] Abbreviation W := (jwks_state K Alg N).

(** Reading the wall clock leaves the cache alone. *)
Hypothesis wall_reads : forall w, wp wall (fun _ w' => jw_keys w' = jw_keys w) w.

(** Claims that a cached key vouches for: the key is the one that the token's
    header selects, the only algorithm is the key's own, the audience is the
    configured one, and the issuer is the configured one or the template's for
    a tenant of the allowlist. *)
Definition vouched (ks : gmap string (SigningKey K Alg)) (token : string) (c : C) : Prop := exists kid key issuers now,
  decode_header (K := K) (Alg := Alg) (C := C) token = Ok kid /\ lookup_key kid ks = Some key /\
  decode_token token (sk_key key)
    {| va_algorithms := [sk_alg key]; va_audience := va_audience (jm_validation m); va_issuers := issuers |} now = Ok c /\
  match jm_template m with
  | None => issuers = va_issuers (jm_validation m)
  | Some t => exists tenant, tenant ∈ it_allowed t /\ tenant <> "" /\ issuers = Some [resolve t tenant]
  end.

Lemma expected_issuers_spec token issuers : expected_issuers (K := K) (C := C) m token = Ok issuers ->
  match jm_template m with
  | None => issuers = va_issuers (jm_validation m)
  | Some t => exists tenant, tenant ∈ it_allowed t /\ tenant <> "" /\ issuers = Some [resolve t tenant]
  end.
Proof.
  unfold expected_issuers. destruct (jm_template m) as [t|]; [|by intros [= <-]].
  destruct (extract_unverified_claim token "tid") as [tid|]; [|done]. cbn.
  case_bool_decide as Hne; [done|]. unfold resolve_checked. destruct (bool_decide_reflect (tid ∈ it_allowed t)); [|done].
  cbn. intros [= <-]. by exists tid.
Qed.

Lemma wp_get kid w : wp (run (get download (jm_debounce m) kid)) (fun r w' => r = lookup_key kid (jw_keys w')) w.
Proof.
  unfold get, lookup. apply wp_run_bind, wp_run_atomically. unfold wp at 1.
  destruct (lookup_key kid (jw_keys w)) as [key|] eqn:E; [by apply wp_ret|].
  apply wp_run_bind. apply wp_intro. intros [] w' _. by apply wp_run_atomically.
Qed.

Lemma wp_claims_of token w :
  wp (run (claims_of download m token wall)) (fun r w' => forall c, r = Ok c -> vouched (jw_keys w') token c) w.
Proof using wall_reads.
  unfold claims_of. destruct (decode_header token) as [kid|e] eqn:Eh; [|by apply wp_ret].
  apply wp_run_bind. eapply wp_mono; [apply wp_get|]. intros [key|] w1 Hkey; [|by apply wp_ret].
  destruct (expected_issuers m token) as [issuers|cause] eqn:Ei; [|by apply wp_ret]. cbv zeta.
  apply wp_run_bind, wp_run_atomically. eapply wp_mono; [apply wall_reads|]. intros now w2 Hw2.
  destruct (decode_token _ _ _ _) as [c|e] eqn:Ed; apply wp_ret; [|done].
  intros c' [= <-]. exists kid, key, issuers, now. rewrite Hw2. split; [done|]. split; [done|]. split; [done|].
  by apply expected_issuers_spec in Ei.
Qed.

(** The chosen token: the header's wins over the cookie's. *)
Definition chosen_token (bearer : option string) (req : HttpRequest) : option string :=
  match bearer with Some t => Some t | None => cookie req AUTH_COOKIE end.

Context (bearer : option string) (req : HttpRequest) (svc : option C -> prog W (result (HttpResponse A) ApiError)).

(** C14: a handler sees claims only of a token that the request carries and that
    a key of the cache vouches for, with the algorithm pinned to that key and
    the issuer and audience to the configuration; without such a token it sees
    none, or is not reached.  Stated as a proof rule: what the handler
    guarantees for vouched claims, and for none, holds of every answer, up to
    the clearing of the cookie. *)
Theorem claims_are_vouched (P : result (HttpResponse A) ApiError -> Prop) w :
  (forall token c w', chosen_token bearer req = Some token -> vouched (jw_keys w') token c ->
    wp (run (svc (Some c))) (fun r _ => P r) w') ->
  (forall w', wp (run (svc None)) (fun r _ => P r) w') ->
  wp (run (jwt_call download m bearer req wall svc)) (fun r _ =>
    P r \/ (exists resp, P (Ok resp) /\ r = Ok (map_headers (append_header ("set-cookie", CLEAR_SESSION)) resp)) \/
    (exists reason, r = Err (InvalidCredentials reason) /\ is_Some (chosen_token bearer req))) w.
Proof using wall_reads.
  intros Hsome Hnone. unfold jwt_call. cbv zeta.
  assert (forall claims (unusable : bool) w', wp (run (svc claims)) (fun r _ => P r) w' ->
    wp (run (resp <-? svc claims;
      mret (Ok (if unusable && (bool_decide (bearer = None) && bool_decide (cookie req AUTH_COOKIE <> None)) &&
                   negb (handler_set_session (resp_headers resp))
                then map_headers (append_header ("set-cookie", CLEAR_SESSION)) resp else resp))))
     (fun r _ => P r \/ (exists resp, P (Ok resp) /\ r = Ok (map_headers (append_header ("set-cookie", CLEAR_SESSION)) resp)) \/
       (exists reason, r = Err (InvalidCredentials reason) /\ is_Some (chosen_token bearer req))) w') as Hfin.
  { intros claims unusable w' Hs. apply wp_run_bindR. eapply wp_mono; [exact Hs|]. intros [resp|e] w2 HP; [|by left].
    apply wp_ret. destruct (_ && _); [right; left; eauto|by left]. }
  fold (chosen_token bearer req). destruct (chosen_token bearer req) as [token|] eqn:Et; [|by apply Hfin].
  apply wp_run_bind. eapply wp_mono; [apply wp_claims_of|]. intros [c|[reason []]] w' Hc.
  - apply Hfin. by eapply Hsome; [|apply Hc].
  - apply wp_ret. right. right. eauto.
  - by apply Hfin.
Qed.

(** A token that failed validation: the service runs without claims, and its
    answer may be told to clear the cookie. *)
Lemma wp_jwt_stale token failure (Q : result (HttpResponse A) ApiError -> W -> Prop) w :
  chosen_token bearer req = Some token ->
  (run (claims_of download m token wall) w).1 = Err (failure, false) ->
  wp (run (svc None)) (fun r w' => Q (match r with
    | Ok resp => Ok (if bool_decide (bearer = None) && negb (handler_set_session (resp_headers resp))
                     then map_headers (append_header ("set-cookie", CLEAR_SESSION)) resp else resp)
    | Err e => Err e end) w') (run (claims_of download m token wall) w).2 ->
  wp (run (jwt_call download m bearer req wall svc)) Q w.
Proof.
  intros Ht Hc Hsvc. unfold jwt_call. cbv zeta. fold (chosen_token bearer req). rewrite Ht.
  apply wp_run_bind. unfold wp at 1. destruct (run (claims_of download m token wall) w) as [r w1]. cbn in Hc, Hsvc. subst r.
  apply wp_run_bindR. eapply wp_mono; [apply Hsvc|]. intros [resp|e] w2 HQ; [|done]. apply wp_ret. cbn [andb].
  unfold chosen_token in Ht. destruct bearer as [b|]; [done|]. rewrite Ht. done.
Qed.

(** A stale session is cleared exactly when it should be: the answer carries
    the clearing cookie if and only if the token that was chosen came from the
    cookie, it failed validation, and the handler has not set a new session
    itself; otherwise the handler's answer is passed on as it is. *)
Theorem session_cleared_exact resp token failure w :
  chosen_token bearer req = Some token -> (forall w', wp (run (svc None)) (fun r _ => r = Ok resp) w') ->
  (run (claims_of download m token wall) w).1 = Err (failure, false) ->
  wp (run (jwt_call download m bearer req wall svc)) (fun r _ => r = Ok
    (if bool_decide (bearer = None) && negb (handler_set_session (resp_headers resp))
     then map_headers (append_header ("set-cookie", CLEAR_SESSION)) resp else resp)) w.
Proof.
  intros Ht Hsvc Hc. eapply wp_jwt_stale; [exact Ht|exact Hc|]. eapply wp_mono; [apply Hsvc|]. by intros r w' ->.
Qed.
End tokens.

(** ** A provider and its tokens, evaluated *)

Module AuthExamples.

(** A published key is its identifier, its [alg] member and its secret. *)
Definition published : Type := string * option string * string.

Definition jwk_lib : JwkLib published string string := {|
  jwk_octet k := false;
  jwk_algorithm k := Some <$> k.1.2;
  jwk_decoding_key k := Some k.2;
  jwk_kid k := Some k.1.1;
  alg_rs256 := "RS256";
  alg_for_signing a := if bool_decide (a ∈ ["RS256"; "ES256"]) then Some a else None;
|}.

(** A token is [kid.subject/tenant/freshness.secret]. *)
Definition payload (token : string) : list string := split_char "/" (default "" (split_char "." token !! 1)).

Definition jwt_decoder : JwtDecoder string string string := {|
  decode_header token := match split_char "." token with [kid; _; _] => Ok (Some kid) | _ => Err "InvalidToken" end;
  decode_token token key va now :=
    match split_char "." token, payload token with
    | [_; _; signature], [subject; tenant; freshness] =>
        if negb (bool_decide (signature = key)) then Err "InvalidSignature"
        else if bool_decide (freshness = "old") then Err "ExpiredSignature"
        else match va_issuers va with
             | Some l => if bool_decide ("https://idp/" +:+ tenant +:+ "/v2" ∈ l) then Ok subject else Err "InvalidIssuer"
             | None => Ok subject
             end
    | _, _ => Err "InvalidToken"
    end;
  decode_payload p := match split_char "/" p with
                      | [_; tenant; _] => Some (fun field => if bool_decide (field = "tid") then Some tenant
                        else if bool_decide (field = "iss") then Some ("https://idp/" +:+ tenant +:+ "/v2") else None)
                      | _ => None
                      end;
|}.
#[local] Existing Instances jwk_lib jwt_decoder.

Definition pub (kid secret : string) : published := (kid, Some "RS256", secret).

(** The network answers with the head of a list; an exhausted list is a failure. *)
Definition answers : act (list (list published)) (result (list published) string) := fun n =>
  match n with l :: rest => (Ok l, rest) | [] => (Err "connection refused", []) end.

#[local] Abbreviation W := (jwks_state string string (list (list published))).

(** A cache holding [k1], a clock of one reading per second, and a provider that has rotated to [k2]. *)
Definition at_sec (s : Z) : clock := Clock (fun i => from_secs (s + Z.of_nat i)) 0.
Definition rotated : W := Jwks {["k1" := {| sk_key := "one"; sk_alg := "RS256" |}]} 0%Z (at_sec 60) [[pub "k2" "two"]; []].

Lemma at_sec_monotone s ks last n : monotone (Jwks ks last (at_sec s) n : W).
Proof. intros i j Hij. cbn. unfold from_secs. lia. Qed.

Lemma debounce_pos : (0 < JWKS_REFRESH_DEBOUNCE)%Z.
Proof. vm_compute. reflexivity. Qed.

(** Two requests race over the rotation, then the provider publishes nothing. *)
Definition two_racing : list nat := [0; 1; 0; 1; 0; 0; 1; 1; 0; 1].

Lemma cache_safe_witness :
  (0 < JWKS_REFRESH_DEBOUNCE)%Z /\ monotone rotated /\ jw_keys rotated <> ∅ /\
  jw_keys (pool_run two_racing (get answers JWKS_REFRESH_DEBOUNCE <$> [Some "k2"; Some "k9"], rotated)).2 <> ∅.
Proof.
  assert (monotone rotated) as Hm by apply at_sec_monotone.
  assert (jw_keys rotated <> ∅) as Hk by (apply map_non_empty_singleton).
  split; [exact debounce_pos|]. split; [exact Hm|]. split; [exact Hk|].
  apply (cache_safe answers JWKS_REFRESH_DEBOUNCE debounce_pos [Some "k2"; Some "k9"] two_racing 0 rotated Hm Hk).
Defined.

(** A request for the key that was rotated in finds it. *)
Lemma miss_exact_witness :
  wp (run (get answers JWKS_REFRESH_DEBOUNCE (Some "k2")))
    (fun r w' => r = Some {| sk_key := "two"; sk_alg := "RS256" |} /\ jw_net w' = [[]]) rotated.
Proof.
  assert (jw_keys rotated !! "k2" = None) as Hno by (vm_compute; reflexivity).
  eapply wp_mono; [apply (miss_exact answers JWKS_REFRESH_DEBOUNCE debounce_pos "k2" rotated Hno)|].
  intros r w' (-> & _ & ->). vm_compute. split; reflexivity.
Defined.

(** *** The middleware *)

Definition multi_tenant : JwtClaimsMiddleware (Alg := string) :=
  with_allowed_tenants (new_with_jks "app" "https://idp/{tenantid}/v2") ["acme"].

Definition wall : act W Z := fun w => (0%Z, w).

Lemma wall_reads w : wp wall (fun _ w' => jw_keys w' = jw_keys w) w.
Proof. reflexivity. Qed.

Definition with_cookie (token : string) : HttpRequest :=
  {| header_str := fun _ => None; cookie := fun n => if bool_decide (n = AUTH_COOKIE) then Some token else None |}.

(** A handler that says who asks. *)
Definition whoami (c : option string) : prog W (result (HttpResponse string) ApiError) :=
  Ret (Ok (Resp 200 [] c)).

Definition ask (bearer : option string) (token : string) : prog W (result (HttpResponse string) ApiError) :=
  jwt_call answers multi_tenant bearer (with_cookie token) wall whoami.

Lemma subject_ann key va now c : decode_token "k1.ann/acme/new.one" key va now = Ok c -> c = "ann".
Proof.
  cbv [decode_token jwt_decoder].
  assert (split_char "." "k1.ann/acme/new.one" = ["k1"; "ann/acme/new"; "one"]) as -> by (vm_compute; reflexivity).
  assert (payload "k1.ann/acme/new.one" = ["ann"; "acme"; "new"]) as -> by (vm_compute; reflexivity).
  destruct (negb _); [done|]. destruct (bool_decide _); [done|].
  destruct (va_issuers va) as [l|]; [destruct (bool_decide _)|]; congruence.
Qed.

(** Whoever a token of ann's is vouched for is ann. *)
Lemma claims_are_vouched_witness :
  let named (who : option string) (r : result (HttpResponse string) ApiError) := r = Ok (Resp 200 [] who) in
  wp (run (ask (Some "k1.ann/acme/new.one") "")) (fun r _ =>
    named (Some "ann") r \/ named None r \/
    r = Ok (Resp 200 [("set-cookie", CLEAR_SESSION)] None) \/ r = Ok (Resp 200 [("set-cookie", CLEAR_SESSION)] (Some "ann")) \/
    is_ok r = false) rotated.
Proof.
  intros named. set (P (r : result (HttpResponse string) ApiError) := named (Some "ann") r \/ named None r).
  eapply wp_mono.
  - apply (claims_are_vouched answers multi_tenant wall wall_reads (Some "k1.ann/acme/new.one") (with_cookie "") whoami P rotated).
    + intros token c w' [= <-] (kid & key & issuers & now & Hk & Hl & Hd & Ht). unfold wp, whoami. cbn [run]. left. unfold named.
      by rewrite (subject_ann _ _ _ _ Hd).
    + intros w'. right. reflexivity.
  - intros r w' [[Hr|Hr]|[(resp & [Hr|Hr] & ->)|(reason & -> & _)]].
    + left. exact Hr.
    + right. left. exact Hr.
    + injection Hr as ->. right. right. right. left. reflexivity.
    + injection Hr as ->. right. right. left. reflexivity.
    + right. right. right. right. reflexivity.
Defined.

(** An expired session is served anonymously, and its cookie is cleared. *)
Lemma session_cleared_exact_witness :
  wp (run (ask None "k1.ann/acme/old.one")) (fun r _ => r = Ok (Resp 200 [("set-cookie", CLEAR_SESSION)] None)) rotated.
Proof.
  apply (session_cleared_exact answers multi_tenant wall None (with_cookie "k1.ann/acme/old.one") whoami
    (Resp 200 [] None) "k1.ann/acme/old.one" "token failed validation: ExpiredSignature").
  - reflexivity.
  - intros w'. reflexivity.
  - vm_compute. reflexivity.
Defined.

(** A cache that has followed the provider's rotation from [k1] to [k2]. *)
Definition followed : W := Jwks {["k2" := {| sk_key := "two"; sk_alg := "RS256" |}]} 0%Z (at_sec 60) [[pub "k2" "two"]].

(** A browser is locked out of the login by a rotation of the provider's
    keys.  The same expired session cookie is served anonymously and cleared
    while the key that signed it is cached; once the provider has stopped
    publishing that key, every request that carries the cookie is refused with
    401 before its handler runs, and nothing tells the browser to drop the
    cookie; a cookie that is no token at all has the same effect.  The routes
    that would establish a new session are behind this middleware too. *)
Theorem stale_kid_locks_out :
  let session := "k1.ann/acme/old.one" in
  (run (ask None session) rotated).1 = Ok (Resp 200 [("set-cookie", CLEAR_SESSION)] None) /\
  (run (ask None session) followed).1 = Err (InvalidCredentials "no signing key matches kid") /\
  (run (ask None "garbage") followed).1 = Err (InvalidCredentials "undecodable header: InvalidToken") /\
  (forall reason, status (api_error_response (InvalidCredentials reason)) = 401%Z /\
    get_header "set-cookie" (resp_headers (api_error_response (InvalidCredentials reason))) = None).
Proof. repeat split; vm_compute; reflexivity. Qed.
End AuthExamples.
