(* ===== verification/PipelineExamples.v ===== *)
(** PipelineExamples: requests through the composed application. *)
From S2P Require Import Prelude.
From S2P Require Import Effects.
From S2P Require Import RustStr.
From S2P Require Import FsTypes.
From S2P Require Import Http.
From S2P Require Import Limits.
From S2P Require Import Pipeline.
From S2P Require Import Auth.
From S2P Require Import AuthRules.

Module PipelineExamples.
Import AuthExamples.

#[local] Instance list_order : HashOrder := { hash_iter := map_to_list; hash_iter_perm _ := Permutation_refl _ }.

(** The routes behind the token middleware, a clock at seven milliseconds, and
    no transformation by the framework. *)
#[local] Abbreviation R := (jwks_state string string (list (list published))).
#[local] Abbreviation reply := (HttpResponse (string + ErrorBody)).

Definition routes (token : string) (bearer : option string) (id : string) : prog (edge_world R) (result reply ApiError) :=
  r ← zoom_prog (ask bearer token);
  mret (match r with Ok res => Ok (Resp (status res) (resp_headers res) (inl <$> body res)) | Err e => Err e end).

Definition req : AppRequest :=
  {| ar_http := {| header_str n := if bool_decide (n = "x-request-id") then Some "r-1" else None; cookie _ := None |};
     ar_method := "GET"; ar_pattern := Some "/auth/me"; ar_path := "/auth/me"; ar_peer := Some (V4 10 0 0 1) |}.

Definition edge (token : string) : prog (edge_world R) (result reply ApiError) :=
  app_call LimitsExamples.ten_a_minute (fun r => (Some 7%Z, r)) (fun r => (0%Z, r)) (fun _ svc => svc) (fun res => res)
    (fun _ => true) "fresh" req (routes token).

Definition quiet : edge_world R := EdgeWorld (new_limiter LimitsExamples.stopped) [] rotated.

(** A session that has expired: served anonymously, and its cookie cleared. *)
Definition expired : string := "k1.ann/acme/old.one".

Lemma edge_answers_witness :
  wp (run (edge expired)) (fun r _ => status (deliver r) = 200%Z /\ timed (deliver r) /\
    get_header "x-request-id" (resp_headers (deliver r)) = Some "r-1" /\
    get_header "set-cookie" (resp_headers (deliver r)) = Some CLEAR_SESSION /\ body (deliver r) = None) quiet.
Proof.
  eapply wp_mono.
  - apply (edge_answers LimitsExamples.ten_a_minute (fun r : R => (Some 7%Z, r)) (fun r => (0%Z, r)) (fun _ svc => svc)
      (fun res => res) (fun _ => true) "fresh" ltac:(reflexivity) ltac:(reflexivity) req (routes expired) quiet).
  - assert (exists l, run (rate_limit_call LimitsExamples.ten_a_minute (Ret tt) (ar_peer req)) (ew_limiter quiet) = (inl tt, l))
      as [l El] by (eexists; vm_compute; reflexivity).
    intros r w'. cbn zeta. rewrite El. cbn [fst snd].
    match goal with |- context [run ?p ?w] =>
      assert ((run p w).1 = Ok (Resp 200 [("set-cookie", CLEAR_SESSION)] None)) as Hr by (vm_compute; reflexivity);
      destruct (run p w) as [res w1] end.
    cbn [fst] in Hr. subst res. intros (Hs & (_ & Hb & Hh) & Ht & Hid & _).
    split; [exact Hs|]. split; [exact Ht|]. split; [exact Hid|]. split; [rewrite Hh; reflexivity|exact Hb].
Defined.

(** A refused credential is answered outside the edge.  The comment on
    [wired_app!] says that every response carries the server's time, the errors
    of the handlers included; the 401 of a token that the token middleware
    refuses carries neither the time nor the request's identifier, and is not
    among the measured requests. *)
Theorem refused_credential_untimed :
  let '(r, w) := run (edge "garbage") quiet in
  status (deliver r) = 401%Z /\
  get_header "x-server-time-ms" (resp_headers (deliver r)) = None /\
  get_header "x-request-id" (resp_headers (deliver r)) = None /\
  ew_metrics w = [].
Proof. by vm_compute. Qed.
End PipelineExamples.
