(* ===== verification/Oidc.v ===== *)
(** Oidc: the client of the identity provider ([src/src/oidc/mod.rs]):
    discovery, the authorization URL, the exchange and the refresh of tokens,
    the gate on tenants, revocation.

    [openidconnect], [reqwest] and [url] are dependencies: requests, the
    parsing of metadata and the verification of an ID token are parameters.  [N]
    is the state of the network, of the random source and of the wall clock;
    [M] is the provider's metadata. *)
From S2P Require Import Prelude.
From S2P Require Import Effects.
From S2P Require Import RustStr.
From S2P Require Import Auth.

Record OidcConfig := {
  cf_client_id : string;
  cf_client_secret : string;
  cf_issuer_url : string;
  cf_redirect_url : string;
  cf_allowed_tenants : list string;
}.

Inductive OidcError : Type :=
| Configuration (e : string)
| UrlParse (e : string)
| HttpClient (e : string)
| Discovery (e : string)
| ExchangeFailure (e : string)
| MissingIdToken
| InvalidToken (e : string)
| Revocation (e : string).

(** How a [GET] fails: [send], [error_for_status] or [text]. *)
Inductive HttpFailure : Type := SendFailed (e : string) | ErrorStatus (e : string) | BodyFailed (e : string).

Inductive TokenRequest : Type := CodeGrant (code verifier : string) | RefreshGrant (token : string).

Record TokenResponse := { tr_id_token : option string; tr_refresh_token : option string }.

Record RevocationRequest := {
  rv_url : string;
  rv_client_id : string;
  rv_client_secret : string;
  rv_token : string;
  rv_hint : string;
}.

Class OpenIdConnect (N M : Type) := {
  (** [ClientBuilder::build] *)
  http_client : result unit string;
  http_get : string -> act N (result string HttpFailure);
  (** the document as JSON: its string members *)
  json_members : string -> result (string -> option string) string;
  parse_metadata : string -> result M string;
  (** [JsonWebKeySet::fetch_async] and [set_jwks] *)
  fetch_jwks : M -> act N (result M string);
  revocation_url : string -> result unit string;
  redirect_url : string -> result unit string;
  (** a challenge's verifier, a CSRF token and a nonce *)
  new_random : act N string;
  (** the client's endpoint, with the scopes added, the state, the nonce and
      the verifier's challenge *)
  authorize_url : M -> string -> string -> list string -> string -> string -> string -> string;
  (** [Err] when the metadata names no token endpoint *)
  token_endpoint : M -> result unit string;
  request_token : M -> string -> string -> TokenRequest -> act N (result TokenResponse string);
  (** [id_token.claims]: signature, audience and expiry, the issuer when it is
      to match, the nonce when there is one *)
  verify_id_token : M -> string -> bool -> option string -> string -> act N (result unit string);
  (** the status of the answer *)
  post_revocation : RevocationRequest -> act N (result Z string);
  url_scheme : string -> option string;
  debug_str : string -> string;
  (** [StatusCode]'s [Display] *)
  status_text : Z -> string;
}.

Record OidcClient (M : Type) := {
  oc_metadata : M;
  oc_client_id : string;
  oc_client_secret : string;
  oc_revocation : option string;
  oc_issuer : string;
  oc_issuer_template : option IssuerTemplate;
  oc_redirect_url : string;
  oc_allowed_tenants : list string;
}.
Arguments oc_metadata {M} _.
Arguments oc_client_id {M} _.
Arguments oc_client_secret {M} _.
Arguments oc_revocation {M} _.
Arguments oc_issuer {M} _.
Arguments oc_issuer_template {M} _.
Arguments oc_redirect_url {M} _.
Arguments oc_allowed_tenants {M} _.

Record AuthUrlResponse := { au_url : string; au_csrf_token : string; au_nonce : string; au_pkce_verifier : string }.

Section client.
Context {N M K Alg C : Type} `{!OpenIdConnect N M} `{!JwtDecoder K Alg C}.

#[local] Abbreviation task := (prog N).
#[local] Abbreviation claim := (extract_unverified_claim (K := K) (Alg := Alg) (C := C)).

(** The first part of [OidcClient::new]: the discovery document. *)
Definition discover (issuer_url : string) : task (result string OidcError) :=
  body ← atomically (http_get (trim_end_char "/" issuer_url +:+ "/.well-known/openid-configuration"));
  Ret (match body with
       | Ok b => Ok b
       | Err (SendFailed e) | Err (BodyFailed e) => Err (HttpClient e)
       | Err (ErrorStatus e) => Err (Discovery e)
       end).

(** [format!("{:032x}", 0)] *)
Definition sentinel_tenant : string := "00000000000000000000000000000000".

Definition no_tenants (raw_issuer : string) : OidcError :=
  Configuration ("issuer " +:+ debug_str raw_issuer +:+
    " is a multi-tenant template but no allowed tenants are configured; set [authorization].allowed_tenants").

(** [OidcClient::new] *)
Definition new (cf : OidcConfig) : task (result (OidcClient M) OidcError) :=
  _ <-? mret (map_err HttpClient http_client);
  body <-? discover (cf_issuer_url cf);
  members <-? mret (map_err Discovery (json_members body));
  let revocation_endpoint := members "revocation_endpoint" in
  raw_issuer <-? mret (ok_or (members "issuer") (Discovery "metadata missing issuer"));
  let issuer_template := parse_template raw_issuer (cf_allowed_tenants cf) in
  _ <-? mret (match issuer_template with
              | Some t => if bool_decide (it_allowed t = []) then Err (no_tenants raw_issuer) else Ok tt
              | None => Ok tt
              end);
  let body := match issuer_template with Some _ => replace_all TENANT_PLACEHOLDER sentinel_tenant body | None => body end in
  metadata <-? mret (map_err Discovery (parse_metadata body));
  metadata <-? map_errM Discovery (atomically (fetch_jwks metadata));
  _ <-? mret (match revocation_endpoint with
              | Some endpoint => map_err (fun e => Configuration ("invalid revocation endpoint: " +:+ e)) (revocation_url endpoint)
              | None => Ok tt
              end);
  _ <-? mret (map_err UrlParse (redirect_url (cf_redirect_url cf)));
  mret (Ok {| oc_metadata := metadata; oc_client_id := cf_client_id cf; oc_client_secret := cf_client_secret cf;
              oc_revocation := revocation_endpoint; oc_issuer := raw_issuer; oc_issuer_template := issuer_template;
              oc_redirect_url := cf_redirect_url cf; oc_allowed_tenants := cf_allowed_tenants cf |}).

Context (c : OidcClient M).

Definition get_auth_url : task AuthUrlResponse :=
  pkce_verifier ← atomically new_random;
  csrf_token ← atomically new_random;
  nonce ← atomically new_random;
  Ret {| au_url := authorize_url (oc_metadata c) (oc_client_id c) (oc_redirect_url c) ["openid"; "offline_access"]
                     csrf_token nonce pkce_verifier;
         au_csrf_token := csrf_token; au_nonce := nonce; au_pkce_verifier := pkce_verifier |}.

(** The gate on the tenant of a token whose signature was verified. *)
Definition tenant_gate (template : IssuerTemplate) (raw : string) : result unit OidcError :=
  match (t ← claim raw "tid"; if bool_decide (t = "") then None else Some t) with
  | None => Err (InvalidToken "token missing tenant identifier")
  | Some tenant_id =>
      match resolve_checked template tenant_id with
      | Err e => Err (InvalidToken e)
      | Ok expected =>
          if bool_decide (claim raw "iss" = Some expected) then Ok tt
          else Err (InvalidToken ("token issuer does not match tenant `" +:+ tenant_id +:+ "`"))
      end
  end.

(** What both grants do with the provider's answer. *)
Definition accept (nonce : option string) (response : TokenResponse) : task (result (string * option string) OidcError) :=
  id_token <-? mret (ok_or (tr_id_token response) MissingIdToken);
  let require_issuer_match := match oc_issuer_template c with Some _ => false | None => true end in
  _ <-? map_errM InvalidToken
          (atomically (verify_id_token (oc_metadata c) (oc_client_id c) require_issuer_match nonce id_token));
  _ <-? mret (match oc_issuer_template c with Some template => tenant_gate template id_token | None => Ok tt end);
  mret (Ok (id_token, tr_refresh_token response)).

Definition grant (request : TokenRequest) : task (result TokenResponse OidcError) :=
  _ <-? mret (map_err Configuration (token_endpoint (oc_metadata c)));
  map_errM ExchangeFailure (atomically (request_token (oc_metadata c) (oc_client_id c) (oc_client_secret c) request)).

Definition exchange_code (code nonce pkce_verifier : string) : task (result (string * option string) OidcError) :=
  response <-? grant (CodeGrant code pkce_verifier);
  accept (Some nonce) response.

Definition refresh_token (token : string) : task (result (string * option string) OidcError) :=
  response <-? grant (RefreshGrant token);
  accept None response.

(** An unparseable URL counts as secure. *)
Definition secure_cookies : bool :=
  match url_scheme (oc_redirect_url c) with Some scheme => bool_decide (scheme = "https") | None => true end.

Definition has_revocation_endpoint : bool := match oc_revocation c with Some _ => true | None => false end.

Definition revoke_token (token : string) : task (result unit OidcError) :=
  match oc_revocation c with
  | None => Ret (Ok tt)
  | Some url =>
      status <-? map_errM Revocation (atomically (post_revocation
        {| rv_url := url; rv_client_id := oc_client_id c; rv_client_secret := oc_client_secret c;
           rv_token := token; rv_hint := "refresh_token" |}));
      mret (if bool_decide (200 <= status < 300)%Z then Ok tt
            else Err (Revocation ("provider returned " +:+ status_text status)))
  end.
End client.

(** ** What a client lets through *)

Section rules.
Context {N M K Alg C : Type} `{!OpenIdConnect N M} `{!JwtDecoder K Alg C}.

#[local] Abbreviation claim := (extract_unverified_claim (K := K) (Alg := Alg) (C := C)).

(** A client whose issuer is a template has an allowlist. *)
Definition client_ok (c : OidcClient M) : Prop :=
  oc_issuer_template c = parse_template (oc_issuer c) (oc_allowed_tenants c) /\
  (oc_issuer_template c <> None -> oc_allowed_tenants c <> []).

Lemma wp_check {A E} (r : result A E) {B} (k : A -> prog N (result B E)) (Q : B -> Prop) n :
  (forall a, r = Ok a -> wp (run (k a)) (fun r' _ => forall b, r' = Ok b -> Q b) n) ->
  wp (run (bindR (mret r) k)) (fun r' _ => forall b, r' = Ok b -> Q b) n.
Proof. intros Hk. apply wp_run_bindR. apply wp_ret. destruct r as [a|e]; [by apply Hk|done]. Qed.

Lemma wp_ask {A E} (p : prog N (result A E)) {B} (k : A -> prog N (result B E)) (Q : B -> Prop) n :
  wp (run p) (fun r n' => forall a, r = Ok a -> wp (run (k a)) (fun r' _ => forall b, r' = Ok b -> Q b) n') n ->
  wp (run (bindR p k)) (fun r' _ => forall b, r' = Ok b -> Q b) n.
Proof. intros Hp. apply wp_run_bindR. eapply wp_mono; [exact Hp|]. intros [a|e] n' Ha; [by apply Ha|done]. Qed.

Lemma parse_template_allowed issuer tenants t : parse_template issuer tenants = Some t -> it_allowed t = tenants.
Proof. unfold parse_template. destruct (split_once_str _ _) as [[p s]|]; cbn; [|done]. by intros [= <-]. Qed.

(** Discovery fails closed: whatever the provider and the configuration say,
    a client that is built for a multi-tenant issuer, one that holds the
    placeholder, has an allowlist of tenants, and it is the configured one. *)
Theorem new_client_ok cf n :
  wp (run (new (N := N) (M := M) cf)) (fun r _ => forall c, r = Ok c ->
    client_ok c /\ oc_allowed_tenants c = cf_allowed_tenants cf /\ oc_client_id c = cf_client_id cf) n.
Proof.
  unfold new. apply wp_check; intros _ _. apply wp_ask, wp_intro. intros r n1 _ body ->.
  apply wp_check; intros members _. cbv zeta. apply wp_check; intros issuer _. apply wp_check; intros [] Hgate.
  apply wp_check; intros md _. apply wp_ask, wp_intro. intros r n2 _ md' ->.
  apply wp_check; intros _ _. apply wp_check; intros _ _. apply wp_ret. intros c [= <-].
  split; [|done]. split; [done|]. cbn. destruct (parse_template issuer _) as [t|] eqn:Et; [|done].
  intros _ Hnil. revert Hgate. rewrite (parse_template_allowed _ _ _ Et), Hnil. by rewrite bool_decide_true.
Qed.

Context (c : OidcClient M).

(** The tenant that a token names is allowed, and is the one of its issuer. *)
Definition tenant_vouched (t : IssuerTemplate) (raw : string) : Prop := exists tenant,
  claim raw "tid" = Some tenant /\ tenant <> "" /\ tenant ∈ it_allowed t /\ claim raw "iss" = Some (resolve t tenant).

Lemma tenant_gate_spec t raw :
  tenant_gate (K := K) (Alg := Alg) (C := C) t raw = Ok tt <-> tenant_vouched t raw.
Proof.
  unfold tenant_gate, tenant_vouched, resolve_checked. destruct (claim raw "tid") as [tid|]; cbn.
  - case_bool_decide as Hne; [split; [done|by intros (? & [= <-] & ? & _)]|].
    destruct (bool_decide_reflect (tid ∈ it_allowed t)) as [Hin|Hin]; cbn.
    + case_bool_decide as Hiss; split; [eauto 10|done|done|]. by intros (? & [= <-] & _ & _ & ?).
    + split; [done|by intros (? & [= <-] & _ & ? & _)].
  - split; [done|]. by intros (? & ? & _).
Qed.

(** An answer of the provider that a session may start from. *)
Definition accepted (nonce : option string) (raw : string) : Prop :=
  (exists n, (verify_id_token (oc_metadata c) (oc_client_id c)
                (match oc_issuer_template c with Some _ => false | None => true end) nonce raw n).1 = Ok tt) /\
  match oc_issuer_template c with Some t => tenant_vouched t raw | None => True end.

Lemma wp_map_errM_ok {A E F} (f : E -> F) (m : act N (result A E)) n (Q : A -> N -> Prop) :
  (forall a n', m n = (Ok a, n') -> Q a n') ->
  wp (run (map_errM f (atomically m))) (fun r n' => forall a, r = Ok a -> Q a n') n.
Proof.
  intros Hm. unfold map_errM. apply wp_run_bind, wp_run_atomically. unfold wp at 1.
  destruct (m n) as [[a|e] n'] eqn:E1; apply wp_ret; [|done]. intros a' [= <-]. by apply Hm.
Qed.

Lemma wp_accept nonce response n :
  wp (run (accept (K := K) (Alg := Alg) (C := C) c nonce response)) (fun r _ => forall s, r = Ok s ->
    response = {| tr_id_token := Some s.1; tr_refresh_token := s.2 |} /\ accepted nonce s.1) n.
Proof.
  unfold accept. apply wp_check; intros raw Hraw. cbv zeta. apply wp_ask, wp_map_errM_ok. intros [] n1 Hv.
  apply wp_check; intros [] Hgate. apply wp_ret. intros s [= <-]. cbn [fst snd].
  destruct response as [[id|] rt]; [|done]. injection Hraw as ->. split; [done|]. unfold accepted. split.
  - exists n. by rewrite Hv.
  - destruct (oc_issuer_template c) as [t|]; [by apply tenant_gate_spec|done].
Qed.

Lemma wp_grant request n (Q : TokenResponse -> N -> Prop) :
  (forall response n', request_token (oc_metadata c) (oc_client_id c) (oc_client_secret c) request n = (Ok response, n') ->
    Q response n') ->
  wp (run (grant c request)) (fun r n' => forall response, r = Ok response -> Q response n') n.
Proof.
  intros HQ. unfold grant. apply wp_run_bindR, wp_ret.
  destruct (token_endpoint (oc_metadata c)) as [[]|e]; cbn [map_err]; [|done]. by apply wp_map_errM_ok.
Qed.

(** The provider's answer to a request was a session's tokens. *)
Definition answered (request : TokenRequest) (n : N) (s : string * option string) : Prop :=
  (request_token (oc_metadata c) (oc_client_id c) (oc_client_secret c) request n).1 =
    Ok {| tr_id_token := Some s.1; tr_refresh_token := s.2 |}.

Lemma wp_exchange code nonce verifier n :
  wp (run (exchange_code (K := K) (Alg := Alg) (C := C) c code nonce verifier)) (fun r _ => forall s, r = Ok s ->
    answered (CodeGrant code verifier) n s /\ accepted (Some nonce) s.1) n.
Proof.
  apply wp_ask, wp_grant. intros response n1 Hreq. eapply wp_mono; [apply wp_accept|].
  intros r n2 Hacc s Hs. destruct (Hacc s Hs) as [-> Ha]. split; [|done]. unfold answered. by rewrite Hreq.
Qed.

Lemma wp_refresh token n :
  wp (run (refresh_token (K := K) (Alg := Alg) (C := C) c token)) (fun r _ => forall s, r = Ok s ->
    answered (RefreshGrant token) n s /\ accepted None s.1) n.
Proof.
  apply wp_ask, wp_grant. intros response n1 Hreq. eapply wp_mono; [apply wp_accept|].
  intros r n2 Hacc s Hs. destruct (Hacc s Hs) as [-> Ha]. split; [|done]. unfold answered. by rewrite Hreq.
Qed.

(** The gate of a login agrees with the gate of every later request: a token
    that was accepted is one for which the middleware, set up from the same
    client, expects exactly the issuer that the token names. *)
Theorem gate_agrees {J} `{!JwkLib J K Alg} t raw : oc_issuer_template c = Some t ->
  client_ok c ->
  let m := with_allowed_tenants (new_with_jks (J := J) (K := K) (Alg := Alg) (oc_client_id c) (oc_issuer c)) (oc_allowed_tenants c) in
  tenant_gate (K := K) (Alg := Alg) (C := C) t raw = Ok tt <->
  exists iss, claim raw "iss" = Some iss /\ expected_issuers (K := K) (C := C) m raw = Ok (Some [iss]).
Proof.
  intros Ht [Hok _] m. assert (jm_template m = Some t) as Hm.
  { subst m. rewrite Ht in Hok. unfold with_allowed_tenants, new_with_jks. cbn. unfold parse_template in *.
    destruct (split_once_str _ _) as [[p s]|]; cbn in *; [|done]. by injection Hok as ->. }
  unfold expected_issuers. rewrite Hm. unfold tenant_gate, resolve_checked.
  destruct (claim raw "tid") as [tid|]; cbn; [|split; [done|by intros (? & _ & ?)]].
  case_bool_decide as Hne; [split; [done|by intros (? & _ & ?)]|].
  destruct (bool_decide_reflect (tid ∈ it_allowed t)); cbn; [|split; [done|by intros (? & _ & ?)]].
  case_bool_decide as Hiss; split; try done; [eauto|]. intros (iss & Hi & [= <-]). by destruct Hiss.
Qed.
End rules.
