(* ===== verification/OidcRoute.v ===== *)
(** OidcRoute: the handlers under [/auth] ([src/src/oidc/route.rs]): login,
    callback, refresh, logout and the session probe.

    The rendering of a cookie and the joining of URLs are the dependencies'. *)
From S2P Require Import Prelude.
From S2P Require Import Effects.
From S2P Require Import RustStr.
From S2P Require Import FsTypes.
From S2P Require Import Http.
From S2P Require Import Auth.
From S2P Require Import Oidc.

Inductive Audience : Type := Single (s : string) | Multi (v : list string).

Record Claims := {
  cl_iss : string;
  cl_sub : string;
  cl_aud : Audience;
  cl_exp : Z;
  cl_nbf : option Z;
  cl_iat : option Z;
  cl_nonce : option string;
  cl_jti : option string;
}.

Record Cookie := {
  ck_name : string;
  ck_value : string;
  ck_path : string;
  ck_http_only : bool;
  ck_secure : bool;
  ck_same_site : string;
  (** seconds *)
  ck_max_age : Z;
}.

Record MeResponse := { me_sub : string; me_iss : string; me_aud : list string; me_exp : Z }.
Record LoginQuery := { lq_return_to : option string }.
Record AuthCallbackQuery := { q_code : option string; q_state : option string; q_error : option string }.
Record AuthResponse := { ar_success : bool; ar_token : option string; ar_error : option string }.

(** What an [HttpResponseBuilder] has collected.  The texts are header values:
    a control character in one turns the answer into an error, and none that
    the code makes itself has one. *)
Record AuthReply := Reply {
  rp_status : Z;
  rp_location : option string;
  rp_cookies : list Cookie;
  rp_body : option AuthResponse;
}.

(** [base.join(value)]: the scheme and the host. *)
Class UrlJoin := { url_join : string -> string -> option (string * option string) }.

(** [Cookie::to_string]: the name and the value, then the attributes. *)
Class CookieText := {
  cookie_text : Cookie -> string;
  cookie_text_spec ck : exists attributes, cookie_text ck = ck_name ck +:+ "=" +:+ ck_value ck +:+ ";" +:+ attributes;
}.

Definition to_http `{CookieText} (r : AuthReply) : HttpResponse AuthResponse :=
  Resp (rp_status r)
    (((fun ck => ("set-cookie", cookie_text ck)) <$> rp_cookies r) ++
     match rp_location r with Some l => [("location", l)] | None => [] end)
    (rp_body r).

(** ** Return paths *)

Definition is_valid_return_to `{UrlJoin} (value : string) : bool :=
  if negb (starts_with value "/") || starts_with value "//" || contains_char "\" value ||
     contains_str "%5c" value || contains_str "%5C" value || existsb is_control (chars value)
  then false
  else match url_join "http://localhost/" value with
       | Some (scheme, host) => bool_decide (scheme = "http") && bool_decide (host = Some "localhost")
       | None => false
       end.

Definition split_first (c : ascii) (s : string) : string * option string :=
  match split_once c s with Some (l, r) => (l, Some r) | None => (s, None) end.

Definition is_error_pair (pair : string) : bool := bool_decide (head (split_char "=" pair) = Some "error").

Definition has_error (query : option string) : bool :=
  match query with Some q => existsb is_error_pair (split_char "&" q) | None => false end.

Definition redirect_target (return_to : string) (error : option string) : string :=
  match error with
  | None => return_to
  | Some code =>
      let '(before_fragment, fragment) := split_first "#" return_to in
      let '(_, query) := split_first "?" before_fragment in
      let target :=
        if has_error query then before_fragment
        else before_fragment +:+
          (if ends_with_char "?" before_fragment || ends_with_char "&" before_fragment then "error="
           else match query with Some _ => "&error=" | None => "?error=" end) +:+ code in
      match fragment with Some f => target +:+ "#" +:+ f | None => target end
  end.

(** ** Cookies *)

Definition minutes (n : Z) : Z := 60 * n.
Definition days (n : Z) : Z := 86400 * n.

Definition base_cookie (secure : bool) (name value : string) (max_age : Z) : Cookie :=
  {| ck_name := name; ck_value := value; ck_path := "/"; ck_http_only := true; ck_secure := secure;
     ck_same_site := "Lax"; ck_max_age := max_age |}.

Definition clear_cookie (name : string) (secure : bool) : Cookie := base_cookie secure name "" 0.

Definition auth_cookie (secure : bool) (token : string) : Cookie := base_cookie secure AUTH_COOKIE token (days 7).
Definition refresh_cookie (secure : bool) (token : string) : Cookie := base_cookie secure "refresh_token" token (days 30).

Definition clear_auth_flow_cookies (secure : bool) : list Cookie :=
  [clear_cookie "oidc_csrf" secure; clear_cookie "oidc_nonce" secure; clear_cookie "oidc_pkce" secure;
   clear_cookie "oidc_return_to" secure].

Definition failed (message : string) : AuthResponse := {| ar_success := false; ar_token := None; ar_error := Some message |}.
Definition succeeded (token : string) : AuthResponse := {| ar_success := true; ar_token := Some token; ar_error := None |}.

Definition callback_failure (status : Z) (message code : string) (return_to : option string) (secure : bool) : AuthReply :=
  match return_to with
  | Some r => Reply 302 (Some (redirect_target r (Some code))) (clear_auth_flow_cookies secure) None
  | None => Reply status None (clear_auth_flow_cookies secure) (Some (failed message))
  end.

(** ** The handlers *)

Definition me (claims : Claims) : MeResponse :=
  {| me_sub := cl_sub claims; me_iss := cl_iss claims;
     me_aud := match cl_aud claims with Single s => [s] | Multi v => v end; me_exp := cl_exp claims |}.

Section handlers.
Context {N M K Alg C : Type} `{!OpenIdConnect N M} `{!JwtDecoder K Alg C} `{!UrlJoin}.
Context (c : OidcClient M).

#[local] Abbreviation task := (prog N).
#[local] Abbreviation secure := (secure_cookies c).

(** The answer, and the task that is spawned. *)
Definition logout (req : HttpRequest) : AuthReply * option (task (result unit OidcError)) :=
  (Reply 204 None [clear_cookie AUTH_COOKIE secure; clear_cookie "refresh_token" secure] None,
   match cookie req "refresh_token" with
   | Some token => if has_revocation_endpoint c then Some (revoke_token c token) else None
   | None => None
   end).

Definition login (query : LoginQuery) : task AuthReply :=
  if match lq_return_to query with Some r => negb (is_valid_return_to r) | None => false end
  then Ret (Reply 400 None [] (Some (failed "invalid return_to")))
  else
    auth_data ← get_auth_url c;
    let flow name value := base_cookie secure name value (minutes 5) in
    Ret (Reply 302 (Some (au_url auth_data))
      ([flow "oidc_csrf" (au_csrf_token auth_data); flow "oidc_nonce" (au_nonce auth_data);
        flow "oidc_pkce" (au_pkce_verifier auth_data)] ++
       match lq_return_to query with Some r => [flow "oidc_return_to" r] | None => [] end) None).

(** A session's cookies, and where the browser goes. *)
Definition signed_in (return_to : option string) (token : string) (refresh : option string) : AuthReply :=
  let cookies := clear_auth_flow_cookies secure ++ [auth_cookie secure token] ++
                 match refresh with Some rt => [refresh_cookie secure rt] | None => [] end in
  match return_to with
  | Some r => Reply 302 (Some r) cookies None
  | None => Reply 200 None cookies (Some (succeeded token))
  end.

Definition exchange_failed (e : OidcError) (return_to : option string) : AuthReply :=
  match e with
  | ExchangeFailure _ | MissingIdToken | InvalidToken _ =>
      callback_failure 401 "authentication failed" "authentication_failed" return_to secure
  | _ => callback_failure 500 "internal server error" "internal_error" return_to secure
  end.

Definition callback (query : AuthCallbackQuery) (req : HttpRequest) : task AuthReply :=
  let return_to := (v ← cookie req "oidc_return_to"; if is_valid_return_to v then Some v else None) in
  match q_error query with
  | Some provider_error =>
      Ret (if bool_decide (provider_error = "access_denied")
           then callback_failure 403 "access denied" "access_denied" return_to secure
           else callback_failure 401 "authentication failed" "authentication_failed" return_to secure)
  | None =>
      match cookie req "oidc_csrf", cookie req "oidc_nonce", cookie req "oidc_pkce" with
      | Some csrf, Some nonce, Some pkce =>
          match q_code query, q_state query with
          | Some code, Some state =>
              if bool_decide (state <> csrf)
              then Ret (callback_failure 401 "Invalid state parameter" "invalid_state" return_to secure)
              else
                r ← exchange_code (K := K) (Alg := Alg) (C := C) c code nonce pkce;
                Ret (match r with
                     | Ok (token_string, refresh_token) => signed_in return_to token_string refresh_token
                     | Err e => exchange_failed e return_to
                     end)
          | _, _ => Ret (callback_failure 401 "authentication failed" "authentication_failed" return_to secure)
          end
      | _, _, _ =>
          Ret (callback_failure 400 "Session expired or security cookies missing" "security_cookies_missing" return_to secure)
      end
  end.

Definition refresh (req : HttpRequest) : task AuthReply :=
  match cookie req "refresh_token" with
  | None => Ret (Reply 401 None [] (Some (failed "missing refresh token")))
  | Some value =>
      r ← refresh_token (K := K) (Alg := Alg) (C := C) c value;
      Ret (match r with
           | Ok (token_string, new_refresh) =>
               Reply 200 None ([auth_cookie secure token_string] ++
                 match new_refresh with Some rt => [refresh_cookie secure rt] | None => [] end)
                 (Some (succeeded token_string))
           | Err e => Reply 401 None [] (Some (failed "authentication failed"))
           end)
  end.
End handlers.

(** ** The scope: the handlers behind the token middleware *)

#[export] Instance net_of_jwks {K Alg N} : Lens N (jwks_state K Alg N) := {
  view := jw_net;
  upd n w := Jwks (jw_keys w) (jw_last w) (jw_clock w) n;
}.

#[export] Instance net_of_jwks_laws {K Alg N} : LensLaws N (jwks_state K Alg N).
Proof. by split; intros *; try destruct w. Qed.

(** The middleware of [OidcApiModule::init]. *)
Definition scope_middleware {J K Alg M} `{!JwkLib J K Alg} (c : OidcClient M) : JwtClaimsMiddleware (Alg := Alg) :=
  with_allowed_tenants (new_with_jks (J := J) (K := K) (oc_client_id c) (oc_issuer c)) (oc_allowed_tenants c).

(** A handler that takes no claims, as a service of the scope. *)
Definition public_service {K Alg N C} `{!CookieText} (handler : prog N AuthReply) :
    option C -> prog (jwks_state K Alg N) (result (HttpResponse AuthResponse) ApiError) :=
  fun _ => r ← zoom_prog handler; Ret (Ok (to_http r)).
