(* ===== verification/OidcRules.v ===== *)
(** OidcRules: where a login sends the browser, what it must carry to get a
    session, and how the session fares under the token middleware. *)
From S2P Require Import Prelude.
From S2P Require Import Effects.
From S2P Require Import RustStr.
From S2P Require Import FsTypes.
From S2P Require Import Http.
From S2P Require Import Auth.
From S2P Require Import AuthRules.
From S2P Require Import Oidc.
From S2P Require Import OidcRoute.

(** ** Return paths *)

(** A relative reference: path, query, fragment. *)
Definition url_parts (s : string) : string * option string * option string :=
  let '(before, fragment) := split_first "#" s in
  let '(path, query) := split_first "?" before in
  (path, query, fragment).

(** The parameters of a query. *)
Definition params (q : string) : list string := List.filter (fun p => negb (bool_decide (p = ""))) (split_char "&" q).

(** A code that is one parameter value. *)
Definition plain_code (code : string) : Prop := contains_char "#" code = false /\ contains_char "&" code = false.

(** A parameter can be added at the end: a path without a query does not end
    in an ampersand, nor a query in a question mark. *)
Definition extensible (path : string) (query : option string) : Prop :=
  match query with
  | None => ends_with_char "&" path = false
  | Some q => ends_with_char "?" q = false
  end.

Lemma split_first_Some c s l r : split_first c s = (l, Some r) <-> s = l +:+ String c r /\ contains_char c l = false.
Proof.
  unfold split_first. rewrite <- split_once_Some. destruct (split_once c s) as [[l' r']|]; split; congruence.
Qed.

Lemma split_first_None c s l : split_first c s = (l, None) <-> s = l /\ contains_char c s = false.
Proof.
  unfold split_first. rewrite <- split_once_None. destruct (split_once c s) as [[l' r']|].
  - by split; [intros [=]|intros [_ [=]]].
  - split; [by intros [= ->]|by intros [-> _]].
Qed.

Lemma ends_with_char_app d a c b :
  ends_with_char d (a +:+ String c b) = if bool_decide (b = "") then bool_decide (c = d) else ends_with_char d b.
Proof.
  induction a as [|x a IH].
  - rewrite app_nil_l. by destruct b.
  - rewrite app_cons. rewrite <- IH. by destruct (a +:+ String c b) eqn:E; [destruct a|].
Qed.

Lemma ends_with_char_spec c s : ends_with_char c s = true -> exists t, s = t +:+ String c "".
Proof.
  induction s as [|a [|b s] IH]; cbn [ends_with_char]; [done| |].
  - intros ->%bool_decide_eq_true. by exists "".
  - intros (t & Ht)%IH. exists (String a t). by rewrite app_cons, <- Ht.
Qed.

Lemma params_snoc q p : contains_char "&" p = false -> p <> "" -> params (q +:+ "&" +:+ p) = params q ++ [p].
Proof.
  intros Hp Hne. unfold params. change ("&" +:+ p) with (String "&" p). rewrite split_char_cat, List.filter_app.
  rewrite (split_char_none _ p Hp). cbn. by rewrite (bool_decide_false _ Hne).
Qed.

Lemma params_trailing q : params (q +:+ "&") = params q.
Proof. unfold params. change "&" with (String "&" ""). rewrite split_char_cat, List.filter_app. cbn. by rewrite List.app_nil_r. Qed.

Lemma params_plain p : contains_char "&" p = false -> p <> "" -> params p = [p].
Proof. intros Hp Hne. unfold params. rewrite (split_char_none _ p Hp). cbn. by rewrite (bool_decide_false _ Hne). Qed.

(** The query with the error code. *)
Definition extended (query : option string) (code : string) : string :=
  match query with
  | None => "error=" +:+ code
  | Some q =>
      if has_error query then q
      else if bool_decide (q = "") then "error=" +:+ code
      else if ends_with_char "&" q then q +:+ "error=" +:+ code
      else q +:+ "&error=" +:+ code
  end.

Lemma extended_params query code : plain_code code ->
  params (extended query code) = params (default "" query) ++ (if has_error query then [] else ["error=" +:+ code]).
Proof.
  intros [_ Hamp]. assert (contains_char "&" ("error=" +:+ code) = false) as Hp by (by rewrite contains_char_app, Hamp).
  destruct query as [q|]; cbn [extended from_option]; unfold id; [|by apply params_plain].
  destruct (has_error (Some q)); [by rewrite List.app_nil_r|].
  case_bool_decide as Hq; [subst q; by apply params_plain|].
  destruct (ends_with_char "&" q) eqn:E; [|by apply (params_snoc q ("error=" +:+ code))].
  apply ends_with_char_spec in E as (q0 & ->). rewrite params_trailing, app_assoc. by apply params_snoc.
Qed.

Lemma extended_plain query code : plain_code code -> contains_char "#" (default "" query) = false ->
  contains_char "#" (extended query code) = false.
Proof.
  intros [Hhash _] Hq. destruct query as [q|]; cbn [extended from_option] in *; unfold id in *; [|by rewrite contains_char_app, Hhash].
  destruct (has_error _); [done|]. repeat case_match; by rewrite ?contains_char_app, ?Hq, Hhash.
Qed.

(** The target before the fragment, where the parameter can be added. *)
Lemma target_extended path query code before : split_first "?" before = (path, query) -> extensible path query ->
  (if has_error query then before
   else before +:+ (if ends_with_char "?" before || ends_with_char "&" before then "error="
                    else match query with Some _ => "&error=" | None => "?error=" end) +:+ code) =
  path +:+ String "?" (extended query code).
Proof.
  intros Hb Hext. destruct query as [q|]; cbn [extended extensible] in *.
  - apply split_first_Some in Hb as [-> Hp]. destruct (has_error _); [done|]. rewrite !ends_with_char_app.
    destruct (bool_decide_reflect (q = "")) as [->|Hq]; [by rewrite app_assoc|]. rewrite Hext. cbn [orb].
    destruct (ends_with_char "&" q); by rewrite app_assoc.
  - apply split_first_None in Hb as [-> Hp]. cbn [has_error].
    assert (ends_with_char "?" path = false) as ->; [|by rewrite Hext].
    destruct (ends_with_char "?" path) eqn:E; [|done]. apply ends_with_char_spec in E as (t & ->).
    rewrite contains_char_app, orb_false_iff in Hp. by destruct Hp.
Qed.

(** A failed callback sends the browser to the page it came from, and tells
    it why: the path and the fragment of the return path are kept, and so are
    its parameters, followed by the error code unless the return path has an
    [error] parameter already. *)
Theorem redirect_target_exact r code path query fragment :
  url_parts r = (path, query, fragment) -> plain_code code -> extensible path query ->
  exists query', url_parts (redirect_target r (Some code)) = (path, Some query', fragment) /\
    params query' = params (default "" query) ++ (if has_error query then [] else ["error=" +:+ code]).
Proof.
  intros Hr Hcode Hext. unfold url_parts in Hr. unfold redirect_target.
  destruct (split_first "#" r) as [before frag] eqn:Eh. destruct (split_first "?" before) as [p q] eqn:Eq.
  injection Hr as -> -> ->. rewrite (target_extended _ _ _ _ Eq Hext).
  exists (extended query code). split; [|by apply extended_params].
  assert (contains_char "#" before = false) as Hb
    by (destruct fragment; [by apply split_first_Some in Eh as [_ ?]|by apply split_first_None in Eh as [-> ?]]).
  assert (contains_char "?" path = false /\ contains_char "#" path = false /\ contains_char "#" (default "" query) = false) as (Hp & Hph & Hqh).
  { destruct query; [apply split_first_Some in Eq as [-> Hp]|apply split_first_None in Eq as [-> Hp]; done].
    rewrite contains_char_app, orb_false_iff in Hb. by destruct Hb. }
  unfold url_parts. assert (contains_char "#" (path +:+ String "?" (extended query code)) = false) as Hc
    by (rewrite contains_char_app, Hph; cbn; by apply extended_plain).
  assert (split_first "#" (match fragment with Some f => (path +:+ String "?" (extended query code)) +:+ "#" +:+ f
    | None => path +:+ String "?" (extended query code) end) = (path +:+ String "?" (extended query code), fragment)) as ->
    by (destruct fragment; [by apply split_first_Some|by apply split_first_None]).
  by rewrite (proj2 (split_first_Some "?" _ path (extended query code)) (conj eq_refl Hp)).
Qed.

(** A path of this site: one slash, and not two. *)
Definition local_path (s : string) : Prop := match s with
  | String a t => a = "/"%char /\ match t with String b _ => b <> "/"%char | "" => True end
  | "" => False
  end.

Lemma valid_local `{UrlJoin} s : is_valid_return_to s = true -> local_path s.
Proof.
  unfold is_valid_return_to. destruct (starts_with s "/") eqn:E1; [|done]. destruct (starts_with s "//") eqn:E2; [done|].
  intros _. apply starts_with_spec in E1 as (r & ->). split; [done|]. destruct r as [|b r]; [done|]. intros ->.
  apply not_true_iff_false in E2. destruct E2. apply starts_with_spec. by exists r.
Qed.

Lemma redirect_target_local path error : local_path path -> local_path (redirect_target path error).
Proof.
  intros Hp. destruct error as [code|]; [|done]. destruct path as [|a t]; [done|]. destruct Hp as [-> Ht].
  unfold redirect_target. destruct (split_first "#" _) as [before fragment] eqn:Eh.
  assert (exists p, before = String "/" p /\ match p with String b _ => b <> "/"%char | "" => True end) as (p & -> & Hp).
  { unfold split_first in Eh. cbn [split_once] in Eh. rewrite decide_False in Eh by done.
    destruct t as [|b t]; [by injection Eh as <- <-; exists ""|]. cbn [split_once] in Eh.
    case_decide; [by injection Eh as <- <-; exists ""|].
    destruct (split_once "#" t) as [[l r]|]; injection Eh as <- <-; eauto. }
  destruct (split_first "?" (String "/" p)) as [path query] eqn:Eq.
  assert (p = "" -> query = None) as Hnone by (intros ->; by injection Eq as <- <-).
  destruct p as [|b p]; [rewrite Hnone by done; by destruct fragment|].
  destruct (has_error query), fragment; done.
Qed.

(** ** What a callback requires *)

Section flows.
Context {N M K Alg C : Type} `{!OpenIdConnect N M} `{!JwtDecoder K Alg C} `{!UrlJoin}.
Context (c : OidcClient M).

#[local] Abbreviation secure := (secure_cookies c).
#[local] Abbreviation callback := (callback (K := K) (Alg := Alg) (C := C) c).
#[local] Abbreviation exchange_code := (exchange_code (K := K) (Alg := Alg) (C := C) c).

(** The answer starts a session. *)
Definition session_in (r : AuthReply) (token : string) : Prop :=
  exists ck, ck ∈ rp_cookies r /\ ck_name ck = AUTH_COOKIE /\ ck_value ck = token.

(** A request that finishes a login of the same browser, with the tokens that
    the provider answered to its code with. *)
Definition finishes_login (query : AuthCallbackQuery) (req : HttpRequest) (n : N) (token : string) : Prop :=
  exists csrf nonce verifier code refresh_token,
    q_error query = None /\ q_state query = Some csrf /\ q_code query = Some code /\
    cookie req "oidc_csrf" = Some csrf /\ cookie req "oidc_nonce" = Some nonce /\ cookie req "oidc_pkce" = Some verifier /\
    answered c (CodeGrant code verifier) n (token, refresh_token) /\
    accepted (K := K) (Alg := Alg) (C := C) c (Some nonce) token.

(** Where an answer may send the browser. *)
Definition stays_here (req : HttpRequest) (r : AuthReply) : Prop :=
  forall l, rp_location r = Some l -> local_path l /\ exists path, cookie req "oidc_return_to" = Some path /\
    (l = path \/ exists code, l = redirect_target path (Some code)).

Definition flow_cookies : list string := ["oidc_csrf"; "oidc_nonce"; "oidc_pkce"; "oidc_return_to"].

(** Every outcome drops the cookies of the flow and keeps the browser here. *)
Definition flow_closed (req : HttpRequest) (r : AuthReply) : Prop :=
  (forall name, name ∈ flow_cookies -> clear_cookie name secure ∈ rp_cookies r) /\ stays_here req r.

Definition return_path (req : HttpRequest) : option string :=
  v ← cookie req "oidc_return_to"; if is_valid_return_to v then Some v else None.

Lemma return_path_local req path : return_path req = Some path -> cookie req "oidc_return_to" = Some path /\ local_path path.
Proof.
  unfold return_path. destruct (cookie req "oidc_return_to") as [v|]; cbn; [|done].
  destruct (is_valid_return_to v) eqn:E; [|done]. intros [= ->]. split; [done|by apply valid_local].
Qed.

Lemma cleared_flow name : name ∈ flow_cookies -> clear_cookie name secure ∈ clear_auth_flow_cookies secure.
Proof. unfold flow_cookies, clear_auth_flow_cookies. set_solver. Qed.

Lemma failure_closed status message code req :
  flow_closed req (callback_failure status message code (return_path req) secure) /\
  forall token, session_in (callback_failure status message code (return_path req) secure) token -> False.
Proof.
  unfold callback_failure. split.
  - split; [intros name Hn; destruct (return_path req); by apply cleared_flow|].
    intros l. destruct (return_path req) as [path|] eqn:Ep; [|done]. cbn [rp_location].
    generalize (redirect_target_local path (Some code)). set (target := redirect_target path (Some code)). intros Hlocal [= <-].
    apply return_path_local in Ep as [Hp Hl]. split; [by apply Hlocal|eauto].
  - intros token (ck & Hck & Hn & _).
    assert (ck ∈ clear_auth_flow_cookies secure) as Hin by (by destruct (return_path req)).
    unfold clear_auth_flow_cookies in Hin. revert Hn. set_solver.
Qed.

Lemma signed_in_closed token refresh req : flow_closed req (signed_in c (return_path req) token refresh) /\
  forall token', session_in (signed_in c (return_path req) token refresh) token' -> token' = token.
Proof.
  assert (rp_cookies (signed_in c (return_path req) token refresh) = clear_auth_flow_cookies secure ++ [auth_cookie secure token] ++
    match refresh with Some rt => [refresh_cookie secure rt] | None => [] end) as Hc by (by destruct (return_path req)).
  unfold flow_closed, session_in. rewrite Hc. split; [split|].
  - intros name Hn. apply elem_of_app. left. by apply cleared_flow.
  - intros l. destruct (return_path req) as [path|] eqn:Ep; [|done]. intros [= <-].
    apply return_path_local in Ep as [Hp Hl]. eauto.
  - intros token' (ck & Hck & Hn & <-). unfold clear_auth_flow_cookies in Hck.
    revert Hn. destruct refresh; set_solver.
Qed.

(** C15: a callback gives a session only to the browser that started the login:
    the state that the provider sent back is the one in the browser's cookie,
    and the tokens are those that the provider answered with to the code and
    the browser's verifier, bound to the browser's nonce.  Whatever happens the
    four cookies of the flow are cleared, and a redirect stays on this site, on
    the return path that the browser kept. *)
Theorem callback_safe query req n :
  wp (run (callback query req)) (fun r _ => flow_closed req r /\
    forall token, session_in r token -> finishes_login query req n token) n.
Proof.
  unfold OidcRoute.callback. fold (return_path req).
  assert (forall status message code, wp (run (Ret (callback_failure status message code (return_path req) secure)))
    (fun r _ => flow_closed req r /\ forall token, session_in r token -> finishes_login query req n token) n) as Hfail.
  { intros status message code. destruct (failure_closed status message code req) as [Hc Hs].
    apply wp_ret. split; [done|]. intros token Ht. by destruct (Hs token Ht). }
  destruct (q_error query) as [e|] eqn:Ee; [case_bool_decide; apply Hfail|].
  destruct (cookie req "oidc_csrf") as [csrf|] eqn:E1; [|apply Hfail].
  destruct (cookie req "oidc_nonce") as [nonce|] eqn:E2; [|apply Hfail].
  destruct (cookie req "oidc_pkce") as [pkce|] eqn:E3; [|apply Hfail].
  destruct (q_code query) as [code|] eqn:E4; [|apply Hfail].
  destruct (q_state query) as [state|] eqn:E5; [|apply Hfail].
  case_bool_decide as Hst; [apply Hfail|]. subst state.
  apply wp_run_bind. eapply wp_mono; [apply wp_exchange|]. intros [[token rt]|e] n1 Hx.
  - apply wp_ret. destruct (signed_in_closed token rt req) as [Hc Hs]. split; [done|]. intros token' Ht.
    rewrite (Hs _ Ht). destruct (Hx _ eq_refl) as [Ha Hv]. exists csrf, nonce, pkce, code, rt. done.
  - apply wp_ret. unfold exchange_failed.
    destruct e; edestruct failure_closed as [Hc Hs]; (split; [exact Hc|]); intros token Ht; by destruct (Hs token Ht).
Qed.

(** ** A whole login *)

(** A browser stores the cookies of an answer and sends them back. *)
Definition store_cookie (jar : string -> option string) (ck : Cookie) : string -> option string := fun name =>
  if bool_decide (name = ck_name ck) then if bool_decide (ck_max_age ck <= 0)%Z then None else Some (ck_value ck) else jar name.

Definition browse (jar : string -> option string) (cookies : list Cookie) : HttpRequest :=
  {| header_str := fun _ => None; cookie := foldl store_cookie jar cookies |}.

(** What the callback of a login comes to. *)
Definition login_outcome (return_to : option string) (code nonce verifier : string) : act N AuthReply := fun n =>
  match run (exchange_code code nonce verifier) n with
  | (Ok (token, refresh), n') => (signed_in c return_to token refresh, n')
  | (Err e, n') => (exchange_failed c e return_to, n')
  end.

(** The cookies of a login. *)
Definition login_cookies (return_to : option string) (au : AuthUrlResponse) : list Cookie :=
  let flow name value := base_cookie secure name value (minutes 5) in
  [flow "oidc_csrf" (au_csrf_token au); flow "oidc_nonce" (au_nonce au); flow "oidc_pkce" (au_pkce_verifier au)] ++
  match return_to with Some r => [flow "oidc_return_to" r] | None => [] end.

Lemma browse_login jar return_to au :
  (forall r, return_to = Some r -> is_valid_return_to r = true) -> (return_to = None -> jar "oidc_return_to" = None) ->
  let req := browse jar (login_cookies return_to au) in
  cookie req "oidc_csrf" = Some (au_csrf_token au) /\ cookie req "oidc_nonce" = Some (au_nonce au) /\
  cookie req "oidc_pkce" = Some (au_pkce_verifier au) /\ return_path req = return_to.
Proof.
  intros Hvalid Hnone req. split_and!; try by destruct return_to.
  assert (cookie req "oidc_return_to" = return_to) as Hr by (destruct return_to; [done|by apply Hnone]).
  unfold return_path. rewrite Hr. destruct return_to as [r|]; [|done].
  unfold mbind, option_bind. by rewrite (Hvalid r eq_refl).
Qed.

(** Clearing the flow's cookies clears them, whatever is set after them. *)
Lemma browse_cleared jar r name : name ∈ flow_cookies ->
  (exists more, rp_cookies r = clear_auth_flow_cookies secure ++ more /\ Forall (fun ck => ck_name ck ∉ flow_cookies) more) ->
  cookie (browse jar (rp_cookies r)) name = None.
Proof.
  intros Hn (more & -> & Hmore). cbn [cookie browse]. rewrite foldl_app.
  assert (foldl store_cookie jar (clear_auth_flow_cookies secure) name = None) as Hc.
  { unfold flow_cookies in Hn. rewrite !elem_of_cons, elem_of_nil in Hn. by destruct Hn as [->|[->|[->|[->|[]]]]]. }
  revert Hc. generalize (foldl store_cookie jar (clear_auth_flow_cookies secure)).
  induction Hmore as [|ck more Hck _ IH]; intros jar' Hj; [done|]. apply IH. unfold store_cookie.
  rewrite bool_decide_false; [done|]. by intros ->.
Qed.

Lemma signed_in_cookies return_to token refresh : exists more,
  rp_cookies (signed_in c return_to token refresh) = clear_auth_flow_cookies secure ++ more /\
  Forall (fun ck => ck_name ck ∉ flow_cookies) more.
Proof.
  exists ([auth_cookie secure token] ++ match refresh with Some rt => [refresh_cookie secure rt] | None => [] end).
  split; [by destruct return_to|]. assert ("auth_token" ∉ flow_cookies) by (unfold flow_cookies; set_solver).
  assert ("refresh_token" ∉ flow_cookies) by (unfold flow_cookies; set_solver). destruct refresh; by repeat constructor.
Qed.

Lemma failed_cookies e return_to : exists more,
  rp_cookies (exchange_failed c e return_to) = clear_auth_flow_cookies secure ++ more /\
  Forall (fun ck => ck_name ck ∉ flow_cookies) more.
Proof. exists []. split; [|done]. by destruct e, return_to. Qed.

Lemma wp_get_auth_url n : wp (run (get_auth_url c)) (fun au _ =>
  au_url au = authorize_url (oc_metadata c) (oc_client_id c) (oc_redirect_url c) ["openid"; "offline_access"]
    (au_csrf_token au) (au_nonce au) (au_pkce_verifier au)) n.
Proof.
  unfold get_auth_url. do 3 (apply wp_run_bind, wp_run_atomically, wp_intro; intros ? ? _). by apply wp_ret.
Qed.

(** C26: a login round trip: a browser that follows the redirect of the login and
    comes back with a code and the state of that redirect has its code
    exchanged with the nonce and the verifier of the same login, and lands on
    the page that the login was asked to return to; no secret of the flow is
    left in its cookies. *)
Theorem login_round_trip jar return_to n code :
  (forall r, return_to = Some r -> is_valid_return_to r = true) -> (return_to = None -> jar "oidc_return_to" = None) ->
  exists csrf nonce verifier,
    wp (run (login c {| lq_return_to := return_to |})) (fun reply n1 =>
      rp_status reply = 302%Z /\
      rp_location reply = Some (authorize_url (oc_metadata c) (oc_client_id c) (oc_redirect_url c)
                                  ["openid"; "offline_access"] csrf nonce verifier) /\
      let query := {| q_code := Some code; q_state := Some csrf; q_error := None |} in
      forall n2, wp (run (callback query (browse jar (rp_cookies reply)))) (fun r n3 =>
        (r, n3) = login_outcome return_to code nonce verifier n2 /\
        forall name, name ∈ flow_cookies -> cookie (browse (cookie (browse jar (rp_cookies reply))) (rp_cookies r)) name = None) n2) n.
Proof.
  intros Hvalid Hnone. pose proof (wp_get_auth_url n) as Hurl. unfold wp in Hurl.
  destruct (run (get_auth_url c) n) as [au n1] eqn:Hau. exists (au_csrf_token au), (au_nonce au), (au_pkce_verifier au).
  unfold login. cbn [lq_return_to].
  assert (match return_to with Some r => negb (is_valid_return_to r) | None => false end = false) as ->
    by (destruct return_to as [r|]; [by rewrite (Hvalid r eq_refl)|done]).
  apply wp_run_bind. unfold wp at 1. rewrite Hau. apply wp_ret. cbn [rp_status rp_location rp_cookies]. split; [done|].
  split; [by rewrite Hurl|]. cbv zeta. intros n2. fold (login_cookies return_to au).
  destruct (browse_login jar return_to au Hvalid Hnone) as (H1 & H2 & H3 & Hr). revert H1 H2 H3 Hr.
  generalize (browse jar (login_cookies return_to au)). intros req H1 H2 H3 Hr.
  unfold OidcRoute.callback. fold (return_path req). cbn [q_error q_code q_state]. rewrite Hr, H1, H2, H3.
  rewrite bool_decide_false by (intros Hne; by apply Hne).
  apply wp_run_bind. unfold wp at 1, login_outcome.
  destruct (run (exchange_code _ _ _) n2) as [[[token rt]|e] n3]; apply wp_ret; (split; [done|]); intros name Hn;
    (apply browse_cleared; [done|]); [apply signed_in_cookies|apply failed_cookies].
Qed.
End flows.

(** ** Behind the token middleware *)

(** The answer carries a session, not the clearing of one. *)
Definition starts_session (r : AuthReply) : bool :=
  existsb (fun ck => bool_decide (ck_name ck = AUTH_COOKIE) && negb (bool_decide (ck_value ck = ""))) (rp_cookies r).

(** Neither the name nor the value confuses the header. *)
Definition plain_cookie (ck : Cookie) : Prop :=
  contains_char "=" (ck_name ck) = false /\ contains_char ";" (ck_value ck) = false.

Lemma sets_session_text `{CookieText} ck : plain_cookie ck ->
  sets_session (cookie_text ck) = bool_decide (ck_name ck = AUTH_COOKIE) && negb (bool_decide (ck_value ck = "")).
Proof.
  intros [Hn Hv]. destruct (cookie_text_spec ck) as (attrs & ->). unfold sets_session.
  case_bool_decide as Hname; cbn [andb].
  - rewrite Hname. change ("=" +:+ ck_value ck +:+ ";" +:+ attrs) with (String "=" (ck_value ck +:+ String ";" attrs)).
    rewrite (proj2 (starts_with_spec _ _)) by (by eexists). cbn [andb]. f_equal.
    apply eq_bool_prop_intro. rewrite bool_decide_spec, Is_true_true, starts_with_spec. split.
    + intros (r & Hr). destruct (ck_value ck) as [|a v]; [done|]. cbn in Hr. injection Hr as -> _. by cbn in Hv.
    + intros ->. by exists attrs.
  - destruct (starts_with _ (AUTH_COOKIE +:+ "=")) eqn:E; [|done]. exfalso. apply Hname.
    apply starts_with_spec in E as (r & Hr). assert (contains_char "=" AUTH_COOKIE = false) as Ha by done.
    pose proof (split_once_app "=" _ (ck_value ck +:+ ";" +:+ attrs) Hn) as H1.
    change (ck_name ck +:+ String "=" (ck_value ck +:+ ";" +:+ attrs)) with (ck_name ck +:+ "=" +:+ ck_value ck +:+ ";" +:+ attrs) in H1.
    rewrite Hr, app_assoc in H1. change ("=" +:+ r) with (String "=" r) in H1. rewrite (split_once_app "=" AUTH_COOKIE r Ha) in H1. by injection H1.
Qed.

Lemma starts_session_spec `{CookieText} r : Forall plain_cookie (rp_cookies r) ->
  handler_set_session (resp_headers (to_http r)) = starts_session r.
Proof.
  intros Hp. unfold handler_set_session, starts_session, to_http. cbn [resp_headers]. rewrite existsb_app.
  assert (existsb (fun h : string * string => bool_decide (h.1 = "set-cookie") && sets_session h.2)
    (match rp_location r with Some l => [("location", l)] | None => [] end) = false) as -> by (by destruct (rp_location r)).
  rewrite orb_false_r. induction Hp as [|ck l Hck _ IH]; [done|]. cbn. rewrite (sets_session_text ck Hck). by rewrite IH.
Qed.

Section scope.
Context {J K Alg N M C : Type} `{!JwkLib J K Alg} `{!JwtDecoder K Alg C} `{!OpenIdConnect N M} `{!CookieText}.
Context (download : act N (result (list J) string)) (m : JwtClaimsMiddleware (Alg := Alg)) (wall : act (jwks_state K Alg N) Z).

(** An expired session does not stand in the way of a new one.  For every
    public handler of the scope, a request whose session cookie has expired is
    served as an anonymous one; the dead cookie is cleared on the answer
    exactly when the answer does not itself carry a new session, so the cookie
    that a callback or a refresh has just set survives the middleware. *)
Theorem login_outlives_stale_session req token failure (handler : prog N AuthReply) (w : jwks_state K Alg N) :
  cookie req AUTH_COOKIE = Some token ->
  (run (claims_of (C := C) download m token wall) w).1 = Err (failure, false) ->
  let '(reply, n') := run handler (jw_net (run (claims_of (C := C) download m token wall) w).2) in
  Forall plain_cookie (rp_cookies reply) ->
  wp (run (jwt_call (C := C) download m None req wall (public_service handler))) (fun r w' => jw_net w' = n' /\ r = Ok
    (if starts_session reply then to_http reply
     else map_headers (append_header ("set-cookie", CLEAR_SESSION)) (to_http reply))) w.
Proof.
  intros Ht Hc. destruct (run handler _) as [reply n'] eqn:Er. intros Hp.
  eapply wp_jwt_stale; [unfold chosen_token; exact Ht|exact Hc|]. unfold public_service. apply wp_run_bind, wp_zoom_prog.
  unfold wp at 1. cbn [view net_of_jwks]. rewrite Er. apply wp_ret. split; [done|].
  rewrite (starts_session_spec reply Hp), bool_decide_true by done. cbn [andb]. by destruct (starts_session reply).
Qed.
End scope.

(** ** Evaluated *)

Module OidcExamples.
Import AuthExamples.
#[local] Existing Instances jwk_lib jwt_decoder.

(** The network: how many random texts were drawn, and what the key endpoint
    will answer. *)
#[local] Abbreviation net := (nat * list (list published))%type.

Definition provider : OpenIdConnect net unit := {|
  http_client := Ok tt;
  http_get _ n := (Ok "{}", n);
  json_members _ := Ok (fun name => if bool_decide (name = "issuer") then Some "https://idp/{tenantid}/v2" else None);
  parse_metadata _ := Ok tt;
  fetch_jwks _ n := (Ok tt, n);
  revocation_url _ := Ok tt;
  redirect_url _ := Ok tt;
  new_random n := ("random" +:+ show_N (N.of_nat n.1), (S n.1, n.2));
  authorize_url _ id _ _ csrf nonce verifier := "https://idp/authorize?state=" +:+ csrf;
  token_endpoint _ := Ok tt;
  request_token _ _ _ r n :=
    (match r with
     | CodeGrant code _ => if bool_decide (code = "c0de")
                           then Ok {| tr_id_token := Some "k1.ann/acme/new.one"; tr_refresh_token := Some "again" |}
                           else Err "invalid_grant"
     | RefreshGrant _ => Ok {| tr_id_token := Some "k1.ann/acme/new.one"; tr_refresh_token := None |}
     end, n);
  verify_id_token _ _ _ _ raw n := (if bool_decide (raw = "k1.ann/acme/new.one") then Ok tt else Err "signature", n);
  post_revocation _ n := (Ok 200%Z, n);
  url_scheme u := fst <$> split_once ":" u;
  debug_str s := s;
  status_text s := u64_text s;
|}.

Definition joins : UrlJoin := {| url_join _ _ := Some ("http", Some "localhost") |}.

Definition cookies : CookieText.
Proof.
  refine {| cookie_text ck := ck_name ck +:+ "=" +:+ ck_value ck +:+ ";" +:+ " Path=/" |}. intros ck. by exists " Path=/".
Defined.
#[local] Existing Instances provider joins cookies.

Definition client : OidcClient unit :=
  {| oc_metadata := tt; oc_client_id := "app"; oc_client_secret := "s"; oc_revocation := None;
     oc_issuer := "https://idp/{tenantid}/v2"; oc_issuer_template := parse_template "https://idp/{tenantid}/v2" ["acme"];
     oc_redirect_url := "https://api/auth/callback"; oc_allowed_tenants := ["acme"] |}.

Lemma redirect_target_exact_witness :
  let r := "/files?page=2&#top" in
  plain_code "invalid_state" /\
  redirect_target r (Some "invalid_state") = "/files?page=2&error=invalid_state#top" /\
  exists q, url_parts (redirect_target r (Some "invalid_state")) = ("/files", Some q, Some "top") /\
    params q = ["page=2"; "error=invalid_state"].
Proof.
  assert (plain_code "invalid_state") as Hc by (vm_compute; split; reflexivity).
  split; [exact Hc|]. split; [vm_compute; reflexivity|].
  apply (redirect_target_exact "/files?page=2&#top" "invalid_state" "/files" (Some "page=2&") (Some "top"));
    [vm_compute; reflexivity|exact Hc|vm_compute; reflexivity].
Defined.

(** A return path that ends in an ampersand, or whose query ends in a question
    mark, loses its error: the code becomes part of the path, or of the last
    parameter's name. *)
Lemma redirect_target_loses_error :
  url_parts (redirect_target "/a&" (Some "invalid_state")) = ("/a&error=invalid_state", None, None) /\
  url_parts (redirect_target "/a?b?" (Some "invalid_state")) = ("/a", Some "b?error=invalid_state", None).
Proof. split; vm_compute; reflexivity. Qed.

Lemma gate_agrees_witness :
  exists t iss, oc_issuer_template client = Some t /\ client_ok client /\
    extract_unverified_claim (K := string) (Alg := string) (C := string) "k1.ann/acme/new.one" "iss" = Some iss /\
    expected_issuers (K := string) (C := string) (scope_middleware (J := published) (K := string) client) "k1.ann/acme/new.one" = Ok (Some [iss]).
Proof.
  destruct (oc_issuer_template client) as [t|] eqn:Et; [|vm_compute in Et; discriminate Et].
  assert (client_ok client) as Hok by (split; [vm_compute; reflexivity|intros _; discriminate]).
  destruct (proj1 (gate_agrees (K := string) (Alg := string) (C := string) client t "k1.ann/acme/new.one" Et Hok)) as (iss & H1 & H2).
  - vm_compute in Et. injection Et as <-. vm_compute. reflexivity.
  - exists t, iss. split; [reflexivity|]. split; [exact Hok|]. split; [exact H1|exact H2].
Defined.

Lemma login_round_trip_witness :
  exists csrf nonce verifier,
    wp (run (login client {| lq_return_to := Some "/files" |})) (fun reply n1 =>
      rp_location reply = Some (authorize_url tt "app" "https://api/auth/callback" ["openid"; "offline_access"] csrf nonce verifier)) (0, []).
Proof.
  destruct (login_round_trip (K := string) (Alg := string) (C := string) client (fun _ => None) (Some "/files") (0, []) "c0de") as (csrf & nonce & verifier & Hw).
  - intros r [= <-]. vm_compute. reflexivity.
  - intros [=].
  - exists csrf, nonce, verifier. eapply wp_mono; [exact Hw|]. intros reply n1 (_ & Hl & _). exact Hl.
Defined.

(** An expired session, and a callback that starts a new one. *)
Definition stale_flow : HttpRequest := {| header_str := fun _ => None; cookie := fun n =>
  if bool_decide (n = AUTH_COOKIE) then Some "k1.ann/acme/old.one"
  else if bool_decide (n ∈ ["oidc_csrf"; "oidc_nonce"; "oidc_pkce"]) then Some "x" else None |}.

Definition cached : jwks_state string string net :=
  Jwks {["k1" := {| sk_key := "one"; sk_alg := "RS256" |}]} 0%Z (at_sec 60) (0, []).

Definition no_download : act net (result (list published) string) := fun n => (Err "offline", n).
Definition epoch : act (jwks_state string string net) Z := fun w => (0%Z, w).

Definition finish : prog net AuthReply :=
  callback (K := string) (Alg := string) (C := string) client {| q_code := Some "c0de"; q_state := Some "x"; q_error := None |} stale_flow.

Lemma login_outlives_stale_session_witness :
  wp (run (jwt_call (C := string) no_download multi_tenant None stale_flow epoch (public_service finish)))
    (fun r _ => exists reply, starts_session reply = true /\ r = Ok (to_http reply)) cached.
Proof.
  pose proof (login_outlives_stale_session (C := string) no_download multi_tenant epoch stale_flow "k1.ann/acme/old.one"
    "token failed validation: ExpiredSignature" finish cached ltac:(vm_compute; reflexivity) ltac:(vm_compute; reflexivity)) as H.
  assert (run finish (jw_net (run (claims_of (C := string) no_download multi_tenant "k1.ann/acme/old.one" epoch) cached).2) =
    (signed_in client None "k1.ann/acme/new.one" (Some "again"), (0, []))) as Hr by (vm_compute; reflexivity).
  rewrite Hr in H. eapply wp_mono; [apply H|].
  - repeat constructor.
  - intros r w' [_ ->]. exists (signed_in client None "k1.ann/acme/new.one" (Some "again")). split; vm_compute; reflexivity.
Defined.
End OidcExamples.
