(* ===== verification/FsStore.v ===== *)
(** FsStore: the metadata rows of the file store ([src/src/fs/store.rs]): upload
    sessions, multipart records, staged parts, file records, and the relations
    between rows and files with their reference counts.

    A block under a guard of the store's lock is one atomic action. *)
From S2P Require Import Prelude.
From S2P Require Import Effects.
From S2P Require Import RustStr.
From S2P Require Import Kv.
From S2P Require Import FsTypes.

(** The read-only mirror of a store: a view of another crate's cache, which
    shares the store's state. *)
Record Mirror (S : Type) := {
  mirror_get : string -> act S (result (option bytes) StoreError);
  mirror_scan : option string -> option string -> act S (result (list kv_pair) StoreError);
  mirror_refresh : act S (result nat StoreError);
}.
Arguments mirror_get {S} m.
Arguments mirror_scan {S} m.
Arguments mirror_refresh {S} m.

(** The fields of an [FsStore] that do not change. *)
Record FsConfig (S : Type) := { mirror : option (Mirror S); primary : bool }.
Arguments mirror {S} f.
Arguments primary {S} f.

(** What its calls change: the store, the process latch, the clock. *)
Record fs_state (S : Type) := FsState { kv : S; latch : Latch; fs_clk : clock }.
Arguments FsState {S} kv latch fs_clk.
Arguments kv {S} f.
Arguments latch {S} f.
Arguments fs_clk {S} f.

#[export] Instance kv_lens {S} : Lens S (fs_state S) :=
  {| view := kv; upd s w := FsState s (latch w) (fs_clk w) |}.
#[export] Instance latch_lens {S} : Lens Latch (fs_state S) :=
  {| view := latch; upd l w := FsState (kv w) l (fs_clk w) |}.
#[export] Instance fs_clk_lens {S} : Lens clock (fs_state S) :=
  {| view := fs_clk; upd c w := FsState (kv w) (latch w) c |}.

(** Every row of a listing that decoded, and the keys that did not. *)
Record RecordScan (A : Type) := { rs_records : list A; rs_undecodable : list string }.
Arguments Build_RecordScan {A} _ _.
Arguments rs_records {A} r.
Arguments rs_undecodable {A} r.

Section store.
Context {S T : Type} `{!KvStore S T} `{!StoreText}.
Context `{!Serde UploadSession} `{!Serde PersistedMultipart} `{!Serde FileRecord} `{!Serde RefInfo}.
Variable cfg : FsConfig S.

#[local] Abbreviation action := (act (fs_state S)).
#[local] Abbreviation task := (prog (fs_state S)).

(** ** Errors *)

Definition FS_PREFIX : string := "{db}/fs".

Definition latches (e : FsError) : bool := primary cfg && is_fencing_loss e.

Definition store_err (e : StoreError) : action FsError :=
  let err := fs_of_store e in
  _ ← (if latches err then zoom (trip FS_PREFIX (detail err)) else mret tt);
  mret err.

(** A store call whose failure goes through [store_err]. *)
Definition on_store {A} (m : act S (result A StoreError)) : action (result A FsError) :=
  r ← zoom m;
  match r with
  | Ok a => mret (Ok a)
  | Err e => err ← store_err e; mret (Err err)
  end.

(** A store call whose failure is only converted. *)
Definition plain {A} (m : act S (result A StoreError)) : action (result A FsError) :=
  map_errM fs_of_store (zoom m).

Definition encode {A} `{!Serde A} (a : A) : result bytes FsError := map_err FsInternal (to_vec a).
Definition decode {A} `{!Serde A} (b : bytes) : result A FsError := map_err FsInternal (from_slice b).

(** ** Reads *)

Definition refresh_mirror : action (result nat FsError) :=
  match mirror cfg with
  | None => mret (Ok 0)
  | Some m => plain (mirror_refresh m)
  end.

Definition get_one (key : string) : action (result (option bytes) FsError) :=
  match mirror cfg with
  | Some m => plain (mirror_get m key)
  | None => plain (kv_get key)
  end.

Definition scan_prefix (prefix : string) : action (result (list kv_pair) FsError) :=
  match mirror cfg with
  | Some m => plain (mirror_scan m (Some prefix) (Some (prefix_scan_end prefix)))
  | None => plain (kv_scan None (Some prefix) (Some (prefix_scan_end prefix)))
  end.

(** Reads a row and decodes it. *)
Definition get_row {A} `{!Serde A} (key : string) : action (result (option A) FsError) :=
  b <-? get_one key;
  match b with
  | None => mret (Ok None)
  | Some b => mret (match decode b with Ok a => Ok (Some a) | Err e => Err e end)
  end.

(** Encodes a row and writes it. *)
Definition put_row {A} `{!Serde A} (key : string) (a : A) : action (result unit FsError) :=
  v <-? mret (encode a);
  on_store (kv_set key v).

(** ** Sessions, multipart records and staged parts *)

Definition save_session (s : UploadSession) : action (result unit FsError) :=
  put_row (session_key (us_id s)) s.

Definition get_session (id : string) : action (result (option UploadSession) FsError) :=
  get_row (session_key id).

Fixpoint tx_deletes (t : T) (keys : list string) : action (result T FsError) :=
  match keys with
  | [] => mret (Ok t)
  | k :: keys => t <-? on_store (tx_delete t k); tx_deletes t keys
  end.

Definition staged_keys (id : string) (parts : Z) : list string :=
  (fun i => staged_key id (Z.of_nat i)) <$> seq 0 (Z.to_nat parts).

(** The rows that go with a session: its staged parts, its multipart record and
    the session row itself, in one transaction. *)
Definition delete_session (id : string) : task (result unit FsError) :=
  session <-? atomically (get_session id);
  atomically (
    t <-? on_store kv_begin;
    t <-? tx_deletes t (match session with
                        | Some s =>
                            staged_keys id (us_file_total_parts s) ++
                            match us_s3_upload_id s with
                            | Some upload_id => [multipart_key upload_id]
                            | None => []
                            end
                        | None => []
                        end);
    t <-? on_store (tx_delete t (session_key id));
    on_store (tx_commit t)).

Definition save_multipart (m : PersistedMultipart) : action (result unit FsError) :=
  put_row (multipart_key (pm_upload_id m)) m.

Definition load_multipart (upload_id : string) : action (result (option PersistedMultipart) FsError) :=
  get_row (multipart_key upload_id).

Definition delete_multipart (upload_id : string) : action (result unit FsError) :=
  on_store (kv_delete (multipart_key upload_id)).

Definition save_staged_part (id : string) (idx : Z) (data : bytes) : action (result unit FsError) :=
  on_store (kv_set (staged_key id idx) data).

Definition get_staged_part (id : string) (idx : Z) : action (result (option bytes) FsError) :=
  get_one (staged_key id idx).

(** ** File records *)

Definition save_file (rec : FileRecord) : action (result unit FsError) :=
  put_row (file_key (fr_id rec)) rec.

Definition get_file (id : string) : action (result (option FileRecord) FsError) :=
  get_row (file_key id).

(** The relations of a file, among the keys of a listing. *)
Definition rels_of (file_id : string) (kvs : list kv_pair) : list string :=
  List.filter (fun k => starts_with k REL_PREFIX && ends_with k (":" +:+ file_id)) kvs.*1.

Definition delete_file (id : string) : action (result unit FsError) :=
  t <-? on_store kv_begin;
  kvs <-? on_store (tx_scan t None (Some REL_PREFIX) (Some (prefix_scan_end REL_PREFIX)));
  t <-? tx_deletes t (rels_of id kvs);
  t <-? on_store (tx_delete t (file_key id));
  t <-? on_store (tx_delete t (refs_key id));
  on_store (tx_commit t).

(** ** Relations and reference counts *)

Definition get_ref_info (file_id : string) : action (result RefInfo FsError) :=
  b <-? get_one (refs_key file_id);
  match b with
  | None => mret (Ok default_ref_info)
  | Some b => mret (decode b)
  end.

Definition read_ref_info (t : T) (file_id : string) : action (result RefInfo FsError) :=
  b <-? on_store (tx_get t (refs_key file_id));
  match b with
  | None => mret (Ok default_ref_info)
  | Some b => mret (decode b)
  end.

Definition attach (row_type row_id file_id : string) : action (result Z FsError) :=
  let rel := rel_key row_type row_id file_id in
  let refs := refs_key file_id in
  t <-? on_store kv_begin;
  there <-? on_store (tx_get t rel);
  match there with
  | Some _ =>
      info <-? read_ref_info t file_id;
      _ <-? on_store (tx_rollback t);
      mret (Ok (count info))
  | None =>
      info <-? read_ref_info t file_id;
      let info := {| count := u32_saturating_add (count info) 1; orphan_since := None |} in
      t <-? on_store (tx_set t rel "1");
      v <-? mret (encode info);
      t <-? on_store (tx_set t refs v);
      _ <-? on_store (tx_commit t);
      mret (Ok (count info))
  end.

Definition detach (row_type row_id file_id : string) : action (result Z FsError) :=
  let rel := rel_key row_type row_id file_id in
  let refs := refs_key file_id in
  t <-? on_store kv_begin;
  there <-? on_store (tx_get t rel);
  match there with
  | None =>
      info <-? read_ref_info t file_id;
      _ <-? on_store (tx_rollback t);
      mret (Ok (count info))
  | Some _ =>
      info <-? read_ref_info t file_id;
      t <-? on_store (tx_delete t rel);
      let n := u32_saturating_sub (count info) 1 in
      since ← (if bool_decide (n = 0%Z) then now ← zoom tick; mret (Some now)
               else mret (orphan_since info));
      let info := {| count := n; orphan_since := since |} in
      v <-? mret (encode info);
      t <-? on_store (tx_set t refs v);
      _ <-? on_store (tx_commit t);
      mret (Ok (count info))
  end.

(** The rows named by the relations of a file. *)
Definition rows_in (file_id : string) (kvs : list kv_pair) : list (string * string) :=
  omap (fun kv =>
    if starts_with kv.1 REL_PREFIX && ends_with kv.1 (":" +:+ file_id) then
      rest ← strip_prefix REL_PREFIX kv.1;
      '(ty, rem) ← split_once ":" rest;
      '(rid, _) ← split_once ":" rem;
      Some (ty, rid)
    else None) kvs.

Definition rows_for_file (file_id : string) : action (result (list (string * string)) FsError) :=
  kvs <-? scan_prefix REL_PREFIX;
  mret (Ok (rows_in file_id kvs)).

(** [Vec::sort] and [Vec::dedup] on strings. *)
Definition str_le (a b : string) : bool := bool_decide (String.le a b).

Fixpoint dedup (l : list string) : list string :=
  match l with
  | a :: ((b :: _) as l') => if bool_decide (a = b) then dedup l' else a :: dedup l'
  | _ => l
  end.

Definition files_in (prefix : string) (kvs : list kv_pair) : list string :=
  omap (fun kv =>
    file_id ← strip_prefix prefix kv.1;
    if bool_decide (file_id = "") || contains_char ":" file_id then None else Some file_id) kvs.

Definition files_for_row (row_type row_id : string) : action (result (list string) FsError) :=
  let prefix := rel_prefix_for_row row_type row_id in
  kvs <-? scan_prefix prefix;
  mret (Ok (dedup (sort_by str_le (files_in prefix kvs)))).

(** ** Listings *)

Fixpoint scan_records {A} `{!Serde A} (prefix suffix : string) (kvs : list kv_pair) : RecordScan A :=
  match kvs with
  | [] => Build_RecordScan [] []
  | (k, v) :: kvs =>
      let rest := scan_records prefix suffix kvs in
      if negb (starts_with k prefix) || negb (ends_with k suffix) then rest else
      match from_slice v with
      | Ok a => Build_RecordScan (a :: rs_records rest) (rs_undecodable rest)
      | Err _ => Build_RecordScan (rs_records rest) (k :: rs_undecodable rest)
      end
  end.

Definition list_files : action (result (RecordScan FileRecord) FsError) :=
  kvs <-? scan_prefix FILES_PREFIX;
  mret (Ok (scan_records FILES_PREFIX FILE_META_SUFFIX kvs)).

Definition list_sessions : action (result (RecordScan UploadSession) FsError) :=
  kvs <-? scan_prefix "fs:uploads:";
  mret (Ok (scan_records "fs:uploads:" ":meta" kvs)).
End store.

(** ** The records of a listing *)

Lemma scan_records_in {A} `{!Serde A} prefix suffix kvs (a : A) :
  a ∈ rs_records (scan_records prefix suffix kvs) ->
  exists k v, (k, v) ∈ kvs /\ starts_with k prefix = true /\ ends_with k suffix = true /\ from_slice v = Ok a.
Proof.
  induction kvs as [|[k v] kvs IH]; cbn [scan_records]; [by intros ?%not_elem_of_nil|].
  assert (a ∈ rs_records (scan_records prefix suffix kvs) -> exists k0 v0, (k0, v0) ∈ (k, v) :: kvs /\
    starts_with k0 prefix = true /\ ends_with k0 suffix = true /\ from_slice v0 = Ok a) as Hrest.
  { intros Ha. destruct (IH Ha) as (k' & v' & Hin & Hv). exists k', v'. split; [by right|done]. }
  destruct (starts_with k prefix) eqn:Ep, (ends_with k suffix) eqn:Es; cbn [negb orb]; try done.
  destruct (from_slice v) as [a'|e] eqn:Ev; cbn; [|done].
  intros [->|Ha]%elem_of_cons; [|by apply Hrest]. exists k, v. split; [by left|done].
Qed.

Lemma scan_records_has {A} `{!Serde A} prefix suffix kvs k v (a : A) :
  (k, v) ∈ kvs -> starts_with k prefix = true -> ends_with k suffix = true -> from_slice v = Ok a ->
  a ∈ rs_records (scan_records prefix suffix kvs).
Proof.
  intros Hin Hp Hs Hv. induction kvs as [|[k' v'] kvs IH]; [by apply not_elem_of_nil in Hin|].
  cbn [scan_records]. apply elem_of_cons in Hin as [[= <- <-]|Hin].
  - rewrite Hp, Hs, Hv. by left.
  - specialize (IH Hin). case_match; [done|]. by destruct (from_slice v'); [right|].
Qed.
