(* ===== verification/FsRels.v ===== *)
(** FsRels: the relations between rows and files ([src/src/fs/store.rs],
    [src/src/fs/relation.rs]).  On a store that answers, the reference count of
    every file is the number of its relations, through any sequence of
    attachments, detachments and deletions. *)
From S2P Require Import Prelude.
From S2P Require Import Effects.
From S2P Require Import RustStr.
From S2P Require Import Kv.
From S2P Require Import FsTypes.
From S2P Require Import FsStore.

(** ** Keys *)

(** A name without the separator of the keys, as the identifiers the server
    makes are. *)
Definition plain_name (s : string) : Prop := contains_char ":" s = false.

Definition is_rel (file_id k : string) : bool :=
  starts_with k REL_PREFIX && ends_with k (":" +:+ file_id).

Lemma rel_key_split ty rid f : rel_key ty rid f = ("fs:rel:" +:+ ty +:+ ":" +:+ rid) +:+ String ":" f.
Proof. unfold rel_key. by rewrite !app_assoc. Qed.

Lemma rel_key_prefix ty rid f : starts_with (rel_key ty rid f) REL_PREFIX = true.
Proof. apply starts_with_app. Qed.

Lemma is_rel_key ty rid f g : plain_name f -> plain_name g ->
  is_rel g (rel_key ty rid f) = true <-> f = g.
Proof.
  intros Hf Hg. unfold is_rel. rewrite rel_key_prefix. cbn [andb].
  rewrite rel_key_split. by apply ends_with_sep.
Qed.

Lemma rel_key_file ty rid f ty' rid' f' : plain_name f -> plain_name f' ->
  rel_key ty rid f = rel_key ty' rid' f' -> f = f'.
Proof. intros Hf Hf'. rewrite !rel_key_split. intros He. by eapply app_last_inj in He as [_ ?]. Qed.

Lemma refs_not_rel f k : starts_with k REL_PREFIX = true -> k <> refs_key f.
Proof. intros Hk ->. done. Qed.

Lemma file_not_rel f k : starts_with k REL_PREFIX = true -> k <> file_key f.
Proof. intros Hk ->. done. Qed.

Lemma refs_key_inj f g : refs_key f = refs_key g -> f = g.
Proof. unfold refs_key. intros He. apply (inj (String.append "fs:files:")) in He. by apply app_inj_r in He. Qed.

Lemma file_key_inj f g : file_key f = file_key g -> f = g.
Proof. unfold file_key. intros He. apply (inj (String.append FILES_PREFIX)) in He. by apply app_inj_r in He. Qed.

Lemma file_refs_ne f g : file_key f <> refs_key g.
Proof.
  unfold file_key, refs_key. intros He. apply (inj (String.append "fs:files:")) in He.
  change (f +:+ FILE_META_SUFFIX) with (f +:+ ":met" +:+ "a") in He.
  change (g +:+ ":refs") with (g +:+ ":ref" +:+ "s") in He.
  rewrite <- !app_assoc in He. by apply app_snoc_inj in He.
Qed.

Lemma rel_in_range k : starts_with k REL_PREFIX = true ->
  in_range (Some REL_PREFIX) (Some (prefix_scan_end REL_PREFIX)) k = true.
Proof.
  intros [r ->]%starts_with_spec. unfold in_range.
  rewrite !bool_decide_eq_true_2; [done| |apply le_app_r].
  change (REL_PREFIX +:+ r) with ("fs:rel" +:+ String ":" r).
  change (prefix_scan_end REL_PREFIX) with ("fs:rel" +:+ ";"). by apply le_app.
Qed.

(** ** Reference counts *)

Section refs.
Context {S T : Type} `{!KvStore S T} `{!KvLaws S T} `{!StoreText}.
Context `{!Serde RefInfo} `{!SerdeLaws RefInfo}.
Variable cfg : FsConfig S.
Implicit Types (d : gmap string bytes) (w : fs_state S).

(** The keys of the relations of a file. *)
Definition rels d (f : string) : gset string := filter (fun k => is_rel f k = true) (dom d).

Definition ref_info d (f : string) : option RefInfo :=
  match d !! refs_key f with
  | None => Some default_ref_info
  | Some v => ok (from_slice v)
  end.

(** The count of a file is the number of its relations, and only a file without
    relations carries the time it became an orphan. *)
Definition refs_ok d (f : string) : Prop :=
  exists info, ref_info d f = Some info /\ count info = Z.of_nat (size (rels d f)) /\
    (count info <> 0%Z -> orphan_since info = None).

Definition all_refs_ok d : Prop := forall f, plain_name f -> refs_ok d f.

Lemma elem_of_rels d f k : k ∈ rels d f <-> is_rel f k = true /\ is_Some (d !! k).
Proof. unfold rels. by rewrite elem_of_filter, elem_of_dom. Qed.

Lemma rel_in d ty rid f : plain_name f ->
  rel_key ty rid f ∈ rels d f <-> is_Some (d !! rel_key ty rid f).
Proof. intros Hf. rewrite elem_of_rels, is_rel_key by done. naive_solver. Qed.

Lemma rels_refs_key d f g v : rels (<[refs_key g := v]> d) f = rels d f.
Proof.
  apply set_eq. intros k. rewrite !elem_of_rels. split; intros [Hk Hd]; split; try done.
  - rewrite lookup_insert_ne in Hd; [done|]. intros <-. by apply andb_true_iff in Hk as [? _].
  - rewrite lookup_insert_ne; [done|]. intros <-. by apply andb_true_iff in Hk as [? _].
Qed.

Lemma rels_attach d f ty rid g v : plain_name f -> plain_name g ->
  rels (<[rel_key ty rid f := v]> d) g =
    if decide (f = g) then {[rel_key ty rid f]} ∪ rels d g else rels d g.
Proof.
  intros Hf Hg. apply set_eq. intros k. case_decide as Hfg; subst.
  - rewrite elem_of_union, elem_of_singleton, !elem_of_rels, lookup_insert_is_Some'.
    pose proof (proj2 (is_rel_key ty rid g g Hf Hg) eq_refl). naive_solver.
  - rewrite !elem_of_rels, lookup_insert_is_Some'. split; [|naive_solver].
    intros [Hk [<-|?]]; [|done]. by apply is_rel_key in Hk.
Qed.

Lemma rels_detach d f ty rid g : plain_name f -> plain_name g ->
  rels (delete (rel_key ty rid f) d) g =
    if decide (f = g) then rels d g ∖ {[rel_key ty rid f]} else rels d g.
Proof.
  intros Hf Hg. apply set_eq. intros k. case_decide as Hfg; subst.
  - rewrite elem_of_difference, elem_of_singleton, !elem_of_rels, lookup_delete_is_Some. naive_solver.
  - rewrite !elem_of_rels, lookup_delete_is_Some. split; [naive_solver|].
    intros [Hk Hs]. split; [done|]. split; [|done]. intros <-. by apply is_rel_key in Hk.
Qed.

Lemma ref_info_insert d f g v :
  ref_info (<[refs_key f := v]> d) g = if decide (f = g) then ok (from_slice v) else ref_info d g.
Proof.
  unfold ref_info. rewrite lookup_insert. destruct (decide (refs_key f = refs_key g)), (decide (f = g)); subst; try done.
  all: match goal with He : refs_key _ = refs_key _ |- _ => by apply refs_key_inj in He end.
Qed.

Lemma ref_info_rel d k v g : starts_with k REL_PREFIX = true ->
  ref_info (<[k := v]> d) g = ref_info d g.
Proof. intros Hk. unfold ref_info. rewrite lookup_insert_ne; [done|]. by apply refs_not_rel. Qed.

Lemma ref_info_rel_delete d k g : starts_with k REL_PREFIX = true ->
  ref_info (delete k d) g = ref_info d g.
Proof. intros Hk. unfold ref_info. rewrite lookup_delete_ne; [done|]. by apply refs_not_rel. Qed.

(** *** The calls, on a store that answers *)

Definition fs_up w : Prop := mirror cfg = None /\ kv_up (kv w).
Definition fs_data w : gmap string bytes := kv_data (kv w).

Lemma wp_on_store {A} (m : act S (result A StoreError)) Q w :
  wp m (fun r s' => exists a, r = Ok a /\ Q (Ok a) (FsState s' (latch w) (fs_clk w))) (kv w) ->
  wp (on_store cfg m) Q w.
Proof.
  intros Hm. unfold on_store. apply wp_bind, (wp_zoom (H := kv_lens)).
  eapply wp_mono; [exact Hm|]. intros r s' (a & -> & HQ). by apply wp_ret.
Qed.

Lemma wp_plain {A} (m : act S (result A StoreError)) Q w :
  wp m (fun r s' => exists a, r = Ok a /\ Q (Ok a) (FsState s' (latch w) (fs_clk w))) (kv w) ->
  wp (plain m) Q w.
Proof.
  intros Hm. unfold plain. apply wp_map_errM, (wp_zoom (H := kv_lens)).
  eapply wp_mono; [exact Hm|]. by intros r s' (a & -> & HQ).
Qed.
End refs.

(** Runs the calls of a store that answers. *)
Ltac fs_step :=
  lazymatch goal with
  | |- wp (on_store _ _) _ _ => apply wp_on_store; cbn [kv]; kv_step; eexists; split; [done|]
  | |- wp (plain _) _ _ => apply wp_plain; cbn [kv]; kv_step; eexists; split; [done|]
  | _ => kv_step
  end; kv_norm.

Ltac fs_steps := repeat (fs_step; cbn [kv latch fs_clk]; kv_norm).

Section refs_calls.
Context {S T : Type} `{!KvStore S T} `{!KvLaws S T} `{!StoreText}.
Context `{!Serde RefInfo} `{!SerdeLaws RefInfo}.
Variable cfg : FsConfig S.
Implicit Types (d : gmap string bytes) (w : fs_state S).

Lemma wp_read_ref_info t f info Q w : kv_up (kv w) ->
  ref_info (tx_data t (kv w)) f = Some info ->
  (forall s', kv_up s' -> kv_data s' = kv_data (kv w) -> tx_data t s' = tx_data t (kv w) ->
     Q (Ok info) (FsState s' (latch w) (fs_clk w))) ->
  wp (read_ref_info cfg t f) Q w.
Proof.
  intros Hup Hinfo HQ. unfold read_ref_info, ref_info in *. apply wp_bindR, wp_on_store.
  apply wp_tx_get_up; [done|]. intros s' Hup' Hd' Ht'. eexists. split; [done|]. cbn.
  destruct (tx_data t (kv w) !! refs_key f) as [v|].
  - unfold decode. destruct (from_slice v); [|done]. injection Hinfo as ->. by apply HQ.
  - injection Hinfo as <-. by apply HQ.
Qed.

Lemma wp_attach ty rid f w : kv_up (kv w) -> plain_name f ->
  refs_ok (fs_data w) f -> (Z.of_nat (size (rels (fs_data w) f)) < u32_max)%Z ->
  wp (attach cfg ty rid f) (fun r w' =>
    kv_up (kv w') /\ r = Ok (Z.of_nat (size (rels (fs_data w') f))) /\
    rels (fs_data w') f = {[rel_key ty rid f]} ∪ rels (fs_data w) f /\ refs_ok (fs_data w') f /\
    (forall k, k <> rel_key ty rid f -> k <> refs_key f -> fs_data w' !! k = fs_data w !! k) /\
    forall g, plain_name g -> g <> f ->
      rels (fs_data w') g = rels (fs_data w) g /\ ref_info (fs_data w') g = ref_info (fs_data w) g) w.
Proof.
  intros Hup Hf (info & Hinfo & Hcount & Horphan) Hmax. unfold attach, fs_data in *. fs_steps.
  assert (plain_name f) as Hf' by done.
  destruct (kv_data (kv w) !! rel_key ty rid f) as [v|] eqn:Er.
  - apply wp_bindR, (wp_read_ref_info _ _ info); [done|by cbn [kv]; kv_norm|]. cbn [kv latch fs_clk]. intros s1 Hup1 Hd1 Ht1. kv_norm. fs_steps.
    split; [done|]. rewrite Hcount. split; [done|].
    split; [|split; [by exists info|by split]].
    symmetry. apply subseteq_union_1_L, singleton_subseteq_l, rel_in; [done|]. by rewrite Er.
  - apply wp_bindR, (wp_read_ref_info _ _ info); [done|by cbn [kv]; kv_norm|]. cbn [kv latch fs_clk]. intros s1 Hup1 Hd1 Ht1. kv_norm. fs_steps.
    set (info' := {| count := _; orphan_since := None |}).
    destruct (to_vec_ok info') as [v Hv]. unfold FsStore.encode. rewrite Hv. cbn [map_err].
    apply from_to in Hv. fs_steps.
    assert (count info' = (Z.of_nat (size (rels (kv_data (kv w)) f)) + 1)%Z) as Hc'.
    { cbn. rewrite Hcount. unfold u32_saturating_add. lia. }
    assert (size (rels (<[rel_key ty rid f:="1"]> (kv_data (kv w))) f) = Datatypes.S (size (rels (kv_data (kv w)) f))) as Hsz.
    { rewrite rels_attach by done. rewrite decide_True by done. rewrite size_union, size_singleton; [done|].
      apply disjoint_singleton_l. rewrite elem_of_rels, Er. by intros [_ []]. }
    split; [done|]. rewrite Hc', rels_refs_key, Hsz. split; [do 2 f_equal; lia|].
    split; [by rewrite rels_attach, decide_True by done|]. split.
    + exists info'. rewrite ref_info_insert, decide_True, Hv, rels_refs_key, Hsz, Hc' by done.
      split; [done|]. split; [lia|done].
    + split; [intros k Hk Hk'; by rewrite !lookup_insert_ne|]. intros g Hg Hne. rewrite rels_refs_key, rels_attach, decide_False by done.
      split; [done|]. rewrite ref_info_insert, decide_False, ref_info_rel by (done || apply rel_key_prefix).
      done.
Qed.

Lemma wp_detach ty rid f w : kv_up (kv w) -> plain_name f -> refs_ok (fs_data w) f ->
  (Z.of_nat (size (rels (fs_data w) f)) <= u32_max)%Z ->
  wp (detach cfg ty rid f) (fun r w' =>
    kv_up (kv w') /\ r = Ok (Z.of_nat (size (rels (fs_data w') f))) /\
    rels (fs_data w') f = rels (fs_data w) f ∖ {[rel_key ty rid f]} /\ refs_ok (fs_data w') f /\
    (rel_key ty rid f ∈ rels (fs_data w) f -> rels (fs_data w') f = ∅ ->
       exists info, ref_info (fs_data w') f = Some info /\
         orphan_since info = Some (now_of (fs_clk w) 0)) /\
    (forall k, k <> rel_key ty rid f -> k <> refs_key f -> fs_data w' !! k = fs_data w !! k) /\
    forall g, plain_name g -> g <> f ->
      rels (fs_data w') g = rels (fs_data w) g /\ ref_info (fs_data w') g = ref_info (fs_data w) g) w.
Proof.
  intros Hup Hf (info & Hinfo & Hcount & Horphan) Hmax. unfold detach, fs_data in *. fs_steps.
  destruct (kv_data (kv w) !! rel_key ty rid f) as [v|] eqn:Er.
  2: { apply wp_bindR, (wp_read_ref_info _ _ info); [done|by cbn [kv]; kv_norm|].
    cbn [kv latch fs_clk]. intros s1 Hup1 Hd1 Ht1. kv_norm. fs_steps.
    assert (rel_key ty rid f ∉ rels (kv_data (kv w)) f) as Hni by (rewrite rel_in, Er by done; by intros []).
    split; [done|]. rewrite Hcount. split; [done|]. split; [set_solver|].
    split; [by exists info|]. split; [by intros ?|by split]. }
  apply wp_bindR, (wp_read_ref_info _ _ info); [done|by cbn [kv]; kv_norm|].
  cbn [kv latch fs_clk]. intros s1 Hup1 Hd1 Ht1. kv_norm. fs_steps.
  set (d' := delete (rel_key ty rid f) (kv_data (kv w))).
  assert (is_rel f (rel_key ty rid f) = true) as Hrel by by apply is_rel_key.
  assert (rel_key ty rid f ∈ rels (kv_data (kv w)) f) as Hin by by apply elem_of_rels; rewrite Er.
  assert (size (rels d' f) + 1 = size (rels (kv_data (kv w)) f)) as Hsz.
  { unfold d'. rewrite rels_detach, decide_True by done.
    rewrite size_difference, size_singleton by by apply singleton_subseteq_l.
    assert (size (rels (kv_data (kv w)) f) <> 0); [|lia].
    intros Hz%size_empty_inv. set_solver. }
  assert (u32_saturating_sub (count info) 1 = Z.of_nat (size (rels d' f))) as Hn.
  { unfold u32_saturating_sub. lia. }
  rewrite Hn. clear Hin.
  match goal with |- wp _ _ (FsState ?sx _ _) => apply (wp_mono _ (fun o w1 => kv w1 = sx /\
    o = if bool_decide (Z.of_nat (size (rels d' f)) = 0%Z) then Some (now_of (fs_clk w) 0)
        else orphan_since info)) end.
  { case_bool_decide; [|by apply wp_ret]. unfold now_of. rewrite Nat.add_0_r.
    by apply wp_bind, (wp_zoom (H := fs_clk_lens)). }
  intros o w1 [Hkv ->]. set (info' := {| count := _; orphan_since := _ |}).
  destruct (to_vec_ok info') as [v' Hv]. unfold FsStore.encode. rewrite Hv. cbn [map_err].
  apply from_to in Hv. destruct w1 as [kv1 l1 c1]. cbn in Hkv. subst kv1. fs_steps.
  split; [done|]. rewrite rels_refs_key. split; [done|].
  split; [by unfold d'; rewrite rels_detach, decide_True by done|].
  split; [|split].
  - exists info'. rewrite ref_info_insert, decide_True, Hv, rels_refs_key by done.
    split; [done|]. split; [done|]. cbn. intros Hne. rewrite bool_decide_eq_false_2 by done.
    apply Horphan. lia.
  - intros _ Hempty. exists info'. rewrite ref_info_insert, decide_True, Hv by done.
    split; [done|]. cbn. unfold d'. rewrite Hempty, size_empty. by rewrite bool_decide_eq_true_2.
  - split; [intros k Hk Hk'; unfold d'; by rewrite lookup_insert_ne, lookup_delete_ne|]. intros g Hg Hne. rewrite rels_refs_key, rels_detach, decide_False by done.
    split; [done|]. rewrite ref_info_insert, decide_False, ref_info_rel_delete by (done || apply rel_key_prefix).
    done.
Qed.

Definition deletes (keys : list string) d : gmap string bytes := foldl (fun d k => delete k d) d keys.

Lemma lookup_deletes keys d k :
  deletes keys d !! k = if decide (k ∈ keys) then None else d !! k.
Proof.
  revert d. induction keys as [|k' keys IH]; intros d; [done|].
  change (deletes (k' :: keys) d) with (deletes keys (delete k' d)). rewrite IH, lookup_delete.
  destruct (decide (k ∈ k' :: keys)) as [Hk|Hk]; rewrite elem_of_cons in Hk;
    repeat case_decide; naive_solver.
Qed.

Lemma wp_tx_deletes t keys Q w : kv_up (kv w) ->
  (forall t' s', kv_up s' -> kv_data s' = kv_data (kv w) ->
     tx_data t' s' = deletes keys (tx_data t (kv w)) -> Q (Ok t') (FsState s' (latch w) (fs_clk w))) ->
  wp (tx_deletes cfg t keys) Q w.
Proof.
  revert t w. induction keys as [|k keys IH]; intros t w Hup HQ; cbn [tx_deletes].
  { apply wp_ret. destruct w. by apply HQ. }
  fs_steps. apply IH; [done|]. cbn [kv latch fs_clk]. intros t2 s2 Hup2 Hd2 Ht2. apply HQ; [done|congruence|].
  unfold deletes in *. cbn. congruence.
Qed.

Lemma wp_delete_file f w : kv_up (kv w) -> plain_name f ->
  wp (delete_file cfg f) (fun r w' =>
    kv_up (kv w') /\ r = Ok tt /\ fs_data w' !! file_key f = None /\
    rels (fs_data w') f = ∅ /\ ref_info (fs_data w') f = Some default_ref_info /\
    (forall g, g <> f -> fs_data w' !! file_key g = fs_data w !! file_key g) /\
    forall g, plain_name g -> g <> f ->
      rels (fs_data w') g = rels (fs_data w) g /\ ref_info (fs_data w') g = ref_info (fs_data w) g) w.
Proof.
  intros Hup Hf. unfold delete_file, fs_data. fs_steps.
  set (keys := rels_of f _).
  assert (forall k, k ∈ keys <-> k ∈ rels (kv_data (kv w)) f) as Hkeys.
  { intros k. unfold keys, rels_of. rewrite list_elem_of_In, List.filter_In, <- list_elem_of_In.
    rewrite elem_of_rels, list_elem_of_fmap. fold (is_rel f k). split.
    - intros [([k' v] & -> & Hk) Hr]. apply elem_of_kv_range in Hk as [_ Hk]. cbn [fst] in *. by rewrite Hk.
    - intros [Hr [v Hv]]. split; [|done]. exists (k, v). split; [done|]. apply elem_of_kv_range.
      split; [|done]. apply rel_in_range. by apply andb_true_iff in Hr as [? _]. }
  clearbody keys. apply wp_tx_deletes; [done|]. cbn [kv latch fs_clk].
  intros t2 s2 Hup2 Hd2 Ht2. kv_norm. fs_steps.
  assert (forall k, delete (refs_key f) (delete (file_key f) (deletes keys (kv_data (kv w)))) !! k =
    if decide (k = refs_key f \/ k = file_key f \/ k ∈ rels (kv_data (kv w)) f) then None
    else kv_data (kv w) !! k) as Hl.
  { intros k. rewrite !lookup_delete, lookup_deletes. repeat case_decide; naive_solver. }
  split; [done|]. split; [done|]. rewrite Hl, decide_True by auto. split; [done|].
  split; [|split].
  - apply set_eq. intros k. rewrite elem_of_rels, Hl, elem_of_empty. split; [|done].
    intros [Hr Hs]. case_decide as Hd; [by destruct Hs|]. apply Hd. rewrite elem_of_rels. auto.
  - unfold ref_info. by rewrite Hl, decide_True by auto.
  - split; [intros g Hne; rewrite Hl, decide_False; [done|]; intros [He|[He|He]];
      [by apply file_refs_ne in He|by apply file_key_inj in He|by apply elem_of_rels in He as [? _]]|].
    intros g Hg Hne. split.
    + apply set_eq. intros k. rewrite !elem_of_rels, Hl. split; intros [Hr Hs]; (split; [done|]).
      * case_decide; [by destruct Hs|done].
      * rewrite decide_False; [done|]. apply andb_true_iff in Hr as Hp. destruct Hp as [Hp Hpe].
        intros [->|[->|Hk]]; [done|done|].
        apply elem_of_rels in Hk as [Hk _]. apply andb_true_iff in Hk as [_ Hk].
        apply ends_with_spec in Hk as [p1 Hp1]. apply ends_with_spec in Hpe as [p2 Hp2].
        rewrite Hp1 in Hp2. cbn in Hp2. by apply app_last_inj in Hp2 as [_ ?].
    + unfold ref_info. rewrite Hl, decide_False; [done|]. intros [He|[He|He]].
      * by apply refs_key_inj in He.
      * symmetry in He. by apply file_refs_ne in He.
      * apply elem_of_rels in He as [He _]. by apply andb_true_iff in He as [? _].
Qed.
End refs_calls.

(** ** The relations as a set

    What the calls promise: a set of relations per file. *)
Inductive RelCall : Type :=
| CallAttach (row_type row_id file_id : string)
| CallDetach (row_type row_id file_id : string)
| CallDelete (file_id : string).

Definition call_file (c : RelCall) : string :=
  match c with CallAttach _ _ f | CallDetach _ _ f | CallDelete f => f end.

Definition set_rels (f : string) (s : gset string) (R : string -> gset string) : string -> gset string :=
  fun g => if decide (g = f) then s else R g.

(** The answer of a call, and the relations after it. *)
Definition spec_call (c : RelCall) (R : string -> gset string) : Z * (string -> gset string) :=
  match c with
  | CallAttach ty rid f =>
      let s := {[rel_key ty rid f]} ∪ R f in (Z.of_nat (size s), set_rels f s R)
  | CallDetach ty rid f =>
      let s := R f ∖ {[rel_key ty rid f]} in (Z.of_nat (size s), set_rels f s R)
  | CallDelete f => (0%Z, set_rels f ∅ R)
  end.

Fixpoint spec_calls (cs : list RelCall) (R : string -> gset string) : list Z * (string -> gset string) :=
  match cs with
  | [] => ([], R)
  | c :: cs =>
      let '(n, R) := spec_call c R in
      let '(ns, R) := spec_calls cs R in (n :: ns, R)
  end.

Section refine.
Context {S T : Type} `{!KvStore S T} `{!KvLaws S T} `{!StoreText}.
Context `{!Serde RefInfo} `{!SerdeLaws RefInfo}.
Variable cfg : FsConfig S.

Definition rel_call (c : RelCall) : act (fs_state S) (result Z FsError) :=
  match c with
  | CallAttach ty rid f => attach cfg ty rid f
  | CallDetach ty rid f => detach cfg ty rid f
  | CallDelete f => _ <-? delete_file cfg f; mret (Ok 0%Z)
  end.

Fixpoint rel_calls (cs : list RelCall) : act (fs_state S) (list (result Z FsError)) :=
  match cs with
  | [] => mret []
  | c :: cs => r ← rel_call c; rs ← rel_calls cs; mret (r :: rs)
  end.

(** The relations of the files with plain names are those of [R]. *)
Definition same_rels (d : gmap string bytes) (R : string -> gset string) : Prop :=
  forall f, plain_name f -> rels d f = R f.

Lemma size_insert_le (k : string) (s : gset string) : size ({[k]} ∪ s) <= Datatypes.S (size s).
Proof.
  rewrite size_union_alt, size_singleton.
  pose proof (subseteq_size (s ∖ {[k]}) s ltac:(set_solver)). lia.
Qed.

(** A frame for the files a call is not about. *)
Lemma all_refs_frame d d' f :
  all_refs_ok d -> refs_ok d' f ->
  (forall g, plain_name g -> g <> f -> rels d' g = rels d g /\ ref_info d' g = ref_info d g) ->
  all_refs_ok d'.
Proof.
  intros Hall Hf Hg g Hpg. destruct (decide (g = f)) as [->|Hne]; [done|].
  destruct (Hg g Hpg Hne) as [Hr Hi]. unfold refs_ok. rewrite Hr, Hi. by apply Hall.
Qed.

Lemma same_rels_frame d d' f s R :
  same_rels d R -> rels d' f = s ->
  (forall g, plain_name g -> g <> f -> rels d' g = rels d g /\ ref_info d' g = ref_info d g) ->
  same_rels d' (set_rels f s R).
Proof.
  intros Hall Hf Hg g Hpg. unfold set_rels. case_decide as Hd; [by subst g|].
  destruct (Hg g Hpg Hd) as [-> _]. by apply Hall.
Qed.

Lemma wp_rel_call c R (w : fs_state S) : kv_up (kv w) -> plain_name (call_file c) ->
  all_refs_ok (fs_data w) -> same_rels (fs_data w) R ->
  (Z.of_nat (size (R (call_file c))) < u32_max)%Z ->
  wp (rel_call c) (fun r w' =>
    kv_up (kv w') /\ r = Ok (spec_call c R).1 /\ all_refs_ok (fs_data w') /\
    same_rels (fs_data w') (spec_call c R).2) w.
Proof.
  intros Hup Hf Hall HR Hmax. rewrite <- (HR _ Hf) in Hmax.
  destruct c as [ty rid f|ty rid f|f]; cbn in *; rewrite <- ?(HR _ Hf).
  - eapply wp_mono; [apply wp_attach; auto|]. intros r w' (? & -> & Hr & ? & _ & Hg). rewrite Hr.
    repeat split; [done|by eapply all_refs_frame|by eapply same_rels_frame].
  - eapply wp_mono; [apply wp_detach; auto; lia|]. intros r w' (? & -> & Hr & ? & _ & _ & Hg). rewrite Hr.
    repeat split; [done|by eapply all_refs_frame|by eapply same_rels_frame].
  - apply wp_bindR. eapply wp_mono; [by apply wp_delete_file|].
    intros r w' (? & -> & _ & Hr & Hi & _ & Hg). apply wp_ret.
    repeat split; [done| |by eapply same_rels_frame].
    eapply all_refs_frame; [done| |done]. exists default_ref_info. rewrite Hr, Hi. by rewrite size_empty.
Qed.

Lemma spec_call_size c R f :
  size ((spec_call c R).2 f) <= Datatypes.S (size (R f)).
Proof.
  destruct c as [ty rid g|ty rid g|g]; cbn; unfold set_rels; case_decide; subst; try lia.
  - apply size_insert_le.
  - pose proof (subseteq_size (R g ∖ {[rel_key ty rid g]}) (R g) ltac:(set_solver)). lia.
  - rewrite size_empty. lia.
Qed.

(** C8: the reference counts are exact, for files whose identifier holds no colon
    (those that the server makes hold none).  On a store that answers, whose
    counts agree with its relations at the start and where no file can reach
    [u32::MAX] relations, any sequence of attachments, detachments and deletions
    of such files behaves like the same sequence on one set of relation keys per
    file: every call succeeds and answers the number of relations its file then
    has, repeated attachments and detachments included, the stored counts agree
    with the relations at the end, and only a file without relations carries the
    time it became an orphan.  Types and identifiers of rows may be any text; two
    pairs that make one key are one relation. *)
Theorem relations_refine cs R (w : fs_state S) :
  kv_up (kv w) -> Forall (fun c => plain_name (call_file c)) cs ->
  all_refs_ok (fs_data w) -> same_rels (fs_data w) R ->
  (forall f, Z.of_nat (size (R f)) + Z.of_nat (length cs) <= u32_max)%Z ->
  let spec := spec_calls cs R in
  wp (rel_calls cs) (fun rs w' =>
    rs = Ok <$> spec.1 /\ all_refs_ok (fs_data w') /\ same_rels (fs_data w') spec.2) w.
Proof.
  intros Hup Hcs Hall HR Hmax. cbn zeta. revert R w Hup Hall HR Hmax.
  induction Hcs as [|c cs Hc Hcs IH]; intros R w Hup Hall HR Hmax; cbn [rel_calls spec_calls].
  { by apply wp_ret. }
  apply wp_bind. eapply wp_mono; [apply (wp_rel_call c R); try done|].
  { specialize (Hmax (call_file c)). cbn in Hmax. lia. }
  intros r w' (Hup' & -> & Hall' & HR').
  destruct (spec_call c R) as [n R'] eqn:Ec. apply wp_bind.
  eapply wp_mono; [apply (IH R'); try done|].
  { intros f. specialize (Hmax f). pose proof (spec_call_size c R f) as Hs. rewrite Ec in Hs.
    cbn in Hs, Hmax. lia. }
  intros rs w'' (-> & ? & ?). apply wp_ret. destruct (spec_calls cs R'). by cbn.
Qed.
End refine.

(** ** The rows of a file *)

Section rows.
Context {S T : Type} `{!KvStore S T} `{!KvLaws S T} `{!StoreText}.
Variable cfg : FsConfig S.

(** Every relation in the store names its row and its file without the
    separator. *)
Definition rels_plain (d : gmap string bytes) : Prop :=
  forall k, is_Some (d !! k) -> starts_with k REL_PREFIX = true ->
    exists ty rid f, k = rel_key ty rid f /\ plain_name ty /\ plain_name rid /\ plain_name f.

Lemma split_rel_key ty rid f : plain_name ty -> plain_name rid ->
  (rest ← strip_prefix REL_PREFIX (rel_key ty rid f);
   '(t, rem) ← split_once ":" rest;
   '(r, _) ← split_once ":" rem;
   Some (t, r)) = Some (ty, rid).
Proof.
  intros Hty Hrid. unfold rel_key.
  change ("fs:rel:" +:+ ty +:+ ":" +:+ rid +:+ ":" +:+ f)
    with (REL_PREFIX +:+ (ty +:+ String ":" (rid +:+ String ":" f))).
  rewrite strip_prefix_app. cbn. rewrite split_once_app by done. cbn.
  by rewrite split_once_app by done.
Qed.

(** The rows of a file are read back from its relations, when these name their
    rows without the separator of the keys. *)
Lemma elem_of_rows_in d f ty rid : plain_name f -> rels_plain d ->
  (ty, rid) ∈ rows_in f (kv_range d None (Some REL_PREFIX) (Some (prefix_scan_end REL_PREFIX))) <->
  plain_name ty /\ plain_name rid /\ is_Some (d !! rel_key ty rid f).
Proof.
  intros Hf Hp. unfold rows_in. rewrite list_elem_of_omap. split.
  - intros ([k v] & Hk & Hs). cbn [fst] in Hs. fold (is_rel f k) in Hs.
    apply elem_of_kv_range in Hk as [_ Hk]. destruct (is_rel f k) eqn:Er; [|done].
    destruct (Hp k) as (ty' & rid' & f' & -> & Hty' & Hrid' & Hf'); [by eexists|by apply andb_true_iff in Er as [? _]|].
    apply is_rel_key in Er; [|done|done]. subst f'. rewrite split_rel_key in Hs by done.
    injection Hs as -> ->. split; [done|]. split; [done|]. by eexists.
  - intros (Hty & Hrid & v & Hv). exists (rel_key ty rid f, v). split.
    + apply elem_of_kv_range. split; [|done]. apply rel_in_range, rel_key_prefix.
    + cbn [fst]. fold (is_rel f (rel_key ty rid f)).
      rewrite (proj2 (is_rel_key ty rid f f Hf Hf) eq_refl). by apply split_rel_key.
Qed.

Lemma wp_rows_for_file f (w : fs_state S) :
  mirror cfg = None -> kv_up (kv w) -> plain_name f -> rels_plain (kv_data (kv w)) ->
  wp (rows_for_file cfg f) (fun r w' =>
    kv_up (kv w') /\ kv_data (kv w') = kv_data (kv w) /\
    exists rows, r = Ok rows /\
      forall ty rid, (ty, rid) ∈ rows <->
        plain_name ty /\ plain_name rid /\ is_Some (kv_data (kv w) !! rel_key ty rid f)) w.
Proof.
  intros Hm Hup Hf Hp. unfold rows_for_file, scan_prefix. rewrite Hm.
  fs_steps. split; [done|]. split; [done|]. eexists. split; [done|]. intros ty rid. by apply elem_of_rows_in.
Qed.
End rows.

(** ** Sessions *)

Section sessions.
Context {S T : Type} `{!KvStore S T} `{!KvLaws S T} `{!StoreText}.
Context `{!Serde UploadSession} `{!SerdeLaws UploadSession}.
Variable cfg : FsConfig S.

(** The rows that belong to a session. *)
Definition session_rows (s : UploadSession) : list string :=
  session_key (us_id s) ::
  staged_keys (us_id s) (us_file_total_parts s) ++
  match us_s3_upload_id s with Some u => [multipart_key u] | None => [] end.

(** Deleting a session leaves nothing of it behind: on a store that answers,
    one commit removes the session, every staged part it can have and the
    record of its multipart upload, and no other row. *)
Theorem delete_session_complete s (w : fs_state S) :
  mirror cfg = None -> kv_up (kv w) ->
  wp (save_session cfg s) (fun _ w1 =>
    forall w2, kv_up (kv w2) -> kv_data (kv w1) ⊆ kv_data (kv w2) ->
    wp (run (delete_session cfg (us_id s))) (fun r w' =>
      r = Ok tt /\ forall k, kv_data (kv w') !! k =
        if decide (k ∈ session_rows s) then None else kv_data (kv w2) !! k) w2) w.
Proof.
  intros Hm Hup. unfold save_session, put_row, FsStore.encode.
  destruct (to_vec_ok s) as [v Hv]. rewrite Hv. cbn [map_err]. apply from_to in Hv. fs_steps.
  intros w2 Hup2 Hsub.
  assert (kv_data (kv w2) !! session_key (us_id s) = Some v) as Hs.
  { eapply lookup_weaken; [|exact Hsub]. by rewrite lookup_insert_eq. }
  unfold delete_session, get_session, get_row, get_one. rewrite Hm.
  apply wp_run_bindR, wp_run_atomically. fs_steps. rewrite Hs.
  unfold FsStore.decode. rewrite Hv. cbn [map_err]. apply wp_ret, wp_run_atomically.
  fs_steps. apply wp_tx_deletes; [done|]. cbn [kv latch fs_clk].
  intros t2 s2 Hup3 Hd3 Ht3. kv_norm. fs_steps. split; [done|]. intros k.
  rewrite lookup_delete, lookup_deletes. unfold session_rows.
  set (rows := _ ++ _). clearbody rows.
  destruct (decide (k ∈ session_key (us_id s) :: rows)) as [Hk|Hk]; rewrite elem_of_cons in Hk;
    repeat case_decide; naive_solver.
Qed.
End sessions.
