(* ===== verification/FsPages.v ===== *)
(** FsPages: the paged walk over a store ([KvPages] of [src/src/fs/store.rs]),
    which the replica rebuild reads both of its sides with.  A walk holds one
    page; the store may change between two pages. *)
From S2P Require Import Prelude.
From S2P Require Import Effects.
From S2P Require Import RustStr.
From S2P Require Import Kv.
From S2P Require Import FsTypes.
From S2P Require Import FsStore.

Definition SCAN_PAGE : nat := 512.

Record KvPages := {
  cursor : option string;
  buffer : list kv_pair;
  exhausted : bool;
}.

Definition new_pages : KvPages := {| cursor := None; buffer := []; exhausted := false |}.

(** One step of [FsStore::next_file]. *)
Record FileScan := { fsc_record : option FileRecord; fsc_undecodable : list string }.

Section pages.
Context {S T : Type} `{!KvStore S T} `{!StoreText}.

(** A page that resumes starts with the key it resumes at. *)
Definition drop_resume (cur : option string) (page : list kv_pair) : list kv_pair :=
  match cur, page with
  | Some resume, kv :: rest => if bool_decide (kv.1 = resume) then rest else page
  | _, _ => page
  end.

(** The walk after the page [page] was fetched, and the entry it returns. *)
Definition turn_page (p : KvPages) (page : list kv_pair) : option kv_pair * KvPages :=
  match drop_resume (cursor p) page with
  | [] => (None, {| cursor := cursor p; buffer := []; exhausted := true |})
  | kv :: rest =>
      (Some kv, {| cursor := fst <$> last (kv :: rest); buffer := rest; exhausted := false |})
  end.

Definition next (p : KvPages) : act S (result (option kv_pair) FsError * KvPages) :=
  match buffer p with
  | kv :: rest =>
      mret (Ok (Some kv), {| cursor := cursor p; buffer := rest; exhausted := exhausted p |})
  | [] =>
      if exhausted p then mret (Ok None, p) else
      page ← kv_scan (Some SCAN_PAGE) (cursor p) None;
      match page with
      | Err e => mret (Err (fs_of_store e), p)
      | Ok page => let '(kv, p') := turn_page p page in mret (Ok kv, p')
      end
  end.

(** [next_file]: the walk up to the next file record.  [fuel] bounds the
    entries it looks at; [None] means that it ran out. *)
Fixpoint next_file `{!Serde FileRecord} (fuel : nat) (p : KvPages) (undecodable : list string) :
    prog S (option (result FileScan FsError * KvPages)) :=
  match fuel with
  | O => mret None
  | Datatypes.S fuel =>
      '(r, p) ← atomically (next p);
      match r with
      | Err e => mret (Some (Err e, p))
      | Ok None => mret (Some (Ok {| fsc_record := None; fsc_undecodable := undecodable |}, p))
      | Ok (Some kv) =>
          if negb (starts_with kv.1 FILES_PREFIX) || negb (ends_with kv.1 FILE_META_SUFFIX)
          then next_file fuel p undecodable else
          match from_slice kv.2 with
          | Ok rec =>
              mret (Some (Ok {| fsc_record := Some rec; fsc_undecodable := undecodable |}, p))
          | Err _ => next_file fuel p (undecodable ++ [kv.1])
          end
      end
  end.
End pages.

(** ** A walk over a store that changes

    [walk p ds] makes one call of [next] per element of [ds], the data at the
    time of the call. *)
Definition page_of (p : KvPages) (d : gmap string bytes) : list kv_pair :=
  kv_range d (Some SCAN_PAGE) (cursor p) None.

Definition walk_step (p : KvPages) (d : gmap string bytes) : option kv_pair * KvPages :=
  match buffer p with
  | kv :: rest => (Some kv, {| cursor := cursor p; buffer := rest; exhausted := exhausted p |})
  | [] => if exhausted p then (None, p) else turn_page p (page_of p d)
  end.

Fixpoint walk (p : KvPages) (ds : list (gmap string bytes)) : list (option kv_pair) * KvPages :=
  match ds with
  | [] => ([], p)
  | d :: ds =>
      let '(o, p) := walk_step p d in
      let '(os, p) := walk p ds in (o :: os, p)
  end.

Section walk.
Context {S T : Type} `{!KvStore S T} `{!KvLaws S T} `{!StoreText}.

(** On a store that answers, [next] is a step of the walk. *)
Lemma wp_next p s Q : kv_up s ->
  (forall s', kv_up s' -> kv_data s' = kv_data s ->
     Q (Ok (walk_step p (kv_data s)).1, (walk_step p (kv_data s)).2) s') ->
  wp (next p) Q s.
Proof.
  intros Hup HQ. unfold next, walk_step in *. destruct (buffer p) as [|kv rest]; [|by apply wp_ret, HQ].
  destruct (exhausted p); [by apply wp_ret, HQ|].
  apply wp_bind, wp_scan_up; [done|]. intros s' Hup' Hd.
  specialize (HQ s' Hup' Hd). unfold page_of in HQ.
  destruct (turn_page p _) as [o p'] eqn:E. by apply wp_ret.
Qed.
End walk.

(** *** The invariant of a walk *)

Definition ascending (l : list string) : Prop := StronglySorted String.le l /\ NoDup l.

Lemma ascending_app l k l' :
  ascending l -> ascending l' -> (forall x, x ∈ l -> String.le x k) ->
  (forall x, x ∈ l' -> String.le k x /\ x <> k) -> ascending (l ++ l').
Proof.
  intros [Hs Hn] [Hs' Hn'] Hl Hl'. split.
  - apply StronglySorted_app. split_and!; [|done..].
    intros x y Hx Hy. etrans; [by apply Hl|]. by apply Hl'.
  - apply NoDup_app. split_and!; [done| |done]. intros x Hx Hx'.
    destruct (Hl' x Hx') as [Hle Hne]. apply Hne. by apply (anti_symm String.le); [apply Hl|].
Qed.

Lemma ascending_last l k : ascending l -> last l = Some k -> forall x, x ∈ l -> String.le x k.
Proof.
  intros [Hs _] Hk x Hx. apply last_Some in Hk as [l' ->].
  apply StronglySorted_app in Hs as (Hc & _ & _).
  apply elem_of_app in Hx as [Hx|Hx%list_elem_of_singleton]; [|by subst].
  apply Hc; [done|]. by apply list_elem_of_singleton.
Qed.

Lemma kv_range_ascending d lim from to : ascending (kv_range d lim from to).*1.
Proof.
  assert (ascending (kv_range d None from to).*1) as [Hs Hn].
  { unfold kv_range. split.
    - pose proof (kv_list_sorted d) as Hs. induction Hs as [|x l Hl IH Hx]; [constructor|].
      cbn [List.filter]. destruct (in_range from to x.1); [|done].
      rewrite fmap_cons. constructor; [done|]. rewrite Forall_fmap.
      apply Forall_forall. intros y Hy. apply list_elem_of_In, List.filter_In in Hy as [Hy _].
      apply list_elem_of_In in Hy. by apply (proj1 (Forall_forall _ _) Hx).
    - pose proof (kv_list_NoDup d) as Hn. induction (kv_list d) as [|x l IH]; [constructor|].
      rewrite fmap_cons in Hn. apply NoDup_cons in Hn as [Hx Hn]. cbn [List.filter].
      destruct (in_range from to x.1); [|by apply IH]. rewrite fmap_cons. constructor; [|by apply IH].
      intros (y & Hy & Hin)%list_elem_of_fmap. apply Hx, list_elem_of_fmap. exists y. split; [done|].
      apply list_elem_of_In, List.filter_In in Hin as [Hin _]. by apply list_elem_of_In. }
  destruct lim as [n|]; [|done]. unfold kv_range in *. rewrite fmap_take. split.
  - rewrite <- (take_drop n (_ <$> _)) in Hs. by apply StronglySorted_app in Hs as (_ & ? & _).
  - by apply NoDup_take.
Qed.

Lemma elem_of_page d n cur k v :
  (k, v) ∈ kv_range d (Some n) cur None ->
  d !! k = Some v /\ match cur with Some c => String.le c k | None => True end.
Proof.
  intros Hk. apply elem_of_take_list in Hk.
  change (List.filter _ (kv_list d)) with (kv_range d None cur None) in Hk.
  apply elem_of_kv_range in Hk as [Hr Hk]. split; [done|]. unfold in_range in Hr.
  destruct cur; [|done]. rewrite andb_true_r in Hr. by apply bool_decide_eq_true in Hr.
Qed.

(** A key past the cursor is on the page, or past a page that is full. *)
Lemma page_complete d n cur k v :
  d !! k = Some v -> match cur with Some c => String.le c k | None => True end ->
  let page := kv_range d (Some n) cur None in
  (k, v) ∈ page \/ (length page = n /\ forall x, x ∈ page.*1 -> String.le x k /\ x <> k).
Proof.
  intros Hk Hc. cbn zeta.
  assert ((k, v) ∈ kv_range d None cur None) as Hin.
  { apply elem_of_kv_range. split; [|done]. unfold in_range. rewrite andb_true_r.
    destruct cur; [|done]. by apply bool_decide_eq_true. }
  pose proof (kv_range_ascending d None cur None) as [Hs Hn].
  unfold kv_range at 1 3. change (List.filter _ (kv_list d)) with (kv_range d None cur None).
  rewrite <- (take_drop n (kv_range d None cur None)) in Hin, Hs, Hn.
  rewrite fmap_app in Hs, Hn. apply elem_of_app in Hin as [Hin|Hin]; [by left|]. right.
  assert (n < length (kv_range d None cur None)) as Hlen.
  { destruct (decide (n < length (kv_range d None cur None))); [done|].
    rewrite drop_ge in Hin by lia. by apply not_elem_of_nil in Hin. }
  split; [change (length (take n (kv_range d None cur None)) = n); rewrite length_take; lia|].
  intros x Hx. change (x ∈ (take n (kv_range d None cur None)).*1) in Hx.
  apply StronglySorted_app in Hs as (Hle & _ & _). apply NoDup_app in Hn as (_ & Hd & _).
  assert (k ∈ (drop n (kv_range d None cur None)).*1) as Hk'
    by (apply list_elem_of_fmap; by exists (k, v)).
  split; [by apply Hle|]. intros ->. by apply (Hd k).
Qed.

Section invariant.
Variables (always : string -> Prop) (ever : kv_pair -> Prop).

(** [ret] are the entries returned so far. *)
Record walk_inv (p : KvPages) (ret : list kv_pair) : Prop := {
  inv_ascending : ascending (ret ++ buffer p).*1;
  inv_cursor : cursor p = last (ret ++ buffer p).*1;
  inv_covers k : always k ->
    exhausted p = true \/ (exists c, cursor p = Some c /\ String.le k c) -> k ∈ (ret ++ buffer p).*1;
  inv_ever : Forall ever (ret ++ buffer p);
}.

Lemma walk_inv_new : walk_inv new_pages [].
Proof. split; cbn; [by repeat constructor|done| |constructor]. intros k _ [?|(c & ? & _)]; done. Qed.

(** What a page adds to the walk. *)
Lemma elem_of_drop_resume cur d k v :
  (k, v) ∈ drop_resume cur (kv_range d (Some SCAN_PAGE) cur None) ->
  d !! k = Some v /\ match cur with Some c => String.le c k /\ k <> c | None => True end.
Proof.
  intros Hk. pose proof (elem_of_page d SCAN_PAGE cur) as Hp.
  pose proof (kv_range_ascending d (Some SCAN_PAGE) cur None) as [Hs Hn].
  set (page := kv_range d _ cur None) in *. clearbody page.
  destruct cur as [c|]; [|by destruct page; apply Hp].
  destruct page as [|[k0 v0] page]; [by apply not_elem_of_nil in Hk|]. cbn in Hk.
  rewrite fmap_cons in Hs, Hn. apply NoDup_cons in Hn as [Hn _].
  apply StronglySorted_inv in Hs as [_ Hs].
  case_bool_decide as Hc.
  - cbn in Hc. subst k0. destruct (Hp k v) as [Hd Hle]; [by right|]. split; [done|]. split; [done|].
    intros ->. apply Hn, list_elem_of_fmap. by exists (c, v).
  - destruct (Hp k v Hk) as [Hd Hle]. split; [done|]. split; [done|]. intros ->.
    destruct (Hp k0 v0) as [_ Hle0]; [by left|].
    apply elem_of_cons in Hk as [[= -> ->]|Hk]; [done|].
    apply Hc, (anti_symm String.le); [|done].
    apply (proj1 (Forall_forall _ _) Hs). apply list_elem_of_fmap. by exists (c, v).
Qed.

Lemma drop_resume_ascending cur page : ascending page.*1 -> ascending (drop_resume cur page).*1.
Proof.
  intros [Hs Hn]. destruct cur as [c|], page as [|kv page]; try done. cbn. case_bool_decide; [|done].
  rewrite fmap_cons in Hs, Hn. by apply StronglySorted_inv in Hs as [? _]; apply NoDup_cons in Hn as [_ ?].
Qed.

(** No key past the cursor is missed, unless it is past the page. *)
Lemma drop_resume_complete cur d k v :
  d !! k = Some v -> match cur with Some c => String.le c k | None => True end -> cur <> Some k ->
  let page := drop_resume cur (kv_range d (Some SCAN_PAGE) cur None) in
  k ∈ page.*1 \/ (page <> [] /\ forall x, x ∈ page.*1 -> String.le x k /\ x <> k).
Proof.
  intros Hd Hc Hne. cbn zeta.
  destruct (page_complete d SCAN_PAGE cur k v Hd Hc) as [Hk|[Hlen Hk]].
  - left. set (page := kv_range _ _ _ _) in *. clearbody page.
    apply list_elem_of_fmap. exists (k, v). split; [done|].
    destruct cur as [c|], page as [|[k0 v0] page]; try done. cbn. case_bool_decide as Hb; [|done].
    cbn in Hb. apply elem_of_cons in Hk as [[= -> ->]|Hk]; [by subst|done].
  - right. set (page := kv_range _ _ _ _) in *. clearbody page.
    destruct page as [|kv0 [|kv1 page]]; [done|done|].
    destruct cur as [c|]; [|split; [done|exact Hk]]. cbn. case_bool_decide; [|split; [done|exact Hk]].
    split; [done|]. intros x Hx. apply Hk. rewrite fmap_cons. by right.
Qed.

Lemma ascending_cursor l c : c = last l -> ascending l ->
  forall x k, c = Some k -> x ∈ l -> String.le x k.
Proof. intros -> Hl x k Hk. by eapply ascending_last. Qed.

Lemma walk_step_inv p ret d :
  walk_inv p ret -> (forall k, always k -> is_Some (d !! k)) ->
  (forall k v, d !! k = Some v -> ever (k, v)) ->
  let '(o, p') := walk_step p d in
  walk_inv p' (ret ++ option_list o) /\ (o = None -> exhausted p' = true /\ buffer p' = []).
Proof.
  intros [Ha Hc Hcov Hev] Hal Hever. unfold walk_step.
  destruct (buffer p) as [|kv rest] eqn:Eb.
  2: { cbn. split; [|done]. split; cbn; rewrite <- List.app_assoc; done. }
  destruct (exhausted p) eqn:Ex.
  { cbn. rewrite List.app_nil_r in *. split; [|done]. 
    split; rewrite ?Eb, ?Ex, ?List.app_nil_r. all: done. }
  rewrite List.app_nil_r in Ha, Hc, Hcov, Hev. unfold turn_page, page_of.
  pose proof (elem_of_drop_resume (cursor p) d) as Hin.
  pose proof (drop_resume_ascending (cursor p) _ (kv_range_ascending d (Some SCAN_PAGE) (cursor p) None)) as Hpa.
  pose proof (drop_resume_complete (cursor p) d) as Hcp.
  set (page := drop_resume (cursor p) _) in *. clearbody page.
  assert (forall k v, always k -> d !! k = Some v ->
    match cursor p with Some c => String.le c k | None => True end ->
    k ∈ ret.*1 \/ k ∈ page.*1 \/ (page <> [] /\ forall x, x ∈ page.*1 -> String.le x k /\ x <> k)) as Hnew.
  { intros k v Hk Hv Hle. destruct (decide (cursor p = Some k)) as [He|He].
    - left. apply Hcov; [done|]. right. exists k. split; [done|]. done.
    - right. by apply (Hcp k v). }
  assert (forall k, always k -> (exists c, cursor p = Some c /\ String.le k c) \/
    match cursor p with Some c => String.le c k | None => True end) as Hsplit.
  { intros k _. destruct (cursor p) as [c|]; [|by right].
    destruct (total String.le k c); [left; by eexists|by right]. }
  destruct page as [|kv rest]; cbn.
  { rewrite List.app_nil_r. split; [|done]. split; cbn; rewrite List.app_nil_r; [done..| |done].
    intros k Hk _. destruct (Hsplit k Hk) as [Hle|Hle]; [by apply Hcov; [|right]|].
    destruct (Hal k Hk) as [v Hv]. destruct (Hnew k v Hk Hv Hle) as [?|[Hn|[? _]]]; [done| |done].
    by apply not_elem_of_nil in Hn. }
  split; [|done]. split; cbn; rewrite <- List.app_assoc; cbn.
  - rewrite fmap_app. destruct (cursor p) as [c|] eqn:Ecur.
    + apply (ascending_app _ c); [done|done| |].
      * intros x. by eapply ascending_cursor.
      * intros x ([k v] & -> & Hx)%list_elem_of_fmap. by apply Hin in Hx as [_ ?].
    + symmetry in Hc. apply last_None in Hc. by rewrite Hc.
  - rewrite fmap_app, last_app, fmap_last.
    destruct (last (kv :: rest)) eqn:El; [done|]. by apply last_None in El.
  - intros k Hk [?|(c & Hc' & Hle)]; [done|]. rewrite fmap_app, elem_of_app.
    destruct (Hsplit k Hk) as [Hle'|Hle']; [left; by apply Hcov; [|right]|].
    destruct (Hal k Hk) as [v Hv]. destruct (Hnew k v Hk Hv Hle') as [?|[?|[_ Hpast]]]; [by left|by right|].
    destruct (last (kv :: rest)) as [kl|] eqn:El; [|done]. injection Hc' as <-.
    assert (kl.1 ∈ (kv :: rest).*1) as Hkl.
    { apply list_elem_of_fmap. exists kl. split; [done|]. apply last_Some in El as [l' ->].
      apply elem_of_app. right. by apply list_elem_of_singleton. }
    destruct (Hpast _ Hkl) as [Hle2 Hne]. destruct Hne. by apply (anti_symm String.le).
  - apply Forall_app. split; [done|]. apply Forall_forall. intros [k v] Hx. by apply Hever, (Hin k v).
Qed.

Lemma walk_invariant ds p ret :
  walk_inv p ret -> (forall k d, always k -> d ∈ ds -> is_Some (d !! k)) ->
  (forall k v d, d ∈ ds -> d !! k = Some v -> ever (k, v)) ->
  let '(os, p') := walk p ds in
  walk_inv p' (ret ++ omap id os) /\ (None ∈ os -> exhausted p' = true /\ buffer p' = []).
Proof.
  revert p ret. induction ds as [|d ds IH]; intros p ret Hi Hal Hever; cbn.
  { rewrite List.app_nil_r. split; [done|]. by intros ?%not_elem_of_nil. }
  pose proof (walk_step_inv p ret d Hi) as Hs. destruct (walk_step p d) as [o p1].
  destruct Hs as [Hi1 Ho]; [by intros; apply Hal; [|left]|by intros; eapply Hever; [left|]|].
  specialize (IH p1 _ Hi1). destruct (walk p1 ds) as [os p2] eqn:Ew.
  destruct IH as [Hi2 Hos]; [by intros; apply Hal; [|right]|by intros; eapply Hever; [right|]|].
  assert (omap id (o :: os) = option_list o ++ omap id os) as -> by by destruct o.
  rewrite List.app_assoc. split; [done|]. intros [Hn|?]%elem_of_cons; [|by apply Hos].
  destruct (Ho (eq_sym Hn)) as [Hx Hb].
  assert (forall ds, (walk p1 ds).2 = p1) as Hstay.
  { intros ds'. induction ds' as [|d' ds' IHd]; [done|]. cbn. unfold walk_step. rewrite Hb, Hx.
    by destruct (walk p1 ds'). }
  specialize (Hstay ds). rewrite Ew in Hstay. cbn in Hstay. by subst p2.
Qed.
End invariant.

(** Two ascending listings of the same entries are equal. *)
Lemma ascending_unique (l1 l2 : list kv_pair) :
  ascending l1.*1 -> ascending l2.*1 -> (forall x, x ∈ l1 <-> x ∈ l2) -> l1 = l2.
Proof.
  intros [Hs1 Hn1] [Hs2 Hn2] Hin.
  assert (l1 ≡ₚ l2) as Hp.
  { apply NoDup_Permutation; [by eapply NoDup_fmap_1..|done]. }
  clear Hin. revert l2 Hs2 Hn2 Hp.
  induction l1 as [|x l1 IH]; intros l2 Hs2 Hn2 Hp; [by apply Permutation_nil_l in Hp|].
  destruct l2 as [|y l2]; [by apply Permutation_nil_r in Hp|].
  rewrite fmap_cons in Hs1, Hn1, Hs2, Hn2.
  apply StronglySorted_inv in Hs1 as [Hs1 Hx], Hs2 as [Hs2 Hy].
  apply NoDup_cons in Hn1 as [Hx1 Hn1], Hn2 as [Hy2 Hn2].
  assert (x = y) as ->; [|f_equal; apply IH; [done..|by eapply Permutation_cons_inv]].
  assert (x ∈ y :: l2) as [->|Hxl]%elem_of_cons by (rewrite <- Hp; by left); [done|].
  assert (y ∈ x :: l1) as [->|Hyl]%elem_of_cons by (rewrite Hp; by left); [done|].
  rewrite Forall_forall in Hx, Hy.
  assert (x.1 ∈ l2.*1) as Hx2 by (apply list_elem_of_fmap; by exists x).
  assert (y.1 ∈ l1.*1) as Hy1 by (apply list_elem_of_fmap; by exists y).
  assert (x.1 = y.1) as He by (apply (anti_symm String.le); [by apply Hx|by apply Hy]).
  exfalso. apply Hx1. by rewrite He.
Qed.

(** *** A store that stays the same *)

(** The walk after [k] calls, all on the data [d]. *)
Definition pages_at (d : gmap string bytes) (k : nat) : KvPages := (walk new_pages (replicate k d)).2.

Lemma walk_app p ds1 ds2 :
  walk p (ds1 ++ ds2) = ((walk p ds1).1 ++ (walk (walk p ds1).2 ds2).1, (walk (walk p ds1).2 ds2).2).
Proof.
  revert p. induction ds1 as [|d ds1 IH]; intros p; cbn; [by destruct (walk p ds2)|].
  destruct (walk_step p d) as [o p1]. rewrite IH. destruct (walk p1 ds1) as [o1 p2]. cbn. by destruct (walk p2 ds2).
Qed.

Lemma walk_length p ds : length (walk p ds).1 = length ds.
Proof.
  revert p. induction ds as [|d ds IH]; intros p; [done|]. cbn. destruct (walk_step p d) as [o p'].
  specialize (IH p'). destruct (walk p' ds). cbn in *. by rewrite IH.
Qed.

(** The walk is over when it returned nothing. *)
Lemma walk_done ds p : exhausted p = true -> buffer p = [] -> walk p ds = (replicate (length ds) None, p).
Proof.
  intros Hx Hb. induction ds as [|d ds IH]; [done|]. cbn. unfold walk_step. rewrite Hb, Hx. by rewrite IH.
Qed.

Lemma walk_same_entries d n : size d < n ->
  let os := (walk new_pages (replicate n d)).1 in None ∈ os /\ omap id os = kv_list d.
Proof.
  cbn zeta. intros Hsize. set (ds := replicate n d).
  assert (length (walk new_pages ds).1 = n) as Hlen by (rewrite walk_length; apply length_replicate).
  assert (forall x, x ∈ ds -> x = d) as Hds by (intros x Hx; by apply elem_of_replicate in Hx as [? _]).
  pose proof (walk_invariant (fun k => is_Some (d !! k)) (fun kv => d !! kv.1 = Some kv.2)
    ds new_pages [] (walk_inv_new _ _)) as Hw.
  destruct (walk new_pages ds) as [os p]. cbn [fst] in *. cbn [app] in Hw.
  destruct Hw as [[Ha _ Hcov Hev] Hend].
  { intros k x Hk Hx. by rewrite (Hds x Hx). }
  { intros k v x Hx Hv. cbn. by rewrite <- (Hds x Hx). }
  rewrite fmap_app in Ha, Hcov. apply Forall_app in Hev as [Hev _]. rewrite Forall_forall in Hev.
  assert (ascending (omap id os).*1) as Hasc.
  { destruct Ha as [Hs Hn]. apply StronglySorted_app in Hs as (_ & ? & _).
    by apply NoDup_app in Hn as [? _]. }
  assert (omap id os ⊆ map_to_list d) as Hsub.
  { intros [k v] Hk. apply elem_of_map_to_list. exact (Hev _ Hk). }
  assert (None ∈ os) as Hn.
  { destruct (decide (None ∈ os)) as [?|Hno]; [done|]. exfalso.
    assert (length (omap id os) = length os) as Hl.
    { clear -Hno. induction os as [|[kv|] os IH]; [done| |by destruct Hno; left]. cbn. f_equal.
      apply IH. intros ?. apply Hno. by right. }
    pose proof (submseteq_length _ _ (NoDup_submseteq _ _ (NoDup_fmap_1 _ _ (proj2 Hasc)) Hsub)) as Hle.
    rewrite length_map_to_list in Hle. lia. }
  split; [done|]. apply ascending_unique; [done| |].
  { split; [|by apply kv_list_NoDup]. rewrite <- kv_range_full. apply kv_range_ascending. }
  destruct (Hend Hn) as [Hx Hb]. rewrite Hb, List.app_nil_r in Hcov.
  intros [k v]. split; intros Hk.
  - apply elem_of_kv_list, elem_of_map_to_list. by apply Hsub.
  - apply elem_of_kv_list in Hk. assert (k ∈ (omap id os).*1) as Hk' by (apply Hcov; [by eexists|by left]).
    apply list_elem_of_fmap in Hk' as ([k' v'] & -> & Hk'). cbn in *.
    pose proof (Hev _ Hk') as Hv'. cbn in Hv'. assert (v = v') as -> by congruence. exact Hk'.
Qed.

Lemma walk_step_none p d p' : walk_step p d = (None, p') -> exhausted p' = true /\ buffer p' = [].
Proof.
  unfold walk_step, turn_page. destruct (buffer p) as [|kv rest] eqn:Eb; [|done].
  destruct (exhausted p) eqn:Ex; [by intros [= <-]|].
  destruct (drop_resume _ _); [by intros [= <-]|done].
Qed.

(** The entries come one after another, and then no more. *)
Lemma walk_shape p ds : exists l j, (walk p ds).1 = (Some <$> l) ++ replicate j None.
Proof.
  revert p. induction ds as [|d ds IH]; intros p; [by exists [], 0|]. cbn.
  destruct (walk_step p d) as [[kv|] p'] eqn:Es.
  - destruct (IH p') as (l & j & Hl). destruct (walk p' ds). cbn in *. subst. by exists (kv :: l), j.
  - apply walk_step_none in Es as [Hx Hb]. rewrite walk_done by done. cbn.
    by exists [], (Datatypes.S (length ds)).
Qed.

Lemma omap_some {A} (l : list A) j : omap id ((Some <$> l) ++ replicate j None) = l.
Proof.
  induction l as [|a l IH]; cbn; [by induction j|]. f_equal. exact IH.
Qed.

Lemma walk_same_shape d n :
  (walk new_pages (replicate n d)).1 = take n ((Some <$> kv_list d) ++ replicate n None).
Proof.
  set (m := Nat.max n (Datatypes.S (size d))).
  pose proof (walk_same_entries d m ltac:(lia)) as [_ He]. pose proof (walk_length new_pages (replicate m d)) as Hlen.
  destruct (walk_shape new_pages (replicate m d)) as (l & j & Hs).
  assert ((walk new_pages (replicate n d)).1 = take n (walk new_pages (replicate m d)).1) as ->.
  { replace m with (n + (m - n)) by lia. rewrite replicate_add, walk_app. cbn [fst].
    rewrite take_app_length'; [done|]. by rewrite walk_length, length_replicate. }
  rewrite Hs in *. rewrite omap_some in He. subst l.
  rewrite List.length_app, length_fmap, !length_replicate in Hlen.
  rewrite !take_app, !take_replicate, length_fmap. do 2 f_equal. lia.
Qed.

Lemma walk_step_at d k : walk_step (pages_at d k) d = (kv_list d !! k, pages_at d (Datatypes.S k)).
Proof.
  pose proof (walk_same_shape d (Datatypes.S k)) as Hs.
  unfold pages_at. replace (replicate (Datatypes.S k) d) with (replicate k d ++ [d]) in *
    by (rewrite <- replicate_cons_app; done).
  rewrite walk_app in *. cbn [fst snd walk] in *. destruct (walk_step _ d) as [o p'] eqn:Es. cbn [fst snd] in *.
  f_equal. apply (f_equal (fun l => l !! k)) in Hs.
  rewrite lookup_app_r in Hs by (rewrite walk_length, length_replicate; done).
  rewrite walk_length, length_replicate, Nat.sub_diag in Hs. cbn in Hs.
  rewrite lookup_take_lt in Hs by lia.
  destruct (decide (k < length (kv_list d))) as [Hk|Hk].
  - rewrite lookup_app_l in Hs by by rewrite length_fmap. rewrite list_lookup_fmap in Hs.
    destruct (kv_list d !! k) eqn:El; cbn in Hs; [congruence|]. apply lookup_ge_None in El. lia.
  - rewrite lookup_app_r in Hs by (rewrite length_fmap; lia). rewrite length_fmap in Hs.
    rewrite lookup_ge_None_2 by lia. change (None :: replicate k None) with (replicate (Datatypes.S k) (None : option kv_pair)) in Hs.
    rewrite lookup_replicate_2 in Hs by lia. congruence.
Qed.

Section calls.
Context {S T : Type} `{!KvStore S T} `{!KvLaws S T} `{!StoreText}.

(** One call of [next] on each of the states [ss]: the store as the walk finds
    it, whatever other tasks did between two calls. *)
Fixpoint walk_calls (p : KvPages) (ss : list S) : list (result (option kv_pair) FsError) :=
  match ss with
  | [] => []
  | s :: ss => let '((r, p), _) := next p s in r :: walk_calls p ss
  end.

Lemma walk_calls_eq p ss : Forall kv_up ss ->
  walk_calls p ss = Ok <$> (walk p (kv_data <$> ss)).1.
Proof.
  intros Hss. revert p. induction Hss as [|s ss Hs Hss IH]; intros p; [done|]. cbn.
  assert (wp (next p) (fun a _ => a = (Ok (walk_step p (kv_data s)).1, (walk_step p (kv_data s)).2)) s) as Hn
    by (by apply wp_next).
  unfold wp in Hn. destruct (next p s) as [a s']. subst a. rewrite IH.
  destruct (walk_step p (kv_data s)) as [o p']. cbn. by destruct (walk p' _).
Qed.

(** The entries among the answers of a walk. *)
Definition entries_of (os : list (result (option kv_pair) FsError)) : list kv_pair :=
  omap (fun r => match r with Ok o => o | Err _ => None end) os.

Lemma entries_of_ok os : entries_of (Ok <$> os) = omap id os.
Proof. induction os as [|[kv|] os IH]; [done|cbn; by rewrite <- IH|done]. Qed.

(** C32: the paged walk is exact.  Whatever changes between two calls, a walk
    over a store that answers returns each key once and in ascending order,
    every entry as the store held it at one of the calls, and a walk that
    reached its end returned every key that was there throughout.  On a store
    that stays the same, it ends, and it returned the whole store. *)
Theorem paged_walk_exact (ss : list S) : Forall kv_up ss ->
  let os := walk_calls new_pages ss in
  let entries := entries_of os in
  Forall (fun r => is_ok r = true) os /\ ascending entries.*1 /\
  (forall k v, (k, v) ∈ entries -> exists s, s ∈ ss /\ kv_data s !! k = Some v) /\
  (Ok None ∈ os -> forall k, (forall s, s ∈ ss -> is_Some (kv_data s !! k)) -> k ∈ entries.*1) /\
  (forall d, (forall s, s ∈ ss -> kv_data s = d) -> size d < length ss ->
     Ok None ∈ os /\ entries = kv_list d).
Proof.
  intros Hup. cbn zeta. rewrite (walk_calls_eq _ _ Hup), entries_of_ok. set (ds := kv_data <$> ss).
  assert (length (walk new_pages ds).1 = length ss) as Hlen.
  { rewrite <- (length_fmap kv_data ss). fold ds. generalize new_pages.
    induction ds as [|d ds' IH]; intros p; [done|]. cbn. destruct (walk_step p d) as [o p'].
    specialize (IH p'). destruct (walk p' ds'). cbn in *. by rewrite IH. }
  pose proof (walk_invariant (fun k => forall d, d ∈ ds -> is_Some (d !! k))
    (fun kv => exists d, d ∈ ds /\ d !! kv.1 = Some kv.2) ds new_pages [] (walk_inv_new _ _)) as Hw.
  destruct (walk new_pages ds) as [os p] eqn:Ew. cbn [fst] in *. cbn [app] in Hw.
  destruct Hw as [[Ha _ Hcov Hev] Hend]; [naive_solver|intros; by eexists|].
  rewrite fmap_app in Ha, Hcov. apply Forall_app in Hev as [Hev _].
  assert (ascending (omap id os).*1) as Hasc.
  { destruct Ha as [Hs Hn]. apply StronglySorted_app in Hs as (_ & ? & _).
    by apply NoDup_app in Hn as [? _]. }
  assert (None ∈ os -> forall k, (forall d, d ∈ ds -> is_Some (d !! k)) -> k ∈ (omap id os).*1) as Hall.
  { intros Hn k Hk. destruct (Hend Hn) as [Hx Hb]. rewrite Hb, List.app_nil_r in Hcov.
    apply Hcov; [done|by left]. }
  assert (Ok None ∈ (Ok <$> os : list (result (option kv_pair) FsError)) <-> None ∈ os) as Hnone.
  { rewrite list_elem_of_fmap. split; [by intros (? & [= ->] & ?)|by eexists]. }
  rewrite Hnone. rewrite Forall_forall in Hev. split; [by apply Forall_fmap, Forall_true|].
  split; [done|]. split; [|split].
  - intros k v Hk. destruct (Hev _ Hk) as (d & (s & -> & Hs)%list_elem_of_fmap & Hd). by exists s.
  - intros Hn k Hk. apply Hall; [done|]. intros d (s & -> & Hs)%list_elem_of_fmap. by apply Hk.
  - intros d Hd Hsize.
    assert (forall x, x ∈ ds -> x = d) as Hds by (intros x (s & -> & Hs)%list_elem_of_fmap; by apply Hd).
    assert (omap id os ⊆ map_to_list d) as Hsub.
    { intros [k v] Hk. destruct (Hev _ Hk) as (x & Hx & Hv). apply elem_of_map_to_list.
      by rewrite <- (Hds x Hx). }
    assert (None ∈ os) as Hn.
    { destruct (decide (None ∈ os)) as [?|Hno]; [done|]. exfalso.
      assert (length (omap id os) = length os) as Hl.
      { clear -Hno. induction os as [|[kv|] os IH]; [done| |by destruct Hno; left]. cbn. f_equal.
        apply IH. intros ?. apply Hno. by right. }
      pose proof (submseteq_length _ _ (NoDup_submseteq _ _ (NoDup_fmap_1 _ _ (proj2 Hasc)) Hsub)) as Hle.
      rewrite length_map_to_list in Hle. lia. }
    split; [by apply Hnone|]. apply ascending_unique; [done| |].
    + split; [|by apply kv_list_NoDup].
      rewrite <- kv_range_full. apply kv_range_ascending.
    + intros [k v]. split; intros Hk.
      * apply elem_of_kv_list, elem_of_map_to_list. by apply Hsub.
      * apply elem_of_kv_list in Hk. assert (k ∈ (omap id os).*1) as Hk'.
        { apply Hall; [done|]. intros x Hx. rewrite (Hds x Hx). by eexists. }
        apply list_elem_of_fmap in Hk' as ([k' v'] & -> & Hk'). cbn in *.
        pose proof (Hsub _ Hk') as Hv'. apply elem_of_map_to_list in Hv'. assert (v = v') as -> by congruence. exact Hk'.
Qed.
End calls.
