(* ===== verification/Policy.v ===== *)
(** Policy: authorization ([src/src/policy/mod.rs], [policy/row.rs]): the
    actions, the read side ([Authorizer]), the write side ([PolicyEngine]) with
    its announcements on the change feed, and the claim of the first superadmin.

    The RBAC engine is the casbin library: its operations are the class
    [Enforcer], and the documented behaviour the theorems rely on is the class
    [EnforcerLaws].  A block under the engine's write guard is one atomic
    action. *)
From S2P Require Import Prelude.
From S2P Require Import Effects.
From S2P Require Import RustStr.
From S2P Require Import Kv.
From S2P Require Import FsTypes.

Inductive Action : Type := Read | Write | Delete | Execute.

#[export] Instance Action_eq_dec : EqDecision Action.
Proof. solve_decision. Defined.

(** [Display for Action] *)
Definition action_text (a : Action) : string :=
  match a with
  | Read => "read"
  | Write => "write"
  | Delete => "delete"
  | Execute => "execute"
  end.

(** [Action::from_str].  The code lowers the case of every letter; no letter
    beyond ASCII has one of these words as its lower case. *)
Definition action_from_str (s : string) : result Action string :=
  let word := to_ascii_lowercase s in
  if bool_decide (word = "read") then Ok Read else
  if bool_decide (word = "write") then Ok Write else
  if bool_decide (word = "delete") then Ok Delete else
  if bool_decide (word = "execute") then Ok Execute else
  Err ("Unknown action: " +:+ s).

Lemma action_from_text a s : eq_ignore_ascii_case s (action_text a) = true <-> action_from_str s = Ok a.
Proof.
  unfold eq_ignore_ascii_case, action_from_str. rewrite bool_decide_eq_true.
  split; [intros ->; by destruct a|]. intros Ha. repeat case_bool_decide; by simplify_eq.
Qed.

(** [casbin::Error]: a failure of the adapter, which is a store error when it
    downcasts to one, or another failure. *)
Inductive CasbinError : Type :=
| AdapterError (e : StoreError + string)
| CasbinOther (d : string).

Inductive PolicyError : Type :=
| PolicyStore (e : StoreError)
| PolicyCasbin (e : CasbinError)
| PolicyAccessDenied
| PolicyChangeFeed (d : string)
| PolicyFenced (reason : string).

Definition policy_fencing_loss (e : PolicyError) : bool :=
  match e with PolicyFenced _ => true | _ => false end.

(** The operations of [casbin::Enforcer] with the program's model and adapter. *)
Class Enforcer (E : Type) := {
  ef_enforce : string -> string -> string -> E -> result bool CasbinError;
  ef_policy : E -> list (list string);
  ef_grouping : E -> list (list string);
  ef_filtered : nat -> list string -> E -> list (list string);
  ef_all_roles : E -> list string;
  ef_users_for_role : string -> E -> list string;
  ef_roles_for_user : string -> E -> list string;
  ef_add_policy : list string -> act E (result bool CasbinError);
  ef_remove_policy : list string -> act E (result bool CasbinError);
  ef_add_grouping : list string -> act E (result bool CasbinError);
  ef_remove_grouping : list string -> act E (result bool CasbinError);
  ef_remove_filtered_grouping : nat -> list string -> act E (result bool CasbinError);
}.

(** What the calls of a policy engine change. *)
Record policy_world (E F : Type) := PolicyWorld { enforcer : E; pw_latch : Latch; pw_feed : F }.
Arguments PolicyWorld {E F} enforcer pw_latch pw_feed.
Arguments enforcer {E F} p.
Arguments pw_latch {E F} p.
Arguments pw_feed {E F} p.

#[export] Instance enforcer_lens {E F} : Lens E (policy_world E F) :=
  {| view := enforcer; upd e w := PolicyWorld e (pw_latch w) (pw_feed w) |}.
#[export] Instance pw_latch_lens {E F} : Lens Latch (policy_world E F) :=
  {| view := pw_latch; upd l w := PolicyWorld (enforcer w) l (pw_feed w) |}.
#[export] Instance pw_feed_lens {E F} : Lens F (policy_world E F) :=
  {| view := pw_feed; upd f w := PolicyWorld (enforcer w) (pw_latch w) f |}.

(** ** The read side *)

Section authorizer.
Context {E : Type} `{!Enforcer E}.

(** [PolicyError::from(casbin::Error)] without the latch: a read does not write
    to the store. *)
Definition classified (e : CasbinError) : PolicyError :=
  match e with
  | AdapterError (inl (StoreFenced reason)) => PolicyFenced reason
  | _ => PolicyCasbin e
  end.

Definition authorize (sub obj : string) (a : Action) (e : E) : result bool PolicyError :=
  map_err classified (ef_enforce sub obj (action_text a) e).

Definition require (sub obj : string) (a : Action) (e : E) : result unit PolicyError :=
  match authorize sub obj a e with
  | Ok true => Ok tt
  | Ok false => Err PolicyAccessDenied
  | Err err => Err err
  end.

Definition get_users_in_group (group : string) (e : E) : list string := ef_users_for_role group e.
Definition get_groups_of_user (user : string) (e : E) : list string := ef_roles_for_user user e.

(** The (object, action) pairs of a subject's rules. *)
Definition rule_pair (r : list string) : option (string * string) :=
  obj ← r !! 1; a ← r !! 2; Some (obj, a).

Definition rules_for_subject (sub : string) (e : E) : list (string * string) :=
  omap rule_pair (ef_filtered 0 [sub] e).

(** *** Rows *)

Definition row_object (row_type row_id : string) : string := row_type +:+ ":" +:+ row_id.

Definition authorize_row (sub row_type row_id : string) (a : Action) (e : E) : result bool PolicyError :=
  authorize sub (row_object row_type row_id) a e.

Definition require_row (sub row_type row_id : string) (a : Action) (e : E) : result unit PolicyError :=
  require sub (row_object row_type row_id) a e.
End authorizer.

(** ** The write side *)

Definition SUPERADMIN_ROLE : string := "superadmin".

Record GroupSummary := { gs_name : string; gs_members : nat }.
Record UserAssignment := { ua_sub : string; ua_groups : list string }.

Section engine.
Context {E F : Type} `{!Enforcer E} `{!ChangeSink F}.

(** Whether a change feed is installed. *)
Variable feed : bool.

#[local] Abbreviation W := (policy_world E F).
#[local] Abbreviation task := (prog W).

Definition POLICY_PREFIX : string := "{db}/policy".

(** [classify_with]: a store error that is a lost epoch trips the latch. *)
Definition classify (e : CasbinError) : act W PolicyError :=
  match e with
  | AdapterError (inl (StoreFenced reason)) =>
      _ ← zoom (trip POLICY_PREFIX reason); mret (PolicyFenced reason)
  | _ => mret (PolicyCasbin e)
  end.

(** A write of the enforcer, its failure classified. *)
Definition on_enforcer {A} (m : act E (result A CasbinError)) : act W (result A PolicyError) :=
  r ← zoom m;
  match r with
  | Ok a => mret (Ok a)
  | Err e => err ← classify e; mret (Err err)
  end.

Definition announce (op : WalOp) : task (result unit PolicyError) :=
  if feed then atomically (map_errM PolicyChangeFeed (zoom (append op))) else mret (Ok tt).

(** The announcement of a call that changed something. *)
Definition announced (success : bool) (op : WalOp) : task (result bool PolicyError) :=
  if success then _ <-? announce op; mret (Ok true) else mret (Ok false).

Definition get_all_rules (w : W) : list (list string) := ef_policy (enforcer w).

Definition add_rule (sub obj : string) (a : Action) : task (result bool PolicyError) :=
  success <-? atomically (on_enforcer (ef_add_policy [sub; obj; action_text a]));
  announced success (PolicyRuleAdd sub obj (action_text a)).

Definition remove_rule (sub obj : string) (a : Action) : task (result bool PolicyError) :=
  success <-? atomically (on_enforcer (ef_remove_policy [sub; obj; action_text a]));
  announced success (PolicyRuleRemove sub obj (action_text a)).

Definition assign_group (user group : string) : task (result bool PolicyError) :=
  success <-? atomically (on_enforcer (ef_add_grouping [user; group]));
  announced success (GroupAdd user group).

Definition remove_from_group (user group : string) : task (result bool PolicyError) :=
  success <-? atomically (on_enforcer (ef_remove_grouping [user; group]));
  announced success (GroupRemove user group).

Definition delete_group (group : string) : task (result bool PolicyError) :=
  removed <-? atomically (on_enforcer (ef_remove_filtered_grouping 1 [group]));
  announced removed (GroupDelete group).

(** *** The first superadmin *)

Definition superadmin_rules : list (string * Action) :=
  [("rules", Read); ("rules", Write); ("user_groups", Read); ("user_groups", Write)].

Fixpoint ensure_rules (rules : list (string * Action)) (added : list (string * Action)) :
    act W (result (list (string * Action)) PolicyError) :=
  match rules with
  | [] => mret (Ok added)
  | (obj, a) :: rules =>
      new <-? on_enforcer (ef_add_policy [SUPERADMIN_ROLE; obj; action_text a]);
      ensure_rules rules (if (new : bool) then added ++ [(obj, a)] else added)
  end.

Definition ensure_superadmin_rules : act W (result (list (string * Action)) PolicyError) :=
  ensure_rules superadmin_rules [].

Fixpoint announce_rules (rules : list (string * Action)) : task (result unit PolicyError) :=
  match rules with
  | [] => mret (Ok tt)
  | (obj, a) :: rules =>
      _ <-? announce (PolicyRuleAdd SUPERADMIN_ROLE obj (action_text a));
      announce_rules rules
  end.

(** The part of [claim_superadmin] under the write guard: whether the claim
    was won, and the rules that were added. *)
Definition claim_locked (user : string) : act W (result (bool * list (string * Action)) PolicyError) :=
  users ← zoom (fun e => (ef_users_for_role SUPERADMIN_ROLE e, e));
  match users with
  | _ :: _ =>
      repaired <-? ensure_superadmin_rules;
      mret (Ok (false, repaired))
  | [] =>
      _ <-? on_enforcer (ef_add_grouping [user; SUPERADMIN_ROLE]);
      seeded <-? ensure_superadmin_rules;
      mret (Ok (true, seeded))
  end.

Definition claim_superadmin (user : string) : task (result bool PolicyError) :=
  '(won, rules) <-? atomically (claim_locked user);
  _ <-? (if (won : bool) then announce (GroupAdd user SUPERADMIN_ROLE) else mret (Ok tt));
  _ <-? announce_rules rules;
  mret (Ok won).

(** *** Listings *)

Definition name_le (a b : GroupSummary) : bool := bool_decide (String.le (gs_name a) (gs_name b)).

Definition list_groups (w : W) : list GroupSummary :=
  sort_by name_le
    ((fun name => {| gs_name := name; gs_members := length (ef_users_for_role name (enforcer w)) |})
       <$> ef_all_roles (enforcer w)).

Definition add_link (by_user : gmap string (list string)) (link : list string) :
    gmap string (list string) :=
  match link with
  | user :: group :: _ => <[user := default [] (by_user !! user) ++ [group]]> by_user
  | _ => by_user
  end.

(** The assignments; a link without two fields, on which the code panics, does
    not occur. *)
Definition list_user_assignments (w : W) : list UserAssignment :=
  sort_by (fun a b => bool_decide (String.le (ua_sub a) (ua_sub b)))
    ((fun ug => {| ua_sub := ug.1;
                   ua_groups := sort_by (fun a b => bool_decide (String.le a b)) ug.2 |})
       <$> map_to_list (foldl add_link ∅ (ef_grouping (enforcer w)))).
End engine.

(** ** What is relied on *)

(** Casbin's documented behaviour of the calls the theorems use: the users of a
    role are those of the grouping rules, and a rule that was added stays until
    it is removed. *)
Class EnforcerLaws (E : Type) `{Enforcer E} := {
  ef_role_users e : forall user group, [user; group] ∈ ef_grouping e -> user ∈ ef_users_for_role group e;
  ef_add_grouping_law rule e : wp (ef_add_grouping rule) (fun r e' =>
    (forall x, x ∈ ef_grouping e -> x ∈ ef_grouping e') /\
    (is_ok r = true -> rule ∈ ef_grouping e')) e;
  ef_add_policy_law rule e : wp (ef_add_policy rule) (fun r e' =>
    ef_grouping e' = ef_grouping e) e;
}.

Section claims.
Context {E F : Type} `{!Enforcer E} `{!EnforcerLaws E} `{!ChangeSink F}.
Variable feed : bool.

#[local] Abbreviation W := (policy_world E F).

(** Somebody is superadmin. *)
Definition claimed (w : W) : Prop := exists user, [user; SUPERADMIN_ROLE] ∈ ef_grouping (enforcer w).

(** The world of the claims: nobody loses a group. *)
Definition keeps_groups (w w' : W) : Prop :=
  forall x, x ∈ ef_grouping (enforcer w) -> x ∈ ef_grouping (enforcer w').

#[local] Instance keeps_groups_preorder : PreOrder keeps_groups.
Proof. split; [by intros w x|]. intros a b c Hab Hbc x Hx. by apply Hbc, Hab. Qed.

Lemma claimed_kept w w' : keeps_groups w w' -> claimed w -> claimed w'.
Proof. intros Hk [u Hu]. exists u. by apply Hk. Qed.

Lemma wp_on_enforcer {A} (m : act E (result A CasbinError)) Q (w : W) :
  wp m (fun r e' => forall l, match r with Ok a => Q (Ok a) (PolicyWorld e' l (pw_feed w))
                               | Err _ => forall e, Q (Err e) (PolicyWorld e' l (pw_feed w)) end) (enforcer w) ->
  wp (on_enforcer m) Q w.
Proof.
  intros Hm. unfold on_enforcer. apply wp_bind, wp_zoom. eapply wp_mono; [exact Hm|].
  intros [a|e] e' Hr; [by apply wp_ret, Hr|]. apply wp_bind. unfold classify.
  destruct e as [[[]|]|]; cbn.
  1: apply wp_bind, wp_zoom; unfold wp at 1, trip; destruct (tripped _); cbn; apply wp_ret, wp_ret, Hr.
  all: apply wp_ret, wp_ret; destruct w; apply Hr.
Qed.

Lemma wp_ensure_rules rules added w :
  wp (ensure_rules rules added) (fun _ w' => keeps_groups w w') w.
Proof.
  revert added w. induction rules as [|[obj a] rules IH]; intros added w; [by apply wp_ret|].
  cbn [ensure_rules]. apply wp_bindR, wp_on_enforcer. eapply wp_mono; [apply ef_add_policy_law|].
  intros r e' He l. assert (keeps_groups w (PolicyWorld e' l (pw_feed w))) as Hk.
  { intros x. cbn. by rewrite He. }
  destruct r as [new|err]; [|done]. eapply wp_mono; [apply IH|]. intros ? w' ?. by etrans.
Qed.

(** What the guarded part of a claim does. *)
Lemma wp_claim_locked user w :
  wp (claim_locked user) (fun r w' => keeps_groups w w' /\
    (forall rules, r = Ok (true, rules) -> ~ claimed w /\ claimed w')) w.
Proof.
  unfold claim_locked. apply wp_bind, wp_zoom. cbn.
  assert (PolicyWorld (enforcer w) (pw_latch w) (pw_feed w) = w) as -> by by destruct w.
  destruct (ef_users_for_role SUPERADMIN_ROLE (enforcer w)) as [|u us] eqn:Eu.
  - assert (~ claimed w) as Hn.
    { intros [u Hu]. apply ef_role_users in Hu. rewrite Eu in Hu. by apply not_elem_of_nil in Hu. }
    apply wp_bindR, wp_on_enforcer. eapply wp_mono; [apply ef_add_grouping_law|].
    intros r e' [Hk Hr] l. destruct r as [b|err]; [|done].
    apply wp_bindR. eapply wp_mono; [apply (wp_ensure_rules superadmin_rules [])|]. intros [seeded|err] w' Hw'.
    + apply wp_ret. split; [intros x Hx; by apply Hw', Hk|]. intros _ _. split; [done|].
      exists user. apply Hw'. by apply Hr.
    + split; [intros x Hx; by apply Hw', Hk|done].
  - apply wp_bindR. eapply wp_mono; [apply (wp_ensure_rules superadmin_rules [])|].
    intros [repaired|err] w' Hw'; [apply wp_ret|]; by split.
Qed.

Lemma rg_announce post op w : (forall r w', post r w') -> rg keeps_groups post (announce (E := E) feed op) w.
Proof.
  intros Hp. unfold announce. destruct feed; [|by intros w0 _].
  apply rg_atomically. intros w0 _. apply wp_map_errM, wp_zoom, wp_intro. intros r f' _.
  split; [by intros x|auto].
Qed.

Lemma rg_announce_rules post rules w : (forall r w', post r w') ->
  rg keeps_groups post (announce_rules (E := E) feed rules) w.
Proof.
  intros Hp. revert w. induction rules as [|[obj a] rules IH]; intros w; cbn [announce_rules].
  { by intros w0 _. }
  apply rg_bindR; [apply _|]. apply rg_announce. intros [[]|e] w'; [apply IH|auto].
Qed.

Lemma rg_claim_superadmin user w : claimed w ->
  rg keeps_groups (fun r _ => r <> Ok true) (claim_superadmin (E := E) feed user) w.
Proof.
  intros Hc. unfold claim_superadmin. apply rg_bindR; [apply _|]. apply rg_atomically. intros w0 Hw0.
  eapply wp_mono; [apply wp_claim_locked|]. intros r w1 [Hk Hwon]. split; [done|].
  intros w2 _. destruct r as [[[] rules]|e]; [|..].
  - exfalso. destruct (Hwon rules eq_refl) as [Hn _]. apply Hn. by eapply claimed_kept.
  - apply rg_bindR; [apply _|]. intros w3 _. apply rg_bindR; [apply _|].
    apply rg_announce_rules. intros [[]|e] w4; [by intros w5 _|by intros w5 _].
  - by intros w3 _.
Qed.

Abbreviation loser := (rg keeps_groups (fun (r : result bool PolicyError) (_ : W) => r <> Ok true)).
Abbreviation anyhow := (rg keeps_groups (fun (_ : result bool PolicyError) (_ : W) => True)).

(** The first step of a claim loses, or finds the role free and takes it. *)
Lemma claim_first_step user w :
  let '(p', w') := prog_step (claim_superadmin (E := E) feed user) w in
  keeps_groups w w' /\ (loser p' w' \/ (~ claimed w /\ claimed w' /\ anyhow p' w')).
Proof.
  pose proof (wp_claim_locked user w) as Hc. unfold wp in Hc. cbn.
  destruct (claim_locked user w) as [r w']. destruct Hc as [Hk Hwon]. split; [done|].
  destruct r as [[[] rules]|e]; cbn.
  - right. destruct (Hwon rules eq_refl) as [Hn Hw']. split; [done|]. split; [done|].
    apply rg_bindR; [apply _|]. apply rg_announce. intros [[]|e] w1; [|by intros w2 _].
    apply rg_bindR; [apply _|]. apply rg_announce_rules. by intros [[]|e] w2 w3 _.
  - left. apply rg_bindR; [apply _|]. apply rg_announce_rules. by intros [[]|e] w2 w3 _.
  - left. by intros w2 _.
Qed.

(** C33: the first superadmin is the only one: of any number of concurrent claims,
    under every interleaving of their steps, at most one is answered with
    success. *)
Theorem superadmin_claimed_once users sched w i j :
  let c := pool_run sched (claim_superadmin (E := E) feed <$> users, w) in
  c.1 !! i = Some (Ret (Ok true)) -> c.1 !! j = Some (Ret (Ok true)) -> i = j.
Proof.
  cbn zeta.
  pose (I := fun c : list (prog W (result bool PolicyError)) * W => exists win : option nat,
    (win <> None -> claimed c.2) /\
    forall k p, c.1 !! k = Some p ->
      (win = Some k /\ anyhow p c.2) \/ loser p c.2 \/ exists u, p = claim_superadmin feed u).
  assert (forall win (ps : list (prog W (result bool PolicyError))) w1 w2, keeps_groups w1 w2 ->
    (forall k p, ps !! k = Some p -> (win = Some k /\ anyhow p w1) \/ loser p w1 \/ exists u, p = claim_superadmin feed u) ->
    forall k p, ps !! k = Some p ->
      (win = Some k /\ anyhow p w2) \/ loser p w2 \/ exists u, p = claim_superadmin feed u) as Hmove.
  { intros win ps w1 w2 Hk Hall k p Hp. destruct (Hall k p Hp) as [[? ?]|[?|?]];
      [left; split; [done|]|right; left|by right; right]; (eapply (rg_stable keeps_groups); [exact Hk|done]). }
  assert (I (pool_run sched (claim_superadmin (E := E) feed <$> users, w))) as (win & _ & Hall).
  { apply pool_run_invariant.
    - exists None. split; [done|]. intros k p Hp. cbn in Hp. rewrite list_lookup_fmap in Hp; destruct (users !! k) as [u|]; [|done]; injection Hp as <-.
      right. right. by eexists.
    - intros k [ps w1] (win & Hwin & Hall). unfold pool_step. cbn in *.
      destruct (ps !! k) as [p|] eqn:Ek; [|by exists win].
      destruct (prog_step p w1) as [p' w2] eqn:Es.
      assert (forall win', (win' <> None -> claimed w2) -> keeps_groups w1 w2 ->
        (win' = win \/ (win = None /\ win' = Some k)) ->
        ((win' = Some k /\ anyhow p' w2) \/ loser p' w2) -> I (<[k := p']> ps, w2)) as Hnext.
      { intros win' Hw' Hk Hwin' Hp'. exists win'. split; [done|]. cbn. intros m q Hq.
        destruct (decide (k = m)) as [<-|Hne].
        - rewrite list_lookup_insert_eq in Hq by by eapply lookup_lt_Some. injection Hq as <-.
          destruct Hp'; auto.
        - rewrite list_lookup_insert_ne in Hq by done.
          destruct (Hmove win ps w1 w2 Hk Hall m q Hq) as [[-> ?]|?]; [|by right].
          left. destruct Hwin' as [->|[? _]]; [by split|done]. }
      destruct (Hall k p Ek) as [[-> Hp]|[Hp|[u ->]]].
      + destruct (rg_step keeps_groups _ _ _ _ _ Hp Es) as [Hk Hp'].
        apply (Hnext (Some k)); [|done|by left|by left]. intros _. eapply claimed_kept; [done|by apply Hwin].
      + destruct (rg_step keeps_groups _ _ _ _ _ Hp Es) as [Hk Hp'].
        apply (Hnext win); [|done|by left|by right]. intros Hn. eapply claimed_kept; [done|by apply Hwin].
      + pose proof (claim_first_step u w1) as Hc. assert (prog_step (claim_superadmin (E := E) feed u) w1 = (p', w2)) as Es1 by exact Es. rewrite Es1 in Hc. destruct Hc as [Hk [Hl|(Hn & Hc & Ha)]].
        * apply (Hnext win); [|done|by left|by right]. intros Hne. eapply claimed_kept; [done|by apply Hwin].
        * apply (Hnext (Some k)); [done|done| |by left]. right. split; [|done].
          destruct win; [|done]. destruct Hn. by apply Hwin. }
  assert (forall k, (pool_run sched (claim_superadmin (E := E) feed <$> users, w)).1 !! k = Some (Ret (Ok true)) ->
    win = Some k) as Hone.
  { intros k Hk. destruct (Hall k _ Hk) as [[? _]|[Hl|[u Hu]]]; [done| |done].
    exfalso. by apply (Hl _ (reflexivity _)). }
  intros Hi Hj. apply Hone in Hi, Hj. congruence.
Qed.
End claims.

(** ** An RBAC engine in memory, and examples *)
Module PolicyExamples.

Record mem := Mem { policy : list (list string); grouping : list (list string) }.

(** Whether [u] is [g] or, through at most [n] links, a member of it. *)
Fixpoint member (n : nat) (u g : string) (links : list (list string)) : bool :=
  bool_decide (u = g) ||
  match n with
  | O => false
  | S n => existsb (fun l => match l with
                             | [a; b] => bool_decide (a = u) && member n b g links
                             | _ => false
                             end) links
  end.

(** A rule is for a subject, or for a group that it is in, up to casbin's ten
    levels. *)
Definition allows (sub obj a : string) (e : mem) : bool :=
  existsb (fun r => match r with
                    | [s; o; x] => member 10 sub s (grouping e) &&
                                   bool_decide (o = obj) && bool_decide (x = a)
                    | _ => false
                    end) (policy e).

Definition add_new (r : list string) (l : list (list string)) : bool * list (list string) :=
  if bool_decide (r ∈ l) then (false, l) else (true, l ++ [r]).

Definition drop_rule (r : list string) (l : list (list string)) : bool * list (list string) :=
  (bool_decide (r ∈ l), List.filter (fun x => negb (bool_decide (x = r))) l).

Definition users_of (role : string) (e : mem) : list string :=
  omap (fun r => match r with [u; g] => if bool_decide (g = role) then Some u else None | _ => None end)
    (grouping e).

Definition on_policy (f : list (list string) -> bool * list (list string)) : act mem (result bool CasbinError) :=
  fun e => let '(b, l) := f (policy e) in (Ok b, Mem l (grouping e)).
Definition on_grouping (f : list (list string) -> bool * list (list string)) : act mem (result bool CasbinError) :=
  fun e => let '(b, l) := f (grouping e) in (Ok b, Mem (policy e) l).

Definition field_is (i : nat) (vs : list string) (r : list string) : bool :=
  bool_decide (take (length vs) (drop i r) = vs).

#[export] Instance mem_enforcer : Enforcer mem := {
  ef_enforce sub obj a e := Ok (allows sub obj a e);
  ef_policy := policy;
  ef_grouping := grouping;
  ef_filtered i vs e := List.filter (field_is i vs) (policy e);
  ef_all_roles e := remove_dups (omap (fun r => r !! 1) (grouping e));
  ef_users_for_role := users_of;
  ef_roles_for_user user e :=
    omap (fun r => match r with [u; g] => if bool_decide (u = user) then Some g else None | _ => None end)
      (grouping e);
  ef_add_policy r := on_policy (add_new r);
  ef_remove_policy r := on_policy (drop_rule r);
  ef_add_grouping r := on_grouping (add_new r);
  ef_remove_grouping r := on_grouping (drop_rule r);
  ef_remove_filtered_grouping i vs :=
    on_grouping (fun l => (existsb (field_is i vs) l, List.filter (fun r => negb (field_is i vs r)) l));
}.

#[export] Instance mem_enforcer_laws : EnforcerLaws mem.
Proof.
  split.
  - intros [p g] user group Hg. cbn in *. unfold users_of. apply list_elem_of_omap.
    exists [user; group]. split; [done|]. by rewrite bool_decide_true.
  - intros rule [p g]. unfold wp. cbn. unfold on_grouping, add_new. cbn.
    destruct (bool_decide_reflect (rule ∈ g)); [done|]. cbn. split; [|intros _].
    + intros x Hx. apply elem_of_app. by left.
    + apply elem_of_app. right. by apply list_elem_of_singleton.
  - intros rule [p g]. unfold wp, ef_add_policy, mem_enforcer, on_policy. by destruct (add_new rule _).
Qed.

(** A change feed that keeps what it was given. *)
#[export] Instance list_sink : ChangeSink (list WalOp) := {| append op := fun l => (Ok tt, l ++ [op]) |}.

Definition fresh : policy_world mem (list WalOp) := PolicyWorld (Mem [] []) new_latch [].

Definition race : list (prog (policy_world mem (list WalOp)) (result bool PolicyError)) *
    policy_world mem (list WalOp) :=
  pool_run ([1; 0] ++ replicate 8 0 ++ replicate 8 1) (claim_superadmin true <$> ["ann"; "bob"], fresh).

Lemma superadmin_claimed_once_witness :
  race.1 !! 1 = Some (Ret (Ok true)) /\
  forall i, race.1 !! i = Some (Ret (Ok true)) -> i = 1.
Proof.
  assert (race.1 !! 1 = Some (Ret (Ok true))) as H1 by (vm_compute; reflexivity).
  split; [exact H1|]. intros i Hi.
  exact (superadmin_claimed_once true ["ann"; "bob"] ([1; 0] ++ replicate 8 0 ++ replicate 8 1) fresh i 1 Hi H1).
Defined.
End PolicyExamples.
