(* ===== verification/Adapter.v ===== *)
(** Adapter: the store of the policy rules ([src/src/policy/adapter.rs]), casbin's
    storage adapter over [oxkv]: one row per rule, under a key made of the
    section, the policy type and the rule's text.

    The model that casbin loads into and saves from is a parameter, the class
    [PolicyModel]; so is the making of a store error from a text.  Every call
    runs under the engine's guard, so each is one atomic action. *)
From S2P Require Import Prelude.
From S2P Require Import Effects.
From S2P Require Import RustStr.
From S2P Require Import Hex.
From S2P Require Import Kv.
From S2P Require Import Policy.

(** [impl From<String> for oxkv::StoreError], and [From<serde_json::Error>] of
    the decoder's message. *)
Class StoreErrorFrom := { error_of_text : string -> StoreError; error_of_serde : string -> StoreError }.

(** [casbin::Model]: the rules of each section and type. *)
Class PolicyModel (M : Type) := {
  model_add : string -> string -> list string -> M -> M;
  model_rules : M -> list (string * string * list string);
}.

Definition SEP : ascii := ":".
(** The separator of a rule's fields, U+001F. *)
Definition UNIT_SEP : ascii := "031".

Definition hex_encode (s : string) : string := hex_bytes (bytes_of s).

Definition rule_key (sec ptype : string) (rule : list string) : string :=
  sec +:+ String SEP (ptype +:+ String SEP (hex_encode (join (String UNIT_SEP "") rule))).

Definition store_err (e : StoreError) : CasbinError := AdapterError (inl e).

(** [key.splitn(3, SEP)], when it has three parts. *)
Definition split_key (key : string) : option (string * string * string) :=
  '(sec, rest) ← split_once SEP key;
  '(ptype, hash) ← split_once SEP rest;
  Some (sec, ptype, hash).

Definition expected_arity (sec : string) : nat := if bool_decide (sec = "p") then 3 else 2.

Section adapter.
Context {S T M : Type} `{!KvStore S T} `{!StoreErrorFrom} `{!PolicyModel M} `{!Serde (list string)}.

#[local] Abbreviation action := (act S).

Definition nat_text (n : nat) : string := show_N (N.of_nat n).

(** [PolicyRuleValidator::validate] *)
Definition validate (key : string) (value : bytes) : result unit StoreError :=
  match split_key key with
  | None => Err (error_of_text ("policy keys must be '{sec}:ptype:{hash}', got '" +:+ key +:+ "'"))
  | Some (sec, ptype, hash) =>
      if bool_decide (sec <> "p") && bool_decide (sec <> "g") then
        Err (error_of_text ("unknown policy section '" +:+ sec +:+ "' in key '" +:+ key +:+ "'"))
      else if bool_decide (ptype = "") then
        Err (error_of_text ("empty policy type segment in key '" +:+ key +:+ "'"))
      else if bool_decide (hash = "") || negb (all_hex hash) then
        Err (error_of_text ("non-hex rule hash segment in key '" +:+ key +:+ "'"))
      else
        match (from_slice value : result (list string) string) with
        | Err e => Err (error_of_text ("policy rule must be a JSON string array: " +:+ e))
        | Ok rule =>
            let expected := expected_arity sec in
            if bool_decide (length rule <> expected) then
              Err (error_of_text ("'" +:+ sec +:+ "' rules need " +:+ nat_text expected +:+ " fields, got " +:+
                                  nat_text (length rule)))
            else Ok tt
        end
  end.

Definition encode_rule (sec ptype : string) (rule : list string) : result (string * bytes) CasbinError :=
  let key := rule_key sec ptype rule in
  match to_vec rule with
  | Err e => Err (store_err (error_of_serde e))
  | Ok value => map_err store_err (match validate key value with Ok _ => Ok (key, value) | Err e => Err e end)
  end.

Fixpoint encode_rules (sec ptype : string) (rules : list (list string)) : result (list (string * bytes)) CasbinError :=
  match rules with
  | [] => Ok []
  | rule :: rules =>
      match encode_rule sec ptype rule with
      | Err e => Err e
      | Ok kv => match encode_rules sec ptype rules with Err e => Err e | Ok kvs => Ok (kv :: kvs) end
      end
  end.

(** Every row whose key has three parts. *)
Fixpoint decode_rows (kvs : list kv_pair) : result (list (string * string * list string)) StoreError :=
  match kvs with
  | [] => Ok []
  | kv :: kvs =>
      match split_key kv.1 with
      | None => decode_rows kvs
      | Some (sec, ptype, _) =>
          match from_slice kv.2 with
          | Err e => Err (error_of_serde e)
          | Ok rule => match decode_rows kvs with Err e => Err e | Ok out => Ok ((sec, ptype, rule) :: out) end
          end
      end
  end.

Definition load_all : action (result (list (string * string * list string)) StoreError) :=
  kvs <-? kv_scan None None None;
  mret (decode_rows kvs).

Fixpoint tx_delete_all (t : T) (keys : list string) : action (result T StoreError) :=
  match keys with
  | [] => mret (Ok t)
  | k :: keys => t <-? tx_delete t k; tx_delete_all t keys
  end.

Fixpoint tx_set_all (t : T) (kvs : list kv_pair) : action (result T StoreError) :=
  match kvs with
  | [] => mret (Ok t)
  | kv :: kvs => t <-? tx_set t kv.1 kv.2; tx_set_all t kvs
  end.

Definition clear_all : action (result unit StoreError) :=
  kvs <-? kv_scan None None None;
  t <-? kv_begin;
  t <-? tx_delete_all t kvs.*1;
  tx_commit t.

Definition rule_matches (rule : list string) (field_index : nat) (field_values : list string) : bool :=
  forallb (fun iv => bool_decide (rule !! (field_index + iv.1) = Some iv.2)) (imap pair field_values).

Definition casbin {A} (m : action (result A StoreError)) : action (result A CasbinError) := map_errM store_err m.

Definition load_policy (m : M) : action (result M CasbinError) :=
  rows <-? casbin load_all;
  mret (Ok (foldl (fun m r => model_add r.1.1 r.1.2 r.2 m) m rows)).

(** The rows that a filter lets through; [f_p] and [f_g] are its field values. *)
Definition passes (f_p f_g : list string) (r : string * string * list string) : bool :=
  if bool_decide (r.1.1 = "p") then rule_matches r.2 0 f_p
  else if bool_decide (r.1.1 = "g") then rule_matches r.2 0 f_g
  else true.

Definition load_filtered_policy (m : M) (f_p f_g : list string) : action (result M CasbinError) :=
  rows <-? casbin load_all;
  mret (Ok (foldl (fun m r => if passes f_p f_g r then model_add r.1.1 r.1.2 r.2 m else m) m rows)).

Fixpoint encode_entries (entries : list (string * string * list string)) : result (list (string * bytes)) CasbinError :=
  match entries with
  | [] => Ok []
  | (sec, ptype, rule) :: entries =>
      match encode_rule sec ptype rule with
      | Err e => Err e
      | Ok kv => match encode_entries entries with Err e => Err e | Ok kvs => Ok (kv :: kvs) end
      end
  end.

Definition save_policy (m : M) : action (result unit CasbinError) :=
  _ <-? casbin clear_all;
  encoded <-? mret (encode_entries (model_rules m));
  t <-? casbin kv_begin;
  t <-? casbin (tx_set_all t encoded);
  casbin (tx_commit t).

Definition clear_policy : action (result unit CasbinError) := casbin clear_all.

(** The puts of an addition; [inr] is the transaction that met a key that is
    already there.  [tx.has] is a [tx_get] whose value is not used. *)
Fixpoint add_keys (t : T) (kvs : list kv_pair) : action (result (T + T) CasbinError) :=
  match kvs with
  | [] => mret (Ok (inl t))
  | kv :: kvs =>
      there <-? casbin (tx_get t kv.1);
      match there with
      | Some _ => mret (Ok (inr t))
      | None => t <-? casbin (tx_set t kv.1 kv.2); add_keys t kvs
      end
  end.

(** The end of a transaction: [inl] commits, [inr] gives up. *)
Definition finish_tx (r : T + T) : action (result bool CasbinError) :=
  match r with
  | inl t => _ <-? casbin (tx_commit t); mret (Ok true)
  | inr t => _ <-? casbin (tx_rollback t); mret (Ok false)
  end.

Definition add_policies (sec ptype : string) (rules : list (list string)) : action (result bool CasbinError) :=
  encoded <-? mret (encode_rules sec ptype rules);
  t <-? casbin kv_begin;
  r <-? add_keys t encoded;
  finish_tx r.

Definition add_policy (sec ptype : string) (rule : list string) : action (result bool CasbinError) :=
  add_policies sec ptype [rule].

Fixpoint remove_keys (t : T) (keys : list string) : action (result (T + T) CasbinError) :=
  match keys with
  | [] => mret (Ok (inl t))
  | k :: keys =>
      there <-? casbin (tx_get t k);
      match there with
      | None => mret (Ok (inr t))
      | Some _ => t <-? casbin (tx_delete t k); remove_keys t keys
      end
  end.

Definition remove_policies (sec ptype : string) (rules : list (list string)) : action (result bool CasbinError) :=
  t <-? casbin kv_begin;
  r <-? remove_keys t (rule_key sec ptype <$> rules);
  finish_tx r.

Definition remove_policy (sec ptype : string) (rule : list string) : action (result bool CasbinError) :=
  remove_policies sec ptype [rule].

(** The keys of the rows of a type whose rules match. *)
Fixpoint matching_keys (prefix : string) (field_index : nat) (field_values : list string) (kvs : list kv_pair) :
    result (list string) StoreError :=
  match kvs with
  | [] => Ok []
  | kv :: kvs =>
      if negb (starts_with kv.1 prefix) then matching_keys prefix field_index field_values kvs else
      match (from_slice kv.2 : result (list string) string) with
      | Err e => Err (error_of_serde e)
      | Ok rule =>
          match matching_keys prefix field_index field_values kvs with
          | Err e => Err e
          | Ok keys => Ok (if rule_matches rule field_index field_values then kv.1 :: keys else keys)
          end
      end
  end.

Definition remove_filtered_policy (sec ptype : string) (field_index : nat) (field_values : list string) :
    action (result bool CasbinError) :=
  let prefix := sec +:+ String SEP (ptype +:+ String SEP "") in
  kvs <-? casbin (kv_scan None None None);
  keys <-? casbin (mret (matching_keys prefix field_index field_values kvs));
  t <-? casbin kv_begin;
  t <-? casbin (tx_delete_all t keys);
  _ <-? casbin (tx_commit t);
  mret (Ok (negb (bool_decide (keys = [])))).
End adapter.
