(* ===== verification/AdapterRules.v ===== *)
(** AdapterRules: the rows of the adapter are a set of rules.  The calls of the
    adapter are the operations of that set, and a load gives it back. *)
From S2P Require Import Prelude.
From S2P Require Import Effects.
From S2P Require Import RustStr.
From S2P Require Import Hex.
From S2P Require Import Kv.
From S2P Require Import Policy.
From S2P Require Import Adapter.

Abbreviation rule3 := (string * string * list string)%type.

Definition key_of (r : rule3) : string := rule_key r.1.1 r.1.2 r.2.

(** A rule that the validator accepts ([encode_rule_accepts]). *)
Record valid_rule (r : rule3) : Prop := {
  valid_sec : r.1.1 = "p" \/ r.1.1 = "g";
  valid_ptype : r.1.2 <> "" /\ contains_char SEP r.1.2 = false;
  valid_arity : length r.2 = expected_arity r.1.1;
}.

(** No field holds the separator of the fields, U+001F.  The validator does not
    ask for it; without it two rules can share a key ([rule_key_collides]). *)
Definition plain_fields (r : rule3) : Prop := Forall (fun f => contains_char UNIT_SEP f = false) r.2.

(** What the theorems below ask of a rule. *)
Definition good_rule (r : rule3) : Prop := valid_rule r /\ plain_fields r.

#[export] Instance valid_rule_dec r : Decision (valid_rule r).
Proof.
  refine (cast_if (decide ((r.1.1 = "p" \/ r.1.1 = "g") /\ (r.1.2 <> "" /\ contains_char SEP r.1.2 = false) /\
    length r.2 = expected_arity r.1.1))).
  - by destruct a as (? & ? & ?).
  - intros [? ? ?]; auto.
Defined.

#[export] Instance plain_fields_dec r : Decision (plain_fields r).
Proof. unfold plain_fields. apply _. Defined.

#[export] Instance good_rule_dec r : Decision (good_rule r).
Proof. unfold good_rule. apply _. Defined.

(** ** Keys *)

Lemma join_inj c l1 l2 : length l1 = length l2 ->
  Forall (fun f => contains_char c f = false) l1 -> Forall (fun f => contains_char c f = false) l2 ->
  join (String c "") l1 = join (String c "") l2 -> l1 = l2.
Proof.
  revert l2. induction l1 as [|a l1 IH]; intros [|b l2] Hl H1 H2 He; try done.
  apply Forall_cons in H1 as [Ha H1], H2 as [Hb H2]. injection Hl as Hl.
  destruct l1 as [|a' l1], l2 as [|b' l2]; try done; [by cbn in He; subst|].
  change (a +:+ String c (join (String c "") (a' :: l1)) = b +:+ String c (join (String c "") (b' :: l2))) in He.
  pose proof (split_once_app c a (join (String c "") (a' :: l1)) Ha) as Hs. rewrite He, split_once_app in Hs by done.
  injection Hs as -> Hj. f_equal. by apply IH.
Qed.

Lemma sec_plain r : valid_rule r -> contains_char SEP r.1.1 = false.
Proof. intros [[-> | ->] _ _]; done. Qed.

Lemma split_rule_key sec ptype rule : contains_char SEP sec = false -> contains_char SEP ptype = false ->
  split_key (rule_key sec ptype rule) = Some (sec, ptype, hex_encode (join (String UNIT_SEP "") rule)).
Proof. intros Hs Hp. unfold split_key, rule_key. by rewrite split_once_app; cbn; rewrite ?split_once_app. Qed.

Lemma key_of_split r : valid_rule r -> split_key (key_of r) = Some (r.1.1, r.1.2, hex_encode (join (String UNIT_SEP "") r.2)).
Proof. intros Hr. apply split_rule_key; [by apply sec_plain|by apply valid_ptype]. Qed.

Lemma key_of_inj r1 r2 : good_rule r1 -> good_rule r2 -> key_of r1 = key_of r2 -> r1 = r2.
Proof.
  intros [V1 F1] [V2 F2] He. apply (f_equal split_key) in He. rewrite !key_of_split in He by done.
  injection He as Hs Hp Hx. apply hex_text_inj, join_inj in Hx; [| |apply F1|apply F2].
  - destruct r1 as [[]], r2 as [[]]. cbn in *. congruence.
  - rewrite (valid_arity _ V1), (valid_arity _ V2). by rewrite Hs.
Qed.

(** Two rules with the separator in a field share a key. *)
Lemma rule_key_collides : rule_key "p" "p" [String "a" (String UNIT_SEP "b"); "c"; "read"] =
  rule_key "p" "p" ["a"; String "b" (String UNIT_SEP "c"); "read"].
Proof. by vm_compute. Qed.

Lemma key_prefix r sec ptype : valid_rule r -> contains_char SEP sec = false -> contains_char SEP ptype = false ->
  starts_with (key_of r) (sec +:+ String SEP (ptype +:+ String SEP "")) = bool_decide (r.1 = (sec, ptype)).
Proof.
  intros Hr Hs Hp. apply eq_true_iff_eq. rewrite starts_with_spec, bool_decide_eq_true. split.
  - intros [x Hx]. apply (f_equal split_key) in Hx. rewrite key_of_split in Hx by done.
    rewrite app_assoc in Hx. cbn in Hx. rewrite app_cons, app_assoc, app_cons in Hx.
    unfold split_key in Hx. rewrite split_once_app in Hx by done. cbn in Hx.
    rewrite split_once_app in Hx by done. destruct r as [[]]. cbn in *. congruence.
  - intros He. exists (hex_encode (join (String UNIT_SEP "") r.2)). unfold key_of, rule_key. rewrite He. cbn.
    rewrite !app_assoc, !app_cons, !app_assoc. done.
Qed.

(** Valid rules among which no two share a key. *)
Definition distinct_keys (known : rule3 -> Prop) : Prop :=
  (forall r, known r -> valid_rule r) /\
  (forall r1 r2, known r1 -> known r2 -> key_of r1 = key_of r2 -> r1 = r2).

Lemma good_rules_distinct : distinct_keys good_rule.
Proof. split; [by intros r []|apply key_of_inj]. Qed.

(** What is before the first separator, when the text has one of its own. *)
Lemma split_once_within c x y a b : contains_char c x = true -> split_once c (x +:+ y) = Some (a, b) ->
  exists r, b = r +:+ y.
Proof.
  intros Hx Hs. destruct (split_once c x) as [[a' r]|] eqn:E; [|apply split_once_None in E; congruence].
  apply split_once_Some in E as [-> Ha]. rewrite app_assoc in Hs. change (String c r +:+ y) with (String c (r +:+ y)) in Hs.
  rewrite split_once_app in Hs by done. injection Hs as <- <-. by exists r.
Qed.

(** A key whose parts hold the separator leaves it in the hash. *)
Lemma split_key_sep sec ptype rule s p h : split_key (rule_key sec ptype rule) = Some (s, p, h) ->
  all_hex h = true -> contains_char SEP sec = false /\ contains_char SEP ptype = false.
Proof.
  intros Hk Hh. apply (all_hex_contains SEP) in Hh; [|done]. unfold split_key, rule_key in Hk.
  destruct (split_once SEP (sec +:+ _)) as [[s0 rest]|] eqn:E1; [|done]. cbn in Hk.
  destruct (split_once SEP rest) as [[p0 h0]|] eqn:E2; [|done]. injection Hk as <- <- <-.
  destruct (contains_char SEP sec) eqn:Hs.
  - exfalso. apply split_once_within in E1 as [r ->]; [|done].
    destruct (contains_char SEP r) eqn:Hr.
    + apply split_once_within in E2 as [r' ->]; [|done]. revert Hh. rewrite contains_char_app. cbn. by rewrite orb_true_r.
    + rewrite split_once_app in E2 by done. injection E2 as <- <-. revert Hh. rewrite contains_char_app. cbn. by rewrite orb_true_r.
  - split; [done|]. rewrite split_once_app in E1 by done. injection E1 as <- <-.
    destruct (contains_char SEP ptype) eqn:Hp; [|done]. exfalso.
    apply split_once_within in E2 as [r ->]; [|done]. revert Hh. rewrite contains_char_app. cbn. by rewrite orb_true_r.
Qed.

Section rules.
Context {S T M : Type} `{!KvStore S T} `{!KvLaws S T} `{!StoreErrorFrom} `{!PolicyModel M}.
Context `{!Serde (list string)} `{!SerdeLaws (list string)}.

Lemma encode_valid r : valid_rule r -> exists v, encode_rule r.1.1 r.1.2 r.2 = Ok (key_of r, v) /\ from_slice v = Ok r.2.
Proof.
  intros Hr. unfold encode_rule. destruct (to_vec_ok r.2) as [v Hv]. exists v. rewrite Hv.
  pose proof (from_to _ _ Hv) as Hf. split; [|done]. unfold validate. fold (key_of r). rewrite key_of_split by done.
  rewrite Hf. destruct Hr as [Hs [Hp _] Ha].
  rewrite (bool_decide_eq_false_2 (r.1.2 = "")) by done. rewrite (bool_decide_eq_false_2 (length _ <> _)) by congruence.
  assert (bool_decide (r.1.1 <> "p") && bool_decide (r.1.1 <> "g") = false) as ->
    by (destruct Hs as [-> | ->]; done).
  unfold hex_encode. rewrite all_hex_bytes by apply bytes_of_256. rewrite bool_decide_eq_false_2; [done|].
  intros He. apply (f_equal String.length) in He. rewrite length_hex_bytes in He by apply bytes_of_256.
  assert (bytes_of (join (String UNIT_SEP "") r.2) <> []) as Hne.
  { assert (2 <= length r.2) as Hl by (rewrite Ha; unfold expected_arity; case_bool_decide; lia).
    destruct r as [[sec pt] [|a [|b l]]]; cbn in Hl; try lia. change (join (String UNIT_SEP "") (a :: b :: l))
      with (a +:+ String UNIT_SEP (join (String UNIT_SEP "") (b :: l))). by destruct a. }
  destruct (bytes_of _); [done|]. cbn in He. lia.
Qed.

(** The validator accepts exactly the valid rules. *)
Lemma encode_rule_accepts r : is_ok (encode_rule r.1.1 r.1.2 r.2) = true <-> valid_rule r.
Proof.
  split; [|intros Hr; by destruct (encode_valid r Hr) as (v & -> & _)].
  unfold encode_rule. destruct (to_vec_ok r.2) as [v Hv]. rewrite Hv. unfold validate.
  destruct (split_key _) as [[[s p] h]|] eqn:E; [|done].
  destruct (bool_decide (s <> "p") && bool_decide (s <> "g")) eqn:Es; [done|].
  destruct (bool_decide_reflect (p = "")) as [Hp|Hp]; [done|]. destruct (bool_decide (h = "") || negb (all_hex h)) eqn:Eh; [done|].
  rewrite (from_to _ _ Hv). destruct (bool_decide_reflect (length r.2 <> expected_arity s)) as [Hl|Hl]; [done|]. intros _.
  apply orb_false_elim in Eh as [_ Eh%negb_false_iff]. destruct (split_key_sep _ _ _ _ _ _ E Eh) as [Hs1 Hp1].
  rewrite split_rule_key in E by done. injection E as <- <- _. split; [|done|by apply dec_stable].
  apply andb_false_iff in Es as [Es|Es]; apply bool_decide_eq_false, dec_stable in Es; auto.
Qed.


Implicit Types (d : gmap string bytes) (R : gset rule3) (s : S).

(** The rules in play: valid, and no two of them share a key.  Those whose
    fields are plain are such rules. *)
Variable known : rule3 -> Prop.
Hypothesis known_keys : distinct_keys known.

(** The rows are the rules of [R]. *)
Record rows_are d R : Prop := {
  rows_of_rules r : r ∈ R -> known r /\ exists v, d !! key_of r = Some v /\ from_slice v = Ok r.2;
  rules_of_rows k v : d !! k = Some v -> exists r, r ∈ R /\ k = key_of r;
}.

Lemma rows_are_lookup d R r : rows_are d R -> known r -> is_Some (d !! key_of r) <-> r ∈ R.
Proof.
  intros [Hr Hk] Hg. split.
  - intros [v Hv]. destruct (Hk _ _ Hv) as (r' & Hin & He). destruct (Hr r' Hin) as [Hg' _].
    by rewrite (proj2 known_keys r r').
  - intros Hin. destruct (Hr r Hin) as (_ & v & Hv & _). by eexists.
Qed.

Lemma rows_are_insert d R r v : rows_are d R -> known r -> from_slice v = Ok r.2 ->
  rows_are (<[key_of r := v]> d) ({[r]} ∪ R).
Proof.
  intros [Hr Hk] Hg Hv. split.
  - intros r' Hin. destruct (decide (r' = r)) as [->|Hne].
    + split; [done|]. exists v. by rewrite lookup_insert_eq.
    + assert (r' ∈ R) as Hin' by set_solver. destruct (Hr r' Hin') as (Hg' & v' & Hv' & Hd). split; [done|].
      exists v'. rewrite lookup_insert_ne; [done|]. intros He. by apply Hne, (proj2 known_keys).
  - intros k v'. rewrite lookup_insert. case_decide as He.
    + intros _. exists r. split; [set_solver|done].
    + intros Hv'. destruct (Hk _ _ Hv') as (r' & ? & ?). exists r'. split; [set_solver|done].
Qed.

Lemma rows_are_delete d R r : rows_are d R -> known r -> rows_are (delete (key_of r) d) (R ∖ {[r]}).
Proof.
  intros [Hr Hk] Hg. split.
  - intros r' [Hin Hne]%elem_of_difference. destruct (Hr r' Hin) as (Hg' & v' & Hv' & Hd). split; [done|].
    exists v'. rewrite lookup_delete_ne; [done|]. intros He. apply Hne, elem_of_singleton. by apply (proj2 known_keys).
  - intros k v'. rewrite lookup_delete. case_decide as He; [done|]. intros Hv'.
    destruct (Hk _ _ Hv') as (r' & Hin & ->). exists r'. split; [|done]. apply elem_of_difference. split; [done|].
    intros ->%elem_of_singleton. done.
Qed.

Lemma rows_are_empty : rows_are ∅ ∅.
Proof. split; [set_solver|done]. Qed.

(** ** The calls on a store that answers *)

Definition of_type (sec ptype : string) (rules : list (list string)) : list rule3 := (fun r => (sec, ptype, r)) <$> rules.

Lemma encode_good r : known r -> exists v, encode_rule r.1.1 r.1.2 r.2 = Ok (key_of r, v) /\ from_slice v = Ok r.2.
Proof. intros Hr. by apply encode_valid, known_keys. Qed.

Lemma encode_knowns sec ptype rules : Forall known (of_type sec ptype rules) ->
  exists kvs, encode_rules sec ptype rules = Ok kvs /\
    Forall2 (fun r kv => kv.1 = key_of r /\ from_slice kv.2 = Ok r.2) (of_type sec ptype rules) kvs.
Proof.
  induction rules as [|rule rules IH]; cbn [of_type fmap list_fmap]; intros Hg; [by exists []|].
  apply Forall_cons in Hg as [Hr Hg]. destruct (IH Hg) as (kvs & Hk & Hf).
  destruct (encode_good _ Hr) as (v & He & Hd). cbn in He. exists ((key_of (sec, ptype, rule), v) :: kvs).
  cbn [encode_rules]. by rewrite He, Hk; split; [|constructor].
Qed.

(** An addition puts the rules one by one and gives up at the first that is there. *)
Fixpoint spec_add (R : gset rule3) (rules : list rule3) : option (gset rule3) :=
  match rules with
  | [] => Some R
  | r :: rules => if decide (r ∈ R) then None else spec_add ({[r]} ∪ R) rules
  end.

Fixpoint spec_remove (R : gset rule3) (rules : list rule3) : option (gset rule3) :=
  match rules with
  | [] => Some R
  | r :: rules => if decide (r ∈ R) then spec_remove (R ∖ {[r]}) rules else None
  end.

(** The store answers and its committed rows are the rules [R]. *)
Definition holds_rules s R : Prop := kv_up s /\ rows_are (kv_data s) R.

Lemma wp_casbin {A} (m : act S (result A StoreError)) Q s :
  wp m (fun r s' => Q (map_err store_err r) s') s -> wp (casbin m) Q s.
Proof. apply wp_map_errM. Qed.

Lemma wp_add_keys rules kvs t R R' s (Q : result (T + T) CasbinError -> S -> Prop) :
  Forall known rules -> Forall2 (fun r kv => kv.1 = key_of r /\ from_slice kv.2 = Ok r.2) rules kvs ->
  holds_rules s R -> rows_are (tx_data t s) R' ->
  (forall x s', holds_rules s' R -> match spec_add R' rules with
      | Some R'' => exists t', x = inl t' /\ rows_are (tx_data t' s') R''
      | None => exists t', x = inr t'
      end -> Q (Ok x) s') ->
  wp (add_keys t kvs) Q s.
Proof.
  intros Hg Hf. revert t R' s. induction Hf as [|r kv rules kvs [Hk Hv] Hf IH]; intros t R' s [Hup Hd] Ht HQ;
    cbn [add_keys spec_add] in *.
  { apply wp_ret, HQ; [by split|]. by exists t. }
  apply Forall_cons in Hg as [Hr Hg]. apply wp_bindR, wp_casbin, wp_tx_get_up; [done|]. intros s1 Hup1 Hd1 Ht1.
  cbn [map_err]. pose proof (rows_are_lookup _ _ r Ht Hr) as Hin. rewrite <- Hk in Hin.
  assert (holds_rules s1 R) as Hs1 by (split; [done|by rewrite Hd1]).
  destruct (tx_data t s !! kv.1) as [v|].
  - rewrite decide_True in HQ by (by apply Hin). apply wp_ret, HQ; [done|]. by exists t.
  - rewrite decide_False in HQ by (intros Hx; apply Hin in Hx as [? ?]; done).
    apply wp_bindR, wp_casbin, wp_tx_set_up; [done|]. intros t' s2 Hup2 Hd2 Ht2. cbn [map_err].
    eapply IH; [done| |..].
    + split; [done|]. rewrite Hd2. by apply Hs1.
    + rewrite Ht2, Ht1, Hk. by apply rows_are_insert.
    + done.
Qed.

Lemma wp_remove_keys rules t R R' s (Q : result (T + T) CasbinError -> S -> Prop) :
  Forall known rules -> holds_rules s R -> rows_are (tx_data t s) R' ->
  (forall x s', holds_rules s' R -> match spec_remove R' rules with
      | Some R'' => exists t', x = inl t' /\ rows_are (tx_data t' s') R''
      | None => exists t', x = inr t'
      end -> Q (Ok x) s') ->
  wp (remove_keys t (key_of <$> rules)) Q s.
Proof.
  intros Hg. revert t R' s. induction Hg as [|r rules Hr Hg IH]; intros t R' s [Hup Hd] Ht HQ;
    cbn [remove_keys spec_remove fmap list_fmap] in *.
  { apply wp_ret, HQ; [by split|]. by exists t. }
  apply wp_bindR, wp_casbin, wp_tx_get_up; [done|]. intros s1 Hup1 Hd1 Ht1.
  cbn [map_err]. pose proof (rows_are_lookup _ _ r Ht Hr) as Hin.
  assert (holds_rules s1 R) as Hs1 by (split; [done|by rewrite Hd1]).
  destruct (tx_data t s !! key_of r) as [v|].
  - rewrite decide_True in HQ by (by apply Hin).
    apply wp_bindR, wp_casbin, wp_tx_delete_up; [done|]. intros t' s2 Hup2 Hd2 Ht2. cbn [map_err].
    eapply IH; [split; [done|rewrite Hd2; apply Hs1]| |done]. rewrite Ht2, Ht1. by apply rows_are_delete.
  - rewrite decide_False in HQ by (intros Hx; apply Hin in Hx as [? ?]; done).
    apply wp_ret, HQ; [done|]. by exists t.
Qed.

Lemma wp_finish_tx x o R s : holds_rules s R ->
  match o with
  | Some R' => exists t, x = inl t /\ rows_are (tx_data t s) R'
  | None => exists t, x = inr t
  end ->
  wp (finish_tx x) (fun r s' => r = Ok (bool_decide (is_Some o)) /\ holds_rules s' (default R o)) s.
Proof.
  intros [Hup Hd] Hx. destruct o as [R'|]; destruct Hx as [t Hx]; [destruct Hx as [-> Ht]|subst x]; cbn [finish_tx].
  - apply wp_bindR, wp_casbin, wp_tx_commit_up; [done|]. intros s' Hup' Hd'. apply wp_ret.
    split; [done|]. split; [done|]. by rewrite Hd'.
  - apply wp_bindR, wp_casbin, wp_tx_rollback_up; [done|]. intros s' Hup' Hd'. apply wp_ret.
    split; [done|]. split; [done|]. by rewrite Hd'.
Qed.

Lemma wp_add_policies sec ptype rules R s : Forall known (of_type sec ptype rules) -> holds_rules s R ->
  wp (add_policies sec ptype rules) (fun r s' =>
    r = Ok (bool_decide (is_Some (spec_add R (of_type sec ptype rules)))) /\
    holds_rules s' (default R (spec_add R (of_type sec ptype rules)))) s.
Proof.
  intros Hg [Hup Hd]. unfold add_policies. destruct (encode_knowns _ _ _ Hg) as (kvs & -> & Hf).
  apply wp_bindR, wp_ret, wp_bindR, wp_casbin, wp_begin_up; [done|]. intros t s1 Hup1 Hd1 Ht1. cbn [map_err].
  apply wp_bindR. eapply wp_add_keys; [done|done|split; [done|by rewrite Hd1]|by rewrite Ht1|].
  intros x s' Hs' Hx. by apply wp_finish_tx.
Qed.

Lemma wp_remove_policies sec ptype rules R s : Forall known (of_type sec ptype rules) -> holds_rules s R ->
  wp (remove_policies sec ptype rules) (fun r s' =>
    r = Ok (bool_decide (is_Some (spec_remove R (of_type sec ptype rules)))) /\
    holds_rules s' (default R (spec_remove R (of_type sec ptype rules)))) s.
Proof.
  intros Hg [Hup Hd]. unfold remove_policies.
  apply wp_bindR, wp_casbin, wp_begin_up; [done|]. intros t s1 Hup1 Hd1 Ht1. cbn [map_err].
  replace (rule_key sec ptype <$> rules) with (key_of <$> of_type sec ptype rules)
    by (unfold of_type; by rewrite <- list_fmap_compose).
  apply wp_bindR. eapply wp_remove_keys; [done|split; [done|by rewrite Hd1]|by rewrite Ht1|].
  intros x s' Hs' Hx. by apply wp_finish_tx.
Qed.

(** ** Listings *)

Lemma rows_entry d R kv : rows_are d R -> d !! kv.1 = Some kv.2 ->
  exists r, r ∈ R /\ kv.1 = key_of r /\ from_slice kv.2 = Ok r.2 /\ known r.
Proof.
  intros [Hr Hk] Hkv. destruct (Hk _ _ Hkv) as (r & Hin & He). exists r. destruct (Hr r Hin) as (Hg & v & Hv & Hd).
  rewrite He, Hv in Hkv. injection Hkv as ->. done.
Qed.

Definition of_entry (r : rule3) (kv : kv_pair) : Prop :=
  kv.1 = key_of r /\ from_slice kv.2 = Ok r.2 /\ known r.

(** The rules of a listing, in its order. *)
Lemma rules_of_list d R : rows_are d R -> exists l, Forall2 of_entry l (kv_list d) /\ l ≡ₚ elements R.
Proof.
  intros Hd. assert (forall kvs, (forall kv, kv ∈ kvs -> d !! kv.1 = Some kv.2) ->
    exists l, Forall2 of_entry l kvs /\ Forall (fun r => r ∈ R) l) as Hall.
  { induction kvs as [|kv kvs IH]; intros Hin; [by exists []|].
    destruct IH as (l & Hl & HR); [set_solver|].
    destruct (rows_entry d R kv) as (r & Hr & Hkv & Hv & Hg); [done|apply Hin; set_solver|].
    exists (r :: l). by split; constructor. }
  destruct (Hall (kv_list d)) as (l & Hl & HR).
  { intros [k v] Hkv. by apply elem_of_kv_list in Hkv. }
  exists l. split; [done|]. assert (key_of <$> l = (kv_list d).*1) as Hkeys.
  { clear -Hl. induction Hl as [|r kv l kvs [Hk _] Hl IH]; [done|]. cbn. by rewrite Hk, IH. }
  apply NoDup_Permutation.
  - apply (NoDup_fmap_1 key_of). rewrite Hkeys. apply kv_list_NoDup.
  - apply NoDup_elements.
  - rewrite Forall_forall in HR. intros r. rewrite elem_of_elements. split; [apply HR|]. intros Hr.
    destruct (rows_of_rules _ _ Hd r Hr) as (Hg & v & Hv & _).
    assert (key_of r ∈ key_of <$> l) as Hin.
    { rewrite Hkeys. apply list_elem_of_fmap. exists (key_of r, v). split; [done|]. by apply elem_of_kv_list. }
    apply list_elem_of_fmap in Hin as (r' & He & Hr').
    destruct (rows_of_rules _ _ Hd r' (HR r' Hr')) as [Hg' _]. by rewrite (proj2 known_keys r r').
Qed.

Lemma decode_entries l kvs : Forall2 of_entry l kvs -> decode_rows kvs = Ok l.
Proof.
  induction 1 as [|r kv l kvs (Hk & Hv & Hg) Hl IH]; [done|]. cbn [decode_rows].
  rewrite Hk, key_of_split, Hv, IH by (done || by apply known_keys). by destruct r as [[]].
Qed.

(** The rules of a type that match. *)
Definition hit (sec ptype : string) (i : nat) (vs : list string) (r : rule3) : Prop :=
  r.1 = (sec, ptype) /\ rule_matches r.2 i vs = true.

#[local] Instance hit_dec sec ptype i vs r : Decision (hit sec ptype i vs r).
Proof. unfold hit. apply _. Defined.

Lemma matching_entries sec ptype i vs l kvs :
  contains_char SEP sec = false -> contains_char SEP ptype = false -> Forall2 of_entry l kvs ->
  matching_keys (sec +:+ String SEP (ptype +:+ String SEP "")) i vs kvs =
    Ok (key_of <$> filter (hit sec ptype i vs) l).
Proof.
  intros Hs Hp. induction 1 as [|r kv l kvs (Hk & Hv & Hg) Hl IH]; [done|]. cbn [matching_keys].
  rewrite Hk, key_prefix, Hv, IH by (done || by apply known_keys). rewrite filter_cons. unfold hit at 2.
  case_bool_decide as Ht; cbn [negb].
  - destruct (rule_matches r.2 i vs) eqn:Em.
    + by rewrite decide_True.
    + by rewrite decide_False by (intros [? ?]; congruence).
  - by rewrite decide_False by (intros [? ?]; congruence).
Qed.

Lemma wp_tx_delete_all rules t R R' s (Q : result T StoreError -> S -> Prop) :
  Forall known rules -> holds_rules s R -> rows_are (tx_data t s) R' ->
  (forall t' s', holds_rules s' R -> rows_are (tx_data t' s') (R' ∖ list_to_set rules) -> Q (Ok t') s') ->
  wp (tx_delete_all t (key_of <$> rules)) Q s.
Proof.
  intros Hg. revert t R' s. induction Hg as [|r rules Hr Hg IH]; intros t R' s [Hup Hd] Ht HQ;
    cbn [tx_delete_all fmap list_fmap list_to_set] in *.
  { apply wp_ret, HQ; [by split|]. by rewrite difference_empty_L. }
  apply wp_bindR, wp_tx_delete_up; [done|]. intros t' s2 Hup2 Hd2 Ht2.
  eapply (IH t' (R' ∖ {[r]})).
  - split; [done|by rewrite Hd2].
  - rewrite Ht2. by apply rows_are_delete.
  - intros t3 s3 Hs3 Ht3. apply HQ; [done|]. by rewrite <- difference_difference_l_L.
Qed.

Lemma wp_delete_rules rules R s (Q : result unit StoreError -> S -> Prop) :
  Forall known rules -> holds_rules s R ->
  (forall s', holds_rules s' (R ∖ list_to_set rules) -> Q (Ok tt) s') ->
  wp (t <-? kv_begin; t <-? tx_delete_all t (key_of <$> rules); tx_commit t) Q s.
Proof.
  intros Hg [Hup Hd] HQ. apply wp_bindR, wp_begin_up; [done|]. intros t s1 Hup1 Hd1 Ht1.
  apply wp_bindR. eapply wp_tx_delete_all; [done|split; [done|by rewrite Hd1]|by rewrite Ht1|].
  intros t' s2 [Hup2 Hd2] Ht2. apply wp_tx_commit_up; [done|]. intros s3 Hup3 Hd3. apply HQ.
  split; [done|]. by rewrite Hd3.
Qed.

Lemma good_of_list l kvs : Forall2 of_entry l kvs -> Forall known l /\ kvs.*1 = key_of <$> l.
Proof.
  induction 1 as [|r kv l kvs (Hk & Hv & Hg) Hl [IH1 IH2]]; [done|]. split; [by constructor|]. cbn. by rewrite Hk, IH2.
Qed.
(** ** The set of rules *)

Inductive rules_call : Type :=
| AddRules (sec ptype : string) (rules : list (list string))
| RemoveRules (sec ptype : string) (rules : list (list string))
| RemoveMatching (sec ptype : string) (field_index : nat) (field_values : list string)
| ClearRules.

Definition call (c : rules_call) : act S (result bool CasbinError) :=
  match c with
  | AddRules sec ptype rules => add_policies sec ptype rules
  | RemoveRules sec ptype rules => remove_policies sec ptype rules
  | RemoveMatching sec ptype i vs => remove_filtered_policy sec ptype i vs
  | ClearRules => _ <-? clear_policy; mret (Ok true)
  end.

(** The rules that a call names are ones the validator accepts. *)
Definition call_ok (c : rules_call) : Prop :=
  match c with
  | AddRules sec ptype rules | RemoveRules sec ptype rules => Forall known (of_type sec ptype rules)
  | RemoveMatching sec ptype _ _ => contains_char SEP sec = false /\ contains_char SEP ptype = false
  | ClearRules => True
  end.

(** The operations of a set: additions and removals are all or nothing. *)
Definition spec_call (c : rules_call) (R : gset rule3) : bool * gset rule3 :=
  match c with
  | AddRules sec ptype rules =>
      let o := spec_add R (of_type sec ptype rules) in (bool_decide (is_Some o), default R o)
  | RemoveRules sec ptype rules =>
      let o := spec_remove R (of_type sec ptype rules) in (bool_decide (is_Some o), default R o)
  | RemoveMatching sec ptype i vs =>
      (negb (bool_decide (filter (hit sec ptype i vs) (elements R) = [])), filter (fun r => ~ hit sec ptype i vs r) R)
  | ClearRules => (true, ∅)
  end.

Lemma wp_rules_call c R s : call_ok c -> holds_rules s R ->
  wp (call c) (fun r s' => r = Ok (spec_call c R).1 /\ holds_rules s' (spec_call c R).2) s.
Proof.
  intros Hc Hs. pose proof Hs as [Hup Hd]. destruct c as [sec pt rules|sec pt rules|sec pt i vs|]; cbn [call spec_call fst snd] in *.
  - by apply wp_add_policies.
  - by apply wp_remove_policies.
  - destruct Hc as [Hsec Hpt]. destruct (rules_of_list _ _ Hd) as (l & Hl & Hperm).
    destruct (good_of_list _ _ Hl) as [Hg _]. unfold remove_filtered_policy.
    apply wp_bindR, wp_casbin, wp_scan_up; [done|]. intros s1 Hup1 Hd1. rewrite kv_range_full. cbn [map_err].
    rewrite (matching_entries _ _ _ _ l) by done. apply wp_bindR, wp_casbin, wp_ret. cbn [map_err].
    set (L := filter (hit sec pt i vs) l).
    assert (Forall known L) as HgL by (apply Forall_forall; intros r Hr; rewrite Forall_forall in Hg;
      apply Hg; by apply list_elem_of_filter in Hr as [_ Hr]).
    apply wp_bindR, wp_casbin, wp_begin_up; [done|]. intros t s2 Hup2 Hd2 Ht2. cbn [map_err].
    apply wp_bindR, wp_casbin. eapply (wp_tx_delete_all _ _ R R); [done|split; [done|by rewrite Hd2, Hd1]|by rewrite Ht2, Hd1|].
    intros t3 s3 [Hup3 Hd3] Ht3. cbn [map_err]. apply wp_bindR, wp_casbin, wp_tx_commit_up; [done|].
    intros s4 Hup4 Hd4. apply wp_ret. split.
    + do 2 f_equal. apply bool_decide_ext. subst L.
      assert (filter (hit sec pt i vs) l ≡ₚ filter (hit sec pt i vs) (elements R)) as HpL by by rewrite Hperm.
      split; intros He.
      * apply fmap_nil_inv in He. rewrite He in HpL. by apply Permutation_nil_l in HpL.
      * rewrite He in HpL. apply Permutation_nil_r in HpL. by rewrite HpL.
    + split; [done|]. rewrite Hd4. replace (filter (fun r => ~ hit sec pt i vs r) R) with (R ∖ list_to_set L); [done|].
      apply set_eq. intros r. rewrite elem_of_difference, elem_of_filter, elem_of_list_to_set. subst L.
      rewrite list_elem_of_filter, Hperm, elem_of_elements. destruct (decide (hit sec pt i vs r)); naive_solver.
  - destruct (rules_of_list _ _ Hd) as (l & Hl & Hperm). destruct (good_of_list _ _ Hl) as [Hg Hk].
    unfold clear_policy, clear_all. apply wp_bindR, wp_casbin, wp_bindR, wp_scan_up; [done|]. intros s1 Hup1 Hd1.
    rewrite kv_range_full, Hk. eapply wp_delete_rules; [done|split; [done|by rewrite Hd1]|].
    intros s' [Hup' Hd']. cbn [map_err]. apply wp_ret. split; [done|]. split; [done|].
    replace (∅ : gset rule3) with (R ∖ list_to_set l); [done|].
    apply set_eq. intros r. rewrite elem_of_difference, elem_of_list_to_set, Hperm, elem_of_elements. set_solver.
Qed.

Fixpoint calls (cs : list rules_call) : act S (list (result bool CasbinError)) :=
  match cs with
  | [] => mret []
  | c :: cs => r ← call c; rs ← calls cs; mret (r :: rs)
  end.

Fixpoint spec_calls (cs : list rules_call) (R : gset rule3) : list bool * gset rule3 :=
  match cs with
  | [] => ([], R)
  | c :: cs => let '(b, R) := spec_call c R in let '(bs, R) := spec_calls cs R in (b :: bs, R)
  end.

Lemma wp_calls cs R s : Forall call_ok cs -> holds_rules s R ->
  wp (calls cs) (fun rs s' => rs = Ok <$> (spec_calls cs R).1 /\ holds_rules s' (spec_calls cs R).2) s.
Proof.
  intros Hcs. revert R s. induction Hcs as [|c cs Hc Hcs IH]; intros R s Hs; cbn [calls spec_calls]; [by apply wp_ret|].
  apply wp_bind. eapply wp_mono; [by apply wp_rules_call|]. intros r s1 [-> Hs1]. destruct (spec_call c R) as [b R1].
  apply wp_bind. eapply wp_mono; [by apply IH|]. intros rs s2 [-> Hs2]. apply wp_ret.
  cbn [fst snd] in *. destruct (spec_calls cs R1) as [bs R2]. by split.
Qed.

(** C7: the adapter stores a set of rules, as long as no two rules in play share
    a key.  Take any rules that the validator accepts and no two of which have
    one key; rules whose fields do not hold U+001F, the separator of the fields,
    are such rules.  On a store that answers and holds some of them, any sequence
    of additions and removals of such rules, of clearings, and of filtered
    removals for a section and type without a colon answers what the same
    sequence answers on one set, and leaves that set: an addition that meets a
    rule which is already there, and a removal that misses one, change nothing.
    Of rules that share a key, which the validator lets through, this is false. *)
Theorem adapter_refines_set cs R s : Forall call_ok cs -> holds_rules s R ->
  wp (calls cs) (fun rs s' => rs = Ok <$> (spec_calls cs R).1 /\ holds_rules s' (spec_calls cs R).2) s.
Proof. apply wp_calls. Qed.

(** C25: what is stored is loaded.  On a store that answers and holds a set of
    rules, valid and no two with one key, Casbin's load hands the model every
    rule of the set exactly once, under its section and type, and leaves the rows
    alone. *)
Theorem rules_load_back R (m : M) s : holds_rules s R ->
  wp (load_policy m) (fun r s' => holds_rules s' R /\
    exists l, l ≡ₚ elements R /\ r = Ok (foldl (fun m x => model_add x.1.1 x.1.2 x.2 m) m l)) s.
Proof.
  intros [Hup Hd]. destruct (rules_of_list _ _ Hd) as (l & Hl & Hperm). unfold load_policy, load_all.
  apply wp_bindR, wp_casbin, wp_bindR, wp_scan_up; [done|]. intros s1 Hup1 Hd1. rewrite kv_range_full.
  rewrite (decode_entries l) by done. apply wp_ret. cbn [map_err]. apply wp_ret.
  split; [split; [done|by rewrite Hd1]|]. by exists l.
Qed.
End rules.

Module AdapterExamples.

#[export] Existing Instances ScriptKv.kv ScriptKv.laws.
#[export] Instance serde_rule : Serde (list string) := CountableSerde.serde (list string).
#[export] Instance serde_rule_laws : SerdeLaws (list string) := CountableSerde.serde_laws (list string).
#[export] Instance errors : StoreErrorFrom := {| error_of_text := StoreOther; error_of_serde := StoreOther |}.

(** A model that keeps its rules in order. *)
#[export] Instance list_model : PolicyModel (list rule3) :=
  {| model_add sec ptype rule m := m ++ [(sec, ptype, rule)]; model_rules m := m |}.

Definition empty_store : ScriptKv.store := ScriptKv.Store ∅ [].

Definition some_calls : list rules_call :=
  [AddRules "p" "p" [["ann"; "doc:1"; "read"]; ["bob"; "doc:1"; "read"]];
   AddRules "g" "g" [["bob"; "team"]; ["eve"; "team"]];
   AddRules "p" "p" [["eve"; "doc:2"; "read"]; ["ann"; "doc:1"; "read"]];
   RemoveMatching "g" "g" 1 ["team"];
   RemoveRules "p" "p" [["bob"; "doc:1"; "read"]; ["bob"; "doc:1"; "read"]]].

Lemma empty_holds known : holds_rules known empty_store ∅.
Proof. split; [done|]. split; [intros r Hr; by apply not_elem_of_empty in Hr|done]. Qed.

Lemma some_calls_ok : Forall (call_ok good_rule) some_calls.
Proof.
  repeat constructor; cbn [call_ok]; try done; apply bool_decide_unpack; vm_compute; exact I.
Qed.

Lemma adapter_refines_set_witness :
  wp (calls some_calls) (fun rs s' => rs = Ok <$> [true; true; false; true; false] /\
    holds_rules good_rule s' (spec_calls some_calls ∅).2) empty_store.
Proof.
  eapply wp_mono; [apply (adapter_refines_set good_rule good_rules_distinct some_calls ∅ empty_store some_calls_ok (empty_holds _))|].
  intros rs s' [-> Hs]. split; [vm_compute; reflexivity|exact Hs].
Defined.

(** The store after those calls, and what it holds. *)
Definition stored_rules : ScriptKv.store := (calls some_calls empty_store).2.

Lemma stored_rules_hold : holds_rules good_rule stored_rules (spec_calls some_calls ∅).2.
Proof.
  pose proof (wp_calls good_rule good_rules_distinct some_calls ∅ empty_store some_calls_ok (empty_holds _)) as Hw.
  unfold wp in Hw. unfold stored_rules. destruct (calls some_calls empty_store) as [rs s]. apply Hw.
Qed.

Lemma model_of_list (l m : list rule3) : foldl (fun m x => model_add x.1.1 x.1.2 x.2 m) m l = m ++ l.
Proof.
  revert m. induction l as [|[[sec pt] r] l IH]; intros m; [by rewrite List.app_nil_r|]. cbn [foldl model_add list_model fst snd].
  by rewrite IH, <- List.app_assoc.
Qed.

Lemma rules_load_back_witness :
  wp (load_policy []) (fun r _ => exists l : list rule3, r = Ok l /\
    l ≡ₚ [("p", "p", ["ann"; "doc:1"; "read"]); ("p", "p", ["bob"; "doc:1"; "read"])]) stored_rules.
Proof.
  eapply wp_mono; [apply (rules_load_back good_rule good_rules_distinct _ [] _ stored_rules_hold)|].
  intros r s' (_ & l & Hl & ->). exists l. rewrite model_of_list. split; [done|]. rewrite Hl. vm_compute. reflexivity.
Defined.

(** Saving a policy with a malformed rule empties the store.  The save clears
    and commits before it validates: the error that is meant to come before
    anything is touched leaves no rule at all. *)
Theorem save_wipes_on_malformed_rule :
  let s0 := (add_policies "p" "p" [["ann"; "doc:1"; "read"]] empty_store).2 in
  let '(r1, s1) := load_policy [] s0 in
  let '(r2, s2) := save_policy [("p", "p", ["ann"; "doc:1"; "read"]); ("p", "p", ["bob"; "doc:1"])] s1 in
  let '(r3, s3) := load_policy [] s2 in
  r1 = Ok [("p", "p", ["ann"; "doc:1"; "read"])] /\ is_ok r2 = false /\ r3 = Ok [].
Proof. by vm_compute. Qed.

(** Removing a rule whose field holds the separator removes another rule. *)
Theorem remove_takes_another_rule :
  let s0 := (add_policies "p" "p" [["a"; String "b" (String UNIT_SEP "c"); "read"]] empty_store).2 in
  let '(r1, s1) := remove_policies "p" "p" [[String "a" (String UNIT_SEP "b"); "c"; "read"]] s0 in
  let '(r2, s2) := load_policy [] s1 in
  r1 = Ok true /\ r2 = Ok [].
Proof. by vm_compute. Qed.
End AdapterExamples.
