(* ===== verification/PolicyAdmin.v ===== *)
(** PolicyAdmin: the dump and load of a policy store ([src/src/policy/admin.rs]),
    against what casbin's enforcer and the change feed promise. *)
From S2P Require Import Prelude.
From S2P Require Import Effects.
From S2P Require Import RustStr.
From S2P Require Import Kv.
From S2P Require Import FsTypes.
From S2P Require Import Policy.
From S2P Require Import Adapter.
From S2P Require Import AdapterRules.

Record PolicyDump := { dump_p : list (list string); dump_g : list (list string) }.
Record ImportReport := { rules_added : nat; groups_added : nat; duplicates : nat }.

(** ** Dump and load

    [export_s3] and [import_s3] open an enforcer of their own on the store; its
    opening is the [result] they start from. *)

Section admin.
Context {E F : Type} `{!Enforcer E} `{!ChangeSink F}.
Variable feed : bool.

#[local] Abbreviation task := (prog (policy_world E F)).

Definition export_s3 (opened : result E string) : result PolicyDump string :=
  match opened with
  | Err e => Err e
  | Ok e => Ok {| dump_p := ef_policy e; dump_g := ef_grouping e |}
  end.

Context (casbin_text : CasbinError -> string).

(** [feed.append(op).await.context(..)?] *)
Definition import_announce (op : WalOp) : task (result unit string) :=
  if feed then atomically (zoom (append op)) else mret (Ok tt).

Definition field (i : nat) (rule : list string) : string := default "" (rule !! i).

Fixpoint import_rules (rules : list (list string)) (r : ImportReport) : task (result ImportReport string) :=
  match rules with
  | [] => mret (Ok r)
  | rule :: rules =>
      new <-? map_errM casbin_text (atomically (zoom (ef_add_policy rule)));
      if (new : bool) then
        _ <-? import_announce (PolicyRuleAdd (field 0 rule) (field 1 rule) (field 2 rule));
        import_rules rules {| rules_added := S (rules_added r); groups_added := groups_added r; duplicates := duplicates r |}
      else import_rules rules {| rules_added := rules_added r; groups_added := groups_added r; duplicates := S (duplicates r) |}
  end.

Fixpoint import_links (links : list (list string)) (r : ImportReport) : task (result ImportReport string) :=
  match links with
  | [] => mret (Ok r)
  | link :: links =>
      new <-? map_errM casbin_text (atomically (zoom (ef_add_grouping link)));
      if (new : bool) then
        _ <-? import_announce (GroupAdd (field 0 link) (field 1 link));
        import_links links {| rules_added := rules_added r; groups_added := S (groups_added r); duplicates := duplicates r |}
      else import_links links {| rules_added := rules_added r; groups_added := groups_added r; duplicates := S (duplicates r) |}
  end.

Definition import_s3 (dump : PolicyDump) : task (result ImportReport string) :=
  r <-? import_rules (dump_p dump) {| rules_added := 0; groups_added := 0; duplicates := 0 |};
  import_links (dump_g dump) r.
End admin.

(** ** A load is complete *)

Section import.
Context {E F : Type} `{!Enforcer E} `{!EnforcerLaws E} `{!ChangeSink F}.
Variable feed : bool.
Context (casbin_text : CasbinError -> string).

#[local] Abbreviation W := (policy_world E F).

Definition seen (r : ImportReport) : nat := rules_added r + groups_added r + duplicates r.

Lemma wp_import_announce op Q (w : W) :
  (forall r w', enforcer w' = enforcer w -> Q r w') -> wp (run (import_announce feed op)) Q w.
Proof.
  intros HQ. unfold import_announce. destruct feed; [|by apply wp_ret, HQ].
  apply wp_run_atomically, wp_zoom, wp_intro. intros r f' _. by apply HQ.
Qed.

Lemma wp_import_rules rules r (w : W) :
  wp (run (import_rules feed casbin_text rules r)) (fun res w' =>
    ef_grouping (enforcer w') = ef_grouping (enforcer w) /\
    forall r', res = Ok r' -> seen r' = seen r + length rules) w.
Proof.
  revert r w. induction rules as [|rule rules IH]; intros r w; cbn [import_rules length].
  { apply wp_ret. split; [done|]. intros r' [= <-]. lia. }
  apply wp_run_bindR, wp_run_bind, wp_run_atomically, wp_zoom. eapply wp_mono; [apply ef_add_policy_law|].
  intros [new|e] e' He; cbn [map_err]; [|by apply wp_ret]. apply wp_ret.
  assert (forall r0 w1, ef_grouping (enforcer w1) = ef_grouping (enforcer w) -> seen r0 = S (seen r) ->
    wp (run (import_rules feed casbin_text rules r0)) (fun res w' =>
      ef_grouping (enforcer w') = ef_grouping (enforcer w) /\
      forall r', res = Ok r' -> seen r' = seen r + S (length rules)) w1) as Hrest.
  { intros r0 w1 Hw1 Hs. eapply wp_mono; [apply IH|]. intros res w' [Hg Hr]. split; [congruence|].
    intros r' Hr'. rewrite (Hr r' Hr'). lia. }
  destruct new; [|by apply Hrest; [|unfold seen; cbn; lia]].
  apply wp_run_bindR, wp_import_announce. intros [[]|err] w1 Hw1; [|split; [by rewrite Hw1|done]].
  apply Hrest; [by rewrite Hw1|unfold seen; cbn; lia].
Qed.

Lemma wp_import_links links r (w : W) :
  wp (run (import_links feed casbin_text links r)) (fun res w' =>
    (forall x, x ∈ ef_grouping (enforcer w) -> x ∈ ef_grouping (enforcer w')) /\
    forall r', res = Ok r' -> seen r' = seen r + length links /\ forall x, x ∈ links -> x ∈ ef_grouping (enforcer w')) w.
Proof.
  revert r w. induction links as [|link links IH]; intros r w; cbn [import_links length].
  { apply wp_ret. split; [done|]. intros r' [= <-]. split; [lia|]. by intros x ?%elem_of_nil. }
  apply wp_run_bindR, wp_run_bind, wp_run_atomically, wp_zoom. eapply wp_mono; [apply ef_add_grouping_law|].
  intros [new|e] e' [Hk Hin]; cbn [map_err]; [|by apply wp_ret]. specialize (Hin eq_refl). apply wp_ret.
  assert (forall r0 w1, ef_grouping (enforcer w1) = ef_grouping e' -> seen r0 = S (seen r) ->
    wp (run (import_links feed casbin_text links r0)) (fun res w' =>
      (forall x, x ∈ ef_grouping (enforcer w) -> x ∈ ef_grouping (enforcer w')) /\
      forall r', res = Ok r' -> seen r' = seen r + S (length links) /\
        forall x, x ∈ link :: links -> x ∈ ef_grouping (enforcer w')) w1) as Hrest.
  { intros r0 w1 Hw1 Hs. eapply wp_mono; [apply IH|]. intros res w' [Hg Hr]. rewrite Hw1 in Hg. split; [auto|].
    intros r' Hr'. destruct (Hr r' Hr') as [Hn Hl]. split; [lia|]. intros x [->|Hx]%elem_of_cons; auto. }
  destruct new; [|by apply Hrest; [|unfold seen; cbn; lia]].
  apply wp_run_bindR, wp_import_announce. intros [[]|err] w1 Hw1; [|split; [by rewrite Hw1|done]].
  apply Hrest; [by rewrite Hw1|unfold seen; cbn; lia].
Qed.

(** A load that succeeds accounts for every rule and every link of the dump,
    as added or as a duplicate, leaves every link of the dump in the store, and
    takes none away; one that fails takes none away either. *)
Theorem import_complete dump (w : W) :
  wp (run (import_s3 feed casbin_text dump)) (fun res w' =>
    (forall x, x ∈ ef_grouping (enforcer w) -> x ∈ ef_grouping (enforcer w')) /\
    forall r, res = Ok r ->
      rules_added r + groups_added r + duplicates r = length (dump_p dump) + length (dump_g dump) /\
      forall x, x ∈ dump_g dump -> x ∈ ef_grouping (enforcer w')) w.
Proof.
  unfold import_s3. apply wp_run_bindR. eapply wp_mono; [apply wp_import_rules|].
  intros [r|e] w1 [Hg Hr]; [|split; [by rewrite Hg|done]]. specialize (Hr r eq_refl). unfold seen in Hr at 2. cbn in Hr.
  eapply wp_mono; [apply wp_import_links|]. intros res w' [Hk Hl]. split; [by rewrite <- Hg|].
  intros r' Hr'. destruct (Hl r' Hr') as [Hn Hx]. split; [unfold seen in *; lia|done].
Qed.
End import.

(** ** A load is exact *)

(** What casbin promises of an enforcer whose store answers: its rules and its
    links are sets, and adding one of a good form answers whether it is new. *)
Class EnforcerSets (E : Type) `{!Enforcer E} := {
  es_up : E -> Prop;
  es_add_policy rule e : es_up e -> good_rule ("p", "p", rule) -> wp (ef_add_policy rule) (fun r e' =>
    es_up e' /\ ef_grouping e' = ef_grouping e /\ r = Ok (negb (bool_decide (rule ∈ ef_policy e))) /\
    forall x, x ∈ ef_policy e' <-> x = rule \/ x ∈ ef_policy e) e;
  es_add_grouping link e : es_up e -> good_rule ("g", "g", link) -> wp (ef_add_grouping link) (fun r e' =>
    es_up e' /\ ef_policy e' = ef_policy e /\ r = Ok (negb (bool_decide (link ∈ ef_grouping e))) /\
    forall x, x ∈ ef_grouping e' <-> x = link \/ x ∈ ef_grouping e) e;
}.

(** The entries of [l] that are not in [have], each once, in order. *)
Fixpoint fresh (have l : list (list string)) : list (list string) :=
  match l with
  | [] => []
  | x :: l => if bool_decide (x ∈ have) then fresh have l else x :: fresh (x :: have) l
  end.

Lemma fresh_ext have have' l : (forall x, x ∈ have <-> x ∈ have') -> fresh have l = fresh have' l.
Proof.
  revert have have'. induction l as [|x l IH]; intros have have' Hh; cbn [fresh]; [done|].
  rewrite (bool_decide_ext _ _ (Hh x)). case_bool_decide; [by apply IH|]. f_equal. apply IH.
  intros y. rewrite !elem_of_cons. by rewrite Hh.
Qed.

Lemma fresh_length have l : length (fresh have l) <= length l.
Proof.
  revert have. induction l as [|x l IH]; intros have; cbn [fresh length]; [done|].
  case_bool_decide; cbn [length]; [specialize (IH have)|specialize (IH (x :: have))]; lia.
Qed.

(** Nothing is fresh once it is there. *)
Lemma fresh_nil have l : (forall x, x ∈ l -> x ∈ have) -> fresh have l = [].
Proof.
  induction l as [|x l IH]; intros Hl; cbn [fresh]; [done|].
  rewrite bool_decide_eq_true_2 by (apply Hl; by left). apply IH. intros y Hy. apply Hl. by right.
Qed.

Lemma load_fresh_cons x l have :
  fresh have (x :: l) = if bool_decide (x ∈ have) then fresh have l else x :: fresh (x :: have) l.
Proof. done. Qed.

Definition rule_op (rule : list string) : WalOp := PolicyRuleAdd (field 0 rule) (field 1 rule) (field 2 rule).
Definition link_op (link : list string) : WalOp := GroupAdd (field 0 link) (field 1 link).

Section exact.
Context {E F : Type} `{!Enforcer E} `{!EnforcerSets E} `{!ChangeSink F} `{!SinkLaws F}.
Variable feed : bool.
Context (casbin_text : CasbinError -> string).

#[local] Abbreviation W := (policy_world E F).

(** The store and the feed answer. *)
Definition admin_up (w : W) : Prop := es_up (enforcer w) /\ sink_up (pw_feed w).

Definition told (ops : list WalOp) : list WalOp := if feed then ops else [].

Lemma wp_announce_up op Q (w : W) : admin_up w ->
  (forall w', admin_up w' -> enforcer w' = enforcer w ->
    sink_ops (pw_feed w') = sink_ops (pw_feed w) ++ told [op] -> Q (Ok tt) w') ->
  wp (run (import_announce feed op)) Q w.
Proof.
  intros [He Hf] HQ. unfold import_announce, told in *. destruct feed.
  - apply wp_run_atomically, wp_zoom. eapply wp_mono; [by apply sink_append|]. intros r f' (-> & Hf' & Ho). by apply HQ.
  - apply wp_ret, HQ; [done..|]. by rewrite List.app_nil_r.
Qed.

Lemma told_cons op ops : told [op] ++ told ops = told (op :: ops).
Proof. unfold told. by destruct feed. Qed.

(** The loop that [import_rules] and [import_links] are. *)
Section load.
Variables (add : list string -> act E (result bool CasbinError)) (op_of : list string -> WalOp)
  (bump : nat -> nat -> ImportReport -> ImportReport) (get other : E -> list (list string)) (good : list string -> Prop).

Fixpoint load_entries (l : list (list string)) (r : ImportReport) : prog W (result ImportReport string) :=
  match l with
  | [] => mret (Ok r)
  | x :: l =>
      new <-? map_errM casbin_text (atomically (zoom (add x)));
      if (new : bool) then _ <-? import_announce feed (op_of x); load_entries l (bump 1 0 r) else load_entries l (bump 0 1 r)
  end.

Hypothesis add_law : forall x e, es_up e -> good x -> wp (add x) (fun r e' =>
  es_up e' /\ other e' = other e /\ r = Ok (negb (bool_decide (x ∈ get e))) /\
  forall y, y ∈ get e' <-> y = x \/ y ∈ get e) e.
Hypothesis bump_none : forall r, bump 0 0 r = r.
Hypothesis bump_more : forall n d n' d' r, bump n d (bump n' d' r) = bump (n' + n) (d' + d) r.

(** The entries [l] loaded from [w] to [w']. *)
Record loaded (l : list (list string)) (w w' : W) : Prop := {
  load_up : admin_up w';
  load_other : other (enforcer w') = other (enforcer w);
  load_get x : x ∈ get (enforcer w') <-> x ∈ l \/ x ∈ get (enforcer w);
  load_told : sink_ops (pw_feed w') = sink_ops (pw_feed w) ++ told (map op_of (fresh (get (enforcer w)) l));
}.

Lemma wp_load_entries l r Q (w : W) : admin_up w -> Forall good l ->
  (forall w', loaded l w w' -> let n := length (fresh (get (enforcer w)) l) in
    Q (Ok (bump n (length l - n) r)) w') ->
  wp (run (load_entries l r)) Q w.
Proof.
  intros Hw Hgood. revert r w Hw. induction Hgood as [|x l Hx Hgood IH]; intros r w Hw HQ; cbn [load_entries].
  { specialize (HQ w). cbn in HQ. rewrite bump_none in HQ. apply wp_ret, HQ. split; [done..| |].
    - intros x. split; [by right|]. by intros [Hx%not_elem_of_nil|].
    - cbn. unfold told. destruct feed; by rewrite List.app_nil_r. }
  apply wp_run_bindR, wp_run_bind, wp_run_atomically, wp_zoom. eapply wp_mono; [by apply add_law; [apply Hw|]|].
  intros res e' (Hup & Ho & -> & Hp). change (view w) with (enforcer w) in *. apply wp_ret. cbn zeta in HQ.
  pose proof (load_fresh_cons x l (get (enforcer w))) as Hn. pose proof (fresh_length (get (enforcer w)) l).
  set (w1 := @upd _ _ enforcer_lens e' w). assert (admin_up w1) as Hw1 by (split; [done|apply Hw]).
  case_bool_decide as Hin; cbn [negb].
  - assert (fresh (get (enforcer w1)) l = fresh (get (enforcer w)) l) as Hf
      by (apply fresh_ext; intros y; cbn; rewrite Hp; split; [by intros [->|?]|by right]).
    rewrite Hn in HQ. apply IH; [done|]. intros w' [Hu' Ho' Hg' Ht']. cbn zeta. rewrite Hf in Ht' |- *. rewrite bump_more.
    replace (1 + (length l - length (fresh (get (enforcer w)) l))) with (length (x :: l) - length (fresh (get (enforcer w)) l)) by (cbn [length]; lia).
    apply HQ. split; [done|by rewrite Ho'| |by rewrite Hn].
    intros y. rewrite Hg', elem_of_cons. cbn. rewrite Hp. split; [tauto|]. intros [[->|?]|?]; tauto.
  - assert (forall w2 : W, enforcer w2 = e' -> fresh (get (enforcer w2)) l = fresh (x :: get (enforcer w)) l) as Hf
      by (intros w2 ->; apply fresh_ext; intros y; by rewrite Hp, elem_of_cons).
    rewrite Hn in HQ. apply wp_run_bindR, wp_announce_up; [done|]. intros w2 Hw2 He2 Ht2. apply IH; [done|].
    intros w' [Hu' Ho' Hg' Ht']. cbn zeta. rewrite Hf in Ht' |- * by done. rewrite bump_more. apply HQ. split; [done|by rewrite Ho', He2| |].
    + intros y. rewrite Hg', He2, elem_of_cons. cbn. rewrite Hp. tauto.
    + rewrite Ht', Ht2, Hn, <- List.app_assoc, told_cons. done.
Qed.
End load.

Definition bump_rules (n d : nat) (r : ImportReport) : ImportReport :=
  {| rules_added := n + rules_added r; groups_added := groups_added r; duplicates := d + duplicates r |}.
Definition bump_links (n d : nat) (r : ImportReport) : ImportReport :=
  {| rules_added := rules_added r; groups_added := n + groups_added r; duplicates := d + duplicates r |}.

Lemma add_swap a b c : a + (b + c) = (b + a) + c.
Proof. lia. Qed.

Lemma bump_rules_more n d n' d' r : bump_rules n d (bump_rules n' d' r) = bump_rules (n' + n) (d' + d) r.
Proof. unfold bump_rules. cbn [rules_added groups_added duplicates]. by rewrite <- !add_swap. Qed.

Lemma bump_links_more n d n' d' r : bump_links n d (bump_links n' d' r) = bump_links (n' + n) (d' + d) r.
Proof. unfold bump_links. cbn [rules_added groups_added duplicates]. by rewrite <- !add_swap. Qed.

Lemma import_rules_load : import_rules feed casbin_text = load_entries ef_add_policy rule_op bump_rules.
Proof. reflexivity. Qed.

Lemma import_links_load : import_links feed casbin_text = load_entries ef_add_grouping link_op bump_links.
Proof. reflexivity. Qed.

(** Every rule and link of the dump has the form of its section. *)
Definition good_dump (d : PolicyDump) : Prop :=
  Forall (fun x => good_rule ("p", "p", x)) (dump_p d) /\ Forall (fun x => good_rule ("g", "g", x)) (dump_g d).

(** What a load makes of a store. *)
Record imported (d : PolicyDump) (w w' : W) (r : ImportReport) : Prop := {
  im_up : admin_up w';
  im_policy x : x ∈ ef_policy (enforcer w') <-> x ∈ dump_p d \/ x ∈ ef_policy (enforcer w);
  im_grouping x : x ∈ ef_grouping (enforcer w') <-> x ∈ dump_g d \/ x ∈ ef_grouping (enforcer w);
  im_report : let p := fresh (ef_policy (enforcer w)) (dump_p d) in let g := fresh (ef_grouping (enforcer w)) (dump_g d) in
    rules_added r = length p /\ groups_added r = length g /\
    duplicates r = length (dump_p d) - length p + (length (dump_g d) - length g);
  im_told : sink_ops (pw_feed w') = sink_ops (pw_feed w) ++
    told (map rule_op (fresh (ef_policy (enforcer w)) (dump_p d)) ++ map link_op (fresh (ef_grouping (enforcer w)) (dump_g d)));
}.

Lemma wp_import d Q (w : W) : admin_up w -> good_dump d ->
  (forall w' r, imported d w w' r -> Q (Ok r) w') -> wp (run (import_s3 feed casbin_text d)) Q w.
Proof.
  intros Hw [Hp Hg] HQ. unfold import_s3. rewrite import_rules_load, import_links_load. apply wp_run_bindR.
  apply (wp_load_entries _ _ _ ef_policy ef_grouping (fun x => good_rule ("p", "p", x)));
    [apply es_add_policy|by intros []|apply bump_rules_more|done..|]. intros w1 [Hu1 Ho1 Hg1 Ht1].
  apply (wp_load_entries _ _ _ ef_grouping ef_policy (fun x => good_rule ("g", "g", x)));
    [apply es_add_grouping|by intros []|apply bump_links_more|done..|]. intros w2 [Hu2 Ho2 Hg2 Ht2].
  apply HQ. rewrite Ho1 in Ht2, Hg2 |- *. split.
  - done.
  - intros x. by rewrite Ho2.
  - done.
  - cbn. split_and!; lia.
  - rewrite Ht2, Ht1, <- List.app_assoc. unfold told. by destruct feed.
Qed.
End exact.
