(* ===== verification/FsLocks.v ===== *)
(** FsLocks: the lock of an upload session ([SessionLocks] and [SessionLock] of
    [src/src/fs/mod.rs]): a map from the ids in use to a counted mutex, which the
    last claim removes.

    [acquire] and [drop_lock] are the two blocks under the map's mutex.  A
    [step] is one of them, or the mutex of an entry being taken or given back;
    that it has one holder at a time is what [tokio::sync::Mutex] promises. *)
From S2P Require Import Prelude.
From S2P Require Import Effects.

(** The entries are allocated objects, told apart by [Arc::ptr_eq]: numbers. *)
Record SessionLocks := {
  inner : gmap string nat;
  claims : gmap nat nat;
  next_entry : nat;
}.

Definition no_locks : SessionLocks := {| inner := ∅; claims := ∅; next_entry := 0 |}.

Definition claims_of (e : nat) (l : SessionLocks) : nat := default 0 (claims l !! e).

(** The entry of a key, made on first use, with one more claim. *)
Definition acquire (key : string) : act SessionLocks nat := fun l =>
  let '(e, map, fresh) :=
    match inner l !! key with
    | Some e => (e, inner l, next_entry l)
    | None => (next_entry l, <[key := next_entry l]> (inner l), S (next_entry l))
    end in
  (e, {| inner := map; claims := <[e := S (claims_of e l)]> (claims l); next_entry := fresh |}).

(** [Drop for SessionLock] *)
Definition drop_lock (key : string) (e : nat) : act SessionLocks unit := fun l =>
  if bool_decide (inner l !! key = Some e) then
    let n := claims_of e l in
    (tt, {| inner := if bool_decide (n = 1) then delete key (inner l) else inner l;
            claims := <[e := n - 1]> (claims l); next_entry := next_entry l |})
  else (tt, l).

(** ** The locks in use

    A handle is one live [SessionLock]; a holder is the handle whose guard of
    the entry's mutex is alive.  The guard is dropped before the handle. *)
Record system := System {
  locks : SessionLocks;
  handles : gmap nat (string * nat);
  holder : gmap nat nat;
}.

Inductive step : system -> system -> Prop :=
| step_acquire s h key :
    handles s !! h = None ->
    step s (System (acquire key (locks s)).2
              (<[h := (key, (acquire key (locks s)).1)]> (handles s)) (holder s))
| step_lock s h key e :
    handles s !! h = Some (key, e) -> holder s !! e = None ->
    step s (System (locks s) (handles s) (<[e := h]> (holder s)))
| step_unlock s h e :
    holder s !! e = Some h ->
    step s (System (locks s) (handles s) (delete e (holder s)))
| step_drop s h key e :
    handles s !! h = Some (key, e) -> holder s !! e <> Some h ->
    step s (System (drop_lock key e (locks s)).2 (delete h (handles s)) (holder s)).

Definition start : system := System no_locks ∅ ∅.
Definition reachable (s : system) : Prop := rtc step start s.

(** The handle [h] is on [key] and inside its critical section. *)
Definition inside (s : system) (h : nat) (key : string) : Prop :=
  exists e, handles s !! h = Some (key, e) /\ holder s !! e = Some h.

Definition on_entry (e : nat) (hs : gmap nat (string * nat)) : gmap nat (string * nat) :=
  filter (fun x => x.2.2 = e) hs.

Record locks_inv (s : system) : Prop := {
  inv_handle h key e : handles s !! h = Some (key, e) -> inner (locks s) !! key = Some e;
  inv_count e : claims_of e (locks s) = size (on_entry e (handles s));
  inv_used key e : inner (locks s) !! key = Some e -> exists h, handles s !! h = Some (key, e);
  inv_fresh key e : inner (locks s) !! key = Some e -> e < next_entry (locks s);
  inv_inj key key' e : inner (locks s) !! key = Some e -> inner (locks s) !! key' = Some e -> key = key';
  inv_held e h : holder s !! e = Some h -> exists key, handles s !! h = Some (key, e);
}.

Lemma claims_of_insert e e' n m k l :
  claims_of e {| inner := m; claims := <[e' := n]> (claims l); next_entry := k |} =
    if decide (e' = e) then n else claims_of e l.
Proof. unfold claims_of. cbn. rewrite lookup_insert. by case_decide. Qed.

Lemma size_on_entry_insert e h key e' hs : hs !! h = None ->
  size (on_entry e (<[h := (key, e')]> hs)) =
    if decide (e' = e) then S (size (on_entry e hs)) else size (on_entry e hs).
Proof.
  intros Hh. unfold on_entry. case_decide as He.
  - rewrite map_filter_insert_True by done. rewrite map_size_insert_None; [done|].
    apply map_lookup_filter_None. by left.
  - rewrite map_filter_insert_False by done. by rewrite delete_id.
Qed.

Lemma size_on_entry_delete e h key e' hs : hs !! h = Some (key, e') ->
  size (on_entry e hs) =
    if decide (e' = e) then S (size (on_entry e (delete h hs))) else size (on_entry e (delete h hs)).
Proof.
  intros Hh. rewrite <- (insert_delete_id hs h (key, e')) at 1 by done.
  apply size_on_entry_insert. by rewrite lookup_delete_eq.
Qed.

Lemma on_entry_none e hs : size (on_entry e hs) = 0 -> forall h key, hs !! h <> Some (key, e).
Proof.
  intros Hz%map_size_empty_inv h key Hh. assert (on_entry e hs !! h = Some (key, e)) as Hl.
  { apply map_lookup_filter_Some. by split. }
  by rewrite Hz in Hl.
Qed.

Lemma start_inv : locks_inv start.
Proof. by split. Qed.

Lemma step_inv s s' : locks_inv s -> step s s' -> locks_inv s'.
Proof.
  intros [Hh Hc Hu Hf Hi Hd] Hs. destruct Hs as [s h key Hn|s h key e He Hfree|s h e Hheld|s h key e He Hout].
  - unfold acquire. destruct (inner (locks s) !! key) as [e|] eqn:Ek; cbn.
    + split; cbn.
      * intros h' key' e'. rewrite lookup_insert. case_decide; [by intros [= <- <-]|by apply Hh].
      * intros e'. rewrite claims_of_insert, size_on_entry_insert by done. rewrite !Hc. by case_decide; subst.
      * intros key' e' Hk. destruct (Hu _ _ Hk) as [h' Hh']. exists h'.
        rewrite lookup_insert_ne; [done|]. congruence.
      * apply Hf.
      * apply Hi.
      * intros e' h' He'. destruct (Hd _ _ He') as [key' Hk]. exists key'.
        rewrite lookup_insert_ne; [done|]. congruence.
    + assert (forall h' key', handles s !! h' <> Some (key', next_entry (locks s))) as Hnew.
      { intros h' key' Hx. apply Hh, Hf in Hx. lia. }
      assert (forall h' e', handles s !! h' <> Some (key, e')) as Hnk.
      { intros h' e' Hx. apply Hh in Hx. congruence. }
      split; cbn.
      * intros h' key' e'. rewrite lookup_insert. case_decide.
        -- intros [= <- <-]. by rewrite lookup_insert_eq.
        -- intros Hx. rewrite lookup_insert_ne; [by eapply Hh|]. intros <-. by eapply Hnk.
      * intros e'. rewrite claims_of_insert, size_on_entry_insert by done.
        rewrite !Hc. by case_decide; subst.
      * intros key' e'. rewrite lookup_insert. case_decide.
        -- intros [= <-]. exists h. subst. by rewrite lookup_insert_eq.
        -- intros Hk. destruct (Hu _ _ Hk) as [h' Hh']. exists h'.
           rewrite lookup_insert_ne; [done|]. congruence.
      * intros key' e'. rewrite lookup_insert. case_decide; [intros [= <-]; lia|].
        intros Hk. specialize (Hf _ _ Hk). lia.
      * intros k1 k2 e'. rewrite !lookup_insert. repeat case_decide; subst; [done| | |by apply Hi].
        -- intros [= <-] Hk%Hf. lia.
        -- intros Hk%Hf [= <-]. lia.
      * intros e' h' He'. destruct (Hd _ _ He') as [key' Hk]. exists key'.
        rewrite lookup_insert_ne; [done|]. congruence.
  - split; cbn; [done..|]. intros e' h'. rewrite lookup_insert. case_decide; [|by apply Hd].
    intros [= <-]. subst. by exists key.
  - split; cbn; [done..|]. intros e' h'. rewrite lookup_delete. case_decide; [done|by apply Hd].
  - unfold drop_lock. rewrite bool_decide_eq_true_2 by by eapply Hh. cbn.
    pose proof (fun e' => size_on_entry_delete e' h key e _ He) as Hsz.
    assert (forall e', claims_of e' (locks s) - (if decide (e = e') then 1 else 0) =
      size (on_entry e' (delete h (handles s)))) as Hc'.
    { intros e'. rewrite Hc, Hsz. case_decide; lia. }
    split; cbn.
    + intros h' key' e'. rewrite lookup_delete. case_decide; [done|]. intros Hx.
      case_bool_decide as H1; [|by eapply Hh]. rewrite lookup_delete. case_decide as Hk; [|by eapply Hh].
      subst key'. assert (e' = e) as -> by (apply Hh in Hx, He; congruence).
      specialize (Hc' e). rewrite decide_True, H1 in Hc' by done.
      exfalso. apply (on_entry_none e (delete h (handles s)) (eq_sym Hc') h' key).
      by rewrite lookup_delete_ne.
    + intros e'. rewrite claims_of_insert, <- Hc'. case_decide; subst; [done|lia].
    + intros key' e' Hk. assert (inner (locks s) !! key' = Some e') as Hk'.
      { case_bool_decide; [|done]. rewrite lookup_delete in Hk. by case_decide. }
      destruct (Hu _ _ Hk') as [h' Hh']. destruct (decide (h' = h)) as [->|Hne];
        [|exists h'; by rewrite lookup_delete_ne].
      assert (key' = key /\ e' = e) as [-> ->] by (split; congruence).
      case_bool_decide as H1; [by rewrite lookup_delete_eq in Hk|].
      pose proof (Hsz e) as Hs. rewrite decide_True, <- Hc in Hs by done.
      assert (size (on_entry e (delete h (handles s))) <> 0) as Hnz by lia.
      apply map_size_ne_0_lookup in Hnz as (h' & [k2 e2] & Hh2).
      apply map_lookup_filter_Some in Hh2 as [Hh2 He2]. cbn in He2. subst e2. exists h'.
      rewrite Hh2. rewrite lookup_delete in Hh2. case_decide; [done|].
      do 2 f_equal. by eapply Hi; [eapply Hh|].
    + intros key' e' Hk. eapply Hf. case_bool_decide; [|exact Hk]. rewrite lookup_delete in Hk.
      by case_decide.
    + assert (forall k e', (if bool_decide (claims_of e (locks s) = 1) then delete key (inner (locks s))
        else inner (locks s)) !! k = Some e' -> inner (locks s) !! k = Some e') as Hsub.
      { intros k e'. case_bool_decide; [|done]. rewrite lookup_delete. by case_decide. }
      intros k1 k2 e' H1 H2. by eapply Hi; apply Hsub.
    + intros e' h' He'. destruct (Hd _ _ He') as [key' Hk]. exists key'.
      rewrite lookup_delete_ne; [done|]. intros <-. congruence.
Qed.

Lemma reachable_inv s : reachable s -> locks_inv s.
Proof.
  intros Hr. assert (forall a b, rtc step a b -> locks_inv a -> locks_inv b) as Hall.
  { induction 1; [done|]. intros Ha. by apply IHrtc, (step_inv x). }
  by apply (Hall start s Hr), start_inv.
Qed.

(** C17: the sections of an upload session never overlap, and no lock leaks: in
    every reachable state at most one handle is inside the critical section of
    a key, although entries are removed and made anew; and the map holds
    exactly the keys that some handle is on, so it is empty when nothing is in
    use. *)
Theorem session_locks_exclusive s : reachable s ->
  (forall h1 h2 key, inside s h1 key -> inside s h2 key -> h1 = h2) /\
  (forall key, is_Some (inner (locks s) !! key) <-> exists h e, handles s !! h = Some (key, e)).
Proof.
  intros [Hh Hc Hu Hf Hi Hd]%reachable_inv. split.
  - intros h1 h2 key (e1 & H1 & L1) (e2 & H2 & L2).
    assert (e1 = e2) as -> by (apply Hh in H1, H2; congruence). congruence.
  - intros key. split; [|intros (h & e & Hx); eexists; by eapply Hh].
    intros [e He]. destruct (Hu _ _ He) as [h Hx]. by exists h, e.
Qed.

Module LockExamples.

(** Two tasks on one session: the second waits, the first leaves, the second
    enters. *)
Definition handed_over : system :=
  System {| inner := {["s" := 0]}; claims := {[0 := 1]}; next_entry := 1 |} {[1 := ("s", 0)]} {[0 := 1]}.

Lemma session_locks_exclusive_witness :
  reachable handed_over /\ forall h, inside handed_over h "s" -> h = 1.
Proof.
  assert (reachable handed_over) as Hr.
  { eapply rtc_l; [apply (step_acquire start 0 "s"); reflexivity|].
    eapply rtc_l; [eapply (step_lock _ 0 "s" 0); vm_compute; reflexivity|].
    eapply rtc_l; [eapply (step_acquire _ 1 "s"); vm_compute; reflexivity|].
    eapply rtc_l; [eapply (step_unlock _ 0 0); vm_compute; reflexivity|].
    eapply rtc_l; [eapply (step_drop _ 0 "s" 0); [vm_compute; reflexivity|by vm_compute]|].
    eapply rtc_l; [eapply (step_lock _ 1 "s" 0); vm_compute; reflexivity|].
    match goal with |- rtc step ?s _ => replace s with handed_over; [apply rtc_refl|] end.
    by vm_compute. }
  split; [exact Hr|]. intros h Hin.
  destruct (session_locks_exclusive handed_over Hr) as [He _]. apply (He h 1 "s" Hin).
  exists 0. split; reflexivity.
Defined.
End LockExamples.
