(* ===== verification/FsCalls.v ===== *)
(** FsCalls: calls on upload sessions that run at the same time
    ([SessionLocks::acquire], [SessionLock::acquire] and the drop of both, in
    [src/src/fs/mod.rs]).

    A call registers for the lock of its session, waits until no other call holds
    it, works under it one atomic action at a time, and leaves.  Other tasks of
    the process act in between.  Calls on one session take effect one after the
    other: what one of them does to the rows it guards is never torn. *)
From S2P Require Import Prelude.
From S2P Require Import Effects.
From S2P Require Import FsLocks.

(** ** The calls *)

Section calls.
Context {W A : Type} `{Hlens : LensLaws SessionLocks W}.

(** How far a call is; [e] is the entry it registered for. *)
Inductive stage : Type :=
| Waiting
| Registered (e : nat)
| Working (e : nat) (p : prog W A)
| Leaving (e : nat) (a : A)
| Finished (a : A).

(** The calls, with the session of each and what it does under the lock; which
    call holds the mutex of an entry; the world. *)
Record config := Config {
  calls : list (string * prog W A);
  stages : list stage;
  held : gmap nat nat;
  now : W;
}.

(** One action of a call, or of another task. *)
Inductive event : Type := Turn (i : nat) | Other (g : W -> W).

Definition move (i : nat) (x : stage) (h : gmap nat nat) (w : W) (c : config) : config :=
  {| calls := calls c; stages := <[i := x]> (stages c); held := h; now := w |}.

(** A call that waits for a mutex that is held stays where it is. *)
Definition turn (ev : event) (c : config) : config :=
  match ev with
  | Other g => {| calls := calls c; stages := stages c; held := held c; now := g (now c) |}
  | Turn i =>
      match calls c !! i, stages c !! i with
      | Some (key, body), Some x =>
          match x with
          | Waiting =>
              let '(e, w) := zoom (acquire key) (now c) in move i (Registered e) (held c) w c
          | Registered e =>
              if bool_decide (held c !! e = None) then move i (Working e body) (<[e := i]> (held c)) (now c) c else c
          | Working e (Ret a) => move i (Leaving e a) (delete e (held c)) (now c) c
          | Working e p => let '(p, w) := prog_step p (now c) in move i (Working e p) (held c) w c
          | Leaving e a =>
              let '(_, w) := zoom (drop_lock key e) (now c) in move i (Finished a) (held c) w c
          | Finished _ => c
          end
      | _, _ => c
      end
  end.

Definition turns (evs : list event) (c : config) : config := fold_left (fun c ev => turn ev c) evs c.

Definition begin (cs : list (string * prog W A)) (w : W) : config :=
  {| calls := cs; stages := replicate (length cs) Waiting; held := ∅; now := w |}.

(** Whether a call can move. *)
Definition enabled (c : config) (i : nat) : bool :=
  match stages c !! i with
  | Some (Registered e) => bool_decide (held c !! e = None)
  | Some (Finished _) | None => false
  | Some _ => true
  end.

(** *** The locks *)

Definition entry_of (x : stage) : option nat :=
  match x with Registered e | Working e _ | Leaving e _ => Some e | _ => None end.

Definition handle_of (x : (string * prog W A) * stage) : option (string * nat) :=
  (x.1.1,.) <$> entry_of x.2.

(** The calls as the handles of [FsLocks]. *)
Definition handles_of (c : config) : gmap nat (string * nat) :=
  omap handle_of (map_seq 0 (zip (calls c) (stages c)) : gmap nat _).

Definition system_of (c : config) : system :=
  System (view (now c)) (handles_of c) (held c).

Lemma handles_lookup c i : handles_of c !! i =
  match calls c !! i, stages c !! i with
  | Some call, Some x => handle_of (call, x)
  | _, _ => None
  end.
Proof.
  unfold handles_of. rewrite lookup_omap, lookup_map_seq_0, lookup_zip_with.
  destruct (calls c !! i); cbn; [|done]. by destruct (stages c !! i).
Qed.

Lemma handles_move c i x h w : i < length (stages c) -> handles_of (move i x h w c) =
  match calls c !! i with
  | Some call => match handle_of (call, x) with Some y => <[i := y]> (handles_of c) | None => delete i (handles_of c) end
  | None => handles_of c
  end.
Proof.
  intros Hi. apply map_eq. intros j. rewrite handles_lookup. cbn [move calls stages].
  destruct (decide (j = i)) as [->|Hne].
  - rewrite list_lookup_insert_eq by done. destruct (calls c !! i) as [call|] eqn:Ec.
    + destruct (handle_of (call, x)); [by rewrite lookup_insert_eq|by rewrite lookup_delete_eq].
    + by rewrite handles_lookup, Ec.
  - rewrite list_lookup_insert_ne by done. transitivity (handles_of c !! j); [by rewrite handles_lookup|].
    destruct (calls c !! i); [|done]. destruct (handle_of _); by rewrite ?lookup_insert_ne, ?lookup_delete_ne by done.
Qed.

(** *** What each call does to the world *)

(** What others may do to the world. *)
Variable R : W -> W -> Prop.
Context `{!PreOrder R}.
Hypothesis R_locks : forall l w, R w (upd l w).
(** What every action keeps true of the world. *)
Variable J : W -> Prop.
Hypothesis J_locks : forall l w, J w -> J (upd l w).

(** A task whose every action is one that others may do, and none of the locks. *)
Fixpoint within (p : prog W A) : Prop :=
  match p with
  | Ret _ => True
  | Act f k => forall w, J w -> wp f (fun x w' => R w w' /\ J w' /\ view w' = view w /\ within (k x)) w
  end.

(** A task that reaches [post], whatever others do between its actions. *)
Fixpoint guarded {B} (post : B -> W -> Prop) (p : prog W B) (w : W) : Prop :=
  match p with
  | Ret a => forall w0, R w w0 -> post a w0
  | Act f k => forall w0, R w w0 -> J w0 -> wp f (fun x w1 => J w1 /\ view w1 = view w0 /\ guarded post (k x) w1) w0
  end.

Lemma guarded_stable {B} (post : B -> W -> Prop) p w w' : R w w' -> guarded post p w -> guarded post p w'.
Proof. intros Hw. destruct p; cbn; intros Hp w0 Hw0; apply Hp; by etrans. Qed.

Lemma guarded_bind {B C} (post : C -> W -> Prop) (p : prog W B) (k : B -> prog W C) w :
  guarded (fun a w' => guarded post (k a) w') p w -> guarded post (p ≫= k) w.
Proof.
  revert w. induction p as [a|X f k' IH]; intros w; cbn.
  - intros Hp. by apply Hp.
  - intros Hp w0 Hw0 HJ. eapply wp_mono; [by apply Hp|]. intros x w1 (HJ1 & Hv & Hk). split; [done|]. split; [done|]. by apply IH.
Qed.

Lemma guarded_mono {B} (P Q : B -> W -> Prop) (p : prog W B) w :
  guarded P p w -> (forall a w', P a w' -> Q a w') -> guarded Q p w.
Proof.
  intros Hp HPQ. revert w Hp. induction p as [a|X f k IH]; intros w Hp w0 Hw0; cbn in Hp; [by apply HPQ, Hp|]. intros HJ.
  eapply wp_mono; [by apply Hp|]. intros x w1 (HJ1 & Hv & Hk). split; [done|]. split; [done|]. by apply IH.
Qed.

Lemma guarded_bindR {B C Err} (post : result C Err -> W -> Prop) (p : prog W (result B Err)) (k : B -> prog W (result C Err)) w :
  guarded (fun r w' => match r with Ok a => guarded post (k a) w' | Effects.Err e => forall w0, R w' w0 -> post (Effects.Err e) w0 end) p w ->
  guarded post (bindR p k) w.
Proof. intros Hp. unfold bindR. apply guarded_bind. eapply guarded_mono; [exact Hp|]. by intros [a|e] w'. Qed.

Lemma guarded_ret {B} (post : B -> W -> Prop) a w : (forall w0, R w w0 -> post a w0) -> guarded post (mret a) w.
Proof. done. Qed.

Lemma guarded_act {B} (post : B -> W -> Prop) (f : act W B) w :
  (forall w0, R w w0 -> J w0 -> wp f (fun a w1 => J w1 /\ view w1 = view w0 /\ forall w2, R w1 w2 -> post a w2) w0) ->
  guarded post (atomically f) w.
Proof. intros Hf w0 Hw0 HJ. eapply wp_mono; [by apply Hf|]. done. Qed.

(** *** One session *)

Variable key : string.
(** What the guarded rows are after the calls of the session that are through,
    in the order in which they entered, with their answers. *)
Variable I : list (nat * A) -> W -> Prop.
Hypothesis I_stable : forall h w w', R w w' -> I h w -> I h w'.

Definition event_ok (ev : event) : Prop :=
  match ev with Turn _ => True | Other g => forall w, J w -> R w (g w) /\ J (g w) /\ view (g w) = view w end.

(** Each call of the session does its part from wherever the others left off;
    the calls of other sessions keep away from what it guards. *)
Record calls_ok (cs : list (string * prog W A)) : Prop := {
  co_own i body h w : cs !! i = Some (key, body) -> I h w -> guarded (fun a w' => I (h ++ [(i, a)]) w') body w;
  co_other i k body : cs !! i = Some (k, body) -> k <> key -> within body;
}.

Definition working (c : config) (i e : nat) (p : prog W A) : Prop := stages c !! i = Some (Working e p).
Definition ours (c : config) (i : nat) : Prop := exists body, calls c !! i = Some (key, body).
Definition through (c : config) (i : nat) (a : A) : Prop :=
  (exists e, stages c !! i = Some (Leaving e a)) \/ stages c !! i = Some (Finished a).

Record calls_inv (cs : list (string * prog W A)) (h : list (nat * A)) (c : config) : Prop := {
  ci_calls : calls c = cs;
  ci_length : length (stages c) = length cs;
  ci_locks : locks_inv (system_of c);
  ci_held e i : held c !! e = Some i <-> exists p, working c i e p;
  ci_nodup : NoDup h.*1;
  ci_through i a : (i, a) ∈ h <-> ours c i /\ through c i a;
  ci_other i k body e p : calls c !! i = Some (k, body) -> k <> key -> working c i e p -> within p;
  ci_at i e p : ours c i -> working c i e p -> guarded (fun a w' => I (h ++ [(i, a)]) w') p (now c);
  ci_sound : J (now c);
  ci_free : (forall i e p, ours c i -> ~ working c i e p) -> I h (now c);
}.

Lemma calls_exclusive cs h c i j k bi bj ei ej pi pj : calls_inv cs h c ->
  calls c !! i = Some (k, bi) -> calls c !! j = Some (k, bj) -> working c i ei pi -> working c j ej pj -> i = j.
Proof.
  intros Hc Hi Hj Hwi Hwj. destruct (ci_locks _ _ _ Hc) as [Hh _ _ _ _ _].
  assert (inner (view (now c)) !! k = Some ei) as H1.
  { apply (Hh i). cbn. rewrite handles_lookup, Hi, Hwi. done. }
  assert (inner (view (now c)) !! k = Some ej) as H2.
  { apply (Hh j). cbn. rewrite handles_lookup, Hj, Hwj. done. }
  assert (ei = ej) as <- by congruence.
  assert (held c !! ei = Some i) as H3 by (apply (ci_held _ _ _ Hc); by eexists).
  assert (held c !! ei = Some j) as H4 by (apply (ci_held _ _ _ Hc); by eexists). congruence.
Qed.

Lemma begin_inv cs w : view w = no_locks -> J w -> I [] w -> calls_inv cs [] (begin cs w).
Proof.
  intros Hv HJ HI. assert (handles_of (begin cs w) = ∅) as Hn.
  { apply map_eq. intros i. rewrite handles_lookup, lookup_empty. cbn. destruct (cs !! i); [|done].
    destruct (replicate _ _ !! i) as [x|] eqn:Ex; [|done]. by apply lookup_replicate in Ex as [-> _]. }
  assert (forall i x, stages (begin cs w) !! i = Some x -> x = Waiting) as Hw.
  { intros i x Hx. by apply lookup_replicate in Hx as [-> _]. }
  split; [done|cbn; by rewrite length_replicate| | |constructor| | | | |done].
  - unfold system_of. rewrite Hn. cbn [now begin]. rewrite Hv. apply start_inv.
  - intros e i. cbn. rewrite lookup_empty. split; [done|]. intros (p & Hp). by apply Hw in Hp.
  - intros i a. rewrite elem_of_nil. split; [done|]. intros (_ & [(e & Hx)|Hx]); by apply Hw in Hx.
  - intros i k body e p _ _ Hp. by apply Hw in Hp.
  - intros i e p _ Hp. by apply Hw in Hp.
  - done.
Qed.

(** *** One action keeps the invariant *)

Definition done_as (x : stage) (a : A) : Prop := (exists e, x = Leaving e a) \/ x = Finished a.
Definition works_on (x : stage) (e : nat) : Prop := exists p, x = Working e p.

Lemma moved i x h w c j y : i < length (stages c) -> stages (move i x h w c) !! j = Some y <->
  (j = i /\ y = x) \/ (j <> i /\ stages c !! j = Some y).
Proof.
  intros Hi. cbn. destruct (decide (j = i)) as [->|Hne].
  - rewrite list_lookup_insert_eq by done. naive_solver.
  - rewrite list_lookup_insert_ne by done. naive_solver.
Qed.

Lemma inv_bound cs h c i x : calls_inv cs h c -> stages c !! i = Some x -> i < length (stages c).
Proof. intros _ Hx. by eapply lookup_lt_Some. Qed.

(** An action that is not the work of a call of the session, and neither takes
    nor gives back a mutex. *)
Lemma inv_quiet cs h c i k body old x w : calls_inv cs h c -> calls c !! i = Some (k, body) -> stages c !! i = Some old ->
  R (now c) w -> J w -> locks_inv (system_of (move i x (held c) w c)) ->
  (forall a, done_as x a <-> done_as old a) -> (forall e, works_on x e <-> works_on old e) ->
  (k = key -> forall e, ~ works_on x e) -> (k <> key -> forall e p, x = Working e p -> within p) ->
  calls_inv cs h (move i x (held c) w c).
Proof.
  intros Hinv Hcall Hold HR HJ Hlocks Hdone Hworks Hours Hothers. pose proof (inv_bound _ _ _ _ _ Hinv Hold) as Hi.
  pose proof (fun j y => moved i x (held c) w c j y Hi) as Hm.
  destruct Hinv as [Hcs Hlen Hlk Hheld Hnd Hthr Hoth Hat HJ0 Hfree]. unfold working, through, ours in *.
  split; unfold working, through, ours; [done|cbn; by rewrite length_insert|done| |done|..].
  - intros e j. cbn [move held]. rewrite Hheld. setoid_rewrite Hm. destruct (decide (j = i)) as [->|Hne]; [|naive_solver].
    rewrite Hold. specialize (Hworks e). unfold works_on in Hworks. naive_solver.
  - intros j a. rewrite Hthr. cbn [move calls]. apply and_iff_compat_l.
    setoid_rewrite Hm. destruct (decide (j = i)) as [->|Hne]; [|naive_solver].
    rewrite Hold. specialize (Hdone a). unfold done_as in Hdone. naive_solver.
  - intros j k' b' e p Hj Hk [[-> Hx]|[Hne Hx]]%Hm; [|by eapply Hoth]. cbn in Hj. rewrite Hcall in Hj. injection Hj as <- <-. by eapply Hothers.
  - intros j e p [b' Hj] [[-> Hx]|[Hne Hx]]%Hm; cbn [move calls now] in *.
    + exfalso. rewrite Hcall in Hj. injection Hj as -> ->. by eapply Hours; [|by exists p].
    + eapply guarded_stable; [exact HR|]. apply (Hat j e); [by exists b'|done].
  - exact HJ.
  - intros Hno. cbn [move now]. eapply I_stable; [exact HR|]. apply Hfree. intros j e p Hj Hx.
    destruct (decide (j = i)) as [->|Hne].
    + rewrite Hold in Hx. injection Hx as ->. destruct (proj2 (Hworks e)) as [p' ->]; [by exists p|].
      apply (Hno i e p'); [done|]. apply Hm. by left.
    + apply (Hno j e p); [done|]. apply Hm. by right.
Qed.

(** A call takes the mutex of its entry. *)
Lemma inv_enter cs h c i k body e : calls_ok cs -> calls_inv cs h c -> calls c !! i = Some (k, body) ->
  stages c !! i = Some (Registered e) -> held c !! e = None ->
  calls_inv cs h (move i (Working e body) (<[e := i]> (held c)) (now c) c).
Proof.
  intros Hok Hinv Hcall Hold Hfree_e. pose proof (inv_bound _ _ _ _ _ Hinv Hold) as Hi.
  pose proof (fun j y => moved i (Working e body) (<[e := i]> (held c)) (now c) c j y Hi) as Hm.
  assert (handles_of (move i (Working e body) (<[e := i]> (held c)) (now c) c) = handles_of c) as Hhs.
  { rewrite handles_move, Hcall by done. cbn. apply insert_id. by rewrite handles_lookup, Hcall, Hold. }
  assert (k = key -> I h (now c)) as HI.
  { intros ->. apply (ci_free _ _ _ Hinv). intros j e' p [b Hj] Hw.
    assert (held c !! e' = Some j) as Hheld by (apply (ci_held _ _ _ Hinv); by exists p).
    destruct (ci_locks _ _ _ Hinv) as [Hh _ _ _ _ _].
    assert (inner (view (now c)) !! key = Some e') as H1 by (apply (Hh j); cbn; by rewrite handles_lookup, Hj, Hw).
    assert (inner (view (now c)) !! key = Some e) as H2 by (apply (Hh i); cbn; by rewrite handles_lookup, Hcall, Hold).
    congruence. }
  destruct Hinv as [Hcs Hlen Hlk Hheld Hnd Hthr Hoth Hat HJ0 Hfr]. unfold working, through, ours in *.
  split; unfold working, through, ours; [done|cbn; by rewrite length_insert| | |done|..].
  - eapply step_inv; [exact Hlk|]. unfold system_of. rewrite Hhs. apply (step_lock (system_of c) i k e); [|done].
    cbn. by rewrite handles_lookup, Hcall, Hold.
  - intros e' j. cbn [move held]. rewrite lookup_insert. setoid_rewrite Hm. case_decide as He.
    + subst e'. split; [intros [= <-]; eexists; by left|]. intros (p & [[-> _]|[Hne Hx]]); [done|]. exfalso.
      assert (held c !! e = Some j) by (apply Hheld; by exists p). congruence.
    + rewrite Hheld. split; intros (p & Hx); exists p; [right|]; [|naive_solver]. split; [|done]. intros ->. congruence.
  - intros j a. rewrite Hthr. cbn [move calls]. apply and_iff_compat_l. setoid_rewrite Hm. naive_solver.
  - intros j k' b' e' p Hj Hk [[-> Hx]|[Hne Hx]]%Hm; [|by eapply Hoth]. cbn in Hj. injection Hx as -> ->.
    rewrite Hcall in Hj. injection Hj as <- <-. eapply (co_other _ Hok i); [|exact Hk]. by rewrite <- Hcs.
  - intros j e' p [b' Hj] [[-> Hx]|[Hne Hx]]%Hm; cbn [move calls now] in *; [|by apply (Hat j e'); [exists b'|]].
    injection Hx as -> ->. rewrite Hcall in Hj. injection Hj as -> ->.
    eapply (co_own _ Hok i); [by rewrite <- Hcs|by apply HI].
  - exact HJ0.
  - intros Hno. cbn [move now]. destruct (decide (k = key)) as [->|Hk].
    + exfalso. apply (Hno i e body); [by exists body|]. apply Hm. by left.
    + apply Hfr. intros j e' p Hj Hx. apply (Hno j e' p); [done|]. apply Hm. right. split; [|done]. intros ->. congruence.
Qed.

(** A call of the session acts under its mutex. *)
Lemma inv_work cs h c i body e p w : calls_inv cs h c -> calls c !! i = Some (key, body) ->
  stages c !! i = Some (Working e p) -> J w -> view w = view (now c) -> forall p', guarded (fun a w' => I (h ++ [(i, a)]) w') p' w ->
  calls_inv cs h (move i (Working e p') (held c) w c).
Proof.
  intros Hinv Hcall Hold HJ Hv p' Hp'. pose proof (inv_bound _ _ _ _ _ Hinv Hold) as Hi.
  pose proof (fun j y => moved i (Working e p') (held c) w c j y Hi) as Hm. pose proof (calls_exclusive cs h c) as Hex.
  assert (handles_of (move i (Working e p') (held c) w c) = handles_of c) as Hhs.
  { rewrite handles_move, Hcall by done. cbn. apply insert_id. by rewrite handles_lookup, Hcall, Hold. }
  pose proof Hinv as [Hcs Hlen Hlk Hheld Hnd Hthr Hoth Hat HJ0 Hfr]. unfold working, through, ours in *.
  split; unfold working, through, ours; [done|cbn; by rewrite length_insert| | |done|..].
  - unfold system_of. rewrite Hhs. cbn [move now held]. by rewrite Hv.
  - intros e' j. cbn [move held]. rewrite Hheld. setoid_rewrite Hm. split; intros (p0 & Hx).
    + destruct (decide (j = i)) as [->|]; [|naive_solver]. rewrite Hold in Hx. injection Hx as -> ->. eexists. by left.
    + destruct Hx as [[-> [= -> ->]]|[_ Hx]]; by eexists.
  - intros j a. rewrite Hthr. cbn [move calls]. apply and_iff_compat_l. setoid_rewrite Hm. naive_solver.
  - intros j k' b' e' p0 Hj Hk [[-> Hx]|[Hne Hx]]%Hm; [|by eapply Hoth]. cbn in Hj. congruence.
  - intros j e' p0 [b' Hj] [[-> Hx]|[Hne Hx]]%Hm; cbn [move calls now] in *; [by injection Hx as -> ->|].
    exfalso. apply Hne. eapply Hex; [exact Hinv|exact Hj|exact Hcall|exact Hx|exact Hold].
  - exact HJ.
  - intros Hno. exfalso. apply (Hno i e p'); [by exists body|]. apply Hm. by left.
Qed.

(** A call gives the mutex back; one of the session is through with that. *)
Lemma inv_leave cs h c i k body e a : calls_inv cs h c -> calls c !! i = Some (k, body) ->
  stages c !! i = Some (Working e (Ret a)) ->
  calls_inv cs (if decide (k = key) then h ++ [(i, a)] else h) (move i (Leaving e a) (delete e (held c)) (now c) c).
Proof.
  intros Hinv Hcall Hold. pose proof (inv_bound _ _ _ _ _ Hinv Hold) as Hi.
  pose proof (fun j y => moved i (Leaving e a) (delete e (held c)) (now c) c j y Hi) as Hm. pose proof (calls_exclusive cs h c) as Hex.
  assert (handles_of (move i (Leaving e a) (delete e (held c)) (now c) c) = handles_of c) as Hhs.
  { rewrite handles_move, Hcall by done. cbn. apply insert_id. by rewrite handles_lookup, Hcall, Hold. }
  pose proof Hinv as [Hcs Hlen Hlk Hheld Hnd Hthr Hoth Hat HJ0 Hfr]. unfold working, through, ours in *.
  assert (held c !! e = Some i) as He by (apply Hheld; by eexists).
  assert (forall x, (i, x) ∉ h) as Hnew.
  { intros x Hin. apply Hthr in Hin as (_ & [(e' & Hx)|Hx]); congruence. }
  assert (forall j x, (j, x) ∈ (if decide (k = key) then h ++ [(i, a)] else h) <->
    (k = key /\ j = i /\ x = a) \/ (j, x) ∈ h) as Hmem.
  { intros j x. case_decide; [|naive_solver]. rewrite elem_of_app, list_elem_of_singleton. naive_solver. }
  split; unfold working, through, ours; [done|cbn; by rewrite length_insert|..].
  - eapply step_inv; [exact Hlk|]. unfold system_of. rewrite Hhs. by apply (step_unlock (system_of c) i e).
  - intros e' j. cbn [move held]. rewrite lookup_delete. setoid_rewrite Hm. destruct (decide (e = e')) as [<-|Hee].
    + split; [done|]. intros (p & [[-> Hx]|[Hne Hx]]); [done|]. exfalso.
      assert (held c !! e = Some j) by (apply Hheld; by exists p). congruence.
    + rewrite Hheld. split; intros (p & Hx); exists p; [right|]; [|naive_solver]. split; [|done]. intros ->. congruence.
  - destruct (decide (k = key)); [|done]. rewrite fmap_app. apply NoDup_app. split; [done|]. split; [|by apply NoDup_singleton].
    cbn. intros j ([j' x] & -> & Hin)%list_elem_of_fmap Hj%list_elem_of_singleton. cbn in Hj. subst j'. by apply (Hnew x).
  - intros j x. rewrite Hmem, Hthr. cbn [move calls]. setoid_rewrite Hm. split.
    + intros [(-> & -> & ->)|[Hj Hx]]; [split; [by eexists|left; eexists; by left]|]. split; [done|].
      destruct (decide (j = i)) as [->|]; [|naive_solver]. exfalso. destruct Hx as [(? & ?)|?]; congruence.
    + intros [Hj [(e' & [[-> Hx]|[_ Hx]])|[[-> Hx]|[_ Hx]]]]; [|right; eauto|done|right; eauto].
      injection Hx as -> ->. left. destruct Hj as [b Hj]. rewrite Hcall in Hj. injection Hj as -> _. done.
  - intros j k' b' e' p Hj Hk [[-> Hx]|[Hne Hx]]%Hm; [done|by eapply Hoth].
  - intros j e' p [b' Hj] [[-> Hx]|[Hne Hx]]%Hm; cbn [move calls now] in *; [done|].
    rewrite decide_False; [by apply (Hat j e'); [exists b'|]|]. intros ->. apply Hne.
    eapply Hex; [exact Hinv|exact Hj|exact Hcall|exact Hx|exact Hold].
  - exact HJ0.
  - intros Hno. cbn [move now]. destruct (decide (k = key)) as [->|Hk].
    + apply (Hat i e (Ret a)); [by exists body|done|reflexivity].
    + apply Hfr. intros j e' p Hj Hx. apply (Hno j e' p); [done|]. apply Hm. right. split; [|done]. intros ->.
      destruct Hj as [b Hj]. congruence.
Qed.

Lemma inv_other cs h c g : calls_inv cs h c -> (forall w, J w -> R w (g w) /\ J (g w) /\ view (g w) = view w) -> calls_inv cs h (turn (Other g) c).
Proof.
  intros [Hcs Hlen Hlk Hheld Hnd Hthr Hoth Hat HJ0 Hfree] Hg. destruct (Hg (now c) HJ0) as (HR & HJ & Hv).
  split; [done|done| |done|done|done|done|..]; cbn [turn].
  - unfold system_of, handles_of. cbn [now held calls stages]. by rewrite Hv.
  - intros i e p Hi Hw. eapply guarded_stable; [exact HR|]. by eapply Hat.
  - exact HJ.
  - intros Hno. eapply I_stable; [exact HR|]. by apply Hfree.
Qed.

Lemma turn_inv cs h c ev : calls_ok cs -> calls_inv cs h c -> event_ok ev -> exists h', calls_inv cs h' (turn ev c).
Proof.
  intros Hok Hinv Hev. destruct ev as [i|g]; [|exists h; by apply inv_other]. cbn [turn].
  destruct (calls c !! i) as [[k body]|] eqn:Hcall; [|by exists h].
  destruct (stages c !! i) as [x|] eqn:Hold; [|by exists h].
  pose proof (inv_bound _ _ _ _ _ Hinv Hold) as Hi. pose proof (ci_locks _ _ _ Hinv) as Hlk.
  destruct x as [|e|e [a|X f p]|e a|a].
  - unfold zoom. destruct (acquire k (view (now c))) as [e l] eqn:Ea. exists h. eapply inv_quiet; try done.
    + by apply J_locks, Hinv.
    + eapply step_inv; [exact Hlk|]. unfold system_of. rewrite handles_move, Hcall by done. cbn. rewrite view_upd.
      pose proof (step_acquire (system_of c) i k) as Hs. cbn in Hs. rewrite Ea in Hs. apply Hs.
      by rewrite handles_lookup, Hcall, Hold.
    + intros a. unfold done_as. naive_solver.
    + intros e'. unfold works_on. naive_solver.
    + intros _ e' (p & ?). done.
  - case_bool_decide; [|by exists h]. exists h. by eapply inv_enter.
  - eexists. by eapply inv_leave.
  - cbn [prog_step]. destruct (f (now c)) as [y w] eqn:Ef. exists h. destruct (decide (k = key)) as [->|Hk].
    + pose proof (ci_at _ _ _ Hinv i e (Act f p) ltac:(by exists body) Hold) as Hg. cbn in Hg.
      specialize (Hg (now c) ltac:(reflexivity) (ci_sound _ _ _ Hinv)). unfold wp in Hg. rewrite Ef in Hg. destruct Hg as (HJ & Hv & Hg).
      eapply inv_work; done.
    + pose proof (ci_other _ _ _ Hinv i k body e (Act f p) Hcall Hk Hold (now c) (ci_sound _ _ _ Hinv)) as Hg. unfold wp in Hg. rewrite Ef in Hg.
      destruct Hg as (HR & HJ & Hv & Hp). eapply inv_quiet; try done.
      * unfold system_of. rewrite handles_move, Hcall by done. cbn. rewrite insert_id by (by rewrite handles_lookup, Hcall, Hold). by rewrite Hv.
      * intros a. unfold done_as. naive_solver.
      * intros e'. unfold works_on. naive_solver.
      * intros _ e' q [= -> <-]. done.
  - unfold zoom. destruct (drop_lock k e (view (now c))) as [[] l] eqn:Ed. exists h. eapply inv_quiet; try done.
    + by apply J_locks, Hinv.
    + eapply step_inv; [exact Hlk|]. unfold system_of. rewrite handles_move, Hcall by done. cbn. rewrite view_upd.
      pose proof (step_drop (system_of c) i k e) as Hs. cbn in Hs. rewrite Ed in Hs. apply Hs.
      * by rewrite handles_lookup, Hcall, Hold.
      * intros Hh. apply (ci_held _ _ _ Hinv) in Hh as (p & Hp). unfold working in Hp. congruence.
    + intros a'. unfold done_as. naive_solver.
    + intros e'. unfold works_on. naive_solver.
    + intros _ e' (p & ?). done.
  - by exists h.
Qed.

(** Whatever the schedule, the calls of the session that are through have done
    their parts one after the other. *)
Lemma turns_inv cs w evs : calls_ok cs -> view w = no_locks -> J w -> I [] w -> Forall event_ok evs ->
  exists h, calls_inv cs h (turns evs (begin cs w)).
Proof.
  intros Hok Hv HJ HI Hevs. enough (forall h c, calls_inv cs h c -> exists h', calls_inv cs h' (turns evs c)) as He.
  { by apply (He []), begin_inv. }
  induction Hevs as [|ev evs Hev _ IH]; intros h c Hc; [by exists h|].
  destruct (turn_inv cs h c ev Hok Hc Hev) as [h' Hc']. by apply (IH h').
Qed.

(** No call waits for ever because of the others: while one is not finished, one
    can move. *)
Lemma never_stuck cs h c i : calls_inv cs h c -> i < length cs -> (forall a, stages c !! i <> Some (Finished a)) ->
  exists j, enabled c j = true.
Proof.
  intros Hinv Hi Hnot. rewrite <- (ci_length _ _ _ Hinv) in Hi. apply lookup_lt_is_Some_2 in Hi as [x Hx].
  destruct (enabled c i) eqn:He; [by exists i|]. unfold enabled in He. rewrite Hx in He. destruct x; try done; [|by destruct (Hnot a)].
  apply bool_decide_eq_false in He. destruct (held c !! e) as [j|] eqn:Hh; [|done].
  apply (ci_held _ _ _ Hinv) in Hh as (p & Hp). exists j. unfold enabled. by rewrite Hp.
Qed.

(** When all are finished, the order in which they entered is an order of all the
    calls of the session. *)
Lemma all_through cs h c : calls_inv cs h c -> (forall i, i < length cs -> exists a, stages c !! i = Some (Finished a)) ->
  I h (now c) /\ NoDup h.*1 /\ forall i a, (i, a) ∈ h <-> (exists body, cs !! i = Some (key, body)) /\ stages c !! i = Some (Finished a).
Proof.
  intros Hinv Hall. split; [|split; [apply Hinv|]].
  - apply (ci_free _ _ _ Hinv). intros i e p [body Hi] Hw. rewrite (ci_calls _ _ _ Hinv) in Hi.
    apply lookup_lt_Some in Hi. destruct (Hall i Hi) as [a Ha]. unfold working in Hw. congruence.
  - intros i a. rewrite (ci_through _ _ _ Hinv). unfold ours, through. rewrite (ci_calls _ _ _ Hinv).
    split; [|naive_solver]. intros [[body Hi] Ht]. split; [by exists body|]. pose proof (lookup_lt_Some _ _ _ Hi) as Hlt.
    destruct (Hall i Hlt) as [a' Ha]. destruct Ht as [[e Ht]|Ht]; congruence.
Qed.
End calls.
Arguments stage : clear implicits.
Arguments config : clear implicits.
Arguments event : clear implicits.
