(* ===== verification/FsEngine.v ===== *)
(** FsEngine: the operations of the file store ([FsEngine] of
    [src/src/fs/mod.rs]) over its metadata rows, the object store
    ([fs/s3.rs]), the policy, the change feed and the session locks.

    Every awaited call of the rows is one atomic action of a task; the calls of
    the object store are tasks of their own.  An operation under the
    lock of its session is bracketed by the lock's map operations; that the
    bracketed parts of one session never interleave is FsLocks. *)
From Stdlib Require Import SpecFloat.
From S2P Require Import Prelude.
From S2P Require Import Effects.
From S2P Require Import RustStr.
From S2P Require Import Kv.
From S2P Require Import FsTypes.
From S2P Require Import FsStore.
From S2P Require Import FsRels.
From S2P Require Import Policy.
From S2P Require Import FsLocks.

(** ** The object store *)

(** A body that is read chunk by chunk, each of which may fail. *)
Abbreviation ByteStream := (list (result bytes FsError)).

Record ObjectStream := { os_size : Z; os_stream : ByteStream }.
Record ListedKey := { lk_key : string; lk_last_modified : Z }.

Class S3Client (O : Type) := {
  s3_create_multipart : string -> string -> prog O (result string FsError);
  s3_upload_part : string -> string -> string -> Z -> bytes -> option string ->
                   prog O (result string FsError);
  s3_complete : string -> string -> string -> list string -> prog O (result unit FsError);
  s3_abort : string -> string -> string -> prog O (result unit FsError);
  s3_backend_upload_id : string -> prog O (option string);
  s3_restore : PersistedMultipart -> prog O (result unit FsError);
  s3_put : string -> string -> bytes -> option string -> prog O (result unit FsError);
  s3_get_stream : string -> string -> prog O (result ObjectStream FsError);
  s3_get_range : string -> string -> Z -> Z -> prog O (result ObjectStream FsError);
  s3_delete : string -> string -> prog O (result unit FsError);
  s3_list_keys : string -> string -> prog O (result (list ListedKey) FsError);
}.

(** [S3Client::get_object_range] where the client does not override it: the
    slice of the whole body. *)
Definition default_range (body : bytes) (first last : Z) : ObjectStream :=
  let len := Z.of_nat (String.length body) in
  let start := Z.min first len in
  let stop := Z.max (Z.min last len) start in
  let slice := String.substring (Z.to_nat start) (Z.to_nat (stop - start)) body in
  {| os_size := Z.of_nat (String.length slice); os_stream := [Ok slice] |}.

(** The text of a policy error ([Display for PolicyError]). *)
Class PolicyText := { policy_text : PolicyError -> string }.

(** Fresh identifiers ([Uuid::now_v7().to_string()]). *)
Record uuids := Uuids { uuid_at : nat -> string; uuids_used : nat }.
Definition new_uuid : act uuids string :=
  fun u => (uuid_at u (uuids_used u), Uuids (uuid_at u) (S (uuids_used u))).

(** ** The world of the engine *)

Record world (S O E F : Type) := World {
  fs : fs_state S;
  s3 : O;
  policy : E;
  feed : F;
  session_locks : SessionLocks;
  ids : uuids;
}.
Arguments World {S O E F} fs s3 policy feed session_locks ids.
Arguments fs {S O E F} w.
Arguments s3 {S O E F} w.
Arguments policy {S O E F} w.
Arguments feed {S O E F} w.
Arguments session_locks {S O E F} w.
Arguments ids {S O E F} w.

#[export] Instance fs_lens {S O E F} : Lens (fs_state S) (world S O E F) :=
  {| view := fs; upd x w := World x (s3 w) (policy w) (feed w) (session_locks w) (ids w) |}.
#[export] Instance s3_lens {S O E F} : Lens O (world S O E F) :=
  {| view := s3; upd x w := World (fs w) x (policy w) (feed w) (session_locks w) (ids w) |}.
#[export] Instance policy_lens {S O E F} : Lens E (world S O E F) :=
  {| view := policy; upd x w := World (fs w) (s3 w) x (feed w) (session_locks w) (ids w) |}.
#[export] Instance feed_lens {S O E F} : Lens F (world S O E F) :=
  {| view := feed; upd x w := World (fs w) (s3 w) (policy w) x (session_locks w) (ids w) |}.
#[export] Instance locks_lens {S O E F} : Lens SessionLocks (world S O E F) :=
  {| view := session_locks; upd x w := World (fs w) (s3 w) (policy w) (feed w) x (ids w) |}.
#[export] Instance ids_lens {S O E F} : Lens uuids (world S O E F) :=
  {| view := ids; upd x w := World (fs w) (s3 w) (policy w) (feed w) (session_locks w) x |}.

#[export] Instance fs_lens_laws {S O E F} : LensLaws (fs_state S) (world S O E F).
Proof. by split; try intros [] *; try intros []. Qed.

#[export] Instance s3_lens_laws {S O E F} : LensLaws O (world S O E F).
Proof. by split; try intros [] *; try intros []. Qed.

(** ** Sizes *)

(** [len] empty slots, or a refusal when they do not fit in memory. *)
Definition part_slots (len : Z) : result (list (option string)) FsError :=
  if bool_decide (len <= u64_max)%Z then
    if bool_decide (len * 24 <= i64_max)%Z then Ok (replicate (Z.to_nat len) None)
    else bad "file_total_parts is too large to track upload state"
  else bad "file_total_parts does not fit in memory".

(** The length a part must have. *)
Definition expected_len (s : UploadSession) (part_index : Z) : Z :=
  if bool_decide (part_index = u64_sub (us_file_total_parts s) 1)
  then u64_sub (us_file_size s) (u64_mul (us_part_size s) part_index)
  else us_part_size s.

Definition is_short_last_part (s : UploadSession) (part_index : Z) : bool :=
  bool_decide (us_file_total_parts s > 1)%Z &&
  bool_decide (part_index = u64_sub (us_file_total_parts s) 1) &&
  bool_decide (expected_len s part_index < us_part_size s)%Z.

(** The check of the declared length, before the body is read. *)
Definition check_declared (expected : Z) (short_last : bool) (declared : option Z) : result unit FsError :=
  match declared with
  | Some n =>
      if bool_decide (n > expected)%Z then
        if short_last then bad ("The last part must have " +:+ u64_text expected +:+
                                " bytes. The declared size is " +:+ u64_text n +:+ ".")
        else Err FsPayloadTooLarge
      else if bool_decide (n <> expected) then
        bad ("declared part size " +:+ u64_text n +:+ " does not match expected " +:+
             u64_text expected +:+ " bytes")
      else Ok tt
  | None => Ok tt
  end.

(** The chunks of a body, gathered while the total stays within [expected]. *)
Fixpoint gather (expected : Z) (short_last : bool) (stream : ByteStream) (buf : bytes) (total : Z) :
    result (bytes * Z) FsError :=
  match stream with
  | [] => Ok (buf, total)
  | Err e :: _ => Err e
  | Ok chunk :: stream =>
      let total := u64_add total (Z.of_nat (String.length chunk)) in
      if bool_decide (total > expected)%Z then
        if short_last then bad ("The last part must have " +:+ u64_text expected +:+
                                " bytes. The body has " +:+ u64_text total +:+ " bytes.")
        else Err FsPayloadTooLarge
      else gather expected short_last stream (buf +:+ chunk) total
  end.

Definition read_body (expected : Z) (short_last : bool) (part_index : Z) (stream : ByteStream) :
    result bytes FsError :=
  match gather expected short_last stream "" 0 with
  | Err e => Err e
  | Ok (buf, total) =>
      if bool_decide (total <> expected) then
        bad ("blob size mismatch for part " +:+ u64_text part_index +:+ ": expected " +:+
             u64_text expected +:+ " bytes, got " +:+ u64_text total)
      else Ok buf
  end.

(** [z as i32] *)
Definition as_i32 (z : Z) : Z := ((z + 2147483648) mod 4294967296 - 2147483648)%Z.

(** *** [f64] *)

Definition f64_of_u64 (n : Z) : spec_float := binary_normalize 53 1024 n 0 false.
Definition f64_div : spec_float -> spec_float -> spec_float := SFdiv 53 1024.
Definition f64_mul : spec_float -> spec_float -> spec_float := SFmul 53 1024.

(** [x.round() as u64] of a value in range: half away from zero. *)
Definition f64_round_u64 (x : spec_float) : Z :=
  match x with
  | S754_finite false m e =>
      if bool_decide (0 <= e)%Z then (Z.pos m * 2 ^ e)%Z
      else ((Z.pos m + 2 ^ (- e - 1)) / 2 ^ (- e))%Z
  | S754_infinity false => u64_max
  | _ => 0
  end.

Definition percent_of (uploaded total : Z) : Z :=
  if bool_decide (total = 0)%Z then 0
  else f64_round_u64 (f64_mul (f64_div (f64_of_u64 uploaded) (f64_of_u64 total)) (f64_of_u64 100)).

Section engine.
Context {S O E F T : Type} `{!KvStore S T} `{!StoreText} `{!S3Client O} `{!Enforcer E} `{!ChangeSink F}.
Context `{!Serde UploadSession} `{!Serde PersistedMultipart} `{!Serde FileRecord} `{!Serde RefInfo}.
Context `{!PolicyText}.

Variable cfg : FsConfig S.
Variable bucket : string.
(** Whether a change feed is installed. *)
Variable has_feed : bool.

#[local] Abbreviation W := (world S O E F).
#[local] Abbreviation task := (prog W).

(** One call of the metadata store, of the object store. *)
Definition on_rows {A} (m : act (fs_state S) A) : task A := atomically (zoom m).
Definition on_s3 {A} (m : prog O A) : task A := zoom_prog m.

Definition announce (op : WalOp) : task (result unit FsError) :=
  if has_feed then atomically (map_errM FsInternal (zoom (append op))) else mret (Ok tt).

(** The body runs under the lock of the session. *)
Definition with_session {A} (id : string) (body : task A) : task A :=
  e ← atomically (zoom (acquire id));
  r ← body;
  _ ← atomically (zoom (drop_lock id e));
  mret r.

(** [ok_or_else(NotFound)] on a row. *)
Definition found {A} (what : string) (m : task (result (option A) FsError)) : task (result A FsError) :=
  o <-? m; mret (ok_or o (FsNotFound what)).

(** ** Rows *)

Definition of_policy (e : PolicyError) : FsError :=
  match e with PolicyAccessDenied => FsForbidden | other => FsInternal (policy_text other) end.

Definition require_write (caller row_type row_id : string) : task (result unit FsError) :=
  atomically (zoom (fun e : E => (map_err of_policy (require_row caller row_type row_id Write e), e))).

Definition attach (row_type row_id file_id caller : string) : task (result Z FsError) :=
  _ <-? require_write caller row_type row_id;
  rec <-? on_rows (get_file cfg file_id);
  match (rec : option FileRecord) with
  | None => mret (Err (FsNotFound "file not found"))
  | Some _ =>
      n <-? on_rows (FsStore.attach cfg row_type row_id file_id);
      _ <-? announce (Attach row_type row_id file_id);
      mret (Ok n)
  end.

Definition detach (row_type row_id file_id caller : string) : task (result Z FsError) :=
  _ <-? require_write caller row_type row_id;
  n <-? on_rows (FsStore.detach cfg row_type row_id file_id);
  _ <-? announce (Detach row_type row_id file_id);
  mret (Ok n).

(** The first of the rows that the caller may act on; a failure of the policy
    denies. *)
Fixpoint any_row (caller : string) (a : Action) (rows : list (string * string)) :
    task (result bool FsError) :=
  match rows with
  | [] => mret (Ok false)
  | (ty, rid) :: rows =>
      allowed ← atomically (zoom (fun e : E => (authorize_row caller ty rid a e, e)));
      match (allowed : result bool PolicyError) with
      | Ok true => mret (Ok true)
      | _ => any_row caller a rows
      end
  end.

Definition can_access (caller file_id : string) (a : Action) : task (result bool FsError) :=
  rec <-? found "file not found" (on_rows (get_file cfg file_id));
  rows <-? on_rows (rows_for_file cfg file_id);
  match rows with
  | [] => mret (Ok (bool_decide (fr_owner_sub rec = caller)))
  | _ => any_row caller a rows
  end.

(** ** Uploads *)

Definition init_upload (req : InitRequest) (owner : string) : task (result string FsError) :=
  _ <-? mret (validate_init req);
  file_id ← atomically (zoom new_uuid);
  let key := "files/" +:+ file_id in
  upload <-? (if bool_decide (file_total_parts req = 1%Z) then mret (Ok None)
              else id <-? on_s3 (s3_create_multipart bucket key); mret (Ok (Some id)));
  etags <-? mret (part_slots (file_total_parts req));
  checksums <-? mret (part_slots (file_total_parts req));
  now ← atomically (zoom (H := fs_lens) (zoom tick));
  let session :=
    {| us_id := file_id; us_file_size := file_size req; us_part_size := part_size req;
       us_file_total_parts := file_total_parts req; us_s3_upload_id := upload; us_s3_key := key;
       us_owner_sub := owner; us_created_at := now; us_etags := etags; us_checksums := checksums |} in
  _ <-? on_rows (save_session cfg session);
  match (upload : option string) with
  | None => mret (Ok file_id)
  | Some upload_id =>
      backend ← on_s3 (s3_backend_upload_id upload_id);
      backend <-? mret (ok_or backend (FsInternal "multipart created but backend id missing"));
      _ <-? on_rows (save_multipart cfg
        {| pm_upload_id := upload_id; pm_bucket := bucket; pm_key := key; pm_s3_upload_id := backend;
           pm_parts := ∅; pm_created_at := now |});
      mret (Ok file_id)
  end.

(** [slots.resize(len, None)] *)
Definition resize (len : nat) (slots : list (option string)) : list (option string) :=
  take len slots ++ replicate (len - length slots) None.

(** The session with a part recorded in its slot. *)
Definition with_part (s : UploadSession) (slot : nat) (etag : string) (checksum : option string) :
    UploadSession :=
  let etags := <[slot := Some etag]> (us_etags s) in
  let checksums := if bool_decide (length (us_checksums s) <> length etags)
                   then resize (length etags) (us_checksums s) else us_checksums s in
  {| us_id := us_id s; us_file_size := us_file_size s; us_part_size := us_part_size s;
     us_file_total_parts := us_file_total_parts s; us_s3_upload_id := us_s3_upload_id s;
     us_s3_key := us_s3_key s; us_owner_sub := us_owner_sub s; us_created_at := us_created_at s;
     us_etags := etags; us_checksums := <[slot := checksum]> checksums |}.

Definition with_record_part (m : PersistedMultipart) (slot : nat) (etag : string) : PersistedMultipart :=
  {| pm_upload_id := pm_upload_id m; pm_bucket := pm_bucket m; pm_key := pm_key m;
     pm_s3_upload_id := pm_s3_upload_id m; pm_parts := <[slot := etag]> (pm_parts m);
     pm_created_at := pm_created_at m |}.

(** What [merge_part] does under the lock. *)
Definition merge_locked (file_id : string) (part_index : Z) (upload_id : option string) (etag : string)
    (checksum : option string) (caller : string) : task (result unit FsError) :=
  session <-? found "upload session not found" (on_rows (get_session cfg file_id));
  if bool_decide (us_owner_sub session <> caller) then mret (Err FsForbidden) else
  let slot := Z.to_nat part_index in
  if bool_decide (length (us_etags session) <= slot)
  then mret (bad "part index out of bounds") else
  _ <-? match upload_id with
        | None => mret (Ok tt)
        | Some id =>
            record <-? on_rows (load_multipart cfg id);
            match record with
            | None => mret (Ok tt)
            | Some m => on_rows (save_multipart cfg (with_record_part m slot etag))
            end
        end;
  on_rows (save_session cfg (with_part session slot etag checksum)).

Definition merge_part (file_id : string) (part_index : Z) (upload_id : option string) (etag : string)
    (checksum : option string) (caller : string) : task (result unit FsError) :=
  with_session file_id (merge_locked file_id part_index upload_id etag checksum caller).

Definition ensure_multipart (upload_id : string) : task (result unit FsError) :=
  record <-? on_rows (load_multipart cfg upload_id);
  match record with
  | None => mret (bad "multipart state unavailable (restarted server or expired session); start a new upload")
  | Some m => on_s3 (s3_restore m)
  end.

Definition upload_part (file_id : string) (part_index : Z) (body : ByteStream) (declared : option Z)
    (checksum : option string) (caller : string) : task (result unit FsError) :=
  session <-? found "upload session not found" (on_rows (get_session cfg file_id));
  if bool_decide (us_owner_sub session <> caller) then mret (Err FsForbidden) else
  if bool_decide (part_index >= us_file_total_parts session)%Z
  then mret (bad "part index out of bounds") else
  let expected := expected_len session part_index in
  let short_last := is_short_last_part session part_index in
  _ <-? mret (check_declared expected short_last declared);
  data <-? mret (read_body expected short_last part_index body);
  if bool_decide (us_file_total_parts session = 1%Z) then
    _ <-? on_s3 (s3_put bucket (us_s3_key session) data checksum);
    merge_part file_id part_index None "put" checksum caller
  else
    upload_id <-? mret (ok_or (us_s3_upload_id session) (FsInternal "missing s3 upload id"));
    _ <-? ensure_multipart upload_id;
    etag <-? on_s3 (s3_upload_part bucket (us_s3_key session) upload_id
                      (as_i32 (u64_add part_index 1)) data checksum);
    merge_part file_id part_index (Some upload_id) etag checksum caller.

Definition abort_session_upload (session : UploadSession) : task (result unit FsError) :=
  match us_s3_upload_id session with
  | None => on_s3 (s3_delete bucket (us_s3_key session))
  | Some upload_id =>
      record <-? on_rows (load_multipart cfg upload_id);
      match (record : option PersistedMultipart) with
      | None => mret (Ok tt)
      | Some _ =>
          _ <-? ensure_multipart upload_id;
          r ← on_s3 (s3_abort bucket (us_s3_key session) upload_id);
          match (r : result unit FsError) with
          | Err (FsNotFound _) => mret (Ok tt)
          | r => mret r
          end
      end
  end.

(** The etags of a session, all of which must be there. *)
Definition all_etags (slots : list (option string)) : option (list string) := mapM id slots.

(** The part of [complete_upload] that commits a session.  A session of one part
    without a slot, on which the code panics, does not occur. *)
Definition commit_session (file_id : string) (req : CompleteRequest) (session : UploadSession) :
    task (result unit FsError) :=
  _ <-? (if bool_decide (us_file_total_parts session = 1%Z) then
           match us_etags session !! 0 with
           | Some (Some _) => mret (Ok tt)
           | _ => mret (bad "missing part for single-part upload")
           end
         else
           etags <-? mret (ok_or (all_etags (us_etags session)) (FsInternal "missing etag for part"));
           upload_id <-? mret (ok_or (us_s3_upload_id session) (FsInternal "missing s3 upload id"));
           _ <-? ensure_multipart upload_id;
           _ <-? on_s3 (s3_complete bucket (us_s3_key session) upload_id etags);
           on_rows (delete_multipart cfg upload_id));
  now ← atomically (zoom (H := fs_lens) (zoom tick));
  let rec :=
    {| fr_id := file_id; fr_name := cr_name req; fr_mimetype := cr_mimetype req;
       fr_size := us_file_size session; fr_s3_key := us_s3_key session;
       fr_owner_sub := us_owner_sub session; fr_created_at := now |} in
  _ <-? on_rows (save_file cfg rec);
  _ <-? announce (FileCreate rec);
  zoom_prog (delete_session cfg file_id).

Definition complete_upload (file_id : string) (req : CompleteRequest) (caller : string) :
    task (result unit FsError) :=
  with_session file_id (
    committed <-? on_rows (get_file cfg file_id);
    session <-? on_rows (get_session cfg file_id);
    match (committed : option FileRecord), (session : option UploadSession) with
    | Some rec, session =>
        if bool_decide (fr_owner_sub rec <> caller) then mret (Err FsForbidden) else
        match session with
        | None => mret (Ok tt)
        | Some _ =>
            _ <-? announce (FileCreate rec);
            zoom_prog (delete_session cfg file_id)
        end
    | None, session =>
        session <-? mret (ok_or session (FsNotFound "upload session not found"));
        if bool_decide (us_owner_sub session <> caller) then mret (Err FsForbidden) else
        if existsb (fun e => bool_decide (e = None)) (us_etags session)
        then mret (bad "not all parts uploaded")
        else commit_session file_id req session
    end).

Definition cancel_upload (file_id caller : string) : task (result unit FsError) :=
  with_session file_id (
    session <-? found "upload session not found" (on_rows (get_session cfg file_id));
    if bool_decide (us_owner_sub session <> caller) then mret (Err FsForbidden) else
    _ <-? (if bool_decide (is_Some (us_s3_upload_id session)) then abort_session_upload session
           else mret (Ok tt));
    zoom_prog (delete_session cfg file_id)).

(** ** Files *)

(** [if !self.can_access(..) { Forbidden }], then the record. *)
Definition readable (caller file_id : string) : task (result FileRecord FsError) :=
  allowed <-? can_access caller file_id Read;
  if (allowed : bool) then found "file not found" (on_rows (get_file cfg file_id))
  else mret (Err FsForbidden).

Definition get_metadata (file_id caller : string) : task (result FileMetadata FsError) :=
  rec <-? readable caller file_id;
  mret (Ok {| md_id := fr_id rec; md_name := fr_name rec; md_mimetype := fr_mimetype rec;
              md_size := fr_size rec |}).

Definition delete_file (file_id caller : string) : task (result unit FsError) :=
  rec <-? found "file not found" (on_rows (get_file cfg file_id));
  info <-? on_rows (get_ref_info cfg file_id);
  _ <-? (if bool_decide (count info = 0%Z) then
           mret (if bool_decide (fr_owner_sub rec <> caller) then Err FsForbidden else Ok tt)
         else
           allowed <-? can_access caller file_id Delete;
           mret (if (allowed : bool) then Ok tt else Err FsForbidden));
  _ <-? announce (FileDelete file_id);
  _ <-? on_rows (FsStore.delete_file cfg file_id);
  on_s3 (s3_delete bucket (fr_s3_key rec)).

Definition get_object (file_id caller : string) : task (result (FileRecord * ObjectStream) FsError) :=
  rec <-? readable caller file_id;
  body <-? on_s3 (s3_get_stream bucket (fr_s3_key rec));
  mret (Ok (rec, body)).

Definition get_object_range (file_id caller : string) (first last : Z) :
    task (result (FileRecord * ObjectStream) FsError) :=
  rec <-? readable caller file_id;
  let start := Z.min first (fr_size rec) in
  let stop := Z.max (Z.min last (fr_size rec)) start in
  body <-? on_s3 (s3_get_range bucket (fr_s3_key rec) start stop);
  mret (Ok (rec, body)).

Definition uploaded_parts (slots : list (option string)) : list Z :=
  omap (fun x => match x.2 with Some _ => Some (Z.of_nat x.1) | None => None end)
    (imap pair slots).

Definition get_progress (file_id caller : string) : task (result ProgressResponse FsError) :=
  session <-? found "upload session not found" (on_rows (get_session cfg file_id));
  if bool_decide (us_owner_sub session <> caller) then mret (Err FsForbidden) else
  let parts := uploaded_parts (us_etags session) in
  mret (Ok {| pr_file_id := file_id; pr_file_size := us_file_size session;
              pr_part_size := us_part_size session; pr_total_parts := us_file_total_parts session;
              pr_uploaded_parts := parts;
              pr_percent := percent_of (Z.of_nat (length parts)) (us_file_total_parts session) |}).
End engine.

(** ** Sizes *)

(** The session that [init_upload] makes for a request. *)
Definition session_of (r : InitRequest) (s : UploadSession) : Prop :=
  us_file_size s = file_size r /\ us_part_size s = part_size r /\
  us_file_total_parts s = file_total_parts r.

Definition total_len (s : UploadSession) (n : nat) : Z :=
  foldr Z.add 0%Z ((fun i => expected_len s (Z.of_nat i)) <$> seq 0 n).

(** The lengths that the server demands of the parts add up to the file: for
    every session of an accepted request, each part has a length between one
    and the part size, no length is computed with a wrapped subtraction, and
    the lengths of all parts sum to the size of the file. *)
Theorem part_lengths_cover r s :
  in_u64 (file_size r) -> in_u64 (part_size r) -> in_u64 (file_total_parts r) ->
  validate_init r = Ok tt -> session_of r s ->
  (forall i, (0 <= i < us_file_total_parts s)%Z -> (0 < expected_len s i <= us_part_size s)%Z) /\
  total_len s (Z.to_nat (us_file_total_parts s)) = us_file_size s.
Proof.
  intros Hf Hp Ht Hv (Es & Ep & En).
  pose proof (validate_init_geometry r Hf Hp Ht Hv) as ((Hn & Hmax) & Hlast & Hsum & Hprod).
  rewrite <- Es, <- Ep, <- En in *. clear Es Ep En.
  set (n := us_file_total_parts s) in *. set (p := us_part_size s) in *. set (f := us_file_size s) in *.
  assert (forall i, (0 <= i < n)%Z -> expected_len s i = if bool_decide (i = n - 1)%Z then (f - (n - 1) * p)%Z else p) as He.
  { intros i Hi. unfold expected_len. fold n p f.
    rewrite (u64_sub_id n) by (ints; unfold MAX_MULTIPART_PARTS in *; lia).
    case_bool_decide as Hl; [|done]. subst i.
    rewrite (u64_mul_id p) by (ints; nia). rewrite u64_sub_id by (ints; nia). lia. }
  split.
  - intros i Hi. rewrite He by done. case_bool_decide; [lia|]. nia.
  - unfold total_len. replace (Z.to_nat n) with (Z.to_nat (n - 1) + 1) by lia.
    rewrite seq_app, fmap_app, foldr_app. cbn [seq fmap list_fmap foldr].
    rewrite He by lia. rewrite bool_decide_eq_true_2 by lia.
    assert (forall m acc, m <= Z.to_nat (n - 1) ->
      foldr Z.add acc ((fun i => expected_len s (Z.of_nat i)) <$> seq 0 m) = (Z.of_nat m * p + acc)%Z) as Hfull.
    { intros m. induction m as [|m IH]; intros acc Hm; [cbn; lia|].
      rewrite seq_S, fmap_app, foldr_app. cbn [fmap list_fmap foldr]. rewrite IH by lia.
      rewrite He by lia. rewrite bool_decide_eq_false_2 by lia. lia. }
    rewrite Hfull by lia. nia.
Qed.

(** The bytes of a stream all of whose chunks arrived. *)
Fixpoint whole (stream : ByteStream) : option bytes :=
  match stream with
  | [] => Some ""
  | Ok chunk :: stream => String.append chunk <$> whole stream
  | Err _ :: _ => None
  end.

Lemma gather_spec expected short stream buf total :
  (0 <= total <= expected)%Z -> (expected <= i64_max)%Z ->
  Forall (fun c => forall b, c = Ok b -> Z.of_nat (String.length b) <= i64_max)%Z stream ->
  match whole stream with
  | Some b =>
      if bool_decide (total + Z.of_nat (String.length b) <= expected)%Z
      then gather expected short stream buf total = Ok (buf +:+ b, total + Z.of_nat (String.length b))%Z
      else is_ok (gather expected short stream buf total) = false
  | None => is_ok (gather expected short stream buf total) = false
  end.
Proof.
  intros Ht Hmax Hs. revert buf total Ht. induction Hs as [|c stream Hc Hs IH]; intros buf total Ht; cbn.
  { rewrite bool_decide_eq_true_2 by lia. rewrite app_nil_r. do 2 f_equal. lia. }
  destruct c as [chunk|e]; [|done]. specialize (Hc chunk eq_refl).
  rewrite u64_add_id by (ints; lia).
  case_bool_decide as Hover.
  - assert (is_ok (if short then bad "" else Err FsPayloadTooLarge : result (bytes * Z) FsError) = false) as Hbad
      by by destruct short.
    destruct (whole stream) as [b|]; cbn; [|by destruct short].
    rewrite bool_decide_eq_false_2; [by destruct short|]. rewrite length_app. lia.
  - specialize (IH (buf +:+ chunk) (total + Z.of_nat (String.length chunk))%Z ltac:(lia)).
    destruct (whole stream) as [b|]; cbn; [|done].
    rewrite length_app. replace (total + Z.of_nat (String.length chunk + String.length b))%Z
      with (total + Z.of_nat (String.length chunk) + Z.of_nat (String.length b))%Z by lia.
    case_bool_decide; [|done]. by rewrite IH, app_assoc.
Qed.

(** A part is stored only when the whole of it arrived: reading a body
    succeeds exactly when no chunk failed and the chunks together have the
    length that is demanded, and it then returns them in order. *)
Theorem read_body_exact expected short part_index stream :
  (0 <= expected <= i64_max)%Z ->
  Forall (fun c => forall b, c = Ok b -> Z.of_nat (String.length b) <= i64_max)%Z stream ->
  forall data, read_body expected short part_index stream = Ok data <->
    whole stream = Some data /\ Z.of_nat (String.length data) = expected.
Proof.
  intros He Hs data. unfold read_body.
  pose proof (gather_spec expected short stream "" 0 ltac:(lia) ltac:(lia) Hs) as Hg.
  destruct (whole stream) as [b|].
  - case_bool_decide as Hle.
    + rewrite Hg. case_bool_decide as Hne; unfold bad; split; try done.
      * intros [[= ->] Hl]. lia.
      * rewrite app_nil_l. intros [= <-]. split; [done|]. destruct (decide (0 + Z.of_nat (String.length b) = expected)%Z); [lia|done].
      * intros [[= ->] Hl]. by rewrite app_nil_l.
    + destruct (gather _ _ _ _ _) as [|e]; [done|]. split; [done|]. intros [[= ->] Hl]. lia.
  - destruct (gather _ _ _ _ _) as [|e]; [done|]. split; [done|]. by intros [].
Qed.

(** ** Access *)

Section access.
Context {S O E F T : Type} `{!KvStore S T} `{!KvLaws S T} `{!StoreText} `{!Enforcer E}.
Context `{!Serde FileRecord} `{!SerdeLaws FileRecord}.
Variable cfg : FsConfig S.
Hypothesis no_mirror : mirror cfg = None.

#[local] Abbreviation W := (world S O E F).

Definition rows_data (w : W) : gmap string bytes := kv_data (kv (fs w)).
Definition rows_up (w : W) : Prop := kv_up (kv (fs w)).

(** Only the rows moved. *)
Definition same_but_rows (w w' : W) : Prop :=
  s3 w' = s3 w /\ policy w' = policy w /\ feed w' = feed w /\ session_locks w' = session_locks w.

Lemma wp_on_rows {A} (m : act (fs_state S) A) Q (w : W) :
  wp m (fun a x => Q a (upd x w)) (fs w) -> wp (run (on_rows m)) Q w.
Proof. intros Hm. by apply wp_run_atomically, wp_zoom. Qed.

Lemma wp_found {A} what (m : prog W (result (option A) FsError)) Q (w : W) :
  wp (run m) (fun r w' => Q (match r with
                             | Ok o => ok_or o (FsNotFound what)
                             | Err e => Err e
                             end) w') w ->
  wp (run (found what m)) Q w.
Proof.
  intros Hm. apply wp_run_bindR. eapply wp_mono; [exact Hm|]. by intros [o|e] w' HQ.
Qed.

Lemma wp_get_file f rec Q w : kv_up (kv w) ->
  kv_data (kv w) !! file_key f = Some rec ->
  (forall s', kv_up s' -> kv_data s' = kv_data (kv w) ->
     Q (match from_slice rec with Ok r => Ok (Some r) | Err e => Err (FsInternal e) end)
       (FsState s' (latch w) (fs_clk w))) ->
  wp (get_file cfg f) Q w.
Proof.
  intros Hup Hrec HQ. unfold get_file, get_row, get_one. rewrite no_mirror. fs_steps.
  rewrite Hrec. apply wp_ret. unfold FsStore.decode.
  specialize (HQ _ ltac:(eassumption) ltac:(eassumption)). by destruct (from_slice rec).
Qed.

Definition may (caller : string) (a : Action) (e : E) (row : string * string) : bool :=
  match authorize_row caller row.1 row.2 a e with Ok true => true | _ => false end.

Lemma wp_any_row caller a rows Q (w : W) :
  Q (Ok (existsb (may caller a (policy w)) rows)) w -> wp (run (any_row caller a rows)) Q w.
Proof.
  revert Q. induction rows as [|[ty rid] rows IH]; intros Q HQ; [done|]. cbn [any_row].
  apply wp_run_bind, wp_run_atomically, wp_zoom. unfold wp at 1. cbn [view policy_lens upd].
  assert (World (fs w) (s3 w) (policy w) (feed w) (session_locks w) (ids w) = w) as -> by by destruct w.
  cbn [existsb] in HQ. unfold may at 1 in HQ. cbn [fst snd] in HQ.
  destruct (authorize_row caller ty rid a (policy w)) as [[]|]; [done|by apply IH..].
Qed.

(** C13: who may act on a file: on a store that answers, whose relations name
    their rows without the separator of the keys, the check says yes exactly
    when the file is attached to no row and the caller owns it, or some row the
    file is attached to allows the caller the action; owning an attached file
    is not enough, a policy that fails denies, and the check changes nothing. *)
Theorem can_access_exact caller f a rec v (w : W) :
  rows_up w -> plain_name f -> rels_plain (rows_data w) ->
  rows_data w !! file_key f = Some v -> from_slice v = Ok rec ->
  wp (run (can_access cfg caller f a)) (fun r w' =>
    exists b, r = Ok b /\ rows_data w' = rows_data w /\ same_but_rows w w' /\
      (b = true <->
       ((forall ty rid, plain_name ty -> plain_name rid -> rows_data w !! rel_key ty rid f = None) /\
          fr_owner_sub rec = caller) \/
       exists ty rid, plain_name ty /\ plain_name rid /\ is_Some (rows_data w !! rel_key ty rid f) /\
         authorize_row caller ty rid a (policy w) = Ok true)) w.
Proof.
  unfold rows_up, rows_data. intros Hup Hf Hp Hv Hrec. unfold can_access.
  apply wp_run_bindR, wp_found, wp_on_rows, (wp_get_file f v); [done..|].
  intros s1 Hup1 Hd1. rewrite Hrec. cbn [ok_or].
  apply wp_run_bindR, wp_on_rows. cbn [upd fs_lens fs].
  eapply wp_mono; [apply wp_rows_for_file; [done|exact Hup1|done|cbn [kv]; by rewrite Hd1]|].
  cbn [kv latch fs_clk]. intros r x (_ & Hx & rows & -> & Hrows). cbn [kv] in *. rewrite Hd1 in *.
  destruct rows as [|row rows'] eqn:Er.
  - apply wp_ret. eexists. split; [done|]. split; [done|]. split; [by destruct w|].
    rewrite bool_decide_eq_true. split.
    + intros Ho. left. split; [|done]. intros ty rid Hty Hrid.
      destruct (kv_data (kv (fs w)) !! rel_key ty rid f) eqn:El; [|done].
      destruct (not_elem_of_nil (ty, rid)). apply Hrows. by rewrite El.
    + intros [[_ Ho]|(ty & rid & Hty & Hrid & Hs & _)]; [done|].
      destruct (not_elem_of_nil (ty, rid)). by apply Hrows.
  - assert (exists ty rid, (ty, rid) ∈ rows) as (ty0 & rid0 & Hrow0).
    { destruct row as [ty rid]. exists ty, rid. rewrite Er. by left. }
    rewrite <- Er in *. clear row rows' Er. apply wp_any_row. eexists. split; [done|].
    split; [done|]. split; [by destruct w|]. cbn [upd fs_lens policy].
    rewrite List.existsb_exists. split.
    + intros ([ty rid] & Hin%list_elem_of_In & Hmay). right. apply Hrows in Hin as (Hty & Hrid & Hs).
      exists ty, rid. do 3 (split; [done|]). unfold may in Hmay. cbn in Hmay.
      by destruct (authorize_row caller ty rid a (policy w)) as [[]|].
    + intros [[Hno _]|(ty & rid & Hty & Hrid & Hs & Hauth)].
      * apply Hrows in Hrow0 as (Hty & Hrid & Hs). rewrite Hno in Hs by done. by destruct Hs.
      * exists (ty, rid). split; [by apply list_elem_of_In, Hrows|]. unfold may. cbn. by rewrite Hauth.
Qed.
End access.
