(* ===== verification/FsGc.v ===== *)
(** FsGc: the sweep of the file store ([src/src/fs/gc.rs]): expired upload
    sessions, orphaned files, the store's own log, and the bytes that no row
    references. *)
From S2P Require Import Prelude.
From S2P Require Import Effects.
From S2P Require Import RustStr.
From S2P Require Import Kv.
From S2P Require Import FsTypes.
From S2P Require Import FsStore.
From S2P Require Import FsRels.
From S2P Require Import Policy.
From S2P Require Import FsLocks.
From S2P Require Import FsEngine.

(** The store's collection of its unlisted log objects. *)
Class KvGc (S : Type) := { kv_gc_orphans : act S (result nat StoreError) }.

Definition FILE_BYTES_PREFIX : string := "files/".
Definition TTL_SECS : Z := 24 * 3600.

Section gc.
Context {S O E F T : Type} `{!KvStore S T} `{!KvGc S} `{!StoreText} `{!S3Client O} `{!Enforcer E} `{!ChangeSink F}.
Context `{!Serde UploadSession} `{!Serde PersistedMultipart} `{!Serde FileRecord} `{!Serde RefInfo}.
Variable cfg : FsConfig S.
Variable bucket : string.
Variable has_feed : bool.

#[local] Abbreviation task := (prog (world S O E F)).

(** [FsStore::gc_wal_orphans] *)
Definition gc_wal_orphans : act (fs_state S) (result nat FsError) := on_store cfg kv_gc_orphans.

(** One listed session.  It is read again under its lock, so one that was
    completed or cancelled since the listing is skipped. *)
Definition sweep_session (now : Z) (listed : UploadSession) (cleaned : nat) : task (result nat FsError) :=
  with_session (us_id listed) (
    session <-? on_rows (get_session cfg (us_id listed));
    match session with
    | None => mret (Ok cleaned)
    | Some s =>
        if negb (is_expired s now TTL_SECS) then mret (Ok cleaned) else
        r ← abort_session_upload cfg bucket s;
        match (r : result unit FsError) with
        | Err _ => mret (Ok cleaned)
        | Ok _ =>
            _ <-? zoom_prog (delete_session cfg (us_id s));
            mret (Ok (Datatypes.S cleaned))
        end
    end).

Fixpoint sweep_sessions (now : Z) (sessions : list UploadSession) (cleaned : nat) : task (result nat FsError) :=
  match sessions with
  | [] => mret (Ok cleaned)
  | s :: sessions =>
      cleaned <-? sweep_session now s cleaned;
      sweep_sessions now sessions cleaned
  end.

(** One listed file: an orphan that is old enough loses its bytes, is
    announced, and loses its rows. *)
Definition sweep_file (now : Z) (f : FileRecord) (cleaned : nat) : task (result nat FsError) :=
  info ← on_rows (get_ref_info cfg (fr_id f));
  match (info : result RefInfo FsError) with
  | Err _ => mret (Ok cleaned)
  | Ok info =>
      if bool_decide (count info <> 0%Z) then mret (Ok cleaned) else
      let age := default (fr_created_at f) (orphan_since info) in
      if bool_decide (i64_sub now age <= TTL_SECS)%Z then mret (Ok cleaned) else
      r ← on_s3 (s3_delete bucket (fr_s3_key f));
      match (r : result unit FsError) with
      | Err _ => mret (Ok cleaned)
      | Ok _ =>
          r ← announce has_feed (FileDelete (fr_id f));
          match (r : result unit FsError) with
          | Err _ => mret (Ok cleaned)
          | Ok _ =>
              _ <-? on_rows (FsStore.delete_file cfg (fr_id f));
              mret (Ok (Datatypes.S cleaned))
          end
      end
  end.

Fixpoint sweep_files (now : Z) (files : list FileRecord) (cleaned : nat) : task (result nat FsError) :=
  match files with
  | [] => mret (Ok cleaned)
  | f :: files =>
      cleaned <-? sweep_file now f cleaned;
      sweep_files now files cleaned
  end.

(** The listed keys that no listed row references and that are old enough. *)
Definition stale_key (now : Z) (live : list string) (entry : ListedKey) : bool :=
  negb (bool_decide (lk_key entry ∈ live)) &&
  negb (bool_decide (i64_sub now (lk_last_modified entry) <= TTL_SECS)%Z).

Fixpoint sweep_bytes (now : Z) (live : list string) (listed : list ListedKey) (cleaned : nat) : task nat :=
  match listed with
  | [] => mret cleaned
  | entry :: listed =>
      if negb (stale_key now live entry) then sweep_bytes now live listed cleaned else
      r ← on_s3 (s3_delete bucket (lk_key entry));
      sweep_bytes now live listed (if is_ok (r : result unit FsError) then Datatypes.S cleaned else cleaned)
  end.

Definition sweep_once : task (result nat FsError) :=
  now ← atomically (zoom (H := fs_lens) (zoom tick));
  sessions <-? on_rows (list_sessions cfg);
  files <-? on_rows (list_files cfg);
  cleaned <-? sweep_sessions now (rs_records sessions) 0;
  cleaned <-? sweep_files now (rs_records files) cleaned;
  _ ← on_rows gc_wal_orphans;
  if bool_decide (0 < length (rs_undecodable sessions) + length (rs_undecodable files))
  then mret (Ok cleaned) else
  let live := (us_s3_key <$> rs_records sessions) ++ (fr_s3_key <$> rs_records files) in
  listed ← on_s3 (s3_list_keys bucket FILE_BYTES_PREFIX);
  let listed := match (listed : result (list ListedKey) FsError) with Ok l => l | Err _ => [] end in
  cleaned ← sweep_bytes now live listed cleaned;
  mret (Ok cleaned).
End gc.

(** ** What the sweep leaves alone *)

(** What is relied on of the object store: a delete concerns its own key, and
    the other calls of the sweep no stored object. *)
Class S3Laws (O : Type) `{S3Client O} := {
  s3_object : string -> string -> O -> option bytes;
  s3_delete_law b k o : wp (run (s3_delete b k)) (fun _ o' =>
    (forall k', k' <> k -> s3_object b k' o' = s3_object b k' o)) o;
  s3_abort_law b k u o : wp (run (s3_abort b k u)) (fun _ o' =>
    forall k', s3_object b k' o' = s3_object b k' o) o;
  s3_restore_law b m o : wp (run (s3_restore m)) (fun _ o' =>
    forall k', s3_object b k' o' = s3_object b k' o) o;
  s3_list_law b p o : wp (run (s3_list_keys b p)) (fun _ o' =>
    forall k', s3_object b k' o' = s3_object b k' o) o;
}.

Class KvGcLaws (S T : Type) `{KvLaws S T, !KvGc S} := {
  kv_gc_law : kv_reads kv_data kv_up kv_gc_orphans (fun _ _ _ => True);
}.

Section safety.
Context {S O E F T : Type} `{!KvStore S T} `{!KvLaws S T} `{!KvGc S} `{!KvGcLaws S T} `{!StoreText}.
Context `{!S3Client O} `{!S3Laws O} `{!Enforcer E} `{!ChangeSink F}.
Context `{!Serde UploadSession} `{!Serde PersistedMultipart} `{!Serde FileRecord} `{!Serde RefInfo}.
Variable cfg : FsConfig S.
Variable bucket : string.
Variable has_feed : bool.
Hypothesis no_mirror : mirror cfg = None.

#[local] Abbreviation W := (world S O E F).

Section inv.
(** The rows before the sweep, the rows that stay, the key that stays. *)
Variables (d0 : gmap string bytes) (stay : gset string) (key : string) (body : option bytes).

Definition rows_inv (d : gmap string bytes) : Prop :=
  d ⊆ d0 /\ forall k, k ∈ stay -> d !! k = d0 !! k.

Definition gc_inv (w : W) : Prop :=
  rows_inv (kv_data (kv (fs w))) /\ s3_object bucket key (s3 w) = body.

(** *** Calls of the rows *)

Definition fs_keeps {A} (m : act (fs_state S) A) : Prop :=
  forall x, rows_inv (kv_data (kv x)) -> wp m (fun _ x' => rows_inv (kv_data (kv x'))) x.

Lemma fs_keeps_ret {A} (a : A) : fs_keeps (mret a).
Proof. by intros x Hx. Qed.

Lemma fs_keeps_bindR {A B Er} (m : act (fs_state S) (result A Er)) (k : A -> act (fs_state S) (result B Er)) :
  fs_keeps m -> (forall a, fs_keeps (k a)) -> fs_keeps (bindR m k).
Proof.
  intros Hm Hk x Hx. apply wp_bindR. eapply wp_mono; [by apply Hm|].
  intros [a|e] x' Hx'; [by apply Hk|done].
Qed.

Lemma keeps_on_rows {A} (m : act (fs_state S) A) : fs_keeps m -> keeps gc_inv (on_rows m).
Proof.
  intros Hm. apply keeps_atomically. intros w [Hr Hs]. apply wp_zoom.
  eapply wp_mono; [by apply Hm|]. by intros a x' Hx'.
Qed.

(** A store call whose failure may trip the latch. *)
Lemma wp_on_store_rows {A} (m : act S (result A StoreError)) (Q : A -> S -> Prop) x :
  wp m (fun r s' => rows_inv (kv_data s') /\ forall a, r = Ok a -> Q a s') (kv x) ->
  wp (on_store cfg m) (fun r x' => rows_inv (kv_data (kv x')) /\ forall a, r = Ok a -> Q a (kv x')) x.
Proof.
  intros Hm. unfold on_store. apply wp_bind, wp_zoom. eapply wp_mono; [exact Hm|].
  intros [a|e] s' [Hs' HQ].
  - apply wp_ret. split; [done|]. intros a' [= <-]. by apply HQ.
  - apply wp_bind. unfold store_err. apply wp_bind.
    eapply (wp_mono _ (fun _ x' => rows_inv (kv_data (kv x')))); [|by intros a x' Hx'].
    case_match; [|by apply wp_ret]. apply wp_zoom, wp_intro. by intros a l _.
Qed.

Lemma fs_keeps_on_store {A} (m : act S (result A StoreError)) :
  (forall s, rows_inv (kv_data s) -> wp m (fun _ s' => rows_inv (kv_data s')) s) ->
  fs_keeps (on_store cfg m).
Proof.
  intros Hm x Hx. eapply wp_mono; [apply (wp_on_store_rows m (fun _ _ => True))|by intros ? ? []].
  eapply wp_mono; [by apply Hm|]. by split.
Qed.

Lemma keeps_reads {A} (m : act S (result A StoreError)) P :
  kv_reads kv_data kv_up m P ->
  forall s, rows_inv (kv_data s) -> wp m (fun _ s' => rows_inv (kv_data s')) s.
Proof. intros Hm s Hs. eapply wp_mono; [apply Hm|]. intros r s' (-> & _). done. Qed.

Lemma fs_keeps_get_one k : fs_keeps (get_one cfg k).
Proof.
  unfold get_one. rewrite no_mirror. intros x Hx. apply wp_map_errM, wp_zoom.
  eapply wp_mono; [by eapply keeps_reads; [apply kv_get_law|]|]. by intros r s' Hs'.
Qed.

Lemma fs_keeps_get_row {A} `{!Serde A} k : fs_keeps (get_row (A := A) cfg k).
Proof.
  apply fs_keeps_bindR; [apply fs_keeps_get_one|]. intros [b|]; apply fs_keeps_ret.
Qed.

(** A row that is read was there before the sweep. *)
Lemma wp_get_row_val {A} `{!Serde A} k x :
  rows_inv (kv_data (kv x)) ->
  wp (get_row (A := A) cfg k) (fun r x' => rows_inv (kv_data (kv x')) /\
    forall a, r = Ok (Some a) -> exists v, d0 !! k = Some v /\ from_slice v = Ok a) x.
Proof.
  intros Hx. unfold get_row, get_one. rewrite no_mirror. apply wp_bindR, wp_map_errM, wp_zoom.
  eapply wp_mono; [apply kv_get_law|]. intros r s' (Hd & Hr & _). cbn [upd kv_lens kv].
  destruct r as [b|e]; cbn [map_err]; [|by rewrite Hd]. specialize (Hr b eq_refl). cbn in Hr.
  destruct b as [v|]; apply wp_ret; cbn [kv]; rewrite Hd; (split; [done|]); [|done].
  intros a. unfold decode. destruct (from_slice v) as [a'|e'] eqn:Ev; [|done]. intros [= ->].
  exists v. split; [|done]. eapply lookup_weaken; [by rewrite <- Hr|apply Hx].
Qed.

(** Transactions that only delete rows which need not stay. *)
Definition tx_inv (t : T) (s : S) : Prop := rows_inv (kv_data s) /\ rows_inv (tx_data t s).

Lemma rows_inv_delete k d : k ∉ stay -> rows_inv d -> rows_inv (delete k d).
Proof.
  intros Hk [Hs Hst]. split.
  - etrans; [apply delete_subseteq|done].
  - intros k' Hk'. rewrite lookup_delete_ne by set_solver. by apply Hst.
Qed.

Definition gives_tx (r : result T FsError) (x : fs_state S) : Prop :=
  rows_inv (kv_data (kv x)) /\ forall t, r = Ok t -> rows_inv (tx_data t (kv x)).

Lemma wp_begin_inv x : rows_inv (kv_data (kv x)) -> wp (on_store cfg kv_begin) gives_tx x.
Proof.
  intros Hx. apply (wp_on_store_rows _ (fun t s => rows_inv (tx_data t s))). eapply wp_mono; [apply kv_begin_law|]. intros r s' (Hd & Hr & _).
  rewrite Hd. split; [done|]. intros t ->. by rewrite (Hr t eq_refl).
Qed.

Lemma wp_tx_delete_inv t k x : k ∉ stay -> tx_inv t (kv x) ->
  wp (on_store cfg (tx_delete t k)) gives_tx x.
Proof.
  intros Hk [Hx Ht]. apply (wp_on_store_rows _ (fun t s => rows_inv (tx_data t s))). eapply wp_mono; [apply tx_delete_law|].
  intros r s' (Hd & Hr & _). rewrite Hd. split; [done|]. intros t' ->. rewrite (Hr t' eq_refl).
  by apply rows_inv_delete.
Qed.

Lemma wp_tx_deletes_inv t keys x : (forall k, k ∈ keys -> k ∉ stay) -> tx_inv t (kv x) ->
  wp (tx_deletes cfg t keys) gives_tx x.
Proof.
  revert t x. induction keys as [|k keys IH]; intros t x Hk Ht; cbn [tx_deletes].
  - apply wp_ret. destruct Ht as [Hx Ht]. split; [done|]. by intros t' [= <-].
  - apply wp_bindR. eapply wp_mono; [apply wp_tx_delete_inv; [apply Hk; by left|done]|].
    intros [t'|e] x' [Hx' Ht']; [|by split]. apply IH; [intros; apply Hk; by right|].
    split; [done|by apply Ht'].
Qed.

Lemma wp_commit_inv t x : tx_inv t (kv x) ->
  wp (on_store cfg (tx_commit t)) (fun _ x' => rows_inv (kv_data (kv x'))) x.
Proof.
  intros [Hx Ht]. eapply wp_mono; [apply (wp_on_store_rows _ (fun _ _ => True))|by intros ? ? []].
  eapply wp_mono; [apply tx_commit_law|]. intros r s' (_ & [-> | ->] & _); by split.
Qed.

(** A transaction of deletes. *)
Lemma wp_delete_tx t keys Q x : (forall k, k ∈ keys -> k ∉ stay) -> tx_inv t (kv x) ->
  (forall t' x', tx_inv t' (kv x') -> wp (Q t') (fun _ x'' => rows_inv (kv_data (kv x''))) x') ->
  wp (bindR (tx_deletes cfg t keys) Q : act (fs_state S) (result unit FsError))
    (fun _ x' => rows_inv (kv_data (kv x'))) x.
Proof.
  intros Hk Ht HQ. apply wp_bindR. eapply wp_mono; [by apply wp_tx_deletes_inv|].
  intros [t'|e] x' [Hx' Ht']; [|done]. apply HQ. split; [done|by apply Ht'].
Qed.

Hypothesis stay_files : forall k, k ∈ stay -> starts_with k FILES_PREFIX = true.

Lemma uploads_not_stay k : starts_with k "fs:uploads:" = true -> k ∉ stay.
Proof.
  intros Hk Hs. apply stay_files in Hs. apply starts_with_spec in Hk as [r ->].
  apply starts_with_spec in Hs as [r' Hr]. done.
Qed.

Lemma multiparts_not_stay k : starts_with k "fs:mp:" = true -> k ∉ stay.
Proof.
  intros Hk Hs. apply stay_files in Hs. apply starts_with_spec in Hk as [r ->].
  apply starts_with_spec in Hs as [r' Hr]. done.
Qed.

Lemma rels_not_stay k : starts_with k REL_PREFIX = true -> k ∉ stay.
Proof.
  intros Hk Hs. apply stay_files in Hs. apply starts_with_spec in Hk as [r ->].
  apply starts_with_spec in Hs as [r' Hr]. done.
Qed.

Lemma keeps_delete_session id : keeps gc_inv (zoom_prog (delete_session cfg id)).
Proof.
  intros w [Hr Hs]. apply (wp_zoom_prog (H := fs_lens)).
  eapply (wp_mono _ (fun _ x' => rows_inv (kv_data (kv x')))); [|by intros a x' Hx'].
  unfold delete_session. apply wp_run_bindR, wp_run_atomically.
  eapply wp_mono; [by apply (fs_keeps_get_row (session_key id))|]. intros [session|e] x Hx; [|done].
  apply wp_run_atomically, wp_bindR. eapply wp_mono; [by apply wp_begin_inv|].
  intros [t|e] x1 [Hx1 Ht1]; [|done]. apply wp_delete_tx; [|by split; [|apply Ht1]|].
  - intros k Hk. destruct session as [s|]; [|by apply not_elem_of_nil in Hk].
    apply elem_of_app in Hk as [Hk|Hk].
    + apply list_elem_of_fmap in Hk as (i & -> & _). apply uploads_not_stay, starts_with_app.
    + destruct (us_s3_upload_id s) as [u|]; [|by apply not_elem_of_nil in Hk].
      apply list_elem_of_singleton in Hk as ->. apply multiparts_not_stay, starts_with_app.
  - intros t2 x2 Ht2. apply wp_bindR. eapply wp_mono; [apply wp_tx_delete_inv; [|exact Ht2]|].
    + apply uploads_not_stay, starts_with_app.
    + intros [t3|e] x3 [Hx3 Ht3]; [|done]. apply wp_commit_inv. split; [done|by apply Ht3].
Qed.

Lemma keeps_delete_file g : file_key g ∉ stay -> refs_key g ∉ stay ->
  keeps gc_inv (on_rows (FsStore.delete_file cfg g)).
Proof.
  intros Hg Hg'. apply keeps_on_rows. intros x Hx. unfold FsStore.delete_file. apply wp_bindR.
  eapply wp_mono; [by apply wp_begin_inv|]. intros [t|e] x1 [Hx1 Ht1]; [|done].
  specialize (Ht1 t eq_refl). apply wp_bindR.
  eapply wp_mono; [apply (wp_on_store_rows _ (fun _ s => rows_inv (tx_data t s)))|].
  { eapply wp_mono; [apply tx_scan_law|]. intros r s' (Hd & Hr & _). rewrite Hd. split; [done|].
    intros a ->. by destruct (Hr a eq_refl) as [_ ->]. }
  intros [kvs|e] x2 [Hx2 Ht2]; [|done]. specialize (Ht2 kvs eq_refl).
  apply wp_delete_tx; [|done|].
  - intros k Hk. unfold rels_of in Hk. apply list_elem_of_In, List.filter_In in Hk as [_ Hk].
    apply rels_not_stay. by apply andb_true_iff in Hk as [? _].
  - intros t3 x3 Ht3. apply wp_bindR. eapply wp_mono; [by apply wp_tx_delete_inv|].
    intros [t4|e] x4 [Hx4 Ht4]; [|done]. apply wp_bindR.
    eapply wp_mono; [apply wp_tx_delete_inv; [exact Hg'|by split; [|apply Ht4]]|].
    intros [t5|e] x5 [Hx5 Ht5]; [|done]. apply wp_commit_inv. split; [done|by apply Ht5].
Qed.

(** *** Calls of the object store *)

Lemma keeps_on_s3 {A} (m : prog O A) :
  (forall o, wp (run m) (fun _ o' => s3_object bucket key o' = s3_object bucket key o) o) ->
  keeps gc_inv (on_s3 m).
Proof.
  intros Hm w [Hr Hs]. apply (wp_zoom_prog (H := s3_lens)). eapply wp_mono; [apply Hm|].
  intros a o' Ho. split; [done|]. cbn. by rewrite Ho.
Qed.

Lemma keeps_s3_delete k : k <> key -> keeps gc_inv (on_s3 (s3_delete bucket k)).
Proof.
  intros Hk. apply keeps_on_s3. intros o. eapply wp_mono; [apply s3_delete_law|]. intros a o' Ho. by apply Ho.
Qed.

Lemma keeps_abort s : (us_s3_upload_id s = None -> us_s3_key s <> key) ->
  keeps gc_inv (abort_session_upload cfg bucket s).
Proof.
  intros Hs. unfold abort_session_upload. destruct (us_s3_upload_id s) as [u|]; [|by apply keeps_s3_delete, Hs].
  apply keeps_bindR; [apply keeps_on_rows, fs_keeps_get_row|]. intros [m|]; [|apply keeps_ret].
  apply keeps_bindR.
  - unfold ensure_multipart. apply keeps_bindR; [apply keeps_on_rows, fs_keeps_get_row|].
    intros [m'|]; [|apply keeps_ret]. apply keeps_on_s3. intros o.
    eapply wp_mono; [apply (s3_restore_law bucket)|]. intros a o' Ho. apply Ho.
  - intros _. apply keeps_bind; [|intros [[]|[]]; apply keeps_ret]. apply keeps_on_s3. intros o.
    eapply wp_mono; [apply s3_abort_law|]. intros a o' Ho. apply Ho.
Qed.

Lemma keeps_announce op : keeps gc_inv (announce has_feed op).
Proof.
  unfold announce. destruct has_feed; [|apply keeps_ret]. apply keeps_atomically.
  intros w Hw. apply wp_map_errM, wp_zoom, wp_intro. by intros r f' _.
Qed.

Lemma keeps_with_session {A} id (body' : prog W A) : keeps gc_inv body' -> keeps gc_inv (with_session id body').
Proof.
  intros Hb. unfold with_session. apply keeps_bind.
  { apply keeps_atomically. intros w Hw. apply wp_zoom, wp_intro. by intros e l _. }
  intros e. apply keeps_bind; [done|]. intros r. apply keeps_bind; [|intros; apply keeps_ret].
  apply keeps_atomically. intros w Hw. apply wp_zoom, wp_intro. by intros [] l _.
Qed.
End inv.

(** *** One file in use *)

Section in_use.
Variables (d0 : gmap string bytes) (rec : FileRecord) (now : Z) (body : option bytes).

Definition file_rows : gset string := {[file_key (fr_id rec); refs_key (fr_id rec)]}.

#[local] Abbreviation inv := (gc_inv d0 file_rows (fr_s3_key rec) body).
#[local] Abbreviation rinv := (rows_inv d0 file_rows).

(** The file has a row and is attached, no abandoned single-part upload and no
    other file shares its object. *)
Record in_use : Prop := {
  use_row : exists v, d0 !! file_key (fr_id rec) = Some v /\ from_slice v = Ok rec;
  use_refs : exists v info, d0 !! refs_key (fr_id rec) = Some v /\ from_slice v = Ok info /\ count info <> 0%Z;
  use_sessions id v s : d0 !! session_key id = Some v -> from_slice v = Ok s ->
    is_expired s now TTL_SECS = true -> us_s3_upload_id s = None -> us_s3_key s <> fr_s3_key rec;
  use_files k v f : starts_with k FILES_PREFIX = true -> d0 !! k = Some v -> from_slice v = Ok f -> fr_s3_key f = fr_s3_key rec ->
    fr_id f = fr_id rec;
}.

Hypothesis used : in_use.

Lemma file_rows_files k : k ∈ file_rows -> starts_with k FILES_PREFIX = true.
Proof.
  unfold file_rows. rewrite elem_of_union, !elem_of_singleton. intros [-> | ->]; apply starts_with_app.
Qed.

Lemma other_file g : g <> fr_id rec -> (file_key g ∉ file_rows) /\ (refs_key g ∉ file_rows).
Proof.
  intros Hg. unfold file_rows. rewrite !elem_of_union, !elem_of_singleton. split; intros [He|He].
  - unfold file_key in He. apply (inj (String.append FILES_PREFIX)) in He. by apply app_inj_r in He.
  - by apply file_refs_ne in He.
  - symmetry in He. by apply file_refs_ne in He.
  - by apply refs_key_inj in He.
Qed.

Lemma keeps_sweep_session s n : keeps inv (sweep_session cfg bucket now s n).
Proof.
  apply keeps_with_session.
  apply (keeps_bind_val _ (fun r => forall s', r = Ok (Some s') -> exists v,
    d0 !! session_key (us_id s) = Some v /\ from_slice v = Ok s')).
  { intros w [Hr Hs]. apply wp_run_atomically, wp_zoom.
    eapply wp_mono; [by apply (wp_get_row_val d0 file_rows)|]. by intros r x [Hx Hv]. }
  intros [[s'|]|e] Hval; [|apply keeps_ret..].
  destruct (is_expired s' now TTL_SECS) eqn:Ex; [|apply keeps_ret]. cbn [negb].
  apply keeps_bind.
  { apply keeps_abort. intros Hnone. destruct (Hval s' eq_refl) as (v & Hv & Hs'). by eapply use_sessions. }
  intros [[]|e]; [|apply keeps_ret]. apply keeps_bindR; [|intros; apply keeps_ret].
  apply keeps_delete_session, file_rows_files.
Qed.

Lemma keeps_sweep_sessions l n : keeps inv (sweep_sessions cfg bucket now l n).
Proof.
  revert n. induction l as [|s l IH]; intros n; [apply keeps_ret|].
  apply keeps_bindR; [apply keeps_sweep_session|apply IH].
Qed.

Lemma wp_get_ref_info_val g x : rinv (kv_data (kv x)) ->
  wp (get_ref_info cfg g) (fun r x' => rinv (kv_data (kv x')) /\
    (g = fr_id rec -> forall i, r = Ok i -> count i <> 0%Z)) x.
Proof.
  intros Hx. unfold get_ref_info, get_one. rewrite no_mirror. apply wp_bindR, wp_map_errM, wp_zoom.
  eapply wp_mono; [apply kv_get_law|]. intros r s' (Hd & Hr & _). cbn [upd kv_lens kv].
  destruct r as [b|e]; cbn [map_err]; [|by rewrite Hd]. specialize (Hr b eq_refl). cbn in Hr.
  destruct use_refs as (v & info & Hv & Hi & Hn); [done|].
  assert (g = fr_id rec -> b = Some v) as Hb.
  { intros ->. rewrite Hr, <- Hv. apply Hx. unfold file_rows. set_solver. }
  destruct b as [v'|]; apply wp_ret; cbn [kv]; rewrite Hd; (split; [done|]).
  - intros Hg i. injection (Hb Hg) as ->. unfold decode. rewrite Hi. by intros [= <-].
  - intros Hg. by specialize (Hb Hg).
Qed.

Lemma keeps_sweep_file f n : (fr_s3_key f = fr_s3_key rec -> fr_id f = fr_id rec) ->
  keeps inv (sweep_file cfg bucket has_feed now f n).
Proof.
  intros Hf. unfold sweep_file.
  apply (keeps_bind_val _ (fun r => fr_id f = fr_id rec -> forall i, r = Ok i -> count i <> 0%Z)).
  { intros w [Hr Hs]. apply wp_run_atomically, wp_zoom.
    eapply wp_mono; [by apply wp_get_ref_info_val|]. by intros r x [Hx Hv]. }
  intros [i|e] Hval; [|apply keeps_ret].
  case_bool_decide as Hz; [apply keeps_ret|]. case_bool_decide; [apply keeps_ret|].
  assert (fr_id f <> fr_id rec) as Hne.
  { intros He. by apply (Hval He i). }
  destruct (other_file _ Hne) as [Hk1 Hk2].
  apply keeps_bind; [apply keeps_s3_delete; tauto|]. intros [[]|e]; [|apply keeps_ret].
  apply keeps_bind; [apply keeps_announce|]. intros [[]|e]; [|apply keeps_ret].
  apply keeps_bindR; [|intros; apply keeps_ret]. apply keeps_delete_file; [apply file_rows_files|done..].
Qed.

Lemma keeps_sweep_files l n : Forall (fun f => fr_s3_key f = fr_s3_key rec -> fr_id f = fr_id rec) l ->
  keeps inv (sweep_files cfg bucket has_feed now l n).
Proof.
  intros Hl. revert n. induction Hl as [|f l Hf Hl IH]; intros n; [apply keeps_ret|].
  apply keeps_bindR; [by apply keeps_sweep_file|apply IH].
Qed.

Lemma keeps_sweep_bytes live l n : fr_s3_key rec ∈ live -> keeps inv (sweep_bytes bucket now live l n).
Proof.
  intros Hlive. revert n. induction l as [|entry l IH]; intros n; cbn [sweep_bytes]; [apply keeps_ret|].
  destruct (stale_key now live entry) eqn:Es; [|apply IH]. cbn [negb].
  apply keeps_bind; [|intros r; apply IH]. apply keeps_s3_delete. intros He.
  unfold stale_key in Es. rewrite He in Es. by rewrite bool_decide_eq_true_2 in Es.
Qed.

(** The file is listed. *)
Lemma file_in_range : in_range (Some FILES_PREFIX) (Some (prefix_scan_end FILES_PREFIX)) (file_key (fr_id rec)) = true.
Proof.
  unfold in_range, file_key. rewrite !bool_decide_eq_true_2; [done| |apply le_app_r].
  change (FILES_PREFIX +:+ fr_id rec +:+ FILE_META_SUFFIX)
    with ("fs:files" +:+ String ":" (fr_id rec +:+ FILE_META_SUFFIX)).
  change (prefix_scan_end FILES_PREFIX) with ("fs:files" +:+ ";"). by apply le_app.
Qed.

Lemma wp_list_files_val x : rinv (kv_data (kv x)) ->
  wp (list_files cfg) (fun r x' => rinv (kv_data (kv x')) /\ forall scan, r = Ok scan ->
    rec ∈ rs_records scan /\
    Forall (fun f => fr_s3_key f = fr_s3_key rec -> fr_id f = fr_id rec) (rs_records scan)) x.
Proof.
  intros Hx. unfold list_files, scan_prefix. rewrite no_mirror. apply wp_bindR, wp_map_errM, wp_zoom.
  eapply wp_mono; [apply kv_scan_law|]. intros r s' (Hd & Hr & _). cbn [upd kv_lens kv].
  destruct r as [kvs|e]; cbn [map_err]; [|by rewrite Hd]. rewrite (Hr kvs eq_refl). apply wp_ret. cbn [kv].
  rewrite Hd. split; [done|]. intros scan [= <-]. split.
  - destruct use_row as (v & Hv & Hrec); [done|].
    eapply scan_records_has; [|apply starts_with_app| |exact Hrec].
    + apply elem_of_kv_range. split; [apply file_in_range|]. rewrite <- Hv. apply Hx. unfold file_rows. set_solver.
    + unfold file_key. rewrite <- app_assoc. apply ends_with_app.
  - apply Forall_forall. intros f Hf. apply scan_records_in in Hf as (k & v & Hk & Hp & _ & Hv).
    apply elem_of_kv_range in Hk as [_ Hk]. eapply use_files; [done|exact Hp| |exact Hv].
    eapply lookup_weaken; [exact Hk|apply Hx].
Qed.
End in_use.

(** C2: the sweep never takes the bytes of a file in use.  Let a file have its
    record and at least one relation, share its object with no abandoned
    single-part upload and with no other file; then however the store, the
    object store and the feed fail on the way, after a sweep the file's object
    holds what it held, and its record and its reference count are the rows
    that they were. *)
Theorem sweep_keeps_files_in_use rec (w : W) :
  let d0 := kv_data (kv (fs w)) in
  in_use d0 rec (now_of (fs_clk (fs w)) 0) ->
  wp (run (sweep_once cfg bucket has_feed)) (fun _ w' =>
    s3_object bucket (fr_s3_key rec) (s3 w') = s3_object bucket (fr_s3_key rec) (s3 w) /\
    kv_data (kv (fs w')) !! file_key (fr_id rec) = d0 !! file_key (fr_id rec) /\
    kv_data (kv (fs w')) !! refs_key (fr_id rec) = d0 !! refs_key (fr_id rec)) w.
Proof.
  cbn zeta. set (d0 := kv_data (kv (fs w))). set (now := now_of _ _). intros Hu.
  set (body := s3_object bucket (fr_s3_key rec) (s3 w)).
  set (I := gc_inv d0 (file_rows rec) (fr_s3_key rec) body).
  eapply (wp_mono _ (fun _ w' => I w')).
  2: { intros r w' [[_ Hst] Hs]. split; [exact Hs|]. unfold file_rows in Hst. split; apply Hst; set_solver. }
  unfold sweep_once. apply wp_run_bind, wp_run_atomically, wp_zoom.
  unfold wp at 1, zoom, tick. cbn [view upd fs_lens fs_clk_lens].
  replace (reading _ _) with now by (unfold now, now_of; f_equal; lia).
  apply (keeps_bindR I); [|intros sessions|by split].
  { apply keeps_on_rows. unfold list_sessions, scan_prefix. rewrite no_mirror. apply fs_keeps_bindR.
    - intros x Hx. apply wp_map_errM, wp_zoom. eapply wp_mono; [by eapply keeps_reads; [apply kv_scan_law|]|].
      by intros r s' Hs'.
    - intros kvs. apply fs_keeps_ret. }
  apply (keeps_bind_val I (fun r => forall scan, r = Ok scan -> rec ∈ rs_records scan /\
    Forall (fun f => fr_s3_key f = fr_s3_key rec -> fr_id f = fr_id rec) (rs_records scan))).
  { intros w1 [Hr Hs]. apply wp_run_atomically, wp_zoom.
    eapply wp_mono; [by apply (wp_list_files_val d0 rec now Hu)|]. by intros r x [Hx Hv]. }
  intros [files|e] Hfiles; [|apply keeps_ret]. destruct (Hfiles files eq_refl) as [Hrec Hall].
  apply keeps_bindR; [by apply keeps_sweep_sessions|intros n].
  apply keeps_bindR; [by apply keeps_sweep_files|intros n2].
  apply keeps_bind.
  { apply keeps_on_rows, fs_keeps_on_store. by eapply keeps_reads, kv_gc_law. }
  intros _. case_bool_decide; [apply keeps_ret|].
  apply keeps_bind.
  { apply keeps_on_s3. intros o. eapply wp_mono; [apply s3_list_law|]. intros a o' Ho. apply Ho. }
  intros listed. apply keeps_bind; [|intros; apply keeps_ret].
  apply keeps_sweep_bytes. apply elem_of_app. right. apply list_elem_of_fmap. by exists rec.
Qed.
End safety.
