(* ===== verification/FsSweeper.v ===== *)
(** FsSweeper: the task that sweeps the file store every hour ([spawn] of
    [src/src/fs/gc.rs]).  It looks at its cancellation token ten times a second
    and sweeps at the ticks of an hourly interval. *)
From S2P Require Import Prelude.
From S2P Require Import Effects.
From S2P Require Import Tokio.
From S2P Require Import Kv.
From S2P Require Import FsTypes.
From S2P Require Import FsStore.
From S2P Require Import FsRels.
From S2P Require Import Policy.
From S2P Require Import FsLocks.
From S2P Require Import FsEngine.
From S2P Require Import FsGc.

Definition SWEEP_PERIOD : Z := from_secs 3600.
Definition SWEEP_WAKE : Z := from_millis 100.

Section sweeper.
Context {C S O E F T : Type} `{!Tokio C}.
Context `{!KvStore S T} `{!KvGc S} `{!StoreText} `{!S3Client O} `{!Enforcer E} `{!ChangeSink F}.
Context `{!Serde UploadSession} `{!Serde PersistedMultipart} `{!Serde FileRecord} `{!Serde RefInfo}.
Context (cfg : FsConfig S) (bucket : string) (has_feed : bool) (is_cancelled : act C bool).

#[local] Abbreviation engine := (FsEngine.world S O E F).
#[local] Abbreviation W := (C * engine)%type.

#[local] Instance engine_lens : Lens engine W := { view := snd; upd x w := (w.1, x) }.
#[local] Instance engine_lens_laws : LensLaws engine W.
Proof. split; intros *; by try destruct w. Qed.

(** One pass of the loop; [false] ends it.  A failed sweep is logged. *)
Definition sweeper_round : prog W bool :=
  stop ← atomically (on_runtime is_cancelled);
  if (stop : bool) then Ret false else
  ticked ← atomically (on_runtime (tick_within SWEEP_WAKE));
  if negb ticked then Ret true else
  stop ← atomically (on_runtime is_cancelled);
  if (stop : bool) then Ret false else
  _ ← zoom_prog (sweep_once cfg bucket has_feed);
  Ret true.

(** The first [n] passes. *)
Fixpoint spawn_sweeper (n : nat) : prog W unit :=
  match n with
  | 0 => Ret tt
  | Datatypes.S n => go ← sweeper_round; if (go : bool) then spawn_sweeper n else Ret tt
  end.

(** ** It keeps up with the hours *)

Context `{laws : !TickLaws C SWEEP_PERIOD}.
Hypothesis not_cancelled : forall c, wp is_cancelled (fun b c' => b = false /\ c' = c) c.

Definition swept (x : engine) : engine := (run (sweep_once cfg bucket has_feed) x).2.

(** The sweeper after [k] sweeps in [n] passes from [c] and [x]. *)
Definition sweeps_done (c : C) (x : engine) (n k : nat) (w : W) : Prop :=
  w.2 = Nat.iter k swept x /\
  next_tick w.1 = (next_tick c + Z.of_nat k * SWEEP_PERIOD)%Z /\
  (clock_at c + Z.of_nat (n - k) * SWEEP_WAKE <= clock_at w.1)%Z.

Lemma wp_sweeper_round c x : wp (run sweeper_round) (fun go w => go = true /\
  ((sweeps_done c x 1 1 w) \/ (sweeps_done c x 1 0 w /\ (clock_at c + SWEEP_WAKE < next_tick c)%Z))) (c, x).
Proof using not_cancelled laws.
  unfold sweeper_round. apply wp_run_bind, wp_run_atomically, wp_on_runtime. eapply wp_mono; [apply not_cancelled|].
  intros ? ? [-> ->]. apply wp_run_bind, wp_run_atomically, wp_on_runtime. eapply wp_mono; [apply law_within|].
  intros [] c1 [Hdue Hc]; cbn [negb].
  - apply wp_run_bind, wp_run_atomically, wp_on_runtime. eapply wp_mono; [apply not_cancelled|].
    intros ? ? [-> ->]. apply wp_run_bind, wp_zoom_prog. cbn [view engine_lens snd]. unfold wp at 1.
    destruct (run (sweep_once cfg bucket has_feed) x) as [r x'] eqn:Er. apply wp_ret. split; [done|]. left.
    unfold sweeps_done. cbn. unfold swept. rewrite Er. split; [done|]. lia.
  - apply wp_ret. split; [done|]. right. unfold sweeps_done. cbn. split; [split; [done|lia]|].
    apply Z.nle_gt. intros Hle. by specialize (Hdue Hle).
Qed.

(** C39: a sweeper that is not cancelled keeps up with the hours: after any number
    of passes the store is the result of a number of whole sweeps, one for each
    hour that the interval has moved on by, and as long as passes are made it
    does not stay behind: once enough of them were made for the wake-ups to
    reach the next tick, it has swept. *)
Theorem sweeper_keeps_up n c x : wp (run (spawn_sweeper n)) (fun _ w => exists k,
  k <= n /\ sweeps_done c x n k w /\
  (0 < n -> (next_tick c <= clock_at c + Z.of_nat n * SWEEP_WAKE)%Z -> 0 < k)) (c, x).
Proof using not_cancelled laws.
  revert c x. induction n as [|n IH]; intros c x.
  { apply wp_ret. exists 0. split; [done|]. split; [|lia]. unfold sweeps_done. cbn. split; [done|]. lia. }
  cbn [spawn_sweeper]. apply wp_run_bind. eapply wp_mono; [apply wp_sweeper_round|].
  assert (0 < SWEEP_WAKE)%Z as Hwake by done.
  intros go [c1 x1] [-> [Hs|[Hs Hlate]]]; unfold sweeps_done in Hs; cbn in Hs; destruct Hs as (-> & Hn & Hc).
  - eapply wp_mono; [apply IH|]. intros _ w (k & Hk & (Hw & Hw1 & Hw2) & _). exists (Datatypes.S k).
    split; [lia|]. split; [|lia]. unfold sweeps_done. rewrite Nat.iter_succ_r. split; [done|].
    replace (Datatypes.S n - Datatypes.S k) with (n - k) by lia. lia.
  - eapply wp_mono; [apply IH|]. intros _ w (k & Hk & (Hw & Hw1 & Hw2) & Hlive). exists k. split; [lia|]. split.
    + unfold sweeps_done. split; [done|]. replace (Datatypes.S n - k) with (Datatypes.S (n - k)) by lia. lia.
    + intros _ Hdue. destruct n as [|n]; [lia|]. apply Hlive; lia.
Qed.
End sweeper.
