(* ===== verification/FsObjects.v ===== *)
(** FsObjects: the object store client ([ObjectStoreClient] of
    [src/src/fs/object_store.rs]): bodies, and multipart uploads whose state is
    kept in memory and restored from its row.

    The [object_store] crate is a dependency: its calls are the class
    [Backend]. *)
From S2P Require Import Prelude.
From S2P Require Import Effects.
From S2P Require Import RustStr.
From S2P Require Import Kv.
From S2P Require Import ObjStore.
From S2P Require Import FsTypes.
From S2P Require Import FsEngine.

(** [object_store::ObjectMeta], the fields that are read. *)
Record ObjectMeta := { location : string; last_modified : Z }.

Class Backend (B : Type) := {
  be_path : string -> string;
  be_put : string -> bytes -> list (string * string) -> act B (result unit ObjError);
  be_get : string -> act B (result (Z * list (result bytes ObjError)) ObjError);
  be_get_range : string -> Z -> Z -> act B (result (Z * Z * list (result bytes ObjError)) ObjError);
  be_delete : string -> act B (result unit ObjError);
  be_list : string -> act B (list (result ObjectMeta ObjError));
  be_create_multipart : string -> act B (result string ObjError);
  be_put_part : string -> string -> nat -> bytes -> act B (result string ObjError);
  be_complete_multipart : string -> string -> list string -> act B (result unit ObjError);
  be_abort_multipart : string -> string -> act B (result unit ObjError);
}.

(** The text of an [object_store::Error]. *)
Class ObjText := { obj_text : ObjError -> string }.

Record MultipartState := {
  ms_bucket : string;
  ms_key : string;
  ms_path : string;
  ms_id : string;
  ms_parts : gmap nat string;
}.

Record client (B : Type) := Client {
  backend : B;
  states : gmap string MultipartState;
  upload_ids : uuids;
}.
Arguments Client {B} backend states upload_ids.
Arguments backend {B} c.
Arguments states {B} c.
Arguments upload_ids {B} c.

#[export] Instance backend_lens {B} : Lens B (client B) :=
  {| view := backend; upd b c := Client b (states c) (upload_ids c) |}.
#[export] Instance states_lens {B} : Lens (gmap string MultipartState) (client B) :=
  {| view := states; upd m c := Client (backend c) m (upload_ids c) |}.
#[export] Instance upload_ids_lens {B} : Lens uuids (client B) :=
  {| view := upload_ids; upd u c := Client (backend c) (states c) u |}.

Section client.
Context {B : Type} `{!Backend B} `{!ObjText}.
Variable is_memory : bool.

#[local] Abbreviation task := (prog (client B)).
#[local] Abbreviation state_map := (gmap string MultipartState).

Definition path (bucket key : string) : string :=
  if is_memory then be_path (bucket +:+ "/" +:+ key) else be_path key.

Definition map_obj_err (e : ObjError) : FsError :=
  match e with
  | ObjNotFound => FsNotFound (obj_text e)
  | _ => FsInternal (obj_text e)
  end.

Definition on_backend {A} (m : act B (result A ObjError)) : task (result A FsError) :=
  map_errM map_obj_err (atomically (zoom m)).

(** A block under the lock of the states. *)
Definition on_states {A} (f : state_map -> A * state_map) : task A := atomically (zoom f).

Definition put_attrs (checksum : option string) : list (string * string) :=
  match checksum with Some cs => [("checksum_sha256", cs)] | None => [] end.

Definition create_multipart_upload (bucket key : string) : task (result string FsError) :=
  let p := path bucket key in
  id <-? on_backend (be_create_multipart p);
  u ← atomically (zoom new_uuid);
  let upload_id := "ostore-" +:+ u in
  _ ← on_states (fun m => (tt, <[upload_id :=
        {| ms_bucket := bucket; ms_key := key; ms_path := p; ms_id := id; ms_parts := ∅ |}]> m));
  mret (Ok upload_id).

Definition mismatch (st : MultipartState) (bucket key : string) : bool :=
  negb (bool_decide (ms_bucket st = bucket)) || negb (bool_decide (ms_key st = key)).

Definition state_with_part (st : MultipartState) (idx : nat) (part : string) : MultipartState :=
  {| ms_bucket := ms_bucket st; ms_key := ms_key st; ms_path := ms_path st; ms_id := ms_id st;
     ms_parts := <[idx := part]> (ms_parts st) |}.

Definition upload_part (bucket key upload_id : string) (part_number : Z) (body : bytes) :
    task (result string FsError) :=
  if bool_decide (part_number < 1)%Z then mret (bad "part_number must be >= 1") else
  let idx := Z.to_nat (part_number - 1) in
  target <-? on_states (fun m =>
    (match m !! upload_id with
     | None => Err (FsInternal ("unknown upload_id " +:+ upload_id))
     | Some st => if mismatch st bucket key then Err (FsInternal "bucket/key mismatch")
                  else Ok (ms_path st, ms_id st)
     end, m));
  part <-? on_backend (be_put_part target.1 target.2 idx body);
  _ ← on_states (fun m =>
    (tt, match m !! upload_id with
         | Some st => <[upload_id := state_with_part st idx part]> m
         | None => m
         end));
  mret (Ok part).

(** The parts of a state in the order of the etags, which must match. *)
Fixpoint ordered_parts (i : nat) (parts : gmap nat string) (etags : list string) :
    result (list string) FsError :=
  match etags with
  | [] => Ok []
  | etag :: etags =>
      match parts !! i with
      | None => Err (FsInternal ("missing part " +:+ u64_text (Z.of_nat (i + 1))))
      | Some part =>
          if bool_decide (part <> etag)
          then Err (FsInternal ("etag mismatch for part " +:+ u64_text (Z.of_nat (i + 1)) +:+
                                ": expected " +:+ part +:+ ", got " +:+ etag))
          else match ordered_parts (i + 1) parts etags with
               | Ok l => Ok (part :: l)
               | Err e => Err e
               end
      end
  end.

Definition complete_multipart_upload (bucket key upload_id : string) (etags : list string) :
    task (result unit FsError) :=
  st <-? on_states (fun m =>
    (ok_or (m !! upload_id) (FsInternal ("unknown upload_id " +:+ upload_id)), delete upload_id m));
  if mismatch st bucket key then mret (Err (FsInternal "bucket/key mismatch")) else
  if bool_decide (length etags <> size (ms_parts st))
  then mret (Err (FsInternal ("etag count " +:+ u64_text (Z.of_nat (length etags)) +:+
                              " != part count " +:+ u64_text (Z.of_nat (size (ms_parts st)))))) else
  ordered <-? mret (ordered_parts 0 (ms_parts st) etags);
  on_backend (be_complete_multipart (ms_path st) (ms_id st) ordered).

Definition abort_multipart_upload (bucket key upload_id : string) : task (result unit FsError) :=
  st <-? on_states (fun m =>
    match m !! upload_id with
    | Some st => if mismatch st bucket key then (Err (FsInternal "bucket/key mismatch"), m)
                 else (Ok (Some st), delete upload_id m)
    | None => (Ok None, delete upload_id m)
    end);
  match (st : option MultipartState) with
  | Some st => on_backend (be_abort_multipart (ms_path st) (ms_id st))
  | None => mret (Ok tt)
  end.

Definition backend_upload_id (upload_id : string) : task (option string) :=
  on_states (fun m => (option_map ms_id (m !! upload_id), m)).

Definition restore_multipart (record : PersistedMultipart) : task (result unit FsError) :=
  if bool_decide (pm_bucket record = "") || bool_decide (pm_key record = "")
  then mret (Err (FsInternal "multipart record missing bucket/key")) else
  _ ← on_states (fun m => (tt, <[pm_upload_id record :=
        {| ms_bucket := pm_bucket record; ms_key := pm_key record;
           ms_path := path (pm_bucket record) (pm_key record);
           ms_id := pm_s3_upload_id record; ms_parts := pm_parts record |}]> m));
  mret (Ok tt).

Definition put_object (bucket key : string) (body : bytes) (checksum : option string) :
    task (result unit FsError) :=
  on_backend (be_put (path bucket key) body (put_attrs checksum)).

Definition chunks (l : list (result bytes ObjError)) : ByteStream := map_err map_obj_err <$> l.

Definition get_object_stream (bucket key : string) : task (result ObjectStream FsError) :=
  r <-? on_backend (be_get (path bucket key));
  mret (Ok {| os_size := r.1; os_stream := chunks r.2 |}).

Definition get_object_range (bucket key : string) (first last : Z) : task (result ObjectStream FsError) :=
  r <-? on_backend (be_get_range (path bucket key) first last);
  mret (Ok {| os_size := u64_saturating_sub r.1.2 r.1.1; os_stream := chunks r.2 |}).

Definition delete_object (bucket key : string) : task (result unit FsError) :=
  r ← atomically (zoom (be_delete (path bucket key)));
  match (r : result unit ObjError) with
  | Ok _ => mret (Ok tt)
  | Err ObjNotFound => mret (Ok tt)
  | Err e => mret (Err (map_obj_err e))
  end.

(** The key of a listed object, relative to the bucket in memory. *)
Definition listed_key (bucket : string) (m : ObjectMeta) : ListedKey :=
  {| lk_key := if is_memory then default (location m) (strip_prefix (bucket +:+ "/") (location m))
               else location m;
     lk_last_modified := last_modified m |}.

Fixpoint listed_keys (bucket : string) (l : list (result ObjectMeta ObjError)) :
    result (list ListedKey) FsError :=
  match l with
  | [] => Ok []
  | Err e :: _ => Err (map_obj_err e)
  | Ok m :: l =>
      match listed_keys bucket l with
      | Ok ks => Ok (listed_key bucket m :: ks)
      | Err e => Err e
      end
  end.

Definition list_keys (bucket prefix : string) : task (result (list ListedKey) FsError) :=
  l ← atomically (zoom (be_list (path bucket prefix)));
  mret (listed_keys bucket l).

#[export] Instance ObjectStoreClient : S3Client (client B) := {
  s3_create_multipart := create_multipart_upload;
  s3_upload_part b k u n body _ := upload_part b k u n body;
  s3_complete := complete_multipart_upload;
  s3_abort := abort_multipart_upload;
  s3_backend_upload_id := backend_upload_id;
  s3_restore := restore_multipart;
  s3_put := put_object;
  s3_get_stream := get_object_stream;
  s3_get_range := get_object_range;
  s3_delete := delete_object;
  s3_list_keys := list_keys;
}.
End client.

(** ** A backend in memory *)
Module MemBackend.

Record store := Store {
  objects : gmap string (bytes * Z);
  uploads : gmap string (gmap nat bytes);
  made : nat;
  time : Z;
}.

Definition part_id (n : nat) : string := "part-" +:+ show_N (N.of_nat n).

#[export] Instance mem : Backend store := {
  be_path p := p;
  be_put p b _ := fun s =>
    (Ok tt, Store (<[p := (b, time s)]> (objects s)) (uploads s) (made s) (time s));
  be_get p := fun s =>
    (match objects s !! p with
     | Some (b, _) => Ok (Z.of_nat (String.length b), [Ok b])
     | None => Err ObjNotFound
     end, s);
  be_get_range p lo hi := fun s =>
    (match objects s !! p with
     | Some (b, _) => Ok ((lo, hi), [Ok (String.substring (Z.to_nat lo) (Z.to_nat (hi - lo)) b)])
     | None => Err ObjNotFound
     end, s);
  be_delete p := fun s =>
    (Ok tt, Store (delete p (objects s)) (uploads s) (made s) (time s));
  be_list p := fun s =>
    ((fun kv => Ok {| location := kv.1; last_modified := kv.2.2 |}) <$>
       List.filter (fun kv => starts_with kv.1 p) (map_to_list (objects s)), s);
  be_create_multipart _ := fun s =>
    let id := part_id (made s) in
    (Ok id, Store (objects s) (<[id := ∅]> (uploads s)) (Datatypes.S (made s)) (time s));
  be_put_part _ id idx b := fun s =>
    (match uploads s !! id with Some _ => Ok (part_id idx) | None => Err ObjNotFound end,
     Store (objects s) (alter (insert idx b) id (uploads s)) (made s) (time s));
  be_complete_multipart p id parts := fun s =>
    match uploads s !! id with
    | Some m =>
        let body := foldr (fun i acc => default "" (m !! i) +:+ acc) "" (seq 0 (length parts)) in
        (Ok tt, Store (<[p := (body, time s)]> (objects s)) (delete id (uploads s)) (made s) (time s))
    | None => (Err ObjNotFound, s)
    end;
  be_abort_multipart _ id := fun s =>
    (Ok tt, Store (objects s) (delete id (uploads s)) (made s) (time s));
}.
End MemBackend.
