(* ===== verification/FsClient.v ===== *)
(** FsClient: the object store client ([ObjectStoreClient] of
    [src/src/fs/object_store.rs]) over an object store that answers: a multipart
    upload keeps the last part of each number and puts them together in order,
    also after its state was lost and restored from its row. *)
From S2P Require Import Prelude.
From S2P Require Import Effects.
From S2P Require Import RustStr.
From S2P Require Import Kv.
From S2P Require Import ObjStore.
From S2P Require Import FsTypes.
From S2P Require Import FsStore.
From S2P Require Import FsRels.
From S2P Require Import Policy.
From S2P Require Import FsLocks.
From S2P Require Import FsEngine.
From S2P Require Import FsObjects.

(** ** The object store *)

(** The parts of an upload, one after the other. *)
Definition assembled (m : gmap nat bytes) (n : nat) : bytes :=
  foldr (fun i acc => default "" (m !! i) +:+ acc) "" (seq 0 n).

(** The documented behaviour of an object store that answers: an object holds
    what was last put; a part replaces the part of its number; a completed upload
    puts its parts together, in the order of their numbers. *)
Class BackendLaws (B : Type) `{!Backend B} := {
  be_up : B -> Prop;
  be_objects : B -> gmap string bytes;
  be_parts : B -> string -> string -> option (gmap nat (string * bytes));
  be_put_law p body attrs b : be_up b -> wp (be_put p body attrs) (fun r b' =>
    r = Ok tt /\ be_up b' /\ be_objects b' = <[p := body]> (be_objects b)) b;
  be_create_law p b : be_up b -> wp (be_create_multipart p) (fun r b' =>
    be_up b' /\ be_objects b' = be_objects b /\ exists id, r = Ok id /\ be_parts b' p id = Some ∅) b;
  be_put_part_law p id i body m b : be_up b -> be_parts b p id = Some m ->
    wp (be_put_part p id i body) (fun r b' => be_up b' /\ be_objects b' = be_objects b /\
      exists etag, r = Ok etag /\ be_parts b' p id = Some (<[i := (etag, body)]> m)) b;
  be_complete_law p id etags m b : be_up b -> be_parts b p id = Some m ->
    (forall i, fst <$> m !! i = etags !! i) ->
    wp (be_complete_multipart p id etags) (fun r b' => r = Ok tt /\ be_up b' /\
      be_objects b' = <[p := assembled (snd <$> m) (length etags)]> (be_objects b)) b;
}.

(** ** The client *)

Section client.
Context {B : Type} `{!Backend B} `{!BackendLaws B} `{!ObjText}.
Variable is_memory : bool.
Implicit Types c : client B.

#[local] Abbreviation path := (path is_memory).
#[local] Abbreviation objects c := (be_objects (backend c)).
#[local] Abbreviation up c := (be_up (backend c)).
#[local] Existing Instance ObjectStoreClient.
#[local] Instance the_client : S3Client (client B) := ObjectStoreClient is_memory.

Lemma wp_on_backend {A} (m : act B (result A ObjError)) Q c :
  wp m (fun r b => Q (map_err map_obj_err r) (Client b (states c) (upload_ids c))) (backend c) -> wp (run (on_backend m)) Q c.
Proof. intros Hm. unfold on_backend, map_errM. by apply wp_run_bind, wp_run_atomically, wp_zoom. Qed.

Lemma wp_on_states {A} (f : gmap string MultipartState -> A * gmap string MultipartState) Q c :
  Q (f (states c)).1 (Client (backend c) (f (states c)).2 (upload_ids c)) -> wp (run (on_states f)) Q c.
Proof. intros HQ. unfold on_states. apply wp_run_atomically, wp_zoom. unfold wp. cbn. by destruct (f (states c)). Qed.

#[local] Ltac client := cbv beta iota delta [s3_create_multipart s3_upload_part s3_complete s3_backend_upload_id
  s3_restore s3_put the_client ObjectStoreClient].

#[local] Ltac client_cbn := cbv beta; cbn [ms_bucket ms_key ms_path ms_id ms_parts fst snd negb orb backend states upload_ids ok_or].

Lemma wp_put bucket key body checksum Q c : up c ->
  (forall c', up c' -> objects c' = <[path bucket key := body]> (objects c) -> Q (Ok tt) c') ->
  wp (run (s3_put bucket key body checksum)) Q c.
Proof.
  intros Hu HQ. client. unfold put_object. apply wp_on_backend. eapply wp_mono; [by apply be_put_law|].
  intros r b (-> & Hu' & Ho). by apply HQ.
Qed.

(** An upload is open: the client knows it, and the store has the parts [m]. *)
Record open_upload (bucket key u id : string) (m : gmap nat (string * bytes)) c : Prop := {
  ou_up : up c;
  ou_state : states c !! u = Some {| ms_bucket := bucket; ms_key := key; ms_path := path bucket key; ms_id := id; ms_parts := fst <$> m |};
  ou_parts : be_parts (backend c) (path bucket key) id = Some m;
}.

Lemma wp_create bucket key Q c : up c ->
  (let u := "ostore-" +:+ uuid_at (upload_ids c) (uuids_used (upload_ids c)) in
   forall id c', open_upload bucket key u id ∅ c' -> objects c' = objects c -> Q (Ok u) c') ->
  wp (run (s3_create_multipart bucket key)) Q c.
Proof.
  intros Hu HQ. client. unfold create_multipart_upload. apply wp_run_bindR, wp_on_backend.
  eapply wp_mono; [by apply be_create_law|]. intros r b (Hu' & Ho & id & -> & Hp). cbn [map_err].
  apply wp_run_bind, wp_run_atomically, wp_zoom. unfold wp at 1. cbn.
  apply (HQ id); [|done]. split; [done| |done]. cbn. rewrite lookup_insert_eq. by rewrite fmap_empty.
Qed.

Lemma wp_backend_id bucket key u id m Q c : open_upload bucket key u id m c -> Q (Some id) c ->
  wp (run (s3_backend_upload_id u)) Q c.
Proof. intros [_ Hs _] HQ. client. unfold backend_upload_id. apply wp_on_states. cbn. rewrite Hs. by destruct c. Qed.

(** The row of an upload, and what the store has of it. *)
Definition recorded (bucket key u id : string) (m : gmap nat (string * bytes)) (r : PersistedMultipart) : Prop :=
  pm_upload_id r = u /\ pm_bucket r = bucket /\ pm_key r = key /\ pm_s3_upload_id r = id /\ pm_parts r = fst <$> m.

Lemma wp_restore bucket key u id m r Q c : recorded bucket key u id m r -> bucket <> "" -> key <> "" -> up c ->
  be_parts (backend c) (path bucket key) id = Some m ->
  (forall c', open_upload bucket key u id m c' -> objects c' = objects c -> Q (Ok tt) c') ->
  wp (run (s3_restore r)) Q c.
Proof.
  intros (Hu & Hb & Hk & Hid & Hm) Hb' Hk' Hup Hp HQ. client. unfold restore_multipart. rewrite Hb, Hk, Hu, Hid, Hm.
  rewrite !bool_decide_eq_false_2 by done. cbn [orb]. apply wp_run_bind, wp_on_states. cbn. apply wp_ret, HQ; [|done].
  split; [done| |done]. cbn. by rewrite lookup_insert_eq.
Qed.

Lemma wp_part bucket key u id m i body checksum Q c : open_upload bucket key u id m c ->
  (forall etag c', open_upload bucket key u id (<[i := (etag, body)]> m) c' -> objects c' = objects c -> Q (Ok etag) c') ->
  wp (run (s3_upload_part bucket key u (Z.of_nat i + 1) body checksum)) Q c.
Proof.
  intros [Hup Hs Hp] HQ. client. unfold upload_part. rewrite bool_decide_eq_false_2 by lia.
  replace (Z.to_nat (Z.of_nat i + 1 - 1)) with i by lia.
  apply wp_run_bindR, wp_on_states. client_cbn. rewrite Hs. unfold mismatch. client_cbn. rewrite !bool_decide_eq_true_2 by done. client_cbn.
  apply wp_run_bindR, wp_on_backend. client_cbn. eapply wp_mono; [by apply be_put_part_law|].
  intros r b (Hup' & Ho & etag & -> & Hp'). cbn [map_err]. apply wp_run_bind, wp_on_states. client_cbn. rewrite Hs.
  apply wp_ret, (HQ etag); [|done]. split; [done| |done]. cbn. rewrite lookup_insert_eq. unfold state_with_part. cbn.
  by rewrite fmap_insert.
Qed.

(** *** Completion *)

Lemma ordered_parts_all (parts : gmap nat string) etags i : (forall j, parts !! (i + j) = etags !! j \/ length etags <= j) ->
  ordered_parts i parts etags = Ok etags.
Proof.
  revert i. induction etags as [|etag etags IH]; intros i Hp; [done|]. cbn [ordered_parts].
  destruct (Hp 0) as [H0|H0]; [|cbn in H0; lia]. rewrite Nat.add_0_r in H0. rewrite H0. cbn.
  rewrite bool_decide_eq_false_2 by tauto. rewrite IH; [done|]. intros j.
  destruct (Hp (Datatypes.S j)) as [Hj|Hj]; [left|right; cbn in Hj; lia]. transitivity (parts !! (i + Datatypes.S j)); [f_equal; lia|exact Hj].
Qed.

Lemma size_list_map {A} (parts : gmap nat A) (l : list A) : (forall i, parts !! i = l !! i) -> size parts = length l.
Proof.
  intros Hp. assert (parts = map_seq 0 l) as ->.
  { apply map_eq. intros i. rewrite Hp. by rewrite lookup_map_seq_0. }
  by rewrite <- (size_dom (D := gset nat)), dom_seq, size_set_seq.
Qed.

Lemma wp_complete bucket key u id m etags Q c : open_upload bucket key u id m c -> (forall i, fst <$> m !! i = etags !! i) ->
  (forall c', up c' -> objects c' = <[path bucket key := assembled (snd <$> m) (length etags)]> (objects c) -> Q (Ok tt) c') ->
  wp (run (s3_complete bucket key u etags)) Q c.
Proof.
  intros [Hup Hs Hp] He HQ. client. unfold complete_multipart_upload. apply wp_run_bindR, wp_on_states. client_cbn. rewrite Hs. client_cbn.
  unfold mismatch. client_cbn. rewrite !bool_decide_eq_true_2 by done. client_cbn.
  assert (forall i, (fst <$> m) !! i = etags !! i) as He' by (intros i; by rewrite lookup_fmap).
  rewrite bool_decide_eq_false_2 by (rewrite (size_list_map _ _ He'); tauto).
  rewrite ordered_parts_all by (intros j; left; apply He'). apply wp_run_bindR, wp_ret, wp_on_backend. client_cbn.
  eapply wp_mono; [by apply be_complete_law|]. intros r b (-> & Hup' & Ho). by apply HQ.
Qed.
End client.
