(* ===== verification/FsUpload.v ===== *)
(** FsUpload: an upload from its start to its commit ([FileEngine] of
    [src/src/fs/mod.rs] over [ObjectStoreClient]): the bytes of the file are the
    bytes of its parts, in the order of the parts, however the parts were sent. *)
From S2P Require Import Prelude.
From S2P Require Import Effects.
From S2P Require Import RustStr.
From S2P Require Import Kv.
From S2P Require Import FsTypes.
From S2P Require Import FsStore.
From S2P Require Import FsRels.
From S2P Require Import Policy.
From S2P Require Import FsLocks.
From S2P Require Import FsEngine.
From S2P Require Import FsObjects.
From S2P Require Import FsClient.

(** ** What an upload promises *)

(** A call that sends a part. *)
Record PartCall := {
  pc_index : Z;
  pc_body : ByteStream;
  pc_declared : option Z;
  pc_checksum : option string;
  pc_caller : string;
}.

(** The length of a part: all but the last are full. *)
Definition part_len (req : InitRequest) (i : Z) : Z :=
  if bool_decide (i = file_total_parts req - 1)%Z
  then (file_size req - (file_total_parts req - 1) * part_size req)%Z else part_size req.

(** The bytes of an accepted part: the owner's, the whole of them, and as many as
    the part must have. *)
Definition accepted (req : InitRequest) (owner : string) (c : PartCall) : option bytes :=
  if bool_decide (pc_caller c = owner) && bool_decide (pc_index c < file_total_parts req)%Z then
    data ← whole (pc_body c);
    if bool_decide (Z.of_nat (String.length data) = part_len req (pc_index c)) &&
       bool_decide (pc_declared c = None \/ pc_declared c = Some (part_len req (pc_index c)))
    then Some data else None
  else None.

Lemma accepted_spec req owner c data : accepted req owner c = Some data <->
  pc_caller c = owner /\ (pc_index c < file_total_parts req)%Z /\ whole (pc_body c) = Some data /\
  Z.of_nat (String.length data) = part_len req (pc_index c) /\
  (pc_declared c = None \/ pc_declared c = Some (part_len req (pc_index c))).
Proof.
  unfold accepted. case_bool_decide; cbn [andb]; [|naive_solver]. case_bool_decide; [|naive_solver].
  destruct (whole (pc_body c)) as [b|]; cbn; [|naive_solver].
  case_bool_decide; cbn [andb]; [case_bool_decide|]; naive_solver.
Qed.

(** The parts so far: the last accepted one of each number. *)
Definition receive (req : InitRequest) (owner : string) (got : gmap nat bytes) (c : PartCall) : gmap nat bytes :=
  match accepted req owner c with
  | Some data => <[Z.to_nat (pc_index c) := data]> got
  | None => got
  end.

(** What the machine can hold. *)
Definition call_ok (c : PartCall) : Prop :=
  in_u64 (pc_index c) /\
  Forall (fun ch => forall b, ch = Ok b -> Z.of_nat (String.length b) <= i64_max)%Z (pc_body c).

Record request_ok (req : InitRequest) : Prop := {
  ro_size : in_u64 (file_size req);
  ro_part : in_u64 (part_size req);
  ro_total : in_u64 (file_total_parts req);
  ro_valid : validate_init req = Ok tt;
}.

Lemma part_len_bounds req i : request_ok req -> (0 <= i < file_total_parts req)%Z ->
  (0 < part_len req i <= part_size req)%Z /\ (part_len req i <= i64_max)%Z.
Proof.
  intros [Hf Hp Ht Hv] Hi. pose proof (validate_init_geometry req Hf Hp Ht Hv) as ((Hn & Hmax) & Hlast & Hsum & Hprod).
  assert (part_size req <= i64_max)%Z as Hpm.
  { clear Hprod. revert Hv. unfold validate_init, bad. ints. repeat (case_bool_decide; try done); cbn [negb orb]; try done; lia. }
  unfold part_len. case_bool_decide; split; lia.
Qed.

Lemma expected_len_spec req s i : request_ok req -> session_of req s -> (0 <= i < file_total_parts req)%Z ->
  expected_len s i = part_len req i.
Proof.
  intros [Hf Hp Ht Hv] (Es & Ep & En) Hi.
  pose proof (validate_init_geometry req Hf Hp Ht Hv) as ((Hn & Hmax) & Hlast & Hsum & Hprod).
  unfold expected_len, part_len. rewrite Es, Ep, En.
  rewrite (u64_sub_id (file_total_parts req)) by (ints; unfold MAX_MULTIPART_PARTS in *; lia).
  case_bool_decide as Hl; [|done]. subst i.
  rewrite (u64_mul_id (part_size req)) by (ints; nia). rewrite u64_sub_id by (ints; nia). lia.
Qed.

Lemma check_declared_spec expected short declared :
  check_declared expected short declared = Ok tt <-> declared = None \/ declared = Some expected.
Proof.
  unfold check_declared, bad. destruct declared as [n|]; [|split; [by left|done]].
  repeat case_bool_decide; destruct short; split; try done; try (intros [?|?]; simplify_eq; lia).
  all: intros _; right; f_equal; lia.
Qed.

(** ** The engine's calls, on stores that answer *)

Section calls.
Context {S E F T B : Type} `{!KvStore S T} `{!KvLaws S T} `{!StoreText} `{!Enforcer E} `{!ChangeSink F} `{!SinkLaws F}.
Context `{!Backend B} `{!BackendLaws B} `{!ObjText} `{!PolicyText}.
Context `{!Serde UploadSession} `{!SerdeLaws UploadSession} `{!Serde PersistedMultipart} `{!SerdeLaws PersistedMultipart}.
Context `{!Serde FileRecord} `{!SerdeLaws FileRecord} `{!Serde RefInfo} `{!SerdeLaws RefInfo}.
Variable cfg : FsConfig S.
Hypothesis no_mirror : mirror cfg = None.
Variables (bucket : string) (has_feed is_memory : bool).

#[local] Instance upload_client : S3Client (client B) := ObjectStoreClient is_memory.
#[local] Abbreviation W := (world S (client B) E F).

(** The rows, the object store's client and the feed; the store answers. *)
Record at_state (d : gmap string bytes) (c : client B) (fd : F) (w : W) : Prop := {
  as_up : rows_up w;
  as_rows : rows_data w = d;
  as_s3 : s3 w = c;
  as_feed : feed w = fd;
}.

(** The row of a key decodes to [a], or is not there. *)
Definition row_is {A} `{!Serde A} (d : gmap string bytes) (k : string) (a : option A) : Prop :=
  match d !! k with Some v => exists x, from_slice v = Ok x /\ a = Some x | None => a = None end.

Lemma row_is_insert {A} `{!Serde A} d k v (x : A) : from_slice v = Ok x -> row_is (<[k := v]> d) k (Some x).
Proof. intros Hv. unfold row_is. rewrite lookup_insert_eq. by exists x. Qed.

Lemma row_is_other {A} `{!Serde A} d d' k (a : option A) : d' !! k = d !! k -> row_is d k a -> row_is d' k a.
Proof. unfold row_is. by intros ->. Qed.

Lemma row_is_eq {A} `{!Serde A} d k (a b : option A) : row_is d k a -> row_is d k b -> a = b.
Proof. unfold row_is. destruct (d !! k); [|congruence]. intros (x & Hx & ->) (y & Hy & ->). congruence. Qed.

Lemma wp_get_row {A} `{!Serde A} k (a : option A) d c fd Q (w : W) : at_state d c fd w -> row_is d k a ->
  (forall w', at_state d c fd w' -> Q (Ok a) w') -> wp (run (on_rows (get_row cfg k))) Q w.
Proof.
  intros [Hu <- Hc Hf] Ha HQ. unfold rows_up, rows_data in *. apply wp_on_rows. unfold get_row, get_one. rewrite no_mirror. fs_steps.
  unfold row_is in Ha. destruct (kv_data (kv (fs w)) !! k) as [v|].
  - destruct Ha as (x & Hx & ->). apply wp_ret. unfold FsStore.decode. rewrite Hx. cbn [map_err]. apply HQ. by split.
  - subst a. apply wp_ret, HQ. by split.
Qed.

Lemma wp_put_row {A} `{!Serde A} `{!SerdeLaws A} k (x : A) d c fd Q (w : W) : at_state d c fd w ->
  (forall v w', from_slice v = Ok x -> at_state (<[k := v]> d) c fd w' -> Q (Ok tt) w') ->
  wp (run (on_rows (put_row cfg k x))) Q w.
Proof.
  intros [Hu <- Hc Hf] HQ. unfold rows_up, rows_data in *. apply wp_on_rows. unfold put_row, FsStore.encode.
  destruct (to_vec_ok x) as [v Hv]. rewrite Hv. cbn [map_err]. apply from_to in Hv. fs_steps.
  apply (HQ v); [done|]. by split.
Qed.

Lemma wp_del_row k d c fd Q (w : W) : at_state d c fd w ->
  (forall w', at_state (delete k d) c fd w' -> Q (Ok tt) w') -> wp (run (on_rows (on_store cfg (kv_delete k)))) Q w.
Proof.
  intros [Hu <- Hc Hf] HQ. unfold rows_up, rows_data in *. apply wp_on_rows. fs_steps.
  apply HQ. by split.
Qed.

Lemma wp_s3 {A} (p : prog (client B) A) d c fd Q (w : W) : at_state d c fd w ->
  wp (run p) (fun r c' => forall w', at_state d c' fd w' -> Q r w') c -> wp (run (on_s3 p)) Q w.
Proof.
  intros [Hu Hd <- Hf] Hp. unfold on_s3. apply (wp_zoom_prog (S := client B) (W := W)). eapply wp_mono; [exact Hp|].
  intros r c' HQ. apply HQ. by split.
Qed.

Lemma wp_lock {A} id (body : prog W A) d c fd Q (w : W) : at_state d c fd w ->
  (forall w', at_state d c fd w' -> wp (run body) (fun r w1 => forall w2,
     rows_up w2 = rows_up w1 -> rows_data w2 = rows_data w1 -> s3 w2 = s3 w1 -> feed w2 = feed w1 -> Q r w2) w') ->
  wp (run (with_session id body)) Q w.
Proof.
  intros Hw Hbody. unfold with_session. apply wp_run_bind, wp_run_atomically, (wp_zoom (H := locks_lens)).
  apply wp_intro. intros e l _. apply wp_run_bind. eapply wp_mono; [apply Hbody; by destruct Hw|]. intros r w1 HQ.
  apply wp_run_bind, wp_run_atomically, (wp_zoom (H := locks_lens)), wp_intro. intros [] l' _. apply wp_ret. by apply HQ.
Qed.

Lemma wp_read_clock d c fd Q (w : W) : at_state d c fd w -> (forall now w', at_state d c fd w' -> Q now w') ->
  wp (run (atomically (zoom (H := fs_lens) (zoom tick)))) Q w.
Proof.
  intros [Hu Hd Hc Hf] HQ. apply wp_run_atomically, (wp_zoom (H := fs_lens)), wp_zoom. unfold wp. cbn. apply HQ. by split.
Qed.

(** What the feed holds after a change. *)
Definition announced_to (op : WalOp) (ops : list WalOp) : list WalOp := if has_feed then ops ++ [op] else ops.

Lemma wp_announce op d c fd Q (w : W) : at_state d c fd w -> sink_up fd ->
  (forall fd' w', at_state d c fd' w' -> sink_up fd' -> sink_ops fd' = announced_to op (sink_ops fd) -> Q (Ok tt) w') ->
  wp (run (announce has_feed op)) Q w.
Proof.
  intros [Hu Hd Hc Hf] Hs HQ. unfold announce, announced_to in *. destruct has_feed; [|by apply wp_ret, (HQ fd)].
  apply wp_run_atomically, wp_map_errM, (wp_zoom (H := feed_lens)). cbn [view feed_lens]. rewrite Hf.
  eapply wp_mono; [by apply sink_append|]. intros r fd' (-> & Hs' & Ho). apply (HQ fd'); [by split|done..].
Qed.

Definition send (file_id : string) (c : PartCall) : prog W (result unit FsError) :=
  FsEngine.upload_part cfg bucket file_id (pc_index c) (pc_body c) (pc_declared c) (pc_checksum c) (pc_caller c).

Fixpoint sends (file_id : string) (calls : list PartCall) : prog W (list (result unit FsError)) :=
  match calls with
  | [] => mret []
  | c :: calls => r ← send file_id c; rs ← sends file_id calls; mret (r :: rs)
  end.

(** *** The state of an upload *)

Variables (req : InitRequest) (owner f mp_id : string) (objs rows : gmap string bytes) (ops : list WalOp).
Hypothesis good : request_ok req.
Hypothesis bucket_named : bucket <> "".

#[local] Abbreviation n := (Z.to_nat (file_total_parts req)).
#[local] Abbreviation key := ("files/" +:+ f).
#[local] Abbreviation place := (path is_memory bucket key).

Record session_fits (s : UploadSession) : Prop := {
  sf_id : us_id s = f;
  sf_request : session_of req s;
  sf_owner : us_owner_sub s = owner;
  sf_key : us_s3_key s = key;
  sf_slots : length (us_etags s) = n;
}.

(** One part: it is put where the file will be. *)
Record single (s : UploadSession) (got : gmap nat bytes) (c : client B) : Prop := {
  si_id : us_s3_upload_id s = None;
  si_up : be_up (backend c);
  si_slot : us_etags s = [(fun _ => "put") <$> got !! 0];
  si_objects : be_objects (backend c) = match got !! 0 with Some b => <[place := b]> objs | None => objs end;
}.

(** Several: the store keeps them, and the rows say which. *)
Record multi (s : UploadSession) (got : gmap nat bytes) (d : gmap string bytes) (c : client B)
    (u id : string) (m : gmap nat (string * bytes)) (r : PersistedMultipart) : Prop := {
  mu_id : us_s3_upload_id s = Some u;
  mu_up : be_up (backend c);
  mu_objects : be_objects (backend c) = objs;
  mu_row : row_is d (multipart_key u) (Some r);
  mu_record : recorded bucket key u id m r;
  mu_parts : be_parts (backend c) place id = Some m;
  mu_got : snd <$> m = got;
  mu_slots i : i < n -> us_etags s !! i = Some (fst <$> m !! i);
}.

Definition kept (s : UploadSession) (got : gmap nat bytes) (d : gmap string bytes) (c : client B) : Prop :=
  if bool_decide (file_total_parts req = 1)%Z then single s got c
  else exists u id m r, multi s got d c u id m r.

(** The identifier of the multipart upload, when there is one. *)
Definition upload_of : option string := if bool_decide (file_total_parts req = 1)%Z then None else Some mp_id.

(** The rows of this upload: its session, its staged parts, its multipart
    record.  No other row is its to change. *)
Definition own_rows : list string :=
  session_key f :: staged_keys f (file_total_parts req) ++
  match upload_of with Some u => [multipart_key u] | None => [] end.

Definition only_own (d : gmap string bytes) : Prop := forall k, k ∉ own_rows -> d !! k = rows !! k.

(** The upload is open and has the parts [got]; nothing else has changed. *)
Record uploading (got : gmap nat bytes) (d : gmap string bytes) (c : client B) (fd : F) (s : UploadSession) : Prop := {
  ul_row : row_is d (session_key f) (Some s);
  ul_fits : session_fits s;
  ul_kept : kept s got d c;
  ul_sizes i b : got !! i = Some b -> i < n /\ Z.of_nat (String.length b) = part_len req (Z.of_nat i);
  ul_sink : sink_up fd /\ sink_ops fd = ops;
  ul_upload : us_s3_upload_id s = upload_of;
  ul_frame : only_own d;
}.

Lemma fits_with_part s i etag cs : session_fits s -> session_fits (with_part s i etag cs).
Proof. intros [? ? ? ? Hl]. split; [done..|]. cbn. by rewrite length_insert. Qed.

Lemma session_not_multipart u : session_key f <> multipart_key u.
Proof. intros He. apply (f_equal (fun k => starts_with k "fs:mp:")) in He. done. Qed.

Lemma own_session : session_key f ∈ own_rows.
Proof. by apply list_elem_of_here. Qed.

Lemma own_multipart id : upload_of = Some id -> multipart_key id ∈ own_rows.
Proof. unfold own_rows. intros ->. rewrite elem_of_cons, elem_of_app, list_elem_of_singleton. auto. Qed.

Lemma own_not_file : file_key f ∉ own_rows.
Proof.
  unfold own_rows. rewrite elem_of_cons, elem_of_app. intros [?|[Hin|Hin]]; [done| |].
  - by apply list_elem_of_fmap in Hin as (i & ? & _).
  - by destruct upload_of; [apply list_elem_of_singleton in Hin|apply not_elem_of_nil in Hin].
Qed.

Lemma only_own_insert d k v : k ∈ own_rows -> only_own d -> only_own (<[k := v]> d).
Proof. intros Hin Hd k' Hk. rewrite lookup_insert_ne; [by apply Hd|]. by intros <-. Qed.

Lemma only_own_delete d k : k ∈ own_rows -> only_own d -> only_own (delete k d).
Proof. intros Hin Hd k' Hk. rewrite lookup_delete_ne; [by apply Hd|]. by intros <-. Qed.

(** The rows of a part are written under the session's lock. *)
Lemma wp_merge i u etag cs s r d c fd Q (w : W) : at_state d c fd w -> row_is d (session_key f) (Some s) -> session_fits s -> i < n ->
  match u with Some u => row_is d (multipart_key u) (Some r) /\ pm_upload_id r = u | None => True end ->
  (forall v d' w', from_slice v = Ok (with_part s i etag cs) ->
    match u with
    | Some u => exists v', from_slice v' = Ok (with_record_part r i etag) /\ d' = <[multipart_key u := v']> d
    | None => d' = d
    end -> at_state (<[session_key f := v]> d') c fd w' -> Q (Ok tt) w') ->
  wp (run (merge_part cfg f (Z.of_nat i) u etag cs owner)) Q w.
Proof.
  intros Hw Hs Hfit Hi Hu HQ. unfold merge_part, merge_locked. apply (wp_lock _ _ d c fd); [done|]. intros w1 Hw1.
  pose proof Hfit as [Hid Hreq Hown Hkey Hlen].
  apply wp_run_bindR, wp_found, (wp_get_row _ (Some s) d c fd); [done..|]. intros w2 Hw2. cbn [ok_or].
  rewrite Hown, bool_decide_eq_false_2 by (by intros []). rewrite Nat2Z.id, bool_decide_eq_false_2 by lia.
  assert (forall d' w', at_state d' c fd w' -> match u with
    | Some u => exists v', from_slice v' = Ok (with_record_part r i etag) /\ d' = <[multipart_key u := v']> d
    | None => d' = d end -> wp (run (on_rows (save_session cfg (with_part s i etag cs)))) (fun r w1 => forall w2 : W,
     rows_up w2 = rows_up w1 -> rows_data w2 = rows_data w1 -> s3 w2 = s3 w1 -> feed w2 = feed w1 -> Q r w2) w') as Hsave.
  { intros d' w' Hw' Hd'. unfold save_session. change (us_id (with_part s i etag cs)) with (us_id s). rewrite Hid.
    apply (wp_put_row _ _ d' c fd); [done|]. intros v w3 Hv [Hu3 Hd3 Hc3 Hf3] w4 E1 E2 E3 E4. apply (HQ v d'); [done..|].
    split; [by rewrite E1|by rewrite E2|by rewrite E3|by rewrite E4]. }
  destruct u as [u|]; apply wp_run_bindR.
  - destruct Hu as [Hr Hru]. apply wp_run_bindR, (wp_get_row _ (Some r) d c fd); [done..|]. intros w3 Hw3.
    unfold save_multipart. change (pm_upload_id (with_record_part r i etag)) with (pm_upload_id r). rewrite Hru.
    apply (wp_put_row _ _ d c fd); [done|]. intros v' w4 Hv' Hw4. eapply Hsave; [done|]. by exists v'.
  - apply wp_ret. by eapply Hsave.
Qed.

Lemma wp_ensure s got d c fd u id m r Q (w : W) : at_state d c fd w -> multi s got d c u id m r ->
  (forall c' w', at_state d c' fd w' -> open_upload is_memory bucket key u id m c' -> be_objects (backend c') = objs -> Q (Ok tt) w') ->
  wp (run (ensure_multipart cfg u)) Q w.
Proof.
  intros Hw [Hid Hup Ho Hrow Hrec Hp Hg Hs] HQ. unfold ensure_multipart.
  apply wp_run_bindR, (wp_get_row _ (Some r) d c fd); [done..|]. intros w1 Hw1.
  apply (wp_s3 _ d c fd); [done|]. apply (wp_restore is_memory bucket key u id m); [done..|].
  intros c' Hopen Ho' w2 Hw2. apply (HQ c'); [done..|congruence].
Qed.

Lemma total_bounds : (1 <= file_total_parts req <= MAX_MULTIPART_PARTS)%Z.
Proof. destruct good as [Hf Hp Ht Hv]. by pose proof (validate_init_geometry req Hf Hp Ht Hv) as (? & _). Qed.

Lemma sizes_insert (got : gmap nat bytes) i data :
  (forall i b, got !! i = Some b -> i < n /\ Z.of_nat (String.length b) = part_len req (Z.of_nat i)) ->
  i < n -> Z.of_nat (String.length data) = part_len req (Z.of_nat i) ->
  forall j b, <[i := data]> got !! j = Some b -> j < n /\ Z.of_nat (String.length b) = part_len req (Z.of_nat j).
Proof. intros Hs Hi Hd j b [[<- <-]|[_ Hj]]%lookup_insert_Some; [done|by apply Hs]. Qed.

Definition store_part (s : UploadSession) (i : nat) (data : bytes) (cs : option string) : prog W (result unit FsError) :=
  if bool_decide (us_file_total_parts s = 1%Z) then
    _ <-? on_s3 (s3_put bucket (us_s3_key s) data cs);
    merge_part cfg f (Z.of_nat i) None "put" cs owner
  else
    upload_id <-? mret (ok_or (us_s3_upload_id s) (FsInternal "missing s3 upload id"));
    _ <-? ensure_multipart cfg upload_id;
    etag <-? on_s3 (s3_upload_part bucket (us_s3_key s) upload_id (as_i32 (u64_add (Z.of_nat i) 1)) data cs);
    merge_part cfg f (Z.of_nat i) (Some upload_id) etag cs owner.

Lemma wp_store_part got d c fd s i data cs Q (w : W) : at_state d c fd w -> uploading got d c fd s -> i < n ->
  Z.of_nat (String.length data) = part_len req (Z.of_nat i) ->
  (forall d' c' s' w', at_state d' c' fd w' -> uploading (<[i := data]> got) d' c' fd s' -> Q (Ok tt) w') ->
  wp (run (store_part s i data cs)) Q w.
Proof.
  intros Hw [Hrow Hfit Hkept Hsz Hsink Hupl Hframe] Hi Hlen HQ. unfold store_part, kept in *.
  pose proof Hfit as [Hid (Hr1 & Hr2 & Hr3) Hown Hkey Hl]. rewrite Hr3. pose proof total_bounds as Htot.
  destruct (bool_decide (file_total_parts req = 1)%Z) eqn:E1.
  - apply bool_decide_eq_true in E1. destruct Hkept as [Hnone Hup Hslot Ho]. assert (i = 0) as -> by lia.
    apply wp_run_bindR, (wp_s3 _ d c fd); [done|]. rewrite Hkey. apply wp_put; [done|]. intros c1 Hup1 Ho1 w1 Hw1.
    apply (wp_merge 0 None "put" cs s {| pm_upload_id := ""; pm_bucket := ""; pm_key := ""; pm_s3_upload_id := ""; pm_parts := ∅; pm_created_at := 0 |} d c1 fd); [done..|].
    intros v d' w2 Hv -> Hw2. eapply HQ; [done|]. split.
    + by apply row_is_insert.
    + by apply fits_with_part.
    + unfold kept. rewrite bool_decide_eq_true_2 by done. split; [done|done|cbn; by rewrite Hslot, lookup_insert_eq|].
      rewrite lookup_insert_eq, Ho1, Ho. destruct (got !! 0); [by rewrite insert_insert_eq|done].
    + by apply sizes_insert.
    + done.
    + done.
    + apply only_own_insert; [apply own_session|done].
  - apply bool_decide_eq_false in E1. destruct Hkept as (u & id & m & r & Hm). pose proof Hm as [Hu Hup Ho Hrr Hrec Hp Hg Hs].
    assert (multipart_key u ∈ own_rows) as Hown' by (apply own_multipart; congruence).
    rewrite Hu. cbn [ok_or]. apply wp_run_bindR, wp_ret.
    apply wp_run_bindR, (wp_ensure s got d c fd u id m r); [done..|]. intros c1 w1 Hw1 Hopen Ho1.
    apply wp_run_bindR, (wp_s3 _ d c1 fd); [done|]. rewrite Hkey.
    assert (as_i32 (u64_add (Z.of_nat i) 1) = Z.of_nat i + 1)%Z as ->.
    { unfold MAX_MULTIPART_PARTS in Htot. rewrite u64_add_id by (ints; lia). unfold as_i32.
      rewrite Z.mod_small by lia. lia. }
    apply (wp_part is_memory bucket key u id m); [done|]. intros etag c2 [Hup2 Hst2 Hp2] Ho2 w2 Hw2.
    destruct Hrec as (Hru & Hrec).
    apply (wp_merge i (Some u) etag cs s r d c2 fd); [done..|]. intros v d' w3 Hv (v' & Hv' & ->) Hw3. eapply HQ; [done|]. split.
    + by apply row_is_insert.
    + by apply fits_with_part.
    + unfold kept. rewrite bool_decide_eq_false_2 by done. exists u, id, (<[i := (etag, data)]> m), (with_record_part r i etag).
      split; [done|done|congruence|..].
      * apply (row_is_other (<[multipart_key u := v']> d)); [|by apply row_is_insert].
        apply lookup_insert_ne, session_not_multipart.
      * destruct Hrec as (? & ? & ? & Hpp). split_and!; [done..|]. cbn. by rewrite Hpp, fmap_insert.
      * done.
      * by rewrite fmap_insert, Hg.
      * intros j Hj. cbn. destruct (decide (j = i)) as [->|Hne].
        -- rewrite list_lookup_insert_eq by lia. by rewrite lookup_insert_eq.
        -- rewrite list_lookup_insert_ne, lookup_insert_ne by done. by apply Hs.
    + by apply sizes_insert.
    + done.
    + done.
    + apply only_own_insert; [apply own_session|]. by apply only_own_insert.
Qed.

(** *** Sending a part *)

(** An accepted part is stored, in the place of an earlier one of its number; a
    refused one changes nothing. *)
Lemma wp_send got d c fd s pc Q (w : W) : at_state d c fd w -> uploading got d c fd s -> call_ok pc ->
  (forall r d' c' s' w', is_ok r = bool_decide (is_Some (accepted req owner pc)) -> at_state d' c' fd w' ->
    uploading (receive req owner got pc) d' c' fd s' -> Q r w') ->
  wp (run (send f pc)) Q w.
Proof.
  intros Hw Hul [Hidx Hch] HQ. pose proof Hul as [Hrow Hfit _ _ _ _ _]. pose proof Hfit as [_ Hreq Hown _ _].
  pose proof Hreq as (Hr1 & Hr2 & Hr3). unfold send, FsEngine.upload_part.
  apply wp_run_bindR, wp_found, (wp_get_row _ (Some s) d c fd); [done..|]. intros w1 Hw1. cbn [ok_or].
  assert (forall e, (forall data, accepted req owner pc <> Some data) -> Q (Err e) w1) as Hno.
  { intros e He. assert (accepted req owner pc = None) as Hn by (destruct (accepted req owner pc) as [data|]; [by destruct (He data)|done]).
    apply (HQ _ d c s); [by rewrite Hn|done|]. unfold receive. by rewrite Hn. }
  setoid_rewrite accepted_spec in Hno. rewrite Hown.
  destruct (bool_decide_reflect (owner <> pc_caller pc)) as [Hc|Hc]; [apply wp_ret, Hno; naive_solver|]. apply dec_stable in Hc.
  destruct (bool_decide_reflect (pc_index pc >= us_file_total_parts s)%Z) as [Hi|Hi]; rewrite Hr3 in Hi; [apply wp_ret, Hno; intros data (_ & ? & _); lia|].
  assert (0 <= pc_index pc < file_total_parts req)%Z as Hrange by (revert Hidx; ints; lia).
  rewrite (expected_len_spec req s) by done. pose proof (part_len_bounds req _ good Hrange) as [Hpl Hpm].
  pose proof (check_declared_spec (part_len req (pc_index pc)) (is_short_last_part s (pc_index pc)) (pc_declared pc)) as Hdecl.
  apply wp_run_bindR, wp_ret. destruct (check_declared _ _ _) as [[]|e].
  2: { apply Hno. intros data (_ & _ & _ & _ & Hd). by apply Hdecl in Hd. }
  pose proof (read_body_exact (part_len req (pc_index pc)) (is_short_last_part s (pc_index pc)) (pc_index pc) (pc_body pc) ltac:(lia) Hch) as Hread.
  apply wp_run_bindR, wp_ret. destruct (read_body _ _ _ _) as [data|e].
  2: { apply Hno. intros data (_ & _ & Hwh & Hl & _). by pose proof (proj2 (Hread data) (conj Hwh Hl)). }
  destruct (proj1 (Hread data) eq_refl) as [Hwhole Hlen].
  assert (accepted req owner pc = Some data) as Hacc.
  { apply accepted_spec. split_and!; [done|lia|done|done|by apply Hdecl]. }
  unfold receive in HQ. rewrite Hacc in HQ. rewrite <- Hc.
  set (i := Z.to_nat (pc_index pc)) in *. assert (pc_index pc = Z.of_nat i) as Hz by (unfold i; lia). rewrite Hz in *.
  apply (wp_store_part got d c fd s i data (pc_checksum pc)); [done|done|lia|done|].
  intros d' c' s' w' Hw' Hul'. by apply (HQ _ d' c' s').
Qed.

Lemma wp_sends calls got d c fd s Q (w : W) : at_state d c fd w -> uploading got d c fd s -> Forall call_ok calls ->
  (forall rs d' c' s' w', is_ok <$> rs = (fun pc => bool_decide (is_Some (accepted req owner pc))) <$> calls ->
    at_state d' c' fd w' -> uploading (foldl (receive req owner) got calls) d' c' fd s' -> Q rs w') ->
  wp (run (sends f calls)) Q w.
Proof.
  intros Hw Hul Hcalls. revert got d c s w Hw Hul Q. induction Hcalls as [|pc calls Hpc _ IH]; intros got d c s w Hw Hul Q HQ; cbn [sends foldl].
  { by apply wp_ret, (HQ _ d c s). }
  apply wp_run_bind, (wp_send got d c fd s); [done..|]. intros r d1 c1 s1 w1 Hr Hw1 Hul1.
  apply wp_run_bind, (IH (receive req owner got pc) d1 c1 s1); [done..|]. intros rs d2 c2 s2 w2 Hrs Hw2 Hul2.
  apply wp_ret, (HQ _ d2 c2 s2); [|done..]. cbn. by rewrite Hr, Hrs.
Qed.

(** *** The start *)

Lemma slots_fit : part_slots (file_total_parts req) = Ok (replicate n None).
Proof. pose proof total_bounds. unfold part_slots, MAX_MULTIPART_PARTS in *. ints. by rewrite !bool_decide_eq_true_2 by lia. Qed.

Lemma wp_init c fd Q (w : W) : at_state rows c fd w -> be_up (backend c) -> be_objects (backend c) = objs ->
  sink_up fd -> sink_ops fd = ops -> uuid_at (ids w) (uuids_used (ids w)) = f ->
  "ostore-" +:+ uuid_at (upload_ids c) (uuids_used (upload_ids c)) = mp_id ->
  (forall d' c' s' w', at_state d' c' fd w' -> uploading ∅ d' c' fd s' -> Q (Ok f) w') ->
  wp (run (init_upload cfg bucket req owner)) Q w.
Proof.
  intros Hw Hup Ho Hs1 Hs2 Hf Hmp HQ. unfold init_upload. rewrite (ro_valid _ good).
  apply wp_run_bindR, wp_ret, wp_run_bind, wp_run_atomically, (wp_zoom (H := ids_lens)). unfold wp at 1. cbn [new_uuid view ids_lens].
  rewrite Hf. set (w1 := @upd _ _ ids_lens _ w). assert (at_state rows c fd w1) as Hw1 by (by destruct Hw). clearbody w1. clear Hw Hf.
  pose proof slots_fit as Hslots.
  assert (forall now d, let s := {| us_id := f; us_file_size := file_size req; us_part_size := part_size req;
       us_file_total_parts := file_total_parts req; us_s3_upload_id := upload_of; us_s3_key := key;
       us_owner_sub := owner; us_created_at := now; us_etags := replicate n None; us_checksums := replicate n None |} in
     session_fits s /\ (forall v c', from_slice v = Ok s -> only_own d -> kept s ∅ (<[session_key f := v]> d) c' ->
       uploading ∅ (<[session_key f := v]> d) c' fd s)) as Hnew.
  { intros now d s. assert (session_fits s) as Hfit by (split; [done|done|done|done|cbn [us_etags s]; by rewrite length_replicate]).
    split; [done|]. intros v c' Hv Hd Hk. split; [by apply row_is_insert|done|done|by intros i b Hb|done|done|].
    apply only_own_insert; [apply own_session|done]. }
  pose proof own_multipart as Hmine. unfold upload_of in Hnew, Hmine.
  destruct (bool_decide (file_total_parts req = 1)%Z) eqn:E1.
  - apply bool_decide_eq_true in E1. apply wp_run_bindR, wp_ret. rewrite Hslots. do 2 apply wp_run_bindR, wp_ret.
    apply wp_run_bind, (wp_read_clock rows c fd); [done|]. intros now w2 Hw2.
    apply wp_run_bindR. unfold save_session. cbn [us_id]. apply (wp_put_row _ _ rows c fd); [done|]. intros v w3 Hv Hw3.
    apply wp_ret. eapply HQ; [done|]. eapply Hnew; [done|done|]. unfold kept. rewrite bool_decide_eq_true_2 by done.
    split; [done|done|cbn [us_etags]; by rewrite E1|done].
  - apply bool_decide_eq_false in E1. apply wp_run_bindR, wp_run_bindR, (wp_s3 _ rows c fd); [done|].
    apply wp_create; [done|]. cbn zeta. rewrite Hmp. intros id c2 [Hup2 Hst2 Hp2] Ho2 w2 Hw2. apply wp_ret. rewrite Hslots. do 2 apply wp_run_bindR, wp_ret.
    apply wp_run_bind, (wp_read_clock rows c2 fd); [done|]. intros now w3 Hw3.
    apply wp_run_bindR. unfold save_session. cbn [us_id]. apply (wp_put_row _ _ rows c2 fd); [done|]. intros v w4 Hv Hw4.
    apply wp_run_bind, (wp_s3 _ (<[session_key f := v]> rows) c2 fd); [done|]. apply (wp_backend_id is_memory bucket key mp_id id ∅); [by split|].
    intros w5 Hw5. apply wp_run_bindR, wp_ret. cbn [ok_or]. apply wp_run_bindR. unfold save_multipart. cbn [pm_upload_id].
    apply (wp_put_row _ _ (<[session_key f := v]> rows) c2 fd); [done|]. intros v' w6 Hv' Hw6. apply wp_ret.
    rewrite insert_insert_ne in Hw6 by (symmetry; apply session_not_multipart). eapply HQ; [done|].
    eapply Hnew; [done|by apply only_own_insert; [apply Hmine|]|].
    unfold kept. rewrite bool_decide_eq_false_2 by done. eexists mp_id, id, ∅, _. split; [done|done|congruence| | |done|by rewrite fmap_empty|].
    + apply (row_is_other (<[multipart_key mp_id := v']> rows)); [|by apply row_is_insert]. apply lookup_insert_ne, session_not_multipart.
    + split_and!; [done..|]. by rewrite fmap_empty.
    + intros i Hi. cbn [us_etags]. rewrite lookup_empty. by apply lookup_replicate_2.
Qed.

(** *** The commit *)

(** Every part has arrived. *)
Definition all_there (got : gmap nat bytes) : Prop := Forall (fun i => is_Some (got !! i)) (seq 0 n).

#[local] Instance all_there_dec got : Decision (all_there got).
Proof. unfold all_there. apply _. Defined.

Lemma all_there_spec got : all_there got <-> forall i, i < n -> is_Some (got !! i).
Proof.
  unfold all_there. rewrite Forall_forall. setoid_rewrite elem_of_seq. split; intros Hg i Hi; apply Hg; lia.
Qed.

Lemma kept_slots s got d c i : session_fits s -> kept s got d c -> i < n ->
  exists e : option string, us_etags s !! i = Some e /\ (e = None <-> got !! i = None).
Proof.
  intros Hfit Hk Hi. unfold kept in Hk. destruct (bool_decide _) eqn:E1 in Hk.
  - apply bool_decide_eq_true in E1. assert (i = 0) as -> by lia. rewrite (si_slot _ _ _ Hk). eexists. split; [done|].
    by destruct (got !! 0).
  - destruct Hk as (u & id & m & r & Hm). rewrite (mu_slots _ _ _ _ _ _ _ _ Hm i Hi). eexists. split; [done|].
    rewrite <- (mu_got _ _ _ _ _ _ _ _ Hm), lookup_fmap. by destruct (m !! i).
Qed.

(** While a part is missing the object store has no object more or less. *)
Lemma kept_objects s got d c : kept s got d c -> ~ all_there got -> be_objects (backend c) = objs.
Proof.
  unfold kept. destruct (bool_decide_reflect (file_total_parts req = 1)%Z) as [E1|E1].
  - intros [_ _ _ ->] Hnot. destruct (got !! 0) as [b|] eqn:Hb; [|done]. destruct Hnot. apply all_there_spec.
    rewrite E1. intros [|i] Hi; [by eexists|lia].
  - by intros (u & id & m & r & [_ _ Ho _ _ _ _ _]) _.
Qed.

Lemma missing_slot s got d c : session_fits s -> kept s got d c ->
  existsb (fun e => bool_decide (e = None)) (us_etags s) = negb (bool_decide (all_there got)).
Proof.
  intros Hfit Hk. apply eq_true_iff_eq. rewrite existsb_exists, negb_true_iff, bool_decide_eq_false, all_there_spec. split.
  - intros (e & He & ->%bool_decide_eq_true) Hall. apply list_elem_of_In, list_elem_of_lookup in He as [i Hi].
    pose proof (lookup_lt_Some _ _ _ Hi) as Hlt. rewrite (sf_slots _ Hfit) in Hlt.
    destruct (kept_slots s got d c i Hfit Hk Hlt) as (e & Hi' & He). destruct (Hall i Hlt) as [b Hb]. naive_solver.
  - intros Hnot. destruct (decide (None ∈ us_etags s)) as [Hin|Hno].
    { exists None. split; [by apply list_elem_of_In|done]. }
    exfalso. apply Hnot. intros i Hi. destruct (kept_slots s got d c i Hfit Hk Hi) as (e & Hi' & He).
    destruct (got !! i); [by eexists|]. exfalso. apply Hno. apply list_elem_of_lookup. exists i. rewrite Hi'. f_equal. by apply He.
Qed.

(** The parts fill the file. *)
Lemma assembled_size got : all_there got ->
  (forall i b, got !! i = Some b -> i < n /\ Z.of_nat (String.length b) = part_len req (Z.of_nat i)) ->
  forall s, session_of req s -> Z.of_nat (String.length (assembled got n)) = file_size req.
Proof.
  intros Hall Hsz s Hs. destruct good as [Hf Hp Ht Hv]. pose proof (part_lengths_cover req s Hf Hp Ht Hv Hs) as [_ Hsum].
  pose proof Hs as (Es & _ & En). rewrite <- Es, <- Hsum, En. unfold assembled, total_len. unfold all_there in Hall.
  assert (Forall (fun i => i < n) (seq 0 n)) as Hb by (apply Forall_forall; intros i Hi; apply elem_of_seq in Hi; lia).
  revert Hall Hb. generalize (seq 0 n) as l. induction l as [|i l IH]; intros Hall Hb; [done|].
  apply Forall_cons in Hall as [[b Hi] Hall], Hb as [Hlt Hb]. cbn. rewrite Hi. cbn. rewrite length_app, Nat2Z.inj_add, IH by done.
  destruct (Hsz i b Hi) as [_ ->]. rewrite (expected_len_spec req s) by (done || lia). done.
Qed.

Lemma all_etags_spec s got d c u id m r : session_fits s -> multi s got d c u id m r -> all_there got ->
  (forall i b, got !! i = Some b -> i < n /\ Z.of_nat (String.length b) = part_len req (Z.of_nat i)) ->
  exists l, all_etags (us_etags s) = Some l /\ length l = n /\ forall i, fst <$> m !! i = l !! i.
Proof.
  intros Hfit Hm Hall Hsz. pose proof (proj1 (all_there_spec got) Hall) as Hthere.
  assert (is_Some (all_etags (us_etags s))) as [l Hl].
  { unfold all_etags. apply mapM_is_Some_2, Forall_lookup. intros i e Hi.
    pose proof (lookup_lt_Some _ _ _ Hi) as Hlt. rewrite (sf_slots _ Hfit) in Hlt.
    rewrite (mu_slots _ _ _ _ _ _ _ _ Hm i Hlt) in Hi. injection Hi as <-. destruct (Hthere i Hlt) as [b Hb].
    rewrite <- (mu_got _ _ _ _ _ _ _ _ Hm), lookup_fmap in Hb. destruct (m !! i); [by eexists|done]. }
  exists l. split; [done|]. unfold all_etags in Hl. apply mapM_Some in Hl.
  assert (length l = n) as Hlen by (rewrite <- (sf_slots _ Hfit); symmetry; by eapply Forall2_length).
  split; [done|]. intros i. destruct (decide (i < n)) as [Hi|Hi].
  - pose proof (mu_slots _ _ _ _ _ _ _ _ Hm i Hi) as Hs. destruct (Forall2_lookup_l _ _ _ _ _ Hl Hs) as (y & Hy & Hid).
    rewrite Hy. exact Hid.
  - rewrite (lookup_ge_None_2 l) by lia. destruct (m !! i) as [[e b]|] eqn:Em; [|done]. exfalso.
    destruct (Hsz i b) as [Hlt _]; [|done]. by rewrite <- (mu_got _ _ _ _ _ _ _ _ Hm), lookup_fmap, Em.
Qed.

Lemma wp_forget (s : UploadSession) d c fd Q (w : W) : at_state d c fd w -> row_is d (session_key f) (Some s) ->
  session_fits s -> us_s3_upload_id s = upload_of ->
  (forall d' w', at_state d' c fd w' -> (forall k, k ∈ own_rows -> d' !! k = None) ->
     (forall k, k ∉ own_rows -> d' !! k = d !! k) -> Q (Ok tt) w') ->
  wp (run (zoom_prog (H := fs_lens) (delete_session cfg f))) Q w.
Proof.
  intros [Hu <- Hc Hf] Hs Hfit Hupl HQ. unfold rows_up, rows_data in *. apply (wp_zoom_prog (S := fs_state S)). cbn [view fs_lens].
  unfold delete_session, get_session, get_row, get_one. rewrite no_mirror. apply wp_run_bindR, wp_run_atomically. fs_steps.
  unfold row_is in Hs. destruct (kv_data (kv (fs w)) !! session_key f) as [v|] eqn:Ev; [|done].
  destruct Hs as (x & Hx & [= <-]). apply wp_ret. unfold FsStore.decode. rewrite Hx. cbn [map_err]. apply wp_run_atomically.
  rewrite Hupl. pose proof (sf_request _ Hfit) as (_ & _ & ->).
  fs_steps. apply wp_tx_deletes; [done|]. cbn [kv latch fs_clk].
  intros t2 s2 Hup3 Hd3 Ht3. kv_norm. fs_steps.
  assert (forall k, delete (session_key f) (deletes (staged_keys f (file_total_parts req) ++
    match upload_of with Some u => [multipart_key u] | None => [] end) (kv_data (kv (fs w)))) !! k =
    if decide (k ∈ own_rows) then None else kv_data (kv (fs w)) !! k) as Hl.
  { intros k. unfold own_rows. rewrite lookup_delete, lookup_deletes. set (l := _ ++ _).
    destruct (decide (k ∈ session_key f :: l)) as [Hk|Hk]; rewrite elem_of_cons in Hk; repeat case_decide; naive_solver. }
  eapply HQ; [by split| |]; intros k Hk; rewrite Hl; [by rewrite decide_True|by rewrite decide_False].
Qed.

(** The bytes of the parts are at the file's place. *)
Lemma wp_put_together s got d c fd Q (w : W) (k : prog W (result unit FsError)) : at_state d c fd w -> uploading got d c fd s -> all_there got ->
  (forall d' c' w', at_state d' c' fd w' -> be_objects (backend c') = <[place := assembled got n]> objs ->
    row_is d' (session_key f) (Some s) -> only_own d' -> wp (run k) Q w') ->
  wp (run (
    _ <-? (if bool_decide (us_file_total_parts s = 1%Z) then
             match us_etags s !! 0 with
             | Some (Some _) => mret (Ok tt)
             | _ => mret (bad "missing part for single-part upload")
             end
           else
             etags <-? mret (ok_or (all_etags (us_etags s)) (FsInternal "missing etag for part"));
             upload_id <-? mret (ok_or (us_s3_upload_id s) (FsInternal "missing s3 upload id"));
             _ <-? ensure_multipart cfg upload_id;
             _ <-? on_s3 (s3_complete bucket (us_s3_key s) upload_id etags);
             on_rows (delete_multipart cfg upload_id));
    k)) Q w.
Proof.
  intros Hw [Hrow Hfit Hkept Hsz Hsink Hupl Hframe] Hall HQ. pose proof Hfit as [Hid (Hr1 & Hr2 & Hr3) Hown Hkey Hl].
  apply wp_run_bindR. rewrite Hr3. unfold kept in Hkept. pose proof (proj1 (all_there_spec got) Hall) as Hthere.
  destruct (bool_decide (file_total_parts req = 1)%Z) eqn:E1.
  - apply bool_decide_eq_true in E1. destruct Hkept as [Hnone Hup Hslot Ho]. destruct (Hthere 0) as [b Hb]; [rewrite E1; lia|].
    rewrite Hslot, Hb. cbn. apply wp_ret, (HQ d c); [done| |done..].
    rewrite Ho, Hb, E1. unfold assembled. change (seq 0 (Z.to_nat 1)) with [0]. cbn. by rewrite Hb, RustStr.app_nil_r.
  - destruct Hkept as (u & id & m & r & Hm). destruct (all_etags_spec s got d c u id m r) as (l & Hl1 & Hl2 & Hl3); [done..|].
    rewrite Hl1, (mu_id _ _ _ _ _ _ _ _ Hm). cbn [ok_or]. do 2 apply wp_run_bindR, wp_ret.
    apply wp_run_bindR, (wp_ensure s got d c fd u id m r); [done..|]. intros c1 w1 Hw1 Hopen Ho1.
    apply wp_run_bindR, (wp_s3 _ d c1 fd); [done|]. rewrite Hkey. apply (wp_complete is_memory bucket key u id m); [done..|].
    intros c2 Hup2 Ho2 w2 Hw2. unfold delete_multipart. apply (wp_del_row _ d c2 fd); [done|]. intros w3 Hw3.
    apply (HQ _ c2 _ Hw3).
    + by rewrite Ho2, Ho1, Hl2, (mu_got _ _ _ _ _ _ _ _ Hm).
    + apply (row_is_other d); [|done]. apply lookup_delete_ne. symmetry. apply session_not_multipart.
    + apply only_own_delete; [|done]. apply own_multipart. rewrite <- Hupl. apply (mu_id _ _ _ _ _ _ _ _ Hm).
Qed.

(** What a completion leaves. *)
Record stored (got : gmap nat bytes) (creq : CompleteRequest) (w : W) : Prop := {
  st_bytes : be_objects (backend (s3 w)) = <[place := assembled got n]> objs;
  st_size : Z.of_nat (String.length (assembled got n)) = file_size req;
  st_file : exists now,
    let rec := {| fr_id := f; fr_name := cr_name creq; fr_mimetype := cr_mimetype creq; fr_size := file_size req;
      fr_s3_key := key; fr_owner_sub := owner; fr_created_at := now |} in
    row_is (rows_data w) (file_key f) (Some rec) /\ sink_ops (feed w) = announced_to (FileCreate rec) ops;
  st_own k : k ∈ own_rows -> rows_data w !! k = None;
  st_others k : k ∉ own_rows -> k <> file_key f -> rows_data w !! k = rows !! k;
}.

(** The file does not exist, nothing is announced, no object is written or
    lost, and the session still says which parts have arrived. *)
Record not_stored (got : gmap nat bytes) (w : W) : Prop := {
  ns_file : rows_data w !! file_key f = None;
  ns_feed : sink_ops (feed w) = ops;
  ns_objects : be_objects (backend (s3 w)) = objs;
  ns_session : exists s, row_is (rows_data w) (session_key f) (Some s) /\ session_fits s /\
    forall i, i < n -> exists e : option string, us_etags s !! i = Some e /\ (e = None <-> got !! i = None);
  ns_others : only_own (rows_data w);
}.

Lemma wp_complete_upload got d c fd s creq Q (w : W) : at_state d c fd w -> uploading got d c fd s -> rows !! file_key f = None ->
  (forall w', all_there got -> stored got creq w' -> Q (Ok tt) w') ->
  (forall e w', ~ all_there got -> not_stored got w' -> Q (Err e) w') ->
  wp (run (complete_upload cfg bucket has_feed f creq owner)) Q w.
Proof.
  intros Hw Hul Hnew Hok Herr. pose proof Hul as [Hrow Hfit Hkept Hsz [Hs1 Hs2] Hupl Hframe]. unfold complete_upload.
  pose proof Hfit as [Hid Hreq Hown Hkey _]. pose proof Hreq as (Hr1 & _ & _).
  apply (wp_lock _ _ d c fd); [done|]. intros w1 Hw1.
  apply wp_run_bindR, (wp_get_row _ (None : option FileRecord) d c fd); [done|unfold row_is; rewrite Hframe by apply own_not_file; by rewrite Hnew|]. intros w2 Hw2.
  apply wp_run_bindR, (wp_get_row _ (Some s) d c fd); [done..|]. intros w3 Hw3. apply wp_run_bindR, wp_ret. cbn [ok_or].
  rewrite Hown, bool_decide_eq_false_2 by (by intros []). rewrite (missing_slot s got d c) by done.
  destruct (bool_decide_reflect (all_there got)) as [Hall|Hall]; cbn [negb].
  2: { apply wp_ret. intros w4 _ E2 E3 E4. apply Herr; [done|]. destruct Hw3 as [_ Hd Hc Hf].
       split; rewrite ?E2, ?E3, ?E4, ?Hd, ?Hc, ?Hf; [|done|by eapply kept_objects| |done].
       - by rewrite Hframe by apply own_not_file.
       - exists s. split_and!; [done..|]. intros i Hi. by apply (kept_slots s got d c). }
  unfold commit_session. apply (wp_put_together s got d c fd); [done..|]. intros d1 c1 w4 Hw4 Ho Hrow1 Hframe1.
  apply wp_run_bind, (wp_read_clock d1 c1 fd); [done|]. intros now w5 Hw5. cbv zeta.
  set (rec := {| fr_id := f |}).
  apply wp_run_bindR. unfold save_file. apply (wp_put_row _ _ d1 c1 fd); [done|]. intros v w6 Hv Hw6.
  apply wp_run_bindR, (wp_announce _ (<[file_key f := v]> d1) c1 fd); [done..|]. intros fd' w7 Hw7 Hs' Ho'.
  apply (wp_forget s (<[file_key f := v]> d1) c1 fd'); [done|by apply (row_is_other d1); [apply lookup_insert_ne|]|done|done|].
  intros d2 w8 [_ Hd Hc Hf] Hgone Hkeep w9 _ E2 E3 E4. apply Hok; [done|].
  split; [by rewrite E3, Hc|by eapply assembled_size| |intros k Hk; rewrite E2, Hd; by apply Hgone|].
  - exists now. rewrite E2, E4, Hd, Hf, <- Hkey, <- Hr1, <- Hown, <- Hs2. split; [|exact Ho'].
    eapply row_is_other; [apply Hkeep, own_not_file|by apply row_is_insert].
  - intros k Hk Hne. rewrite E2, Hd, Hkeep by done. rewrite lookup_insert_ne by done. by apply Hframe1.
Qed.

(** *** The whole *)

(** An upload is opened, parts are sent, and it is completed. *)
Definition whole_upload (calls : list PartCall) (creq : CompleteRequest) :
    prog W (result (string * list (result unit FsError) * result unit FsError) FsError) :=
  file_id <-? init_upload cfg bucket req owner;
  rs ← sends file_id calls;
  r ← complete_upload cfg bucket has_feed file_id creq owner;
  mret (Ok (file_id, rs, r)).

(** The parts the calls brought. *)
Definition received (calls : list PartCall) : gmap nat bytes := foldl (receive req owner) ∅ calls.

(** C3: An upload loses no byte and mixes none up.  On stores that answer, without
    a mirror and with a bucket that has a name, open an upload with a request that
    the validation accepts, under a new identifier that no file has; send parts in
    any order, repeated or refused as they may be, with numbers and chunks that fit
    the machine; and complete it, with no other call in between.  A part is accepted when it is the owner's, its number is in
    range and its bytes are all there and as many as that part has; a later one
    of a number replaces the earlier.  If every number has been accepted, the
    completion succeeds and the object store has, at the file's key, the parts in
    the order of their numbers, [file_size] bytes in all; the record of the file
    is stored and announced, the rows of this upload (its session, its staged
    parts, its multipart record) are gone, and no other row, object or
    announcement has changed, those of other uploads included.  If a part is
    missing the completion is refused: there is no file and no announcement, no
    object has been written or lost, the session still says which parts have
    arrived, and no row but this upload's has changed. *)
Theorem upload_stores_bytes calls creq c fd (w : W) :
  at_state rows c fd w -> be_up (backend c) -> be_objects (backend c) = objs ->
  sink_up fd -> sink_ops fd = ops -> uuid_at (ids w) (uuids_used (ids w)) = f -> rows !! file_key f = None ->
  "ostore-" +:+ uuid_at (upload_ids c) (uuids_used (upload_ids c)) = mp_id ->
  Forall call_ok calls ->
  wp (run (whole_upload calls creq)) (fun res w' => exists rs r,
    res = Ok (f, rs, r) /\
    is_ok <$> rs = (fun pc => bool_decide (is_Some (accepted req owner pc))) <$> calls /\
    if decide (all_there (received calls)) then r = Ok tt /\ stored (received calls) creq w'
    else (exists e, r = Err e) /\ not_stored (received calls) w') w.
Proof.
  intros Hw Hup Ho Hs1 Hs2 Hf Hnew Hmp Hcalls. unfold whole_upload.
  apply wp_run_bindR, (wp_init c fd); [done..|]. intros d1 c1 s1 w1 Hw1 Hul1.
  apply wp_run_bind, (wp_sends calls ∅ d1 c1 fd s1); [done..|]. intros rs d2 c2 s2 w2 Hrs Hw2 Hul2.
  apply wp_run_bind, (wp_complete_upload (received calls) d2 c2 fd s2); [done..| |].
  - intros w3 Hall Hst. apply wp_ret. eexists _, _. split_and!; [done..|]. by rewrite decide_True by done.
  - intros e w3 Hnot Hst. apply wp_ret. eexists _, _. split_and!; [done..|]. rewrite decide_False by done. split; [by eexists|done].
Qed.
End calls.
