(* ===== verification/FsMerges.v ===== *)
(** FsMerges: parts of one upload recorded at the same time ([merge_part] of
    [src/src/fs/mod.rs]): none is lost, and the session and the record of its
    multipart upload agree, whatever other tasks do in between. *)
From S2P Require Import Prelude.
From S2P Require Import Effects.
From S2P Require Import RustStr.
From S2P Require Import Kv.
From S2P Require Import FsTypes.
From S2P Require Import FsStore.
From S2P Require Import FsRels.
From S2P Require Import Policy.
From S2P Require Import FsLocks.
From S2P Require Import FsCalls.
From S2P Require Import FsEngine.
From S2P Require Import FsUpload.

#[export] Instance locks_lens_laws {S O E F} : LensLaws SessionLocks (world S O E F).
Proof. by split; try intros [] *; try intros []. Qed.

(** A part that a call records. *)
Record Merge := {
  mg_slot : nat;
  mg_etag : string;
  mg_checksum : option string;
}.

Definition merged (s : UploadSession) (m : Merge) : UploadSession := with_part s (mg_slot m) (mg_etag m) (mg_checksum m).
Definition record_merged (r : PersistedMultipart) (m : Merge) : PersistedMultipart := with_record_part r (mg_slot m) (mg_etag m).

(** ** Keys *)

Lemma session_key_inj f g : session_key f = session_key g -> f = g.
Proof.
  unfold session_key. intros He. apply (inj (String.append "fs:uploads:")) in He. by apply app_inj_r in He.
Qed.

Lemma multipart_key_inj u v : multipart_key u = multipart_key v -> u = v.
Proof. apply (inj (String.append "fs:mp:")). Qed.

Lemma session_multipart_key f u : session_key f <> multipart_key u.
Proof. intros He. apply (f_equal (fun k => starts_with k "fs:mp:")) in He. done. Qed.

Section merges.
Context {S O E F T : Type} `{!KvStore S T} `{!KvLaws S T} `{!StoreText} `{!S3Client O} `{!Enforcer E} `{!ChangeSink F} `{!PolicyText}.
Context `{!Serde UploadSession} `{!SerdeLaws UploadSession} `{!Serde PersistedMultipart} `{!SerdeLaws PersistedMultipart}.
Context `{!Serde FileRecord} `{!Serde RefInfo}.
Variable cfg : FsConfig S.
Hypothesis no_mirror : mirror cfg = None.
#[local] Abbreviation W := (world S O E F).
Implicit Types w : W.

(** The session, and its multipart upload if it has one. *)
Variables (f : string) (u : option string).

(** The keys that the lock of the session guards. *)
Definition guarded_keys : list string := session_key f :: match u with Some u => [multipart_key u] | None => [] end.

(** What other tasks may do: anything that leaves these rows alone. *)
Definition leaves_alone w w' : Prop :=
  (rows_up w -> rows_up w') /\ forall k, k ∈ guarded_keys -> rows_data w' !! k = rows_data w !! k.

#[export] Instance leaves_alone_preorder : PreOrder leaves_alone.
Proof. split; [by split|]. intros x y z [H1 H2] [H3 H4]. split; [auto|]. intros k Hk. by rewrite H4, H2. Qed.

(** The two rows are there, on a store that answers. *)
Record rows_are (s : UploadSession) (r : PersistedMultipart) w : Prop := {
  ra_up : rows_up w;
  ra_session : row_is (rows_data w) (session_key f) (Some s);
  ra_record : match u with Some u => row_is (rows_data w) (multipart_key u) (Some r) | None => True end;
}.

Lemma rows_are_stable s r w w' : leaves_alone w w' -> rows_are s r w -> rows_are s r w'.
Proof.
  intros [Hu Hk] [Hup Hs Hr]. unfold guarded_keys in Hk. split; [auto| |].
  { eapply row_is_other; [|exact Hs]. apply Hk. set_solver. }
  destruct u as [v|]; [|done]. eapply row_is_other; [|exact Hr]. apply Hk. set_solver.
Qed.

(** Every session and every record lies at its own key. *)
Definition rows_named w : Prop :=
  (forall g v (s : UploadSession), rows_data w !! session_key g = Some v -> from_slice v = Ok s -> us_id s = g) /\
  (forall x v (r : PersistedMultipart), rows_data w !! multipart_key x = Some v -> from_slice v = Ok r -> pm_upload_id r = x).

Lemma rows_named_same w w' : rows_data w' = rows_data w -> rows_named w -> rows_named w'.
Proof. unfold rows_named. by intros ->. Qed.

Lemma rows_named_session (s : UploadSession) v w w' : from_slice v = Ok s ->
  rows_data w' = <[session_key (us_id s) := v]> (rows_data w) -> rows_named w -> rows_named w'.
Proof.
  intros Hv Hd [H1 H2]. unfold rows_named. rewrite Hd. split; intros g x y.
  - rewrite lookup_insert. case_decide as Hk; [|apply H1]. apply session_key_inj in Hk as <-. intros [= <-] Hy. congruence.
  - rewrite lookup_insert_ne by apply session_multipart_key. apply H2.
Qed.

Lemma rows_named_record (r : PersistedMultipart) v w w' : from_slice v = Ok r ->
  rows_data w' = <[multipart_key (pm_upload_id r) := v]> (rows_data w) -> rows_named w -> rows_named w'.
Proof.
  intros Hv Hd [H1 H2]. unfold rows_named. rewrite Hd. split; intros g x y.
  - rewrite lookup_insert_ne by (symmetry; apply session_multipart_key). apply H1.
  - rewrite lookup_insert. case_decide as Hk; [|apply H2]. apply multipart_key_inj in Hk as <-. intros [= <-] Hy. congruence.
Qed.

(** ** The calls on the two rows *)

#[local] Abbreviation guard post p w := (guarded leaves_alone rows_named post p w).
#[local] Abbreviation keeps_away p := (within leaves_alone rows_named p).

Lemma guarded_read {A} `{!Serde A} k (a : A) s r post w : rows_are s r w ->
  (forall w', rows_are s r w' -> row_is (rows_data w') k (Some a)) ->
  (forall w', rows_are s r w' -> post (Ok (Some a)) w') -> guard post (on_rows (get_row cfg k)) w.
Proof.
  intros Hw Hk Hpost. apply guarded_act. intros w0 Hw0 HJ. pose proof (rows_are_stable _ _ _ _ Hw0 Hw) as Hr.
  pose proof (Hk _ Hr) as Ha. pose proof (ra_up _ _ _ Hr) as Hu. apply wp_zoom. cbn [view fs_lens]. unfold rows_up, rows_data in *.
  unfold get_row, get_one. rewrite no_mirror. fs_steps.
  unfold row_is in Ha. destruct (kv_data (kv (fs w0)) !! k) as [v|] eqn:Ev; [|done]. destruct Ha as (x & Hx & [= <-]).
  apply wp_ret. unfold FsStore.decode. rewrite Hx. cbn [map_err]. 
  split; [by eapply (rows_named_same w0); [unfold rows_data; cbn|]|]. split; [done|]. intros w2 Hw2. apply Hpost.
  eapply rows_are_stable; [exact Hw2|]. eapply rows_are_stable; [|exact Hr]. split; [done|]. intros k' _.
  unfold rows_data. cbn. by rewrite H2.
Qed.

Lemma guarded_write {A} `{!Serde A} `{!SerdeLaws A} k (a : A) s r post w : rows_are s r w ->
  (forall v w0 w', from_slice v = Ok a -> rows_data w' = <[k := v]> (rows_data w0) -> rows_named w0 -> rows_named w') ->
  (forall w0 w' v, rows_are s r w0 -> from_slice v = Ok a -> rows_up w' -> rows_data w' = <[k := v]> (rows_data w0) ->
    forall w2, leaves_alone w' w2 -> post (Ok tt) w2) ->
  guard post (on_rows (put_row cfg k a)) w.
Proof.
  intros Hw Hname Hpost. apply guarded_act. intros w0 Hw0 HJ. pose proof (rows_are_stable _ _ _ _ Hw0 Hw) as Hr.
  pose proof (ra_up _ _ _ Hr) as Hu. apply wp_zoom. cbn [view fs_lens]. unfold rows_up, rows_data in *. unfold put_row, FsStore.encode.
  destruct (to_vec_ok a) as [v Hv]. rewrite Hv. cbn [map_err]. apply from_to in Hv. fs_steps. split; [by eapply (Hname v w0)|]. split; [done|].
  intros w2 Hw2. eapply (Hpost w0); [done|exact Hv| | |exact Hw2]; by cbn.
Qed.

Lemma guarded_get_session s r post w : rows_are s r w -> (forall w', rows_are s r w' -> post (Ok (Some s)) w') ->
  guard post (on_rows (get_session cfg f)) w.
Proof. intros Hw Hpost. apply (guarded_read _ s s r); [done|by intros w' [? ? ?]|done]. Qed.

Lemma guarded_load v s r post w : u = Some v -> rows_are s r w -> (forall w', rows_are s r w' -> post (Ok (Some r)) w') ->
  guard post (on_rows (load_multipart cfg v)) w.
Proof. intros Hu Hw Hpost. apply (guarded_read _ r s r); [done| |done]. intros w' [_ _ Hr]. by rewrite Hu in Hr. Qed.

Lemma guarded_save_session s s' r post w : us_id s' = f -> rows_are s r w -> (forall w', rows_are s' r w' -> post (Ok tt) w') ->
  guard post (on_rows (save_session cfg s')) w.
Proof.
  intros Hid Hw Hpost. unfold save_session. rewrite Hid. apply (guarded_write _ s' s r); [done|rewrite <- Hid; apply rows_named_session|].
  intros w0 w1 v [_ Hs Hr] Hv Hu Hd w2 Hw2. apply Hpost. eapply rows_are_stable; [exact Hw2|].
  split; [done|rewrite Hd; by apply row_is_insert|]. destruct u as [v'|]; [|done].
  eapply row_is_other; [|exact Hr]. rewrite Hd. apply lookup_insert_ne, session_multipart_key.
Qed.

Lemma guarded_save_multipart v s r r' post w : u = Some v -> pm_upload_id r' = v -> rows_are s r w ->
  (forall w', rows_are s r' w' -> post (Ok tt) w') -> guard post (on_rows (save_multipart cfg r')) w.
Proof.
  intros Hu Hid Hw Hpost. unfold save_multipart. rewrite Hid. apply (guarded_write _ r' s r); [done|rewrite <- Hid; apply rows_named_record|].
  intros w0 w1 x [_ Hs Hr] Hv Hup Hd w2 Hw2. apply Hpost. eapply rows_are_stable; [exact Hw2|].
  split; [done| |rewrite Hu, Hd; by apply row_is_insert].
  eapply row_is_other; [|exact Hs]. rewrite Hd. apply lookup_insert_ne. symmetry. apply session_multipart_key.
Qed.

(** What a call does under the lock, wherever the calls before it left off. *)
Lemma guarded_merge m s r owner post w : us_id s = f -> us_owner_sub s = owner -> mg_slot m < length (us_etags s) ->
  (forall v, u = Some v -> pm_upload_id r = v) -> rows_are s r w ->
  (forall w', rows_are (merged s m) (record_merged r m) w' -> post (Ok tt) w') ->
  guard post (merge_locked cfg f (Z.of_nat (mg_slot m)) u (mg_etag m) (mg_checksum m) owner) w.
Proof.
  intros Hid Hown Hslot Hru Hw Hpost. unfold merge_locked, found. do 2 apply (guarded_bindR leaves_alone rows_named).
  apply (guarded_get_session s r); [done|]. intros w1 Hw1 w2 Hw2. cbn [ok_or].
  pose proof (rows_are_stable _ _ _ _ Hw2 Hw1) as Hw3.
  rewrite Hown, bool_decide_eq_false_2 by (by intros []). rewrite Nat2Z.id, bool_decide_eq_false_2 by lia.
  apply (guarded_bindR leaves_alone rows_named).
  assert (forall w', rows_are s (record_merged r m) w' ->
    guard post (on_rows (save_session cfg (with_part s (mg_slot m) (mg_etag m) (mg_checksum m)))) w') as Hsave.
  { intros w' Hw'. apply (guarded_save_session s _ (record_merged r m)); [done..|]. exact Hpost. }
  destruct u as [v|] eqn:Eu.
  - apply (guarded_bindR leaves_alone rows_named), (guarded_load v s r); [done..|]. intros w4 Hw4.
    apply (guarded_save_multipart v s r (record_merged r m)); [done|by apply Hru|done|exact Hsave].
  - apply (guarded_ret leaves_alone rows_named). intros w4 Hw4. apply Hsave. pose proof (rows_are_stable _ _ _ _ Hw4 Hw3) as [Hup Hs _].
    split; [done|done|]. by rewrite Eu.
Qed.

(** ** Calls of other sessions *)

Lemma within_get {A} `{!Serde A} {B} k (K : result (option A) FsError -> prog W B) :
  (forall r w, rows_named w -> (forall a, r = Ok (Some a) -> exists v, rows_data w !! k = Some v /\ from_slice v = Ok a) -> keeps_away (K r)) ->
  keeps_away (Act (zoom (get_row cfg k)) K).
Proof.
  intros HK w HJ. apply wp_zoom. cbn [view fs_lens]. unfold get_row, get_one. rewrite no_mirror.
  apply wp_bindR, wp_map_errM, wp_zoom. eapply wp_mono; [apply kv_get_law|]. intros r s' (Hd & Ho & Hu). cbn [upd kv_lens kv view] in *.
  assert (forall b w', rows_data w' = rows_data w -> (rows_up w -> rows_up w') -> session_locks w' = session_locks w ->
    (forall a, b = Ok (Some a) -> exists v, rows_data w !! k = Some v /\ from_slice v = Ok a) ->
    leaves_alone w w' /\ rows_named w' /\ session_locks w' = session_locks w /\ keeps_away (K b)) as Hfin.
  { intros b w' Hd' Hu' Hl Hb. split; [split; [done|by rewrite Hd']|]. split; [by eapply rows_named_same|]. split; [done|]. by eapply HK. }
  unfold rows_data, rows_up in Hfin.
  destruct r as [[b|]|e]; cbn [map_err]; [apply wp_ret|apply wp_ret|]; (apply Hfin; [exact Hd|intros Hx; by apply Hu|done|]); [|done|done].
  intros a Ha. exists b. specialize (Ho _ eq_refl). split; [done|]. unfold FsStore.decode in Ha. destruct (from_slice b); by simplify_eq/=.
Qed.

Lemma within_put {A} `{!Serde A} `{!SerdeLaws A} {B} k (a : A) (K : result unit FsError -> prog W B) : k ∉ guarded_keys ->
  (forall v w0 w', from_slice v = Ok a -> rows_data w' = <[k := v]> (rows_data w0) -> rows_named w0 -> rows_named w') ->
  (forall r, keeps_away (K r)) -> keeps_away (Act (zoom (put_row cfg k a)) K).
Proof.
  intros Hk Hname HK w HJ. apply wp_zoom. cbn [view fs_lens]. unfold put_row, FsStore.encode.
  destruct (to_vec_ok a) as [v Hv]. rewrite Hv. cbn [map_err]. apply from_to in Hv. unfold on_store.
  apply wp_bindR, wp_ret, wp_bind, wp_zoom. eapply wp_mono; [apply kv_set_law|]. intros r s' (_ & Hd & Hu). cbn [upd kv_lens view].
  assert (forall b w', rows_data w' = kv_data s' -> (rows_up w -> rows_up w') -> session_locks w' = session_locks w ->
    leaves_alone w w' /\ rows_named w' /\ session_locks w' = session_locks w /\ keeps_away (K b)) as Hfin.
  { intros b w' Hd' Hu' Hl. unfold rows_data in *. split; [|split; [|by split]].
    - split; [done|]. intros k' Hk'. unfold rows_data. rewrite Hd'. destruct Hd as [-> | ->]; [|done]. apply lookup_insert_ne. by intros ->.
    - destruct Hd as [Hd|Hd]; rewrite Hd in Hd'; [apply (Hname v w); [done|exact Hd'|done]|].
      apply (rows_named_same w); [exact Hd'|done]. }
  unfold rows_data, rows_up in Hfin.
  destruct r as [[]|e]; [apply wp_ret, Hfin; [done|intros Hx; by apply Hu|done]|]. apply wp_bind. unfold store_err. cbv zeta. apply wp_bind.
  destruct (latches _); [apply wp_zoom; unfold wp; destruct (trip _ _ _)|apply wp_ret];
    (apply wp_ret, wp_ret, Hfin; [done|intros Hx; by apply Hu|done]).
Qed.

Lemma unguarded_session g : g <> f -> session_key g ∉ guarded_keys.
Proof.
  intros Hg Hin. unfold guarded_keys in Hin. apply elem_of_cons in Hin as [Hin%session_key_inj|Hin]; [done|].
  destruct u as [x|]; [|by apply not_elem_of_nil in Hin]. apply list_elem_of_singleton in Hin. by apply session_multipart_key in Hin.
Qed.

Lemma unguarded_multipart v : u <> Some v -> multipart_key v ∉ guarded_keys.
Proof.
  intros Hv Hin. unfold guarded_keys in Hin. apply elem_of_cons in Hin as [Hin|Hin]; [by apply eq_sym, session_multipart_key in Hin|].
  destruct u as [x|]; [|by apply not_elem_of_nil in Hin]. apply list_elem_of_singleton, multipart_key_inj in Hin. congruence.
Qed.

(** A part recorded for another session, with another multipart upload, does not
    touch the guarded rows, on a store that fails as it likes. *)
Lemma within_merge g slot v etag checksum owner : g <> f -> (forall x, v = Some x -> u <> Some x) ->
  keeps_away (merge_locked cfg g slot v etag checksum owner : prog W _).
Proof.
  intros Hg Hv. unfold merge_locked, found. apply (within_get (A := UploadSession) (session_key g)).
  intros [[s|]|e] w [Hname _] Hs; cbn; [|done..]. destruct (Hs s eq_refl) as (b & Hb & Hx). specialize (Hname g b s Hb Hx).
  case_bool_decide; [done|]. case_bool_decide; [done|].
  assert (keeps_away (on_rows (save_session cfg (with_part s (Z.to_nat slot) etag checksum)) : prog W _)) as Hsave.
  { apply within_put; [|apply rows_named_session|done]. cbn. rewrite Hname. by apply unguarded_session. }
  destruct v as [v|]; [|exact Hsave]. apply (within_get (A := PersistedMultipart) (multipart_key v)).
  intros [[m|]|e] w' [_ Hname'] Hm; cbn; [|exact Hsave|done]. destruct (Hm m eq_refl) as (b' & Hb' & Hx'). specialize (Hname' v b' m Hb' Hx').
  apply (within_put (multipart_key (pm_upload_id m)) (with_record_part m (Z.to_nat slot) etag)).
  - rewrite Hname'. by apply unguarded_multipart, Hv.
  - apply (rows_named_record (with_record_part m (Z.to_nat slot) etag)).
  - by intros [[]|e].
Qed.

(** ** The parts of a session, one after the other *)

Lemma merged_fits s ms : us_id (foldl merged s ms) = us_id s /\ us_owner_sub (foldl merged s ms) = us_owner_sub s /\
  length (us_etags (foldl merged s ms)) = length (us_etags s).
Proof. revert s. induction ms as [|m ms IH]; intros s; [done|]. cbn. destruct (IH (merged s m)) as (-> & -> & ->). cbn. by rewrite length_insert. Qed.

Lemma record_merged_id r ms : pm_upload_id (foldl record_merged r ms) = pm_upload_id r.
Proof. revert r. induction ms as [|m ms IH]; intros r; [done|]. cbn. by rewrite IH. Qed.

(** A slot holds what was recorded in it last, in the session as in the record. *)
Lemma merged_slot s r ms slot : Forall (fun m => mg_slot m < length (us_etags s)) ms -> (exists m, m ∈ ms /\ mg_slot m = slot) ->
  exists m, m ∈ ms /\ mg_slot m = slot /\ us_etags (foldl merged s ms) !! slot = Some (Some (mg_etag m)) /\
    pm_parts (foldl record_merged r ms) !! slot = Some (mg_etag m).
Proof.
  induction ms as [|m ms IH] using rev_ind; intros Hall Hex; [by destruct Hex as (m & Hm%not_elem_of_nil & _)|].
  apply List.Forall_app in Hall as [Hall Hm]. rewrite Forall_singleton in Hm. rewrite !foldl_app. cbn.
  destruct (decide (mg_slot m = slot)) as [<-|Hne].
  - exists m. split; [set_solver|]. split; [done|]. rewrite lookup_insert_eq, list_lookup_insert_eq; [done|].
    rewrite (proj2 (proj2 (merged_fits s ms))). exact Hm.
  - destruct IH as (m' & Hin & Hs & H1 & H2); [done|set_solver|]. exists m'. split; [set_solver|]. split; [done|].
    rewrite lookup_insert_ne, list_lookup_insert_ne by done. done.
Qed.

(** ** The theorem *)

(** The calls of the session record parts; the calls of other sessions keep away
    from its rows. *)
Record merging (s : UploadSession) (owner : string) (part_of : nat -> Merge) (cs : list (string * prog W (result unit FsError))) : Prop := {
  mr_own i body : cs !! i = Some (f, body) ->
    body = merge_locked cfg f (Z.of_nat (mg_slot (part_of i))) u (mg_etag (part_of i)) (mg_checksum (part_of i)) owner /\
    mg_slot (part_of i) < length (us_etags s);
  mr_other i g body : cs !! i = Some (g, body) -> g <> f -> keeps_away body;
}.

(** The parts recorded so far, in the order of their calls. *)
Definition recorded_by (part_of : nat -> Merge) (s : UploadSession) (r : PersistedMultipart) (h : list (nat * result unit FsError)) w : Prop :=
  Forall (fun x => x.2 = Ok tt) h /\
  rows_are (foldl merged s (part_of <$> h.*1)) (foldl record_merged r (part_of <$> h.*1)) w.

Lemma merging_ok s r owner part_of cs : us_id s = f -> us_owner_sub s = owner -> (forall v, u = Some v -> pm_upload_id r = v) ->
  merging s owner part_of cs -> calls_ok leaves_alone rows_named f (recorded_by part_of s r) cs.
Proof.
  intros Hid Hown Hru [Hm Ho]. split; [|by intros i k body Hi Hk; eapply Ho].
  intros i body h w Hi [Hh Hw]. destruct (Hm i body Hi) as [-> Hslot].
  destruct (merged_fits s (part_of <$> h.*1)) as (H1 & H2 & H3).
  eapply (guarded_merge (part_of i)); [by rewrite H1|by rewrite H2|by rewrite H3|by rewrite record_merged_id|exact Hw|].
  intros w' Hw'. split; [apply List.Forall_app; split; [done|by apply Forall_singleton]|].
  by rewrite !fmap_app, !foldl_app.
Qed.

(** C4: Parts of one upload that are recorded at the same time are all kept.  Let
    any number of calls record parts of a session, together with calls of other
    sessions and with any other task that leaves the rows of this one alone, in
    any interleaving of their actions, on a store that answers.  While a call is
    not finished, one can move.  When all are finished, every call of the session
    has succeeded, and the session and the record of its multipart upload are what
    the calls give one after the other in some order; so every slot that a call
    named holds the tag of one of the calls for it, the same tag in both rows. *)
Theorem merges_all_kept s r owner part_of cs evs (w : W) :
  us_id s = f -> us_owner_sub s = owner -> (forall v, u = Some v -> pm_upload_id r = v) ->
  merging s owner part_of cs -> Forall (event_ok leaves_alone rows_named) evs ->
  session_locks w = no_locks -> rows_named w -> rows_are s r w ->
  let c := turns evs (begin cs w) in
  let ours i := exists body, cs !! i = Some (f, body) in
  (forall i, i < length cs -> (forall a, stages c !! i <> Some (Finished a)) -> exists j, enabled c j = true) /\
  ((forall i, i < length cs -> exists a, stages c !! i = Some (Finished a)) ->
   exists order, NoDup order /\ (forall i, i ∈ order <-> ours i) /\
     (forall i, ours i -> stages c !! i = Some (Finished (Ok tt))) /\
     rows_are (foldl merged s (part_of <$> order)) (foldl record_merged r (part_of <$> order)) (now c) /\
     forall i, ours i -> exists j, ours j /\ mg_slot (part_of j) = mg_slot (part_of i) /\
       us_etags (foldl merged s (part_of <$> order)) !! mg_slot (part_of i) = Some (Some (mg_etag (part_of j))) /\
       pm_parts (foldl record_merged r (part_of <$> order)) !! mg_slot (part_of i) = Some (mg_etag (part_of j))).
Proof.
  intros Hid Hown Hru Hm Hevs Hl HJ Hw c ours.
  destruct (turns_inv leaves_alone ltac:(by split) rows_named ltac:(done) f (recorded_by part_of s r)
    ltac:(intros h x y Hxy [? ?]; split; [done|by eapply rows_are_stable]) cs w evs) as [h Hinv]; [by eapply merging_ok|done..|].
  fold c in Hinv. split; [intros i; by eapply never_stuck|]. intros Hall.
  destruct (all_through leaves_alone rows_named f (recorded_by part_of s r) cs h c Hinv Hall) as ([Hok Hrows] & Hnd & Hin).
  assert (forall i, i ∈ h.*1 <-> ours i) as Hord.
  { intros i. rewrite list_elem_of_fmap. split.
    - intros ([i' a] & -> & Hx). by apply Hin in Hx as [? _].
    - intros Hi. destruct Hi as [body Hi]. destruct (Hall i) as [a Ha]; [by eapply lookup_lt_Some|].
      exists (i, a). split; [done|]. apply Hin. split; [by exists body|done]. }
  exists h.*1. split; [done|]. split; [done|]. split; [|split; [done|]].
  - intros i Hi. pose proof (proj2 (Hord i) Hi) as ([i' a] & -> & Hx)%list_elem_of_fmap. rewrite Forall_forall in Hok.
    pose proof (Hok _ Hx) as Ha. cbn in Ha. subst a. by apply Hin in Hx as [_ ?].
  - intros i Hi. destruct (merged_slot s r (part_of <$> h.*1) (mg_slot (part_of i))) as (m & Hmem & Hs & H1 & H2).
    + apply Forall_fmap, Forall_forall. intros j Hj. apply Hord in Hj as [body Hj]. by apply (mr_own _ _ _ _ Hm j body).
    + exists (part_of i). split; [|done]. apply list_elem_of_fmap. exists i. split; [done|]. by apply Hord.
    + apply list_elem_of_fmap in Hmem as (j & -> & Hj). exists j. split; [by apply Hord|done].
Qed.
End merges.
