(* ===== verification/Wal.v ===== *)
(** Wal: the change feed ([src/src/sync/wal.rs]): a head pointer and one row per
    entry, written together.  An append holds the feed's lock throughout, so it
    is one atomic action; a read holds the store's read lock. *)
From S2P Require Import Prelude.
From S2P Require Import Effects.
From S2P Require Import RustStr.
From S2P Require Import Kv.
From S2P Require Import FsTypes.
From S2P Require Import FsStore.

Definition WAL_PREFIX : string := "{db}/wal".
Definition seq_key : string := "wal:seq".

(** [format!("wal:{seq:020}")] *)
Definition entry_key (seq : Z) : string := "wal:" +:+ pad_zero 20 (u64_text seq).

Section wal.
Context {S T : Type} `{!KvStore S T} `{!StoreText} `{!Serde Z} `{!Serde WalEntry}.

(** The feed's store, the latch and the clock. *)
#[local] Abbreviation W := (fs_state S).

Definition wal_decode {A} `{!Serde A} (what : string) (b : bytes) : result A FsError :=
  map_err (fun e => FsInternal (what +:+ e)) (from_slice b).

Definition append_entry_locked (op : WalOp) : act W (result Z FsError) :=
  b <-? plain (kv_get seq_key);
  cur <-? mret (match b with
                | None => Ok 0%Z
                | Some b => wal_decode "wal head pointer is undecodable: " b
                end);
  let seq := u64_add cur 1 in
  ts ← zoom tick;
  val <-? mret (FsStore.encode {| we_seq := seq; we_op := op; we_ts := ts |});
  seq_val <-? mret (FsStore.encode seq);
  t <-? plain kv_begin;
  t <-? plain (tx_set t (entry_key seq) val);
  t <-? plain (tx_set t seq_key seq_val);
  _ <-? plain (tx_commit t);
  mret (Ok seq).

Definition append_entry (op : WalOp) : act W (result Z FsError) :=
  r ← append_entry_locked op;
  _ ← match r with
      | Err e => if is_fencing_loss e then zoom (trip WAL_PREFIX (detail e)) else mret tt
      | Ok _ => mret tt
      end;
  mret r.

Definition head : act W (result Z FsError) :=
  b <-? plain (kv_get seq_key);
  match b with
  | None => mret (Ok 0%Z)
  | Some b => mret (map_err FsInternal (from_slice b))
  end.

(** The [n] entries from [seq] on. *)
Fixpoint read_entries (n : nat) (seq : Z) : act W (result (list WalEntry) FsError) :=
  match n with
  | O => mret (Ok [])
  | Datatypes.S n =>
      b <-? plain (kv_get (entry_key seq));
      match b with
      | None => mret (Err (FsStoreErr ("wal entry " +:+ u64_text seq +:+ " missing")))
      | Some b =>
          entry <-? mret (wal_decode ("wal entry " +:+ u64_text seq +:+ " undecodable: ") b);
          if bool_decide (we_seq entry <> seq) then
            mret (Err (FsInternal ("wal entry " +:+ u64_text seq +:+ " holds sequence " +:+
                                   u64_text (we_seq entry))))
          else
            rest <-? read_entries n (seq + 1);
            mret (Ok (entry :: rest))
      end
  end.

Definition range (from to : Z) : act W (result (list WalEntry) FsError) :=
  if bool_decide (from > to)%Z then
    mret (Err (FsStoreErr ("wal range " +:+ u64_text from +:+ "..=" +:+ u64_text to +:+
      " runs backwards: the head cannot be behind a reader that has applied " +:+ u64_text from)))
  else read_entries (Z.to_nat (to - from + 1)) from.

(** [ChangeSink for Wal] *)
Context (sink_text : FsError -> string).

Definition wal_sink (op : WalOp) : act W (result unit string) :=
  r ← append_entry op;
  mret (match r with Ok _ => Ok tt | Err e => Err (sink_text e) end).
End wal.

(** ** Keys *)

Lemma pretty_N_go_head (x : N) s : (0 < x)%N ->
  exists d t, pretty_N_go x s = String (pretty_N_char d) t /\ (0 < d < 10)%N.
Proof.
  revert s. induction (N.lt_wf_0 x) as [x _ IH]; intros s Hx.
  rewrite pretty_N_go_step by done. destruct (decide (x / 10 = 0)%N) as [Hz|Hz].
  - rewrite Hz, pretty_N_go_0. exists (x mod 10)%N, s. split; [done|].
    pose proof (N.mod_lt x 10 ltac:(done)). pose proof (N.div_mod x 10 ltac:(done)). lia.
  - apply IH; [|by apply N.neq_0_lt_0]. apply N.div_lt; lia.
Qed.

Lemma show_N_head n : exists d t, show_N n = String (pretty_N_char d) t /\ (d < 10)%N /\
  (d = 0%N -> n = 0%N /\ t = "").
Proof.
  unfold show_N, pretty, pretty_N. case_decide as Hn.
  - exists 0%N, "". by subst.
  - destruct (pretty_N_go_head n "" ltac:(lia)) as (d & t & He & Hd). exists d, t. split; [done|].
    split; [lia|]. lia.
Qed.

Fixpoint zeros (n : nat) : string := match n with O => "" | Datatypes.S n => String "0" (zeros n) end.

Lemma pad_zero_zeros w s : pad_zero w s = zeros (w - String.length s) +:+ s.
Proof.
  unfold pad_zero. induction (w - String.length s) as [|n IH]; [done|]. by rewrite Nat.iter_succ, IH.
Qed.

Lemma zeros_show_inj a b m n : zeros a +:+ show_N m = zeros b +:+ show_N n -> m = n.
Proof.
  revert b. induction a as [|a IH]; intros [|b] He; cbn [zeros] in He.
  - rewrite !app_nil_l in He. by apply show_N_inj.
  - rewrite app_nil_l, app_cons in He. destruct (show_N_head m) as (d & t & Hm & Hd & Hz).
    rewrite Hm in He. injection He as Hc Ht. change "0"%char with (pretty_N_char 0) in Hc.
    apply pretty_N_char_inj in Hc; [|done..]. subst d. destruct (Hz eq_refl) as [-> ->].
    destruct (show_N_head n) as (d' & t' & Hn & _). rewrite Hn in Ht. by destruct b.
  - rewrite app_nil_l, app_cons in He. destruct (show_N_head n) as (d & t & Hn & Hd & Hz).
    rewrite Hn in He. injection He as Hc Ht. change "0"%char with (pretty_N_char 0) in Hc.
    symmetry in Hc. apply pretty_N_char_inj in Hc; [|done..]. subst d. destruct (Hz eq_refl) as [-> ->].
    destruct (show_N_head m) as (d' & t' & Hm & _). rewrite Hm in Ht. by destruct a.
  - rewrite !app_cons in He. injection He as He. by eapply IH.
Qed.

Lemma entry_key_inj m n : (0 <= m)%Z -> (0 <= n)%Z -> entry_key m = entry_key n -> m = n.
Proof.
  intros Hm Hn He. unfold entry_key in He. apply (inj (String.append "wal:")) in He.
  rewrite !pad_zero_zeros in He. apply zeros_show_inj in He. lia.
Qed.

Lemma seq_not_entry n : entry_key n <> seq_key.
Proof.
  unfold entry_key, seq_key. change "wal:seq" with ("wal:" +:+ "seq"). intros He.
  apply (inj (String.append "wal:")) in He. rewrite pad_zero_zeros in He.
  destruct (20 - _) as [|k]; [|done]. rewrite app_nil_l in He.
  unfold u64_text in He. destruct (show_N_head (Z.to_N n)) as (d & t & Hs & Hd & _). rewrite Hs in He.
  injection He as Hc _. unfold pretty_N_char in Hc. by repeat case_match.
Qed.

(** ** The log *)

Section log.
Context {S T : Type} `{!KvStore S T} `{!KvLaws S T} `{!StoreText}.
Context `{!Serde Z} `{!SerdeLaws Z} `{!Serde WalEntry} `{!SerdeLaws WalEntry}.
Implicit Types (d : gmap string bytes) (w : fs_state S).

(** The rows hold exactly the operations [l]: the head pointer is their number,
    and entry [i] is the [i]-th of them. *)
Record wal_log d (l : list WalOp) : Prop := {
  log_head : match d !! seq_key with
             | None => l = []
             | Some b => from_slice b = Ok (Z.of_nat (length l))
             end;
  log_entry i op : l !! i = Some op ->
    exists b ts, d !! entry_key (Z.of_nat i + 1) = Some b /\
      from_slice b = Ok {| we_seq := Z.of_nat i + 1; we_op := op; we_ts := ts |};
  log_end n : (Z.of_nat (length l) < n)%Z -> d !! entry_key n = None;
}.

Lemma wal_log_app d l op val seq_val ts :
  wal_log d l -> from_slice val = Ok {| we_seq := Z.of_nat (length l) + 1; we_op := op; we_ts := ts |} ->
  from_slice seq_val = Ok (Z.of_nat (length l) + 1)%Z ->
  wal_log (<[seq_key := seq_val]> (<[entry_key (Z.of_nat (length l) + 1) := val]> d)) (l ++ [op]).
Proof.
  intros [Hh He Hend] Hv Hs. split.
  - rewrite lookup_insert_eq, Hs, List.length_app. cbn. do 2 f_equal. lia.
  - intros i op' Hi. rewrite lookup_insert_ne by (intros E; symmetry in E; by apply seq_not_entry in E).
    apply lookup_app_Some in Hi as [Hi|[Hge Hi]].
    + destruct (He i op' Hi) as (b & ts' & Hb & Hd). exists b, ts'. split; [|done].
      rewrite lookup_insert_ne; [done|]. intros E. apply entry_key_inj in E; [|lia..].
      apply lookup_lt_Some in Hi. lia.
    + apply list_lookup_singleton_Some in Hi as [Hz <-]. exists val, ts.
      replace i with (length l) by lia. by rewrite lookup_insert_eq.
  - intros n Hn. rewrite List.length_app in Hn. cbn in Hn.
    rewrite lookup_insert_ne by (intros E; symmetry in E; by apply seq_not_entry in E).
    rewrite lookup_insert_ne; [apply Hend; lia|]. intros E. apply entry_key_inj in E; lia.
Qed.

(** A call through which every error passes. *)
Lemma wp_plain_any {A} (m : act S (result A StoreError)) Q w :
  wp m (fun r s' => Q (map_err fs_of_store r) (FsState s' (latch w) (fs_clk w))) (kv w) ->
  wp (plain m) Q w.
Proof. intros Hm. by apply wp_map_errM, wp_zoom. Qed.

(** A read leaves the rows as they are. *)
Lemma wp_plain_reads {A} (m : act S (result A StoreError)) (f : S -> S -> A -> Prop) Q w :
  kv_reads kv_data kv_up m f ->
  (forall e w', kv_data (kv w') = kv_data (kv w) -> Q (Err e) w') ->
  (forall a w', kv_data (kv w') = kv_data (kv w) -> f (kv w) (kv w') a -> fs_clk w' = fs_clk w -> Q (Ok a) w') ->
  wp (plain m) Q w.
Proof.
  intros Hm He Ha. apply wp_plain_any. eapply wp_mono; [apply Hm|]. intros [a|e] s' (Hd & Hf & _); cbn.
  - apply Ha; [done|by apply Hf|done].
  - by apply He.
Qed.

Definition appended (l : list WalOp) (op : WalOp) (r : result Z FsError) w' : Prop :=
  exists l', wal_log (kv_data (kv w')) l' /\
    (l' = l ++ [op] \/ (l' = l /\ is_ok r = false)) /\
    forall seq, r = Ok seq -> seq = (Z.of_nat (length l) + 1)%Z.

Lemma appended_err l op e w' : wal_log (kv_data (kv w')) l -> appended l op (Err e) w'.
Proof. intros Hl. exists l. split; [done|]. split; [by right|done]. Qed.

Lemma wp_append_locked l op w : wal_log (kv_data (kv w)) l -> in_u64 (Z.of_nat (length l) + 1) ->
  wp (append_entry_locked op) (appended l op) w.
Proof.
  intros Hl Hlen. unfold append_entry_locked. apply wp_bindR. eapply wp_plain_reads; [apply kv_get_law| |].
  { intros e w1 Hd1. apply appended_err. by rewrite Hd1. }
  intros b w1 Hd1 -> _. apply wp_bindR, wp_ret.
  assert (exists cur, (match kv_data (kv w) !! seq_key with
    | None => Ok 0%Z
    | Some b => wal_decode "wal head pointer is undecodable: " b end) = Ok cur /\
    cur = Z.of_nat (length l)) as (cur & -> & ->).
  { pose proof (log_head _ _ Hl) as Hh. unfold wal_decode. destruct (kv_data (kv w) !! seq_key) as [b|].
    - rewrite Hh. by eexists.
    - subst l. by eexists. }
  rewrite u64_add_id by done. apply wp_bind, (wp_zoom (H := fs_clk_lens)). unfold wp at 1, tick. cbn [view fs_clk_lens upd].
  set (ts := reading _ _). set (w2 := FsState _ _ _).
  assert (kv_data (kv w2) = kv_data (kv w)) as Hd2 by done. clearbody w2 ts. clear w1 Hd1.
  apply wp_bindR, wp_ret. unfold FsStore.encode.
  destruct (to_vec_ok {| we_seq := Z.of_nat (length l) + 1; we_op := op; we_ts := ts |}) as [val Hv].
  rewrite Hv. cbn [map_err]. apply from_to in Hv. apply wp_bindR, wp_ret.
  destruct (to_vec_ok (Z.of_nat (length l) + 1)%Z) as [sv Hsv]. rewrite Hsv. cbn [map_err]. apply from_to in Hsv.
  apply wp_bindR. eapply wp_plain_reads; [apply kv_begin_law| |].
  { intros e w3 Hd3. apply appended_err. congruence. }
  intros t w3 Hd3 Ht3 _. apply wp_bindR. eapply wp_plain_reads; [apply tx_set_law| |].
  { intros e w4 Hd4. apply appended_err. congruence. }
  intros t4 w4 Hd4 Ht4 _. apply wp_bindR. eapply wp_plain_reads; [apply tx_set_law| |].
  { intros e w5 Hd5. apply appended_err. congruence. }
  intros t5 w5 Hd5 Ht5 _. apply wp_bindR, wp_plain_any. eapply wp_mono; [apply tx_commit_law|].
  assert (wal_log (tx_data t5 (kv w5)) (l ++ [op])) as Hnew.
  { rewrite Ht5, Ht4, Ht3, Hd2. by eapply wal_log_app. }
  intros r s' (Hok & Hany & _). destruct r as [[]|e]; cbn [map_err].
  - apply wp_ret. exists (l ++ [op]). cbn [kv]. rewrite Hok by done. split; [done|].
    split; [by left|]. by intros seq [= <-].
  - destruct Hany as [Hd|Hd]; [exists (l ++ [op])|exists l]; cbn [kv]; rewrite Hd.
    + split; [done|]. split; [by left|done].
    + split; [congruence|]. split; [by right|done].
Qed.

Lemma wp_append l op w : wal_log (kv_data (kv w)) l -> in_u64 (Z.of_nat (length l) + 1) ->
  wp (append_entry op) (appended l op) w.
Proof.
  intros Hl Hlen. unfold append_entry. apply wp_bind. eapply wp_mono; [by apply wp_append_locked|].
  intros r w' Ha. apply wp_bind.
  apply (wp_mono _ (fun _ w'' => appended l op r w'')); [|intros [] w'' Ha'; by apply wp_ret].
  destruct r as [seq|e]; [by apply wp_ret|]. destruct (is_fencing_loss e); [|by apply wp_ret].
  apply (wp_zoom (H := latch_lens)), wp_intro. intros [] la _. exact Ha.
Qed.

Fixpoint append_all (ops : list WalOp) : act (fs_state S) (list (result Z FsError)) :=
  match ops with
  | [] => mret []
  | op :: ops => r ← append_entry op; rs ← append_all ops; mret (r :: rs)
  end.

(** The operations of a history of appends that are in the log: every one that
    was acknowledged, and some of those that failed. *)
Inductive logged : list WalOp -> list (result Z FsError) -> list WalOp -> Prop :=
| logged_nil : logged [] [] []
| logged_kept op r ops rs l : logged ops rs l -> logged (op :: ops) (r :: rs) (op :: l)
| logged_lost op e ops rs l : logged ops rs l -> logged (op :: ops) (Err e :: rs) l.

(** When every append is acknowledged, all of them are. *)
Lemma logged_all ops rs l : logged ops rs l -> forallb is_ok rs = true -> l = ops.
Proof. induction 1; cbn; [done|intros [_ ?]%andb_true_iff; f_equal; auto|done]. Qed.

Lemma wp_append_all l ops w :
  wal_log (kv_data (kv w)) l -> in_u64 (Z.of_nat (length l + length ops)) ->
  wp (append_all ops) (fun rs w' => exists new, logged ops rs new /\
    wal_log (kv_data (kv w')) (l ++ new)) w.
Proof.
  revert l w. induction ops as [|op ops IH]; intros l w Hl Hlen; cbn [append_all].
  { apply wp_ret. exists []. rewrite List.app_nil_r. by split; [constructor|]. }
  cbn [length] in Hlen. apply wp_bind. eapply wp_mono; [apply (wp_append l); [done|ints; lia]|].
  intros r w1 (l1 & Hl1 & Hr & _). apply wp_bind. eapply wp_mono; [apply (IH l1); [done|]|].
  { destruct Hr as [->|[-> _]]; rewrite ?List.length_app; cbn; ints; lia. }
  intros rs w2 (new & Hnew & Hl2). apply wp_ret. destruct Hr as [->|[-> Hr]].
  - exists (op :: new). split; [by constructor|]. by rewrite <- List.app_assoc in Hl2.
  - exists new. split; [|done]. destruct r as [|e]; [done|]. by constructor.
Qed.

(** C18: the change feed never loses or reorders what it acknowledged.  However
    the store fails, after any appends the rows are again one unbroken log: the
    head pointer is the number of entries, no sequence number is skipped or
    used twice, and the log is the old one followed, in order, by every
    acknowledged operation and possibly some whose append failed. *)
Theorem wal_append_exact l ops w :
  wal_log (kv_data (kv w)) l -> in_u64 (Z.of_nat (length l + length ops)) ->
  wp (append_all ops) (fun rs w' => exists new, logged ops rs new /\
    wal_log (kv_data (kv w')) (l ++ new)) w.
Proof. apply wp_append_all. Qed.

(** A stored entry is read as it was written. *)
Lemma wp_read_entries l n seq w :
  wal_log (kv_data (kv w)) l -> (1 <= seq)%Z ->
  wp (read_entries n seq) (fun r w' => kv_data (kv w') = kv_data (kv w) /\
    (forall es, r = Ok es ->
       (n = 0 \/ (seq + Z.of_nat n - 1 <= Z.of_nat (length l))%Z) /\
       we_op <$> es = take n (drop (Z.to_nat (seq - 1)) l) /\ we_seq <$> es = seqZ seq (Z.of_nat n)) /\
    (kv_up (kv w) -> (seq + Z.of_nat n - 1 <= Z.of_nat (length l))%Z -> kv_up (kv w') /\ is_ok r = true)) w.
Proof.
  revert seq w. induction n as [|n IH]; intros seq w Hl Hs; cbn [read_entries].
  { apply wp_ret. split; [done|]. split; [|done]. intros es [= <-]. split; [by left|done]. }
  apply wp_bindR, wp_plain_any. eapply wp_mono; [apply kv_get_law|].
  intros [b|e] s1 (Hd1 & Hb & Hup1); cbn [map_err].
  2: { cbn [kv]. split; [done|]. split; [done|]. intros Hu. by destruct (Hup1 Hu). }
  specialize (Hb b eq_refl). cbn in Hb. subst b. set (w1 := FsState s1 _ _).
  assert (kv_data (kv w1) = kv_data (kv w)) as Hd1' by done.
  assert (kv_up (kv w) -> kv_up (kv w1)) as Hup' by (intros Hu; by destruct (Hup1 Hu)). clearbody w1. clear s1 Hd1 Hup1.
  destruct (decide (seq <= Z.of_nat (length l))%Z) as [Hin|Hout].
  2: { rewrite (log_end _ _ Hl) by lia. apply wp_ret. split; [done|]. split; [done|]. lia. }
  destruct (lookup_lt_is_Some_2 l (Z.to_nat (seq - 1)) ltac:(lia)) as [op Hop].
  destruct (log_entry _ _ Hl _ _ Hop) as (b & ts & Hb & Hde).
  replace (Z.of_nat (Z.to_nat (seq - 1)) + 1)%Z with seq in * by lia. rewrite Hb.
  apply wp_bindR, wp_ret. unfold wal_decode. rewrite Hde. cbn [map_err].
  rewrite bool_decide_eq_false_2 by tauto. apply wp_bindR.
  eapply wp_mono; [apply (IH (seq + 1)%Z w1); [by rewrite Hd1'|lia]|].
  intros r w2 (Hd2 & Hes & Hup2). destruct r as [es|e].
  - apply wp_ret. split; [congruence|]. split.
    + intros es' [= <-]. destruct (Hes es eq_refl) as (Hlen & Ho & Hq). split; [right; lia|].
      split; [|by rewrite Nat2Z.inj_succ, seqZ_cons by lia; cbn; rewrite Hq; do 2 f_equal; lia].
      rewrite (drop_S l op) by done. cbn [take]. rewrite fmap_cons, Ho. cbn.
      by replace (Z.to_nat (seq + 1 - 1)) with (Datatypes.S (Z.to_nat (seq - 1))) by lia.
    + intros Hu Hle. destruct (Hup2 (Hup' Hu)) as [? _]; [lia|]. by split.
  - split; [congruence|]. split; [done|]. intros Hu Hle.
    destruct (Hup2 (Hup' Hu)) as [? ?]; [lia|done].
Qed.

(** A reader of the change feed gets the whole range it asked for or an
    error.  Whatever the store does, a range that is answered is the entries of
    the log at exactly those sequence numbers, in order; a range past the head
    is never answered; and on a store that answers, every range within the log
    is. *)
Theorem wal_range_exact l from to w :
  wal_log (kv_data (kv w)) l -> (1 <= from <= to)%Z ->
  wp (range from to) (fun r w' => kv_data (kv w') = kv_data (kv w) /\
    (forall es, r = Ok es -> (to <= Z.of_nat (length l))%Z /\
       we_op <$> es = take (Z.to_nat (to - from + 1)) (drop (Z.to_nat (from - 1)) l) /\
       we_seq <$> es = seqZ from (to - from + 1)) /\
    (kv_up (kv w) -> (to <= Z.of_nat (length l))%Z -> is_ok r = true)) w.
Proof.
  intros Hl Hft. unfold range. rewrite bool_decide_eq_false_2 by lia.
  eapply wp_mono; [by apply (wp_read_entries l); [|lia]|].
  intros r w' (Hd & Hes & Hup). split; [done|]. split; [|intros Hu Hto; apply Hup; [done|lia]].
  intros es ->. destruct (Hes es eq_refl) as (Hlen & Hop & Hseq).
  split; [lia|]. by rewrite Z2Nat.id in Hseq by lia.
Qed.
End log.
