(* ===== verification/Replica.v ===== *)
(** Replica: the per-user replicas ([src/src/sync/snapshot.rs]): the filtered
    copy of the master, the full rebuild by diff, the incremental replay of the
    change feed, and the advance that chooses between them.

    The world holds the feed, the master rows, the policy, the replica and the
    scratch store of every subject, and the queue of the rebuilds.  The loops over a walk
    take [fuel]; running out of it is the error [OutOfFuel], which is not one of
    the code's. *)
From S2P Require Import Prelude.
From S2P Require Import Effects.
From S2P Require Import RustStr.
From S2P Require Import Hex.
From S2P Require Import Kv.
From S2P Require Import FsTypes.
From S2P Require Import FsStore.
From S2P Require Import FsPages.
From S2P Require Import Policy.
From S2P Require Import Wal.

Definition APPLIED_KEY : string := "sync:applied".
Definition MAX_REPLAY_OPS : nat := 1000.
Definition MAX_POLICY_REPLAY_FILES : nat := 1000.

(** Opening a replica: its existence check, its writer, and the fresh in-memory
    store of a build. *)
Class ReplicaHost (S : Type) := {
  rh_manifest : act S (result bool string);
  rh_open_writer : act S (result unit StoreError);
  rh_scratch : S;
}.

(** What the program relies on: looking at a replica and opening it leave its
    rows alone, a replica that was never written has none, and a fresh scratch
    store is empty and answers. *)
Class ReplicaHostLaws (S T : Type) `{KvLaws S T} `{!ReplicaHost S} := {
  manifest_law s : wp rh_manifest (fun r s' => kv_data s' = kv_data s /\
    (r = Ok false -> kv_data s = ∅) /\ (kv_up s -> kv_up s' /\ exists b, r = Ok b)) s;
  open_writer_law : kv_reads kv_data kv_up rh_open_writer (fun _ _ _ => True);
  scratch_law : kv_data rh_scratch = ∅ /\ kv_up rh_scratch;
}.

(** [sha2::Sha256] *)
Class Sha256 := { digest : string -> list N }.

Inductive sync_err : Type :=
| OutOfFuel
| SyncErr (e : FsError).

Inductive ReplayOutcome : Type :=
| Advanced (seq : Z)
| ReplayNeedsFullRebuild.

Inductive ApplyOutcome : Type := Applied | ApplyNeedsFullRebuild.

#[export] Instance ApplyOutcome_eq_dec : EqDecision ApplyOutcome.
Proof. solve_decision. Defined.

Record AdvanceOutcome := { applied_seq : Z; pending : bool }.

Record BuildJob := { bj_sub : string; bj_head : Z }.

(** The in-flight subjects, and the jobs handed to the pool; [pool_up] says
    whether a pool still receives. *)
Record BuildQueue := { inflight : gset string; jobs : list BuildJob; pool_up : bool }.

Record sync_world (S E : Type) := SyncWorld {
  sw_wal : fs_state S;
  sw_master : fs_state S;
  sw_live : string -> fs_state S;
  sw_scratch : string -> fs_state S;
  sw_policy : E;
  sw_builds : BuildQueue;
}.
Arguments SyncWorld {S E} sw_wal sw_master sw_live sw_scratch sw_policy sw_builds.
Arguments sw_wal {S E} s.
Arguments sw_master {S E} s.
Arguments sw_live {S E} s sub.
Arguments sw_scratch {S E} s sub.
Arguments sw_policy {S E} s.
Arguments sw_builds {S E} s.

(** The prefixes of one kind, with one of them replaced. *)
Definition set_prefix {A} (sub : string) (a : A) (f : string -> A) : string -> A :=
  fun s => if bool_decide (s = sub) then a else f s.

(** The parts of the world have one type, so they are named. *)
Definition wal_lens {S E} : Lens (fs_state S) (sync_world S E) :=
  {| view := sw_wal; upd x w := SyncWorld x (sw_master w) (sw_live w) (sw_scratch w) (sw_policy w) (sw_builds w) |}.
Definition master_lens {S E} : Lens (fs_state S) (sync_world S E) :=
  {| view := sw_master; upd x w := SyncWorld (sw_wal w) x (sw_live w) (sw_scratch w) (sw_policy w) (sw_builds w) |}.
Definition live_lens {S E} (sub : string) : Lens (fs_state S) (sync_world S E) :=
  {| view w := sw_live w sub;
     upd x w := SyncWorld (sw_wal w) (sw_master w) (set_prefix sub x (sw_live w)) (sw_scratch w) (sw_policy w) (sw_builds w) |}.
Definition scratch_lens {S E} (sub : string) : Lens (fs_state S) (sync_world S E) :=
  {| view w := sw_scratch w sub;
     upd x w := SyncWorld (sw_wal w) (sw_master w) (sw_live w) (set_prefix sub x (sw_scratch w)) (sw_policy w) (sw_builds w) |}.
Definition builds_lens {S E} : Lens BuildQueue (sync_world S E) :=
  {| view := sw_builds; upd x w := SyncWorld (sw_wal w) (sw_master w) (sw_live w) (sw_scratch w) (sw_policy w) x |}.

(** ** Names *)

Definition safe_sub `{Sha256} (sub : string) : string :=
  hex_bytes (digest sub).

Definition user_prefix `{Sha256} (db_prefix sub : string) : string :=
  trim_matches "/" db_prefix +:+ "/u/" +:+ safe_sub sub.

Definition resolve_object `{Sha256} (db_prefix sub tail : string) : result string FsError :=
  if existsb (fun seg => bool_decide (seg = "") || bool_decide (seg = "..")) (split_char "/" tail)
  then bad "invalid object path"
  else Ok (user_prefix db_prefix sub +:+ "/" +:+ tail).

Definition split_row_obj (obj : string) : option (string * string) :=
  '(ty, rid) ← split_once ":" obj;
  if bool_decide (ty = "") || bool_decide (rid = "") then None else Some (ty, rid).

(** ** The build queue *)

Definition claim (sub : string) : act BuildQueue bool := fun q =>
  if bool_decide (sub ∈ inflight q) then (false, q)
  else (true, {| inflight := {[sub]} ∪ inflight q; jobs := jobs q; pool_up := pool_up q |}).

(** [Drop for BuildClaim] *)
Definition drop_claim (sub : string) : act BuildQueue unit := fun q =>
  (tt, {| inflight := inflight q ∖ {[sub]}; jobs := jobs q; pool_up := pool_up q |}).

(** A dispatch without a pool drops the job, and the job its claim. *)
Definition dispatch (sub : string) (hd : Z) : act BuildQueue bool := fun q =>
  if pool_up q then
    (true, {| inflight := inflight q; jobs := jobs q ++ [{| bj_sub := sub; bj_head := hd |}]; pool_up := true |})
  else (false, (drop_claim sub q).2).

(** The receive of a pool worker; with nothing to receive it times out. *)
Definition take_job : act BuildQueue (option BuildJob) := fun q =>
  match jobs q with
  | [] => (None, q)
  | j :: js => (Some j, {| inflight := inflight q; jobs := js; pool_up := pool_up q |})
  end.

(** The end of the pool drops the receiver, and with it every job in it. *)
Definition drop_receiver : act BuildQueue unit := fun q =>
  (tt, {| inflight := inflight q ∖ list_to_set (bj_sub <$> jobs q); jobs := []; pool_up := false |}).

Section replica.
Context {S E T : Type} `{!KvStore S T} `{!ReplicaHost S} `{!StoreText} `{!Enforcer E}.
Context `{!Serde Z} `{!Serde WalEntry} `{!Serde FileRecord} `{!Serde RefInfo}.

(** The configuration of the master's store; the replica and the scratch store
    are plain. *)
Variable cfg : FsConfig S.
Definition dst_cfg : FsConfig S := {| mirror := None; primary := false |}.

#[local] Abbreviation W := (sync_world S E).
#[local] Abbreviation task := (prog W).

Definition ofs {A} (p : task (result A FsError)) : task (result A sync_err) := map_errM SyncErr p.
Definition on {A} (l : Lens (fs_state S) W) (m : act (fs_state S) (result A FsError)) : task (result A sync_err) :=
  ofs (atomically (zoom (H := l) m)).
Definition ask {A} (f : E -> A) : task A := atomically (fun w => (f (sw_policy w), w)).

(** ** Visibility *)

Fixpoint visible (sub : string) (rows : list (string * string)) (out : list (string * string)) :
    task (result (list (string * string)) sync_err) :=
  match rows with
  | [] => mret (Ok out)
  | (ty, rid) :: rows =>
      r ← ask (authorize_row sub ty rid Read);
      visible sub rows (match r with Ok true => out ++ [(ty, rid)] | _ => out end)
  end.

Definition visible_rows (sub file_id : string) : task (result (list (string * string)) sync_err) :=
  rows <-? on master_lens (rows_for_file cfg file_id);
  visible sub rows [].

Definition can_read (sub file_id : string) : task (result bool sync_err) :=
  rec <-? on master_lens (get_file cfg file_id);
  match (rec : option FileRecord) with
  | None => mret (Ok false)
  | Some rec =>
      if bool_decide (fr_owner_sub rec = sub) then mret (Ok true) else
      rows <-? visible_rows sub file_id;
      mret (Ok (negb (bool_decide (rows = []))))
  end.

(** ** Coverage *)

Definition load_applied (sub : string) : task (result (option Z) sync_err) :=
  exists_ ← atomically (zoom (H := live_lens sub) (zoom rh_manifest));
  match (exists_ : result bool string) with
  | Err e => mret (Err (SyncErr (FsInternal e)))
  | Ok false => mret (Ok None)
  | Ok true =>
      t <-? on (live_lens sub) (plain kv_begin);
      b <-? on (live_lens sub) (plain (tx_get t APPLIED_KEY));
      _ <-? on (live_lens sub) (plain (tx_rollback t));
      mret (Ok (b ← b; ok (from_slice b)))
  end.

(** ** The full rebuild *)

Fixpoint attach_rows (l : Lens (fs_state S) W) (rows : list (string * string)) (file_id : string) :
    task (result unit sync_err) :=
  match rows with
  | [] => mret (Ok tt)
  | (ty, rid) :: rows =>
      _ <-? on l (attach dst_cfg ty rid file_id);
      attach_rows l rows file_id
  end.

(** The copy of one file the subject may see. *)
Definition copy_file (sub : string) (rec : FileRecord) : task (result unit sync_err) :=
  rows <-? visible_rows sub (fr_id rec);
  if bool_decide (fr_owner_sub rec <> sub) && bool_decide (rows = []) then mret (Ok tt) else
  _ <-? on (scratch_lens sub) (save_file dst_cfg rec);
  info <-? on master_lens (get_ref_info cfg (fr_id rec));
  if bool_decide (count info > 0)%Z then attach_rows (scratch_lens sub) rows (fr_id rec) else mret (Ok tt).

(** [next_file] over the master's own store, which the mirror does not serve. *)
Definition kv_of (l : Lens (fs_state S) W) : Lens S W :=
  {| view w := kv (@view _ _ l w); upd s w := @upd _ _ l (@upd _ _ kv_lens s (@view _ _ l w)) w |}.

Fixpoint copy_loop (fuel : nat) (sub : string) (scan : KvPages) (undecodable : list string) :
    task (result (list string) sync_err) :=
  match fuel with
  | O => mret (Err OutOfFuel)
  | Datatypes.S fuel' =>
      step ← zoom_prog (H := kv_of master_lens) (next_file fuel scan []);
      match step with
      | None => mret (Err OutOfFuel)
      | Some (Err e, _) => mret (Err (SyncErr e))
      | Some (Ok found, scan) =>
          let undecodable := undecodable ++ fsc_undecodable found in
          match fsc_record found with
          | None => mret (Ok undecodable)
          | Some rec =>
              _ <-? copy_file sub rec;
              copy_loop fuel' sub scan undecodable
          end
      end
  end.

Definition copy_filtered (fuel : nat) (sub : string) : task (result (list string) sync_err) :=
  copy_loop fuel sub new_pages [].

(** One step of a walk, as a result. *)
Definition walk_next (l : Lens (fs_state S) W) (p : KvPages) : task (result (option kv_pair * KvPages) sync_err) :=
  '(r, p) ← atomically (zoom (H := kv_of l) (FsPages.next p));
  mret (match r with Ok o => Ok (o, p) | Err e => Err (SyncErr e) end).

(** The next entry of the live replica that is not the marker. *)
Fixpoint next_data_key (sub : string) (fuel : nat) (p : KvPages) : task (result (option kv_pair * KvPages) sync_err) :=
  match fuel with
  | O => mret (Err OutOfFuel)
  | Datatypes.S fuel =>
      '(kv, p) <-? walk_next (live_lens sub) p;
      match kv with
      | Some kv => if bool_decide (kv.1 = APPLIED_KEY) then next_data_key sub fuel p else mret (Ok (Some kv, p))
      | None => mret (Ok (None, p))
      end
  end.

(** What one round of the join writes: a put or a delete. *)
Definition join_write (a b : option kv_pair) : option (kv_pair + string) :=
  match a, b with
  | None, None => None
  | Some a, None => Some (inl a)
  | None, Some b => Some (inr b.1)
  | Some a, Some b =>
      match String.compare a.1 b.1 with
      | Lt => Some (inl a)
      | Gt => Some (inr b.1)
      | Eq => if bool_decide (a.2 <> b.2) then Some (inl a) else None
      end
  end.

Definition apply_write (sub : string) (t : T) (o : kv_pair + string) : task (result T sync_err) :=
  match o with
  | inl (k, v) => on (live_lens sub) (plain (tx_set t k v))
  | inr k => on (live_lens sub) (plain (tx_delete t k))
  end.

(** The join of the two walks: each round takes one entry of each. *)
Fixpoint join_loop (sub : string) (fuel : nat) (desired live : KvPages) (t : T) (wrote : bool) :
    task (result (T * bool) sync_err) :=
  match fuel with
  | O => mret (Err OutOfFuel)
  | Datatypes.S fuel' =>
      '(a, desired) <-? walk_next (scratch_lens sub) desired;
      '(b, live) <-? next_data_key sub fuel live;
      match a, b with
      | None, None => mret (Ok (t, wrote))
      | a, b =>
          match join_write a b with
          | Some o => t <-? apply_write sub t o; join_loop sub fuel' desired live t true
          | None => join_loop sub fuel' desired live t wrote
          end
      end
  end.

(** The commit of a build: the diff and the marker in one transaction. *)
Definition commit_diff (fuel : nat) (hd : Z) (sub : string) : task (result Z sync_err) :=
  _ <-? on (live_lens sub) (plain rh_open_writer);
  t <-? on (live_lens sub) (plain kv_begin);
  '(t, wrote) <-? join_loop sub fuel new_pages new_pages t false;
  marker <-? ofs (mret (FsStore.encode hd));
  applied <-? load_applied sub;
  if negb wrote && bool_decide (applied = Some hd) then
    _ <-? on (live_lens sub) (plain (tx_rollback t)); mret (Ok hd)
  else
    t <-? on (live_lens sub) (plain (tx_set t APPLIED_KEY marker));
    _ <-? on (live_lens sub) (plain (tx_commit t));
    mret (Ok hd).

Definition build_full (fuel : nat) (sub : string) : task (result Z sync_err) :=
  hd <-? on wal_lens Wal.head;
  _ <-? on master_lens (refresh_mirror cfg);
  _ ← atomically (zoom (H := kv_of (scratch_lens sub)) (fun _ => (tt, rh_scratch)));
  undecodable <-? copy_filtered fuel sub;
  if bool_decide (undecodable <> []) then
    mret (Err (SyncErr (FsInternal ("full rebuild refused: " +:+
      u64_text (Z.of_nat (length undecodable)) +:+ " file metadata rows did not decode"))))
  else commit_diff fuel hd sub.

(** ** The incremental replay *)

Fixpoint new_groups (gs : list string) (found : gset string) (frontier : list string) :
    gset string * list string :=
  match gs with
  | [] => (found, frontier)
  | g :: gs =>
      if bool_decide (g ∈ found) then new_groups gs found frontier
      else new_groups gs ({[g]} ∪ found) (g :: frontier)
  end.

(** The groups of a subject, direct and indirect; the frontier is a stack. *)
Fixpoint group_closure (fuel : nat) (found : gset string) (frontier : list string) :
    task (result (gset string) sync_err) :=
  match frontier with
  | [] => mret (Ok found)
  | name :: frontier =>
      match fuel with
      | O => mret (Err OutOfFuel)
      | Datatypes.S fuel =>
          gs ← ask (get_groups_of_user name);
          let '(found, frontier) := new_groups gs found frontier in
          group_closure fuel found frontier
      end
  end.

Definition implicit_groups (fuel : nat) (sub : string) : task (result (gset string) sync_err) :=
  group_closure fuel ∅ [sub].

Definition resync_file (sub row_type row_id file_id : string) : task (result unit sync_err) :=
  rec <-? on master_lens (get_file cfg file_id);
  match (rec : option FileRecord) with
  | None => on (live_lens sub) (delete_file dst_cfg file_id)
  | Some rec =>
      readable <-? can_read sub file_id;
      if negb readable then on (live_lens sub) (delete_file dst_cfg file_id) else
      _ <-? on (live_lens sub) (save_file dst_cfg rec);
      r ← ask (authorize_row sub row_type row_id Read);
      _ <-? match r with
            | Ok true => on (live_lens sub) (attach dst_cfg row_type row_id file_id)
            | _ => on (live_lens sub) (detach dst_cfg row_type row_id file_id)
            end;
      mret (Ok tt)
  end.

Fixpoint resync_files (sub row_type row_id : string) (files : list string) : task (result unit sync_err) :=
  match files with
  | [] => mret (Ok tt)
  | f :: files => _ <-? resync_file sub row_type row_id f; resync_files sub row_type row_id files
  end.

(** The resync of rows, within the budget of files. *)
Fixpoint resync_rows (sub : string) (rows : list (string * string)) (total : nat) :
    task (result ApplyOutcome sync_err) :=
  match rows with
  | [] => mret (Ok Applied)
  | (ty, rid) :: rows =>
      files <-? on master_lens (files_for_row cfg ty rid);
      let total := total + length files in
      if bool_decide (MAX_POLICY_REPLAY_FILES < total) then mret (Ok ApplyNeedsFullRebuild) else
      _ <-? resync_files sub ty rid files;
      resync_rows sub rows total
  end.

Definition apply_rule_op (fuel : nat) (sub rule_sub obj a : string) : task (result ApplyOutcome sync_err) :=
  if negb (eq_ignore_ascii_case a "read") then mret (Ok Applied) else
  match split_row_obj obj with
  | None => mret (Ok Applied)
  | Some (ty, rid) =>
      concerned <-? (if bool_decide (rule_sub = sub) then mret (Ok true)
                     else gs <-? implicit_groups fuel sub; mret (Ok (bool_decide (rule_sub ∈ gs))));
      if negb concerned then mret (Ok Applied) else
      files <-? on master_lens (files_for_row cfg ty rid);
      if bool_decide (MAX_POLICY_REPLAY_FILES < length files) then mret (Ok ApplyNeedsFullRebuild) else
      _ <-? resync_files sub ty rid files;
      mret (Ok Applied)
  end.

(** The rows that a subject's read rules name, in order, without repetition. *)
Definition row_le (a b : string * string) : bool :=
  match String.compare a.1 b.1 with
  | Lt => true
  | Gt => false
  | Eq => bool_decide (String.le a.2 b.2)
  end.

Definition read_rows (rules : list (string * string)) : list (string * string) :=
  omap (fun r => if eq_ignore_ascii_case r.2 "read" then split_row_obj r.1 else None) rules.

Fixpoint rules_of_all (subjects : list string) (rows : list (string * string)) :
    task (result (list (string * string)) sync_err) :=
  match subjects with
  | [] => mret (Ok rows)
  | s :: subjects =>
      rules ← ask (rules_for_subject s);
      rules_of_all subjects (rows ++ read_rows rules)
  end.

Definition read_rows_for_group (fuel : nat) (group : string) : task (result (list (string * string)) sync_err) :=
  gs <-? implicit_groups fuel group;
  rows <-? rules_of_all (group :: elements gs) [];
  mret (Ok (sort_by row_le (remove_dups rows))).

Definition apply_membership_op (fuel : nat) (sub user group : string) : task (result ApplyOutcome sync_err) :=
  if bool_decide (user <> sub) then mret (Ok Applied) else
  rows <-? read_rows_for_group fuel group;
  resync_rows sub rows 0.

Definition apply_group_delete (fuel : nat) (sub group : string) : task (result ApplyOutcome sync_err) :=
  rows <-? read_rows_for_group fuel group;
  if bool_decide (rows = []) then mret (Ok Applied) else resync_rows sub rows 0.

(** [Ok(Applied)] after a call whose answer is not used. *)
Definition applied {A} (p : task (result A sync_err)) : task (result ApplyOutcome sync_err) :=
  _ <-? p; mret (Ok Applied).

Definition apply_op (fuel : nat) (sub : string) (op : WalOp) : task (result ApplyOutcome sync_err) :=
  match op with
  | FileCreate rec =>
      readable <-? can_read sub (fr_id rec);
      if readable : bool then applied (on (live_lens sub) (save_file dst_cfg rec)) else mret (Ok Applied)
  | FileDelete file_id => applied (on (live_lens sub) (delete_file dst_cfg file_id))
  | Attach ty rid file_id =>
      rec <-? on master_lens (get_file cfg file_id);
      match (rec : option FileRecord) with
      | None => mret (Ok Applied)
      | Some rec =>
          readable <-? can_read sub file_id;
          if negb readable then mret (Ok Applied) else
          _ <-? on (live_lens sub) (save_file dst_cfg rec);
          r ← ask (authorize_row sub ty rid Read);
          match r with
          | Ok true => applied (on (live_lens sub) (attach dst_cfg ty rid file_id))
          | _ => mret (Ok Applied)
          end
      end
  | Detach ty rid file_id => applied (on (live_lens sub) (detach dst_cfg ty rid file_id))
  | PolicyAdd _ | PolicyRemove _ => mret (Ok ApplyNeedsFullRebuild)
  | PolicyRuleAdd rule_sub obj a | PolicyRuleRemove rule_sub obj a => apply_rule_op fuel sub rule_sub obj a
  | GroupAdd user group | GroupRemove user group => apply_membership_op fuel sub user group
  | GroupDelete group => apply_group_delete fuel sub group
  end.

Fixpoint apply_all (fuel : nat) (sub : string) (entries : list WalEntry) : task (result ApplyOutcome sync_err) :=
  match entries with
  | [] => mret (Ok Applied)
  | entry :: entries =>
      outcome <-? apply_op fuel sub (we_op entry);
      match outcome with
      | ApplyNeedsFullRebuild => mret (Ok ApplyNeedsFullRebuild)
      | Applied => apply_all fuel sub entries
      end
  end.

Definition replay (fuel : nat) (hd : Z) (sub : string) : task (result ReplayOutcome sync_err) :=
  applied <-? load_applied sub;
  match applied with
  | None => mret (Ok ReplayNeedsFullRebuild)
  | Some applied =>
      if bool_decide (applied > hd)%Z then mret (Ok ReplayNeedsFullRebuild) else
      if bool_decide (applied = hd)%Z then mret (Ok (Advanced applied)) else
      entries <-? on wal_lens (range (u64_add applied 1) hd);
      if bool_decide (MAX_REPLAY_OPS < length entries) ||
         existsb (fun e => is_legacy_policy_mark (we_op e)) entries
      then mret (Ok ReplayNeedsFullRebuild) else
      _ <-? on (live_lens sub) (plain rh_open_writer);
      outcome <-? apply_all fuel sub entries;
      match outcome with
      | ApplyNeedsFullRebuild => mret (Ok ReplayNeedsFullRebuild)
      | Applied =>
          marker <-? ofs (mret (FsStore.encode hd));
          _ <-? on (live_lens sub) (plain (kv_set APPLIED_KEY marker));
          mret (Ok (Advanced hd))
      end
  end.

Definition sync_fencing_loss (e : sync_err) : bool :=
  match e with SyncErr e => is_fencing_loss e | OutOfFuel => false end.

Definition advance (fuel : nat) (sub : string) : task (result AdvanceOutcome sync_err) :=
  hd <-? on wal_lens Wal.head;
  applied <-? load_applied sub;
  if bool_decide (applied = Some hd) then mret (Ok {| applied_seq := hd; pending := false |}) else
  won ← atomically (zoom (H := builds_lens) (claim sub));
  if negb won then mret (Ok {| applied_seq := default 0%Z applied; pending := true |}) else
  r ← replay fuel hd sub;
  match r with
  | Ok (Advanced seq) =>
      _ ← atomically (zoom (H := builds_lens) (drop_claim sub));
      mret (Ok {| applied_seq := seq; pending := false |})
  | Ok ReplayNeedsFullRebuild =>
      _ ← atomically (zoom (H := builds_lens) (dispatch sub hd));
      applied <-? load_applied sub;
      mret (Ok {| applied_seq := default 0%Z applied; pending := true |})
  | Err e =>
      _ ← atomically (zoom (H := builds_lens) (drop_claim sub));
      if sync_fencing_loss e then
        applied <-? load_applied sub;
        mret (match applied with
              | Some seq => Ok {| applied_seq := seq; pending := false |}
              | None => Err e
              end)
      else mret (Err e)
  end.

(** ** The pool *)

(** A worker of the pool on the answers of the cancel token, two in each round:
    before the receive and after it. *)
Fixpoint build_worker (fuel : nat) (cancelled : list (bool * bool)) : task unit :=
  match cancelled with
  | (false, after) :: cancelled =>
      j ← atomically (zoom (H := builds_lens) take_job);
      match j with
      | None => build_worker fuel cancelled
      | Some j =>
          if after : bool then atomically (zoom (H := builds_lens) (drop_claim (bj_sub j))) else
          _ ← build_full fuel (bj_sub j);
          _ ← atomically (zoom (H := builds_lens) (drop_claim (bj_sub j)));
          build_worker fuel cancelled
      end
  | _ => mret tt
  end.

(** [BuildPool::spawn]: at least one worker; [looks] is what each one sees of the
    token. *)
Definition pool_spawn (fuel workers : nat) (looks : nat -> list (bool * bool)) : list (task unit) :=
  (fun worker => build_worker fuel (looks worker)) <$> seq 0 (Nat.max workers 1).
End replica.

(** ** Names *)

(** A digest has 32 bytes. *)
Class Sha256Laws `{Sha256} := {
  digest_length s : length (digest s) = 32;
  digest_bytes s : Forall (fun b => b < 256)%N (digest s);
}.

(** C19: a client reaches the objects of its own replica only.  A resolved object
    lies under the caller's prefix, none of its path segments is empty or a
    parent step, and two callers can name the same object only when their
    subjects have the same digest, and then by the same tail. *)
Theorem resolve_object_contained `{Sha256Laws} db sub tail p :
  resolve_object db sub tail = Ok p ->
  p = user_prefix db sub +:+ "/" +:+ tail /\
  Forall (fun seg => seg <> "" /\ seg <> "..") (split_char "/" tail) /\
  forall sub' tail', resolve_object db sub' tail' = Ok p -> digest sub' = digest sub /\ tail' = tail.
Proof.
  unfold resolve_object. destruct (existsb _ (split_char "/" tail)) eqn:Ex; [done|]. intros [= <-].
  split; [done|]. split.
  - apply Forall_forall. intros seg Hseg%list_elem_of_In. 
    destruct (existsb_exists (fun seg => bool_decide (seg = "") || bool_decide (seg = "..")) (split_char "/" tail)) as [_ Hb].
    split; intros ->; rewrite Hb in Ex; try done; eexists; (split; [exact Hseg|done]).
  - intros sub' tail'. destruct (existsb _ (split_char "/" tail')); [done|]. intros [= He].
    unfold user_prefix in He. rewrite !app_assoc in He.
    apply (inj (String.append (trim_matches "/" db))), (inj (String.append "/u/")) in He.
    apply app_inj_len in He as [Hs He].
    + split; [|by apply (inj (String.append "/")) in He].
      apply hex_bytes_inj; [apply digest_bytes..|by rewrite !digest_length|done].
    + change (String.length (hex_bytes (digest sub')) = String.length (hex_bytes (digest sub))).
      by rewrite !length_hex_bytes, !digest_length by apply digest_bytes.
Qed.
