(* ===== verification/Token.v ===== *)
(** Token: the capability tokens ([src/src/fs/token.rs], [TokenKeys] of
    [fs/mod.rs]): the key material, minting, and verification under the current
    and the previous key.

    The JSON web tokens are the [jsonwebtoken] library: the class [Jwt], with
    what the code relies on in [JwtLaws].  A decoding reads the clock. *)
From S2P Require Import Prelude.
From S2P Require Import Effects.
From S2P Require Import RustStr.
From S2P Require Import Hex.
From S2P Require Import Kv.
From S2P Require Import FsTypes.
From S2P Require Import Policy.
From S2P Require Import Replica.

Record FsClaims := { cl_sub : string; cl_file_id : string; cl_act : string; cl_exp : Z }.

Definition DEFAULT_TTL_SECS : Z := 300.

Abbreviation secret := (list N).

(** HS256 tokens: a key identifier, the claims and the secret; the decoding
    takes the time and checks [exp] without leeway. *)
Class Jwt := {
  jwt_encode : string -> FsClaims -> secret -> result string string;
  jwt_decode : string -> secret -> Z -> result FsClaims string;
}.

(** ** Key material *)

(** [u8::from_str_radix] of each pair of digits. *)
Fixpoint hex_pairs (s : string) : list N :=
  match s with
  | String a (String b s) => (default 0 (hex_val a) * 16 + default 0 (hex_val b))%N :: hex_pairs s
  | _ => []
  end.

Definition parse_secret_hex (s : string) : result secret string :=
  if bool_decide (String.length s <> 64) || negb (all_hex s) then
    Err ("capability secret must be 64 hex chars (32 bytes), got " +:+
         u64_text (Z.of_nat (String.length s)) +:+ " chars")
  else Ok (hex_pairs s).

Section token.
Context `{!Jwt} `{!Sha256}.

(** [kid_for]: the first four bytes of the digest. *)
Definition kid_for (k : secret) : string := hex_bytes (take 4 (digest (string_of_bytes (N.to_nat <$> k)))).

(** ** Minting and verification *)

(** [Utc::now().timestamp() as u64] *)
Definition now_u64 : act clock Z := t ← tick; mret (wrap_u64 t).

Definition mint (sub file_id : string) (a : Action) (kid : string) (k : secret) (ttl_secs : option Z) :
    act clock (result string FsError) :=
  now ← now_u64;
  let exp := u64_add now (default DEFAULT_TTL_SECS ttl_secs) in
  mret (map_err FsInternal (jwt_encode kid
    {| cl_sub := sub; cl_file_id := file_id; cl_act := action_text a; cl_exp := exp |} k)).

Fixpoint verify (token file_id : string) (a : Action) (secrets : list secret) : act clock (result FsClaims FsError) :=
  match secrets with
  | [] => mret (Err FsForbidden)
  | k :: secrets =>
      now ← tick;
      match jwt_decode token k now with
      | Err _ => verify token file_id a secrets
      | Ok c =>
          now ← now_u64;
          if bool_decide (cl_exp c < now)%Z then mret (Err FsForbidden) else
          if bool_decide (cl_file_id c <> file_id) || bool_decide (cl_act c <> action_text a)
          then mret (Err FsForbidden) else mret (Ok c)
      end
  end.

(** ** The keys *)

Record TokenKey := { tk_kid : string; tk_secret : secret }.
Record TokenKeys := { current : TokenKey; previous : option TokenKey }.

Definition key_of_secret (k : secret) : TokenKey := {| tk_kid := kid_for k; tk_secret := k |}.

(** [TokenKeys::ephemeral], on the bytes of the random source *)
Definition ephemeral (random : secret) : TokenKeys := {| current := key_of_secret random; previous := None |}.

Definition from_hex (cur : string) (prev : option string) : result TokenKeys FsError :=
  match map_err FsBadRequest (parse_secret_hex cur) with
  | Err e => Err e
  | Ok c =>
      match prev with
      | None => Ok {| current := key_of_secret c; previous := None |}
      | Some p =>
          match map_err FsBadRequest (parse_secret_hex p) with
          | Err e => Err e
          | Ok p => Ok {| current := key_of_secret c; previous := Some (key_of_secret p) |}
          end
      end
  end.

Definition mint_token (keys : TokenKeys) (sub file_id : string) (a : Action) : act clock (result string FsError) :=
  mint sub file_id a (tk_kid (current keys)) (tk_secret (current keys)) None.

Definition secrets_of (keys : TokenKeys) : list secret :=
  tk_secret (current keys) :: match previous keys with Some p => [tk_secret p] | None => [] end.

Definition verify_token (keys : TokenKeys) (token file_id : string) (a : Action) : act clock (result unit FsError) :=
  r ← verify token file_id a (secrets_of keys);
  mret (match r with Ok _ => Ok tt | Err e => Err e end).
End token.

(** What the code relies on: HS256 signs any claims under any secret, a token
    says which claims and which secret made it, and it decodes under a secret
    exactly when that secret made it and it has not expired. *)
Class JwtLaws `{!Jwt} := {
  jwt_encode_ok kid c k : exists t, jwt_encode kid c k = Ok t;
  jwt_encode_inj kid c k kid' c' k' t :
    jwt_encode kid c k = Ok t -> jwt_encode kid' c' k' = Ok t -> c = c' /\ k = k';
  jwt_decode_encoded kid c k t now : jwt_encode kid c k = Ok t -> (now <= cl_exp c)%Z -> jwt_decode t k now = Ok c;
  jwt_decode_sound t k now c : jwt_decode t k now = Ok c -> (now <= cl_exp c)%Z /\ exists kid, jwt_encode kid c k = Ok t;
}.

(** ** Facts *)

Lemma hex_pairs_hex2 b s : (b < 256)%N -> hex_pairs (hex2 b +:+ s) = b :: hex_pairs s.
Proof.
  assert (forallb (fun b => match hex2 b with
    | String x (String y "") => bool_decide ((default 0 (hex_val x) * 16 + default 0 (hex_val y))%N = b)
    | _ => false end) bytes_256 = true) as Hall by (vm_compute; reflexivity).
  intros Hb. rewrite List.forallb_forall in Hall. specialize (Hall b (in_bytes_256 b Hb)).
  destruct (hex2 b) as [|x [|y [|z t]]]; try done. apply bool_decide_eq_true in Hall.
  rewrite !app_cons, app_nil_l. cbn [hex_pairs]. by rewrite Hall.
Qed.

Lemma hex_pairs_bytes l : Forall (fun b => b < 256)%N l -> hex_pairs (hex_bytes l) = l.
Proof.
  induction 1 as [|b l Hb Hl IH]; [done|]. cbn [hex_bytes foldr]. fold (hex_bytes l). by rewrite hex_pairs_hex2, IH.
Qed.

Lemma hex_val_16 a v : hex_val a = Some v -> (v < 16)%N.
Proof.
  unfold hex_val. repeat case_match; intros [= <-];
    repeat match goal with H : _ && _ = true |- _ => apply andb_true_iff in H as [?%N.leb_le ?%N.leb_le] end; lia.
Qed.

Lemma hex_pairs_256 s : Forall (fun b => b < 256)%N (hex_pairs s).
Proof.
  remember (String.length s) as n eqn:Hn. revert s Hn. induction (lt_wf n) as [n _ IH]. intros [|a [|b s]] ->; [constructor..|].
  cbn [hex_pairs]. constructor.
  - destruct (hex_val a) eqn:Ea, (hex_val b) eqn:Eb; cbn; repeat match goal with H : hex_val _ = Some _ |- _ => apply hex_val_16 in H end; lia.
  - eapply IH; [|done]. cbn. lia.
Qed.

Lemma length_hex_pairs s : String.length s = 2 * length (hex_pairs s) + String.length s mod 2.
Proof.
  remember (String.length s) as n eqn:Hn. revert s Hn. induction (lt_wf n) as [n _ IH]. intros [|a [|b s]] ->; [done..|].
  cbn [hex_pairs length String.length]. specialize (IH (String.length s) ltac:(cbn; lia) s eq_refl).
  replace (Datatypes.S (Datatypes.S (String.length s))) with (String.length s + 1 * 2) by lia.
  rewrite Nat.Div0.mod_add. lia.
Qed.

(** A configured secret is 32 bytes of hexadecimal text and nothing else.
    Every 32 bytes are read back from their text; a text that is read gives 32
    bytes; a text of any other length, or with any other character, is
    refused. *)
Theorem secret_hex_roundtrip :
  (forall l, length l = 32 -> Forall (fun b => b < 256)%N l -> parse_secret_hex (hex_bytes l) = Ok l) /\
  (forall s l, parse_secret_hex s = Ok l -> length l = 32 /\ Forall (fun b => b < 256)%N l) /\
  (forall s, is_ok (parse_secret_hex s) = true <-> String.length s = 64 /\ all_hex s = true).
Proof.
  unfold parse_secret_hex. split; [|split].
  - intros l Hl Hb. rewrite length_hex_bytes, Hl, all_hex_bytes, hex_pairs_bytes by done. done.
  - intros s l. case_bool_decide as Hs; [done|]. destruct (all_hex s); [|done]. intros [= <-].
    split; [|apply hex_pairs_256]. pose proof (length_hex_pairs s) as Hlen. rewrite Hs in Hlen. cbn in Hlen. lia.
  - intros s. case_bool_decide as Hs; destruct (all_hex s); cbn; naive_solver.
Qed.

Section capability.
Context {Hjwt : Jwt} {Hlaws : JwtLaws} {Hsha : Sha256}.

(** The readings of the clock from now on. *)
Definition readings_le (b : Z) (c : clock) : Prop := forall n, (0 <= now_of c n <= b)%Z.
Definition readings_gt (b : Z) (c : clock) : Prop := forall n, (b < now_of c n)%Z.

Lemma wp_tick {A} (k : Z -> act clock A) Q c :
  wp (k (now_of c 0)) Q (Clock (reading c) (Datatypes.S (ticks c))) -> wp (t ← tick; k t) Q c.
Proof. intros Hk. apply wp_bind. unfold wp at 1, tick. unfold now_of in Hk. by rewrite Nat.add_0_r in Hk. Qed.

Lemma readings_le_next b c : readings_le b c -> readings_le b (Clock (reading c) (Datatypes.S (ticks c))).
Proof. intros Hr n. specialize (Hr (Datatypes.S n)). unfold now_of in *. cbn. by rewrite <- Nat.add_succ_comm in Hr. Qed.
Lemma readings_gt_next b c : readings_gt b c -> readings_gt b (Clock (reading c) (Datatypes.S (ticks c))).
Proof. intros Hr n. specialize (Hr (Datatypes.S n)). unfold now_of in *. cbn. by rewrite <- Nat.add_succ_comm in Hr. Qed.

(** Only a token made with one of the secrets, for this file and this action,
    is accepted. *)
Lemma wp_verify_sound token f a ks c :
  wp (verify token f a ks) (fun r _ => forall cl, r = Ok cl -> cl_file_id cl = f /\ cl_act cl = action_text a /\
    exists kid k, k ∈ ks /\ jwt_encode kid cl k = Ok token) c.
Proof.
  revert c. induction ks as [|k ks IH]; intros c; cbn [verify]; [by apply wp_ret|]. apply wp_tick.
  destruct (jwt_decode token k (now_of c 0)) as [cl|e] eqn:Ed.
  - apply jwt_decode_sound in Ed as [_ [kid Hk]]. unfold now_u64. apply wp_bind, wp_tick, wp_ret. case_bool_decide; [by apply wp_ret|].
    destruct (_ || _) eqn:Eo; apply wp_ret; [done|]. intros cl' [= <-].
    apply orb_false_iff in Eo as [Ef%bool_decide_eq_false%dec_stable Ea%bool_decide_eq_false%dec_stable].
    split; [done|]. split; [done|]. exists kid, k. split; [set_solver|done].
  - eapply wp_mono; [apply IH|]. intros r c' Hcl cl Hr. destruct (Hcl cl Hr) as (? & ? & kid & k' & ? & ?).
    split; [done|]. split; [done|]. exists kid, k'. split; [set_solver|done].
Qed.

Lemma wp_verify_minted kid cl k token f a ks c :
  jwt_encode kid cl k = Ok token -> readings_le (cl_exp cl) c -> in_u64 (cl_exp cl) ->
  wp (verify token f a ks) (fun r _ =>
    is_ok r = true <-> k ∈ ks /\ cl_file_id cl = f /\ cl_act cl = action_text a) c.
Proof.
  intros Htok. revert c. induction ks as [|k' ks IH]; intros c Hc Hexp; cbn [verify].
  { apply wp_ret. split; [done|]. intros [Hin _]. by apply elem_of_nil in Hin. }
  apply wp_tick. pose proof (Hc 0) as H0. destruct (jwt_decode token k' (now_of c 0)) as [cl'|e] eqn:Ed.
  - apply jwt_decode_sound in Ed as [_ [kid' Hk']]. destruct (jwt_encode_inj _ _ _ _ _ _ _ Htok Hk') as [<- <-].
    apply readings_le_next in Hc. pose proof (Hc 0) as H1. unfold now_u64. apply wp_bind, wp_tick, wp_ret.
    rewrite wrap_u64_id by (destruct Hexp; split; lia). rewrite bool_decide_eq_false_2 by lia.
    destruct (_ || _) eqn:Eo; apply wp_ret; cbn.
    + split; [done|]. intros (_ & Hf & Ha). by rewrite !bool_decide_eq_false_2 in Eo by congruence.
    + apply orb_false_iff in Eo as [Ef%bool_decide_eq_false%dec_stable Ea%bool_decide_eq_false%dec_stable].
      split; [|done]. intros _. split; [set_solver|done].
  - eapply wp_mono; [apply IH; [by apply readings_le_next|done]|]. intros r c' Hr. rewrite Hr.
    assert (k <> k') as Hne.
    { intros ->. rewrite (jwt_decode_encoded kid cl k') in Ed by (try lia; done). done. }
    set_solver.
Qed.

Lemma wp_verify_expired kid cl k token f a ks c :
  jwt_encode kid cl k = Ok token -> readings_gt (cl_exp cl) c ->
  wp (verify token f a ks) (fun r _ => r = Err FsForbidden) c.
Proof.
  intros Htok. revert c. induction ks as [|k' ks IH]; intros c Hc; cbn [verify]; [by apply wp_ret|].
  apply wp_tick. destruct (jwt_decode token k' (now_of c 0)) as [cl'|e] eqn:Ed.
  - apply jwt_decode_sound in Ed as [Hle [kid' Hk']]. destruct (jwt_encode_inj _ _ _ _ _ _ _ Htok Hk') as [<- <-].
    specialize (Hc 0). lia.
  - by apply IH, readings_gt_next.
Qed.

Lemma action_text_inj a b : action_text a = action_text b -> a = b.
Proof. by destruct a, b. Qed.

Lemma wp_verify_token keys token f a (P : Prop) c :
  wp (verify token f a (secrets_of keys)) (fun r _ => is_ok r = true <-> P) c ->
  wp (verify_token keys token f a) (fun r _ => r = Ok tt <-> P) c.
Proof.
  intros Hv. apply wp_bind. eapply wp_mono; [exact Hv|]. intros r c' Hr. apply wp_ret. rewrite <- Hr.
  by destruct r as [x|e].
Qed.

(** C16: a capability token opens what it was minted for, until it expires, and
    across one rotation of the keys.  A minted token is accepted for five
    minutes exactly for its own file and action, by any keys whose current or
    previous secret is the one that signed it, and after that by none; and
    nothing else is accepted: every accepted token was made with one of the
    secrets, for the file and the action it is presented for. *)
Theorem capability_exact keys sub f a c :
  (0 <= now_of c 0)%Z -> (now_of c 0 + DEFAULT_TTL_SECS <= u64_max)%Z ->
  wp (mint_token keys sub f a) (fun r _ => exists token, r = Ok token /\
    forall keys' f' a' c',
      (readings_le (now_of c 0 + DEFAULT_TTL_SECS) c' ->
        wp (verify_token keys' token f' a') (fun r _ => r = Ok tt <->
          tk_secret (current keys) ∈ secrets_of keys' /\ f' = f /\ a' = a) c') /\
      (readings_gt (now_of c 0 + DEFAULT_TTL_SECS) c' ->
        wp (verify_token keys' token f' a') (fun r _ => r = Err FsForbidden) c')) c /\
  forall keys' token f' a' c', wp (verify_token keys' token f' a') (fun r _ => r = Ok tt ->
    exists kid k sub exp, k ∈ secrets_of keys' /\ jwt_encode kid
      {| cl_sub := sub; cl_file_id := f'; cl_act := action_text a'; cl_exp := exp |} k = Ok token) c'.
Proof.
  intros H0 H1. split.
  - unfold mint_token, mint, now_u64. apply wp_bind, wp_tick, wp_ret.
    assert (u64_add (wrap_u64 (now_of c 0)) (default DEFAULT_TTL_SECS None) = now_of c 0 + DEFAULT_TTL_SECS)%Z as ->.
    { unfold DEFAULT_TTL_SECS in *. cbn [default]. rewrite wrap_u64_id by (split; lia). apply u64_add_id. split; lia. }
    set (cl := {| cl_sub := sub; cl_exp := _ |}). destruct (jwt_encode_ok (tk_kid (current keys)) cl (tk_secret (current keys))) as [token Ht].
    rewrite Ht. apply wp_ret. exists token. split; [done|]. intros keys' f' a' c'. split; intros Hc.
    + apply wp_verify_token. eapply wp_mono; [eapply (wp_verify_minted _ cl); [done|done|]|].
      { unfold DEFAULT_TTL_SECS in *. split; cbn; lia. }
      intros r w' Hr. rewrite Hr. cbn. split; intros (? & ? & Ha); (split; [done|]); (split; [congruence|]);
        [by apply action_text_inj|by rewrite Ha].
    + apply wp_bind. eapply wp_mono; [eapply (wp_verify_expired _ cl); done|]. intros r w' ->. by apply wp_ret.
  - intros keys' token f' a' c'. apply wp_bind. eapply wp_mono; [apply wp_verify_sound|]. intros r w' Hr.
    apply wp_ret. destruct r as [cl|]; [|done]. intros _. destruct (Hr cl eq_refl) as (<- & Ha & kid & k & Hk & Ht).
    exists kid, k, (cl_sub cl), (cl_exp cl). split; [done|]. rewrite <- Ha. by destruct cl.
Qed.
End capability.

#[export] Instance FsClaims_eq_dec : EqDecision FsClaims.
Proof. solve_decision. Defined.
#[export] Instance FsClaims_countable : Countable FsClaims.
Proof.
  refine (inj_countable' (fun c => (cl_sub c, cl_file_id c, cl_act c, cl_exp c))
    (fun '(a, b, c, d) => {| cl_sub := a; cl_file_id := b; cl_act := c; cl_exp := d |}) _).
  by intros [].
Defined.

Module TokenExamples.

(** Tokens that carry what they were made of. *)
Definition show_token (x : string * FsClaims * secret) : string := CountableSerde.show_pos (encode x).
Definition read_token (t : string) : option (string * FsClaims * secret) := p ← CountableSerde.read_pos t; decode p.

Lemma read_show_token x : read_token (show_token x) = Some x.
Proof. unfold read_token, show_token. rewrite CountableSerde.read_show. apply decode_encode. Qed.

#[export] Instance jwt : Jwt := {|
  jwt_encode kid c k := Ok (show_token (kid, c, k));
  jwt_decode t k now :=
    match read_token t with
    | Some (kid, c, k') =>
        if bool_decide (t = show_token (kid, c, k') /\ k' = k /\ (now <= cl_exp c)%Z) then Ok c else Err "invalid"
    | None => Err "invalid"
    end;
|}.

#[export] Instance jwt_laws : JwtLaws.
Proof.
  split.
  - intros kid c k. by eexists.
  - intros kid c k kid' c' k' t [= <-] [= He]. apply (f_equal read_token) in He. rewrite !read_show_token in He. by injection He as -> -> ->.
  - intros kid c k t now [= <-] Hnow. cbn. rewrite read_show_token. by rewrite bool_decide_eq_true_2.
  - intros t k now c Hd. cbn in Hd. destruct (read_token t) as [[[kid c'] k']|]; [|done].
    case_bool_decide as Hb; [|done]. destruct Hb as (-> & -> & Hn). injection Hd as <-. split; [done|]. by exists kid.
Qed.

#[export] Instance no_digest : Sha256 := {| digest _ := [1; 2; 3; 4; 5]%N |}.

Definition first_key : TokenKeys := {| current := key_of_secret [1%N]; previous := None |}.
Definition rotated : TokenKeys := {| current := key_of_secret [2%N]; previous := Some (key_of_secret [1%N]) |}.
Definition rotated_twice : TokenKeys := {| current := key_of_secret [3%N]; previous := Some (key_of_secret [2%N]) |}.
Definition noon : clock := Clock (fun _ => 1000%Z) 0.

(** Accepted after one rotation, and not after two, nor for another action. *)
Lemma capability_exact_witness :
  wp (mint_token first_key "ann" "f" Read) (fun r _ => exists token, r = Ok token /\
    wp (verify_token rotated token "f" Read) (fun r _ => r = Ok tt) noon /\
    wp (verify_token rotated token "f" Write) (fun r _ => r <> Ok tt) noon /\
    wp (verify_token rotated_twice token "f" Read) (fun r _ => r <> Ok tt) noon) noon.
Proof.
  eapply wp_mono; [apply (capability_exact first_key "ann" "f" Read noon); unfold now_of, noon; cbn; vm_compute; discriminate|].
  intros r c (token & -> & Ht). exists token. split; [done|].
  assert (readings_le (now_of noon 0 + DEFAULT_TTL_SECS) noon) as Hle by (intros n; cbn; vm_compute; split; discriminate).
  split_and!.
  - destruct (Ht rotated "f" Read noon) as [Hok _]. eapply wp_mono; [by apply Hok|]. intros r c' Hr.
    apply Hr. split; [cbn; set_solver|done].
  - destruct (Ht rotated "f" Write noon) as [Hok _]. eapply wp_mono; [by apply Hok|]. intros r c' Hr Hx.
    apply Hr in Hx as (_ & _ & ?). done.
  - destruct (Ht rotated_twice "f" Read noon) as [Hok _]. eapply wp_mono; [by apply Hok|]. intros r c' Hr Hx.
    apply Hr in Hx as (Hin & _ & _). cbn in Hin. set_solver.
Defined.
End TokenExamples.
