(* ===== verification/Config.v ===== *)
(** Config: the configuration file and its environment overlay
    ([src/src/config.rs]), and what [main.rs] derives from it.

    The default features are modelled, so there is no [rabbitmq] table.  The
    parsing of TOML, with its defaults, and of URLs are parameters; an error is
    the chain of its contexts, the outermost first. *)
From S2P Require Import Prelude.
From S2P Require Import Effects.
From S2P Require Import RustStr.
From S2P Require Import Float64.
From S2P Require Import ObjStore.
From S2P Require Import Lease.
From S2P Require Import FsTypes.
From S2P Require Import Auth.
From S2P Require Import Replica.
From S2P Require Import Token.

Inductive S3Backend : Type := BackendS3 | BackendMemory.
#[export] Instance S3Backend_eq_dec : EqDecision S3Backend.
Proof. solve_decision. Defined.

Record ConfigAuthorization := {
  ca_client_id : string;
  ca_client_secret : string;
  ca_issuer_url : string;
  ca_allowed_tenants : list string;
}.

Record ObservabilityConfig := {
  ob_service_name : string;
  ob_otlp_endpoint : option string;
  ob_sample_ratio : f64;
}.

Definition default_service_name : string := "rust-api".
Definition default_sample_ratio : f64 := f64_of_Z 1.
Definition default_observability : ObservabilityConfig :=
  {| ob_service_name := default_service_name; ob_otlp_endpoint := None; ob_sample_ratio := default_sample_ratio |}.

Record DatabaseConfig := { db_prefix_ : string; db_mirror_master : bool; db_writer_lease_ttl_secs : Z }.

Definition default_db_prefix : string := "oxkv".
Definition default_writer_lease_ttl_secs : Z := DEFAULT_LEASE_TTL_SECS.

Record HttpConfig := { hc_allowed_origins : list string }.
Record LimitsConfig := { lc_rate_per_minute : Z; lc_rate_burst : Z; lc_max_concurrent_downloads : Z }.
Record CapabilityConfig := { cc_secret : option string; cc_previous_secret : option string }.

Record S3Config := {
  sc_backend : S3Backend;
  sc_bucket : string;
  sc_region : string;
  sc_endpoint_url : option string;
  sc_force_path_style : bool;
  sc_access_key_id : option string;
  sc_secret_access_key : option string;
}.

Record Config := {
  public_address : string;
  listen_port : Z;
  authorization : ConfigAuthorization;
  database : DatabaseConfig;
  s3_config : S3Config;
  capability : CapabilityConfig;
  observability : ObservabilityConfig;
  http : HttpConfig;
  limits : LimitsConfig;
}.

Definition ENV_CLIENT_SECRET : string := "RUST_API_CLIENT_SECRET".
Definition ENV_S3_ACCESS_KEY_ID : string := "RUST_API_S3_ACCESS_KEY_ID".
Definition ENV_S3_SECRET_ACCESS_KEY : string := "RUST_API_S3_SECRET_ACCESS_KEY".
Definition ENV_CAPABILITY_SECRET : string := "RUST_API_CAPABILITY_SECRET".
Definition ENV_CAPABILITY_SECRET_PREV : string := "RUST_API_CAPABILITY_SECRET_PREV".
Definition ENV_ALLOWED_ORIGINS : string := "RUST_API_ALLOWED_ORIGINS".

Definition burst_or_rate (l : LimitsConfig) : Z :=
  if bool_decide (lc_rate_burst l = 0)%Z then lc_rate_per_minute l else lc_rate_burst l.

(** ** The overlay *)

Definition prefer_env (env : option string) (file : string) : string :=
  match env with Some v => if bool_decide (v = "") then file else v | None => file end.

Definition prefer_env_opt (env file : option string) : option string :=
  match env with Some v => if bool_decide (v = "") then file else Some v | None => file end.

Definition split_origins (raw : string) : list string :=
  List.filter (fun s => negb (bool_decide (s = ""))) (trim <$> split_char "," raw).

Definition apply_overrides_from (cfg : Config) (var : string -> option string) : Config :=
  {| public_address := public_address cfg; listen_port := listen_port cfg;
     authorization :=
       {| ca_client_id := ca_client_id (authorization cfg);
          ca_client_secret := prefer_env (var ENV_CLIENT_SECRET) (ca_client_secret (authorization cfg));
          ca_issuer_url := ca_issuer_url (authorization cfg); ca_allowed_tenants := ca_allowed_tenants (authorization cfg) |};
     database := database cfg;
     s3_config :=
       {| sc_backend := sc_backend (s3_config cfg); sc_bucket := sc_bucket (s3_config cfg); sc_region := sc_region (s3_config cfg);
          sc_endpoint_url := sc_endpoint_url (s3_config cfg); sc_force_path_style := sc_force_path_style (s3_config cfg);
          sc_access_key_id := prefer_env_opt (var ENV_S3_ACCESS_KEY_ID) (sc_access_key_id (s3_config cfg));
          sc_secret_access_key := prefer_env_opt (var ENV_S3_SECRET_ACCESS_KEY) (sc_secret_access_key (s3_config cfg)) |};
     capability :=
       {| cc_secret := prefer_env_opt (var ENV_CAPABILITY_SECRET) (cc_secret (capability cfg));
          cc_previous_secret := prefer_env_opt (var ENV_CAPABILITY_SECRET_PREV) (cc_previous_secret (capability cfg)) |};
     observability := observability cfg;
     http := match var ENV_ALLOWED_ORIGINS with
             | Some raw => if is_blank raw then http cfg else {| hc_allowed_origins := split_origins raw |}
             | None => http cfg
             end;
     limits := limits cfg |}.

(** ** Validation *)

Class ConfigLib := {
  (** [url.parse::<Url>()]: the scheme *)
  url_parse : string -> result string string;
  toml_from_str : string -> result Config string;
  str_debug : string -> string;
  f64_display : f64 -> string;
}.

Section config.
Context `{!ConfigLib}.

Definition chain : Type := list string.

Definition bail {A} (message : string) : result A chain := Err [message].
Definition with_context {A} (message : string) (r : result A chain) : result A chain := map_err (cons message) r.

(** A [for] loop whose body may return an error. *)
Fixpoint try_each {A} (f : A -> result unit chain) (l : list A) : result unit chain :=
  match l with
  | [] => Ok tt
  | a :: l => match f a with Ok _ => try_each f l | Err e => Err e end
  end.

(** [if c { bail!(..) }] *)
Definition guard (c : bool) (message : string) : result unit chain := if c then bail message else Ok tt.

Definition is_http (scheme : string) : bool := bool_decide (scheme = "http") || bool_decide (scheme = "https").

Definition check_url (named : string * string) : result unit chain :=
  let '(name, url) := named in
  match url_parse url with
  | Err e => bail (name +:+ " is not a valid URL (" +:+ str_debug url +:+ "): " +:+ e)
  | Ok scheme => guard (negb (is_http scheme)) (name +:+ " must use http(s), got " +:+ str_debug scheme)
  end.

Definition check_origin (origin : string) : result unit chain :=
  match url_parse origin with
  | Err e => bail ("http.allowed_origins entry " +:+ str_debug origin +:+ " is not a valid URL: " +:+ e)
  | Ok scheme => guard (negb (is_http scheme))
      ("http.allowed_origins entry " +:+ str_debug origin +:+ " must use http(s), got " +:+ str_debug scheme)
  end.

Definition check_tenants (a : ConfigAuthorization) : result unit chain :=
  if negb (contains_str TENANT_PLACEHOLDER (ca_issuer_url a)) then Ok tt
  else if existsb is_blank (ca_allowed_tenants a) then bail "authorization.allowed_tenants must not contain empty entries"
  else guard (bool_decide (ca_allowed_tenants a = []))
    ("authorization.issuer_url is a multi-tenant template, so authorization.allowed_tenants must list every tenant this deployment " +:+
     "trusts; without it the expected issuer is derived from the token's own tid claim and any consenting tenant would be accepted").

Definition check_prefix (d : DatabaseConfig) : result unit chain :=
  if is_blank (db_prefix_ d) then bail "database.prefix must not be empty"
  else guard (existsb (fun seg => bool_decide (seg = "..") || bool_decide (seg = ".")) (split_char "/" (db_prefix_ d)))
    ("database.prefix must not contain '.' or '..' segments (got " +:+ str_debug (db_prefix_ d) +:+ ")").

Definition check_s3 (s : S3Config) : result unit chain :=
  if bool_decide (sc_backend s = BackendS3) then
    if is_blank (sc_bucket s) then bail "s3.bucket must not be empty" else guard (is_blank (sc_region s)) "s3.region must not be empty"
  else Ok tt.

Definition check_secret (secret : option string) : result unit chain :=
  match secret with
  | Some s => match parse_secret_hex s with Ok _ => Ok tt | Err e => bail e end
  | None => Ok tt
  end.

Definition ratio_ok (x : f64) : bool := f64_leb (f64_of_Z 0) x && f64_leb x (f64_of_Z 1).

(** One after the other, up to the first that fails. *)
Definition validate (cfg : Config) : result unit chain := try_each id
  [try_each check_url [("public_address", public_address cfg); ("authorization.issuer_url", ca_issuer_url (authorization cfg))];
   guard (is_blank (ca_client_id (authorization cfg))) "authorization.client_id must not be empty";
   guard (is_blank (ca_client_secret (authorization cfg)))
        "authorization.client_secret must not be empty (or set RUST_API_CLIENT_SECRET)";
   check_tenants (authorization cfg);
   check_prefix (database cfg);
   guard (bool_decide (i64_max < db_writer_lease_ttl_secs (database cfg))%Z)
        ("database.writer_lease_ttl_secs is " +:+ u64_text (db_writer_lease_ttl_secs (database cfg)) +:+
         ", which is above i64::MAX. The lease compares a record's age against its TTL, and a TTL that large would read as already stale, " +:+
         "so every second writer would take the prefix over from a live holder and the single-writer guarantee would be silently off.");
   check_s3 (s3_config cfg);
   check_secret (cc_secret (capability cfg));
   check_secret (cc_previous_secret (capability cfg));
   guard (negb (ratio_ok (ob_sample_ratio (observability cfg))))
        ("observability.sample_ratio must be within 0.0..=1.0 (got " +:+ f64_display (ob_sample_ratio (observability cfg)) +:+ ")");
   try_each check_origin (hc_allowed_origins (http cfg))].

Definition parse_toml (content : string) : result Config chain :=
  match toml_from_str content with
  | Err e => Err ["Failed to parse config file"; e]
  | Ok config => match with_context "Invalid config values" (validate config) with Ok _ => Ok config | Err e => Err e end
  end.

(** [file]: the content of the path, or why it cannot be read; [None] when the
    path is no file. *)
Definition try_from_with (path : string) (file : option (result string string)) (var : string -> option string) : result Config chain :=
  match file with
  | None => bail ("Given path 'Some(" +:+ str_debug path +:+ ")' is not a file")
  | Some (Err e) => Err ["Failed to read config file"; e]
  | Some (Ok content) =>
      match parse_toml content with
      | Err e => Err e
      | Ok config =>
          let config := apply_overrides_from config var in
          match with_context "Invalid config values" (validate config) with Ok _ => Ok config | Err e => Err e end
      end
  end.

(** ** What the server takes from it *)

Record S3ClientConfig := {
  s3c_bucket : string;
  s3c_region : string;
  s3c_endpoint_url : option string;
  s3c_force_path_style : bool;
  s3c_access_key_id : option string;
  s3c_secret_access_key : option string;
  s3c_backend : S3Backend;
}.

Definition s3_client_config (cfg : Config) : S3ClientConfig :=
  {| s3c_bucket := sc_bucket (s3_config cfg); s3c_region := sc_region (s3_config cfg);
     s3c_endpoint_url := sc_endpoint_url (s3_config cfg); s3c_force_path_style := sc_force_path_style (s3_config cfg);
     s3c_access_key_id := sc_access_key_id (s3_config cfg); s3c_secret_access_key := sc_secret_access_key (s3_config cfg);
     s3c_backend := sc_backend (s3_config cfg) |}.

Definition domain_prefix (db_prefix domain : string) : string := db_prefix +:+ "/" +:+ domain.

(** The root of the stores, and the prefix that one is opened at. *)
Definition db_root (cfg : Config) : string := trim_matches "/" (db_prefix_ (database cfg)).
Definition store_prefix (db_prefix domain : string) : string := trim_matches "/" (domain_prefix db_prefix domain).

Definition resolve_token_keys `{!Sha256} (random : secret) (cfg : Config) : result TokenKeys chain :=
  match cc_secret (capability cfg) with
  | Some cur => map_err (fun e => ["capability secret: " +:+ fs_text e]) (from_hex cur (cc_previous_secret (capability cfg)))
  | None => Ok (ephemeral random)
  end.

(** ** What a loaded configuration is *)

Definition http_url (url : string) : Prop := exists scheme, url_parse url = Ok scheme /\ is_http scheme = true.
Definition secret_ok (s : option string) : Prop := forall t, s = Some t -> is_ok (parse_secret_hex t) = true.

Record config_ok (cfg : Config) : Prop := {
  ok_address : http_url (public_address cfg);
  ok_issuer : http_url (ca_issuer_url (authorization cfg));
  ok_client_id : is_blank (ca_client_id (authorization cfg)) = false;
  ok_client_secret : is_blank (ca_client_secret (authorization cfg)) = false;
  ok_tenants : contains_str TENANT_PLACEHOLDER (ca_issuer_url (authorization cfg)) = true ->
    ca_allowed_tenants (authorization cfg) <> [] /\ Forall (fun t => is_blank t = false) (ca_allowed_tenants (authorization cfg));
  ok_prefix : is_blank (db_prefix_ (database cfg)) = false;
  ok_segments : Forall (fun seg => seg <> ".." /\ seg <> ".") (split_char "/" (db_prefix_ (database cfg)));
  ok_ttl : (db_writer_lease_ttl_secs (database cfg) <= i64_max)%Z;
  ok_s3 : sc_backend (s3_config cfg) = BackendS3 ->
    is_blank (sc_bucket (s3_config cfg)) = false /\ is_blank (sc_region (s3_config cfg)) = false;
  ok_secret : secret_ok (cc_secret (capability cfg));
  ok_previous : secret_ok (cc_previous_secret (capability cfg));
  ok_ratio : ratio_ok (ob_sample_ratio (observability cfg)) = true;
  ok_origins : Forall http_url (hc_allowed_origins (http cfg));
}.

Lemma try_each_ok {A} (f : A -> result unit chain) l : try_each f l = Ok tt <-> Forall (fun a => f a = Ok tt) l.
Proof.
  induction l as [|a l IH]; [done|]. cbn. rewrite Forall_cons, <- IH. destruct (f a) as [[]|e]; split; [done|by intros []|done|by intros []].
Qed.

Lemma guard_ok b m : guard b m = Ok tt <-> b = false.
Proof. by destruct b. Qed.

Lemma check_url_ok name url : check_url (name, url) = Ok tt <-> http_url url.
Proof.
  unfold check_url, http_url. destruct (url_parse url) as [scheme|e]; [|by split; [|intros (? & ? & _)]].
  rewrite guard_ok, negb_false_iff. split; [eauto|by intros (? & [= <-] & ?)].
Qed.

Lemma check_origin_ok url : check_origin url = Ok tt <-> http_url url.
Proof.
  unfold check_origin, http_url. destruct (url_parse url) as [scheme|e]; [|by split; [|intros (? & ? & _)]].
  rewrite guard_ok, negb_false_iff. split; [eauto|by intros (? & [= <-] & ?)].
Qed.

Lemma check_secret_ok s : check_secret s = Ok tt <-> secret_ok s.
Proof.
  unfold secret_ok, check_secret. destruct s as [s|]; [|by split]. destruct (parse_secret_hex s) eqn:E; split; try done.
  - intros _ t [= <-]. by rewrite E.
  - intros Hs. specialize (Hs s eq_refl). by rewrite E in Hs.
Qed.

Lemma existsb_false {A} (f : A -> bool) l : existsb f l = false <-> Forall (fun a => f a = false) l.
Proof. induction l as [|a l IH]; [done|]. cbn. by rewrite Forall_cons, orb_false_iff, IH. Qed.

Lemma check_tenants_ok a : check_tenants a = Ok tt <-> (contains_str TENANT_PLACEHOLDER (ca_issuer_url a) = true ->
  ca_allowed_tenants a <> [] /\ Forall (fun t => is_blank t = false) (ca_allowed_tenants a)).
Proof.
  unfold check_tenants. destruct (contains_str _ _); cbn; [|by split]. rewrite <- existsb_false.
  destruct (existsb is_blank _); [split; [done|by intros []]|]. rewrite guard_ok, bool_decide_eq_false. tauto.
Qed.

Lemma check_prefix_ok d : check_prefix d = Ok tt <-> is_blank (db_prefix_ d) = false /\
  Forall (fun seg => seg <> ".." /\ seg <> ".") (split_char "/" (db_prefix_ d)).
Proof.
  unfold check_prefix. destruct (is_blank _); [by split; [|intros []]|]. rewrite guard_ok, existsb_false, !Forall_forall.
  split.
  - intros Hs. split; [done|]. intros seg Hin. specialize (Hs seg Hin). split; intros ->; by vm_compute in Hs.
  - intros [_ Hs] seg Hin. destruct (Hs seg Hin). by rewrite !bool_decide_false.
Qed.

Lemma check_s3_ok s : check_s3 s = Ok tt <->
  (sc_backend s = BackendS3 -> is_blank (sc_bucket s) = false /\ is_blank (sc_region s) = false).
Proof.
  unfold check_s3. case_bool_decide as Hb; [|by split]. destruct (is_blank (sc_bucket s)); rewrite ?guard_ok.
  - split; [done|]. intros Hs. by destruct (Hs Hb).
  - split; [done|]. intros Hs. by destruct (Hs Hb).
Qed.

(** The validation accepts exactly the configurations that are well formed. *)
Lemma validate_ok cfg : validate cfg = Ok tt <-> config_ok cfg.
Proof.
  unfold validate. rewrite try_each_ok, !Forall_cons, Forall_nil. unfold id.
  rewrite !guard_ok, !try_each_ok, !Forall_cons, Forall_nil, !check_url_ok, check_tenants_ok, check_prefix_ok, check_s3_ok,
    !check_secret_ok, bool_decide_eq_false, negb_false_iff, Z.nlt_ge, (Forall_iff _ _ _ check_origin_ok).
  split; [intros Hs; destruct_and! Hs; by constructor|intros []; tauto].
Qed.

(** ** The loader *)

Lemma from_hex_ok `{!Sha256} cur prev : is_ok (parse_secret_hex cur) = true -> secret_ok prev -> is_ok (from_hex cur prev) = true.
Proof.
  intros Hc Hp. unfold from_hex. destruct (parse_secret_hex cur) as [k|e]; [|done]. cbn [map_err].
  destruct prev as [p|]; [|done]. specialize (Hp p eq_refl). by destruct (parse_secret_hex p).
Qed.

(** The secrets of a configuration, by the variable that overrides each. *)
Definition secret_of (cfg : Config) (name : string) : option string :=
  if bool_decide (name = ENV_CLIENT_SECRET) then Some (ca_client_secret (authorization cfg))
  else if bool_decide (name = ENV_S3_ACCESS_KEY_ID) then sc_access_key_id (s3_config cfg)
  else if bool_decide (name = ENV_S3_SECRET_ACCESS_KEY) then sc_secret_access_key (s3_config cfg)
  else if bool_decide (name = ENV_CAPABILITY_SECRET) then cc_secret (capability cfg)
  else cc_previous_secret (capability cfg).

Definition secret_vars : list string :=
  [ENV_CLIENT_SECRET; ENV_S3_ACCESS_KEY_ID; ENV_S3_SECRET_ACCESS_KEY; ENV_CAPABILITY_SECRET; ENV_CAPABILITY_SECRET_PREV].

Lemma secret_overlaid cfg var name : name ∈ secret_vars ->
  secret_of (apply_overrides_from cfg var) name = prefer_env_opt (var name) (secret_of cfg name).
Proof.
  unfold secret_vars. rewrite !elem_of_cons, elem_of_nil. intros [->|[->|[->|[->|[->|[]]]]]]; try reflexivity.
  change (Some (prefer_env (var ENV_CLIENT_SECRET) (ca_client_secret (authorization cfg))) =
    prefer_env_opt (var ENV_CLIENT_SECRET) (Some (ca_client_secret (authorization cfg)))).
  unfold prefer_env, prefer_env_opt. destruct (var ENV_CLIENT_SECRET) as [v|]; [|done]. by case_bool_decide.
Qed.

(** A configuration with its secrets and its allowed origins taken out. *)
Definition erased (cfg : Config) : Config :=
  {| public_address := public_address cfg; listen_port := listen_port cfg;
     authorization := {| ca_client_id := ca_client_id (authorization cfg); ca_client_secret := "";
       ca_issuer_url := ca_issuer_url (authorization cfg); ca_allowed_tenants := ca_allowed_tenants (authorization cfg) |};
     database := database cfg;
     s3_config := {| sc_backend := sc_backend (s3_config cfg); sc_bucket := sc_bucket (s3_config cfg); sc_region := sc_region (s3_config cfg);
       sc_endpoint_url := sc_endpoint_url (s3_config cfg); sc_force_path_style := sc_force_path_style (s3_config cfg);
       sc_access_key_id := None; sc_secret_access_key := None |};
     capability := {| cc_secret := None; cc_previous_secret := None |};
     observability := observability cfg; http := {| hc_allowed_origins := [] |}; limits := limits cfg |}.

Definition origins_of (cfg : Config) : list string := hc_allowed_origins (http cfg).

(** The origins that a comma-separated text names. *)
Definition named_origins (raw : string) : list string :=
  omap (fun s => if decide (trim s = "") then None else Some (trim s)) (split_char "," raw).

Lemma split_origins_named raw : split_origins raw = named_origins raw.
Proof.
  unfold split_origins, named_origins. induction (split_char "," raw) as [|s l IH]; [done|]. cbn. rewrite IH.
  case_bool_decide; cbn; by case_decide.
Qed.

(** C35: what the loader returns is well formed, and the server can make its token
    keys from it.  It is the file's document, which was well formed itself, with
    each of the five secrets replaced by its variable where that one is set and
    not empty, with the allowed origins replaced by those that their variable
    names where that one is set and not blank, and with everything else left
    alone. *)
Theorem loaded_well_formed `{!Sha256} path content var random cfg :
  try_from_with path (Some (Ok content)) var = Ok cfg ->
  config_ok cfg /\ is_ok (resolve_token_keys random cfg) = true /\
  exists file, toml_from_str content = Ok file /\ config_ok file /\
    (forall name, name ∈ secret_vars ->
       (forall v, var name = Some v -> v <> "" -> secret_of cfg name = Some v) /\
       (var name = None \/ var name = Some "" -> secret_of cfg name = secret_of file name)) /\
    (forall raw, var ENV_ALLOWED_ORIGINS = Some raw -> is_blank raw = false -> origins_of cfg = named_origins raw) /\
    (var ENV_ALLOWED_ORIGINS = None \/ (exists raw, var ENV_ALLOWED_ORIGINS = Some raw /\ is_blank raw = true) ->
       origins_of cfg = origins_of file) /\
    erased cfg = erased file.
Proof.
  unfold try_from_with, parse_toml. destruct (toml_from_str content) as [file|e]; [|done].
  destruct (validate file) as [[]|e] eqn:Ef; [|done]. cbn [with_context map_err].
  destruct (validate (apply_overrides_from file var)) as [[]|e] eqn:Ev; [|done]. cbn [with_context map_err]. intros [= <-].
  apply validate_ok in Ef, Ev. split; [done|]. split.
  - unfold resolve_token_keys. destruct (cc_secret _) as [cur|] eqn:Ec; [|done].
    pose proof (from_hex_ok cur _ (ok_secret _ Ev cur Ec) (ok_previous _ Ev)) as Hk.
    by destruct (from_hex cur _).
  - exists file. split; [done|]. split; [done|]. split; [|split; [|split; [|done]]].
    + intros name Hin. rewrite secret_overlaid by done. unfold prefer_env_opt. split.
      * intros v -> Hv. by rewrite bool_decide_eq_false_2.
      * by intros [-> | ->].
    + intros raw Hv Hb. unfold origins_of. cbn [apply_overrides_from http]. rewrite Hv, Hb. apply split_origins_named.
    + unfold origins_of. cbn [apply_overrides_from http]. by intros [-> | (raw & -> & ->)].
Qed.

(** A secret cannot be kept out of the file: a document whose client secret is
    blank is refused before the environment is looked at. *)
Lemma file_secret_required path content var file : toml_from_str content = Ok file ->
  is_blank (ca_client_secret (authorization file)) = true -> is_ok (try_from_with path (Some (Ok content)) var) = false.
Proof.
  intros Hf Hb. unfold try_from_with, parse_toml. rewrite Hf. destruct (validate file) as [[]|e] eqn:Ef; [|done].
  apply validate_ok in Ef. pose proof (ok_client_secret _ Ef). congruence.
Qed.
End config.

(** ** Evaluated *)

Module ConfigExamples.

Definition minimal (prefix secret : string) : Config :=
  {| public_address := "https://api.test"; listen_port := 8080;
     authorization := {| ca_client_id := "id"; ca_client_secret := secret; ca_issuer_url := "https://idp.test"; ca_allowed_tenants := [] |};
     database := {| db_prefix_ := prefix; db_mirror_master := false; db_writer_lease_ttl_secs := default_writer_lease_ttl_secs |};
     s3_config := {| sc_backend := BackendS3; sc_bucket := "b"; sc_region := "r"; sc_endpoint_url := None;
                     sc_force_path_style := false; sc_access_key_id := None; sc_secret_access_key := None |};
     capability := {| cc_secret := None; cc_previous_secret := None |};
     observability := default_observability; http := {| hc_allowed_origins := [] |};
     limits := {| lc_rate_per_minute := 0; lc_rate_burst := 0; lc_max_concurrent_downloads := 0 |} |}.

Definition lib : ConfigLib := {|
  url_parse u := match split_once_str "://" u with Some (scheme, _) => Ok scheme | None => Err "relative URL without a base" end;
  toml_from_str t := Ok (minimal t "from-file");
  str_debug s := s;
  f64_display _ := "";
|}.
#[local] Existing Instance lib.

Definition env (name : string) : option string := if bool_decide (name = ENV_CLIENT_SECRET) then Some "from-env" else None.

Definition sha : Sha256 := {| digest _ := [] |}.
#[local] Existing Instance sha.

Lemma loaded_well_formed_witness :
  exists cfg, try_from_with "config.toml" (Some (Ok "oxkv")) env = Ok cfg /\ config_ok cfg /\
    secret_of cfg ENV_CLIENT_SECRET = Some "from-env".
Proof.
  exists (apply_overrides_from (minimal "oxkv" "from-file") env). split; [vm_compute; reflexivity|]. split.
  - apply (loaded_well_formed "config.toml" "oxkv" env []). vm_compute. reflexivity.
  - vm_compute. reflexivity.
Defined.

(** The prefix is checked before its slashes are taken off. *)
Lemma slash_prefix_accepted : validate (minimal "/" "s") = Ok tt /\ db_root (minimal "/" "s") = "".
Proof. split; vm_compute; reflexivity. Qed.
End ConfigExamples.
