(* ===== verification/Command.v ===== *)
(** Command: the program's subcommands ([src/src/main.rs]).  [policy export] and
    [policy import] run as tasks over the lease's store, the policy store and the
    local files.  The opening of a store is a parameter with its laws; printing
    is left out, and so is the time limit on the release of the lease. *)
From S2P Require Import Prelude.
From S2P Require Import Effects.
From S2P Require Import RustStr.
From S2P Require Import Kv.
From S2P Require Import ObjStore.
From S2P Require Import Lease.
From S2P Require Import FsTypes.
From S2P Require Import FsObjects.
From S2P Require Import Policy.
From S2P Require Import PolicyAdmin.
From S2P Require Import Config.

(** ** The world of a command *)

Record host_world (E F D : Type) := HostWorld { hw_policy : policy_world E F; hw_disk : D }.
Arguments HostWorld {E F D} _ _.
Arguments hw_policy {E F D} _.
Arguments hw_disk {E F D} _.

Record command_world (S E F D : Type) := CommandWorld { cw_lease : Lease.world S; cw_host : host_world E F D }.
Arguments CommandWorld {S E F D} _ _.
Arguments cw_lease {S E F D} _.
Arguments cw_host {S E F D} _.

#[export] Instance policy_lens {E F D} : Lens (policy_world E F) (host_world E F D) :=
  {| view := hw_policy; upd p w := HostWorld p (hw_disk w) |}.
#[export] Instance policy_lens_laws {E F D} : LensLaws (policy_world E F) (host_world E F D).
Proof. by split; intros; destruct w. Qed.
#[export] Instance disk_lens {E F D} : Lens D (host_world E F D) :=
  {| view := hw_disk; upd d w := HostWorld (hw_policy w) d |}.
#[export] Instance lease_lens {S E F D} : Lens (Lease.world S) (command_world S E F D) :=
  {| view := cw_lease; upd l w := CommandWorld l (cw_host w) |}.
#[export] Instance lease_lens_laws {S E F D} : LensLaws (Lease.world S) (command_world S E F D).
Proof. by split; intros; destruct w. Qed.
#[export] Instance host_lens {S E F D} : Lens (host_world E F D) (command_world S E F D) :=
  {| view := cw_host; upd h w := CommandWorld (cw_lease w) h |}.
#[export] Instance host_lens_laws {S E F D} : LensLaws (host_world E F D) (command_world S E F D).
Proof. by split; intros; destruct w. Qed.

(** [std::fs::read] and [std::fs::write] *)
Class Files (D : Type) := {
  fs_read : string -> act D (result bytes string);
  fs_write : string -> bytes -> act D (result unit string);
}.

Class FilesLaws (D : Type) `{!Files D} := {
  disk_up : D -> Prop;
  files : D -> gmap string bytes;
  fs_read_law p d : wp (fs_read p) (fun r d' => files d' = files d /\
    (disk_up d -> disk_up d' /\ forall b, files d !! p = Some b -> r = Ok b)) d;
  fs_write_law p b d : wp (fs_write p b) (fun r d' =>
    (disk_up d -> disk_up d' /\ r = Ok tt /\ files d' = <[p := b]> (files d))) d;
}.

(** [build_s3_store] of a domain, and [Enforcer::new] on the policy store: the
    enforcer of the world stands for the store's rules. *)
Class StoreHost (E F : Type) := {
  sh_build : S3ClientConfig -> string -> act (policy_world E F) (result unit string);
  sh_enforcer : act (policy_world E F) (result unit string);
}.

(** Opening a store that answers changes none of its rows. *)
Class StoreHostLaws (E F : Type) `{!Enforcer E, !EnforcerSets E, !ChangeSink F, !SinkLaws F, !StoreHost E F} := {
  sh_build_law c p w : admin_up w -> wp (sh_build c p) (fun r w' => r = Ok tt /\ w' = w) w;
  sh_enforcer_law w : admin_up w -> wp sh_enforcer (fun r w' => r = Ok tt /\ w' = w) w;
}.

Inductive PolicyAction : Type :=
| Export (config out : string)
| Import (config input : string).

Definition policy_action_name (action : PolicyAction) : string :=
  match action with Export _ _ => "policy export" | Import _ _ => "policy import" end.

Definition action_file (action : PolicyAction) : string := match action with Export _ f | Import _ f => f end.

Definition i64_text (z : Z) : string := if bool_decide (z < 0)%Z then "-" +:+ u64_text (- z) else u64_text z.

Section command.
Context {S G E F D : Type} `{!ObjectStore S G} `{!Serde LeaseRecord} `{!ObjText}.
Context `{!Enforcer E} `{!ChangeSink F} `{!StoreHost E F} `{!Files D} `{!Serde PolicyDump} `{!ConfigLib}.
Context (casbin_text : CasbinError -> string).

#[local] Abbreviation W := (command_world S E F D).

(** ** The work of a command *)

#[local] Abbreviation work := (prog (host_world E F D)).

Definition host_call {A} (m : act (policy_world E F) (result A string)) : work (result A chain) :=
  map_errM (fun e => [e]) (atomically (zoom m)).

(** [.with_context(..)] on the answer of a task. *)
Definition context {A} (message : string) (p : work (result A string)) : work (result A chain) :=
  map_errM (fun e => [message; e]) p.

(** The enforcer that [export_s3] opens. *)
Definition open_enforcer : work (result E string) :=
  atomically (zoom (fun w : policy_world E F => let '(r, w') := sh_enforcer w in
    (match r with Ok _ => Ok (enforcer w') | Err e => Err e end, w'))).

Definition export_policy (s3_cfg : S3ClientConfig) (db_prefix out : string) : work (result unit chain) :=
  _ <-? host_call (sh_build s3_cfg (domain_prefix db_prefix "policy"));
  opened ← open_enforcer;
  dump <-? context "failed to open policy store" (mret (export_s3 opened));
  body <-? context "serialize policy dump" (mret (to_vec dump));
  map_errM (fun e => [e]) (atomically (zoom (fs_write out body))).

Definition import_policy (s3_cfg : S3ClientConfig) (db_prefix input : string) : work (result unit chain) :=
  _ <-? host_call (sh_build s3_cfg (domain_prefix db_prefix "policy"));
  _ <-? host_call (sh_build s3_cfg (domain_prefix db_prefix "wal"));
  body <-? context ("read " +:+ input) (atomically (zoom (fs_read input)));
  dump <-? context "parse policy dump" (mret (from_slice body));
  _ <-? context "failed to open policy store" (atomically (zoom sh_enforcer));
  _ <-? map_errM (fun e => [e]) (zoom_prog (import_s3 true casbin_text dump));
  mret (Ok tt).

(** ** The lease around it *)

#[local] Abbreviation task := (prog W).

(** [LeaseError]'s [Display] *)
Definition lease_text (e : LeaseError) : string :=
  match e with
  | LeaseHeld prefix instance pid age ttl wait =>
      "another writer already holds " +:+ str_debug prefix +:+ ": instance " +:+ str_debug instance +:+
      " (pid " +:+ u64_text pid +:+ ") last renewed " +:+ i64_text age +:+ "s ago, ttl " +:+ u64_text ttl +:+
      "s. Refusing to start: two writers on one `[database].prefix` silently diverge. Stop the other process, or wait " +:+
      i64_text wait +:+ "s for its lease to go stale (or raise `[database].writer_lease_ttl_secs`)."
  | LeaseCorrupt prefix detail =>
      "writer lease at " +:+ str_debug prefix +:+ " is corrupt (" +:+ detail +:+ "); refusing to guess who owns it"
  | LeaseIo prefix source => "writer lease I/O failed for " +:+ str_debug prefix +:+ ": " +:+ obj_text source
  end.

Definition lease_refused_message (purpose db_prefix : string) : string :=
  "cannot run `" +:+ purpose +:+ "`: it opens a second writer handle on [database].prefix " +:+ str_debug db_prefix +:+
  ", which fences the process already writing there until it restarts. Stop it first, or wait for its lease to go stale.".

Definition enforced (s3_cfg : S3ClientConfig) (ttl : Z) : bool :=
  negb (bool_decide (ttl = 0%Z) || bool_decide (s3c_backend s3_cfg = BackendMemory)).

(** [claim_writer_lease] with the opening of its store, [built], and the
    context of a refusal; [None] when enforcement is off. *)
Definition claim_lease (built : result unit string) (me : Process) (s3_cfg : S3ClientConfig) (db_prefix : string)
    (ttl : Z) (purpose : string) : task (result (option (WriterLease * Z)) chain) :=
  _ <-? mret (if enforced s3_cfg ttl
              then map_err (fun e => ["build object store for the single-writer lease"; e]) built else Ok tt);
  map_errM (fun e => [lease_refused_message purpose db_prefix; lease_text e])
    (zoom_prog (claim_writer_lease (bool_decide (s3c_backend s3_cfg = BackendMemory)) me db_prefix ttl)).

(** What the command does once it holds the lease. *)
Definition command_work (cfg : Config) (action : PolicyAction) : work (result unit chain) :=
  let file := action_file action in
  match action with
  | Export _ _ => export_policy (s3_client_config cfg) (db_root cfg) file
  | Import _ _ => import_policy (s3_client_config cfg) (db_root cfg) file
  end.

(** The work of a command, and the release of its lease; the renewal task of
    the guard was due [due] times while the command worked. *)
Definition run_policy_command (cfg : result Config chain) (built : result unit string) (me : Process) (due : nat)
    (action : PolicyAction) : task (result unit chain) :=
  let purpose := policy_action_name action in
  cfg <-? mret cfg;
  let s3_cfg := s3_client_config cfg in
  let db_prefix := db_root cfg in
  guard <-? claim_lease built me s3_cfg db_prefix (db_writer_lease_ttl_secs (database cfg)) purpose;
  r ← zoom_prog (command_work cfg action);
  _ ← match guard with
      | Some (lease, _) => _ ← zoom_prog (renewer (replicate due RenewTick ++ [Shutdown]) lease); mret tt
      | None => mret tt
      end;
  mret r.

Context `{!ObjectStoreLaws S G} `{!SerdeLaws LeaseRecord}.

(** C21: a command works under the lease or not at all.  On a lease store that
    answers, where enforcement is on, the object at the lease's path decides: a
    live record of another process, or one that cannot be read, refuses the
    command, which then opens no store, touches no file and leaves the record
    alone; otherwise the command answers what its work answers, its failures
    included, has done to the stores and files what the work does, and leaves
    the prefix free for the next process, however often the lease was renewed. *)
Theorem command_guarded cfg me due action (w : W) :
  let path := lease_path (trim_matches "/" (db_root cfg)) in
  let ttl := db_writer_lease_ttl_secs (database cfg) in
  let l := cw_lease w in
  os_inv (store l) -> os_up (store l) -> enforced (s3_client_config cfg) ttl = true ->
  wp (run (run_policy_command (Ok cfg) (Ok tt) me due action)) (fun r w' =>
    match acquire_result me (trim_matches "/" (db_root cfg)) ttl (reading (clk l) (ticks (clk l))) (data l !! path) with
    | Err e => r = Err [lease_refused_message (policy_action_name action) (db_root cfg); lease_text e] /\
        cw_host w' = cw_host w /\ data (cw_lease w') = data l
    | Ok _ => run (command_work cfg action) (cw_host w) = (r, cw_host w') /\
        data (cw_lease w') = delete path (data l)
    end) w.
Proof.
  intros path ttl l Hi Hu Hen. unfold run_policy_command, claim_lease. apply wp_run_bindR, wp_ret. cbn zeta.
  fold ttl. rewrite Hen. cbn [map_err]. apply wp_run_bindR, wp_run_bindR, wp_ret, wp_run_bind, (wp_zoom_prog (H := lease_lens)).
  unfold claim_writer_lease. unfold enforced in Hen. apply negb_true_iff in Hen. rewrite Hen. apply wp_run_bindR.
  change (view w) with l. eapply wp_mono; [by apply wp_acquire|]. cbn zeta. fold path. intros out l1 (Hi1 & Hu1 & Hout).
  destruct (acquire_result _ _ _ _ _) as [rec|e] eqn:Er.
  2: { destruct Hout as [-> Hd]. cbn [map_err]. by apply wp_ret. }
  destruct Hout as [-> (b & v & Hd & Hb)]. apply wp_ret. cbn [map_err]. apply wp_ret.
  apply wp_run_bind, (wp_zoom_prog (H := host_lens)), wp_intro. intros r h Hwork. cbn [view host_lens cw_host upd lease_lens] in Hwork.
  apply wp_run_bind, wp_run_bind, (wp_zoom_prog (H := lease_lens)). cbn [view lease_lens cw_lease upd host_lens].
  eapply wp_mono; [apply wp_renewals; [done..|]|].
  - cbn. rewrite Hd, lookup_insert_eq. intros b' v' [= <- <-]. by exists rec.
  - intros l2 w2 (_ & _ & Hd2). apply wp_ret, wp_ret. cbn. split; [done|]. by rewrite Hd2, Hd, delete_insert_eq.
Qed.

(** ** A dump carries over *)

Section carried.
Context `{!EnforcerSets E} `{!SinkLaws F} `{!StoreHostLaws E F} `{!FilesLaws D} `{!SerdeLaws PolicyDump}.

#[local] Abbreviation HW := (host_world E F D).

(** The stores and the disk answer. *)
Definition host_up (h : HW) : Prop := admin_up (hw_policy h) /\ disk_up (hw_disk h).

Definition rules_of (h : HW) : PolicyDump :=
  {| dump_p := ef_policy (enforcer (hw_policy h)); dump_g := ef_grouping (enforcer (hw_policy h)) |}.

Lemma wp_host_build c p Q (h : HW) : host_up h -> Q (Ok tt) h -> wp (run (host_call (sh_build c p))) Q h.
Proof.
  intros [Hp Hd] HQ. apply wp_run_bind, wp_run_atomically, (wp_zoom (H := policy_lens)).
  eapply wp_mono; [by apply sh_build_law|]. intros r w' [-> ->]. apply wp_ret. by destruct h.
Qed.

Lemma wp_export c prefix out Q (h : HW) : host_up h ->
  (forall d body, disk_up d -> files d = <[out := body]> (files (hw_disk h)) -> from_slice body = Ok (rules_of h) ->
    Q (Ok tt) (HostWorld (hw_policy h) d)) ->
  wp (run (export_policy c prefix out)) Q h.
Proof.
  intros Hh HQ. unfold export_policy. apply wp_run_bindR, wp_host_build; [done|].
  apply wp_run_bind, wp_run_atomically, (wp_zoom (H := policy_lens)). unfold wp at 1. cbn [view policy_lens].
  pose proof (sh_enforcer_law (hw_policy h) (proj1 Hh)) as He. unfold wp in He. destruct (sh_enforcer (hw_policy h)) as [r w'].
  destruct He as [-> ->]. cbn [export_s3]. apply wp_run_bindR, wp_ret. destruct (to_vec_ok (rules_of h)) as [body Hb].
  cbn [map_err]. fold (rules_of h). rewrite Hb. apply wp_run_bindR, wp_ret.
  apply wp_run_bind, wp_run_atomically, (wp_zoom (H := disk_lens)). eapply wp_mono; [apply fs_write_law|].
  intros r d Hup. destruct (Hup (proj2 Hh)) as (Hd & -> & Hfiles). apply wp_ret. apply (HQ d body); [done..|by apply from_to].
Qed.

Lemma wp_import_policy c prefix input body d Q (h : HW) : host_up h ->
  files (hw_disk h) !! input = Some body -> from_slice body = Ok d -> good_dump d ->
  (forall h' r, imported true d (hw_policy h) (hw_policy h') r -> Q (Ok tt) h') ->
  wp (run (import_policy c prefix input)) Q h.
Proof.
  intros Hh Hf Hb Hg HQ. unfold import_policy. do 2 (apply wp_run_bindR, wp_host_build; [done|]).
  apply wp_run_bindR, wp_run_bind, wp_run_atomically, (wp_zoom (H := disk_lens)). eapply wp_mono; [apply fs_read_law|].
  intros r dk (_ & Hup). destruct (Hup (proj2 Hh)) as [Hd Hr]. rewrite (Hr body Hf). apply wp_ret, wp_run_bindR, wp_ret.
  rewrite Hb. cbn [map_err]. apply wp_run_bindR, wp_run_bind, wp_run_atomically, (wp_zoom (H := policy_lens)).
  eapply wp_mono; [apply sh_enforcer_law, Hh|]. intros r0 w0 [-> ->]. apply wp_ret.
  apply wp_run_bindR, wp_run_bind, (wp_zoom_prog (H := policy_lens)). apply wp_import; [apply Hh|done|].
  intros w' rep Hi. apply wp_ret, wp_ret. by apply (HQ _ rep).
Qed.

(** C27: a dump carries a policy over, when its rules have three fields and its
    links two and no field holds U+001F, the separator of the fields in a key.  On
    stores and a disk that answer, an export leaves the policy alone and succeeds,
    and an import of its file, into any policy store that answers, succeeds too:
    the rules and links are then exactly those of both stores, and the feed of the
    target is told of each rule and link that is new to it, once and in the order
    of the dump, so that importing into a store that has them all tells nothing. *)
Theorem dump_roundtrip cfg cfg' conf conf' file (h : HW) : host_up h -> good_dump (rules_of h) ->
  wp (run (command_work cfg (Export conf file))) (fun r h1 => r = Ok tt /\ rules_of h1 = rules_of h /\
    forall p2, admin_up p2 -> wp (run (command_work cfg' (Import conf' file))) (fun r h2 =>
      let e := enforcer (hw_policy h2) in
      r = Ok tt /\
      (forall x, x ∈ ef_policy e <-> x ∈ dump_p (rules_of h) \/ x ∈ ef_policy (enforcer p2)) /\
      (forall x, x ∈ ef_grouping e <-> x ∈ dump_g (rules_of h) \/ x ∈ ef_grouping (enforcer p2)) /\
      sink_ops (pw_feed (hw_policy h2)) = sink_ops (pw_feed p2) ++
        map rule_op (PolicyAdmin.fresh (ef_policy (enforcer p2)) (dump_p (rules_of h))) ++
        map link_op (PolicyAdmin.fresh (ef_grouping (enforcer p2)) (dump_g (rules_of h))))
      (HostWorld p2 (hw_disk h1))) h.
Proof.
  intros Hh Hg. cbn [command_work action_file]. apply wp_export; [done|]. intros d body Hd Hf Hb. split; [done|]. split; [done|].
  intros p2 Hp2. eapply (wp_import_policy _ _ _ body); [done|by cbn; rewrite Hf, lookup_insert_eq|done..|].
  intros h2 rep [_ Hpol Hgr _ Ht]. cbn zeta. by split_and!.
Qed.
End carried.
End command.
