(* ===== verification/CommandExamples.v ===== *)
(** CommandExamples: the subcommands on concrete stores. *)
From S2P Require Import Prelude.
From S2P Require Import Effects.
From S2P Require Import RustStr.
From S2P Require Import Kv.
From S2P Require Import ObjStore.
From S2P Require Import Lease.
From S2P Require Import FsTypes.
From S2P Require Import FsObjects.
From S2P Require Import Policy.
From S2P Require Import Adapter.
From S2P Require Import AdapterRules.
From S2P Require Import PolicyAdmin.
From S2P Require Import Config.
From S2P Require Import Command.

Module CommandExamples.
Import PolicyExamples ConfigExamples.
#[local] Existing Instances MemStore.os MemStore.laws lib.

#[local] Instance lease_serde : Serde LeaseRecord := CountableSerde.serde LeaseRecord.
#[local] Instance lease_serde_laws : SerdeLaws LeaseRecord := CountableSerde.serde_laws LeaseRecord.

#[export] Instance PolicyDump_eq_dec : EqDecision PolicyDump.
Proof. solve_decision. Defined.
#[export] Instance PolicyDump_countable : Countable PolicyDump.
Proof.
  refine (inj_countable' (fun d => (dump_p d, dump_g d)) (fun '(p, g) => {| dump_p := p; dump_g := g |}) _).
  by intros [].
Defined.
#[local] Instance dump_serde : Serde PolicyDump := CountableSerde.serde PolicyDump.
#[local] Instance dump_serde_laws : SerdeLaws PolicyDump := CountableSerde.serde_laws PolicyDump.

#[local] Instance texts : ObjText := {| obj_text _ := "io" |}.

(** The enforcer in memory keeps sets. *)
Lemma wp_add_new r l : (add_new r l).1 = negb (bool_decide (r ∈ l)) /\ forall x, x ∈ (add_new r l).2 <-> x = r \/ x ∈ l.
Proof.
  unfold add_new. case_bool_decide as Hr; cbn; (split; [done|]); intros x.
  - split; [by right|]. by intros [->|].
  - rewrite elem_of_app, list_elem_of_singleton. tauto.
Qed.

#[export] Instance mem_sets : EnforcerSets mem.
Proof.
  refine {| es_up := fun _ => True |}; intros r e _ _; unfold wp; cbn; unfold on_policy, on_grouping;
    [pose proof (wp_add_new r (policy e)) as H|pose proof (wp_add_new r (grouping e)) as H];
    destruct (add_new r _) as [b l]; destruct H as [Hb Hx]; cbn in *; by subst b.
Defined.

#[export] Instance list_sink_laws : SinkLaws (list WalOp).
Proof. refine {| sink_up := fun _ => True; sink_ops := fun l => l |}. by intros op f _. Defined.

(** Stores that open, and a disk in memory. *)
#[export] Instance open_host : StoreHost mem (list WalOp) := {| sh_build _ _ := fun w => (Ok tt, w); sh_enforcer := fun w => (Ok tt, w) |}.
#[export] Instance open_host_laws : StoreHostLaws mem (list WalOp).
Proof. by split. Defined.

#[export] Instance disk : Files (gmap string bytes) := {|
  fs_read p := fun d => (match d !! p with Some b => Ok b | None => Err "No such file or directory" end, d);
  fs_write p b := fun d => (Ok tt, <[p := b]> d);
|}.
#[export] Instance disk_laws : FilesLaws (gmap string bytes).
Proof.
  refine {| disk_up := fun _ => True; files := fun d => d |}.
  - intros p d. unfold wp. cbn. split; [done|]. intros _. split; [done|]. by intros b ->.
  - by intros p b d.
Defined.

Definition cfg : Config := minimal "/db/" "s".
Definition source : policy_world mem (list WalOp) :=
  PolicyWorld (Mem [["team"; "docs:7"; "read"]] [["bob"; "team"]]) new_latch [].
Definition target : policy_world mem (list WalOp) :=
  PolicyWorld (Mem [] [["bob"; "team"]; ["ann"; "admins"]]) new_latch [].
Definition source_host : host_world mem (list WalOp) (gmap string bytes) := HostWorld source ∅.

Definition at_lease (s : MemStore.store) : command_world MemStore.store mem (list WalOp) (gmap string bytes) :=
  CommandWorld (World s (Clock (fun _ => 100%Z) 0)) source_host.

(** A free prefix: the dump is written, and the prefix is free again. *)
Lemma command_guarded_witness :
  wp (run (run_policy_command (fun _ => "casbin") (Ok cfg) (Ok tt) LeaseExamples.bob 2 (Export "c" "dump.json")))
    (fun r w' => r = Ok tt /\ data (cw_lease w') !! lease_path "db" = None /\
       is_Some (hw_disk (cw_host w') !! "dump.json")) (at_lease LeaseExamples.free).
Proof.
  eapply wp_mono.
  - apply (command_guarded (fun _ => "casbin") cfg LeaseExamples.bob 2 (Export "c" "dump.json") (at_lease LeaseExamples.free)).
    + exact LeaseExamples.inv_free.
    + vm_compute. reflexivity.
    + vm_compute. reflexivity.
  - intros r w'. cbn zeta.
    match goal with |- context [acquire_result ?a ?b ?c ?d ?f] =>
      let v := eval vm_compute in (is_ok (acquire_result a b c d f)) in
      assert (is_ok (acquire_result a b c d f) = v) as Hok by (vm_compute; reflexivity) end.
    destruct (acquire_result _ _ _ _ _); [|discriminate Hok]. intros [Hrun Hd].
    assert (r = Ok tt) as ->.
    { change r with (r, cw_host w').1. rewrite <- Hrun. vm_compute. reflexivity. }
    split; [reflexivity|]. split; [rewrite Hd; vm_compute; reflexivity|].
    change (cw_host w') with (Ok (E := chain) tt, cw_host w').2. rewrite <- Hrun. eexists. vm_compute. reflexivity.
Defined.

(** A live record of another process refuses the command. *)
Example live_record_refuses :
  let '(r, w) := run (run_policy_command (fun _ => "casbin") (Ok cfg) (Ok tt) LeaseExamples.bob 2 (Export "c" "dump.json"))
    (at_lease (LeaseExamples.with_record (claim_record LeaseExamples.alice 60 90))) in
  r = Err [lease_refused_message "policy export" "db";
           lease_text (held "db" (claim_record LeaseExamples.alice 60 90) 10)] /\ cw_host w = source_host.
Proof. split; vm_compute; reflexivity. Qed.

(** The guard that a command claims has a renewal task: with a renewal due, the
    clock is read twice, once to claim and once to renew. *)
Example command_renews :
  ticks (clk (cw_lease (run (run_policy_command (fun _ => "casbin") (Ok cfg) (Ok tt) LeaseExamples.bob 1
    (Export "c" "dump.json")) (at_lease LeaseExamples.free)).2)) = 2.
Proof. vm_compute. reflexivity. Qed.

Lemma dump_roundtrip_witness :
  wp (run (command_work (fun _ => "casbin") cfg (Export "c" "dump.json"))) (fun r h1 => r = Ok tt /\
    wp (run (command_work (fun _ => "casbin") cfg (Import "c" "dump.json"))) (fun r h2 => r = Ok tt /\
      ["team"; "docs:7"; "read"] ∈ ef_policy (enforcer (hw_policy h2)) /\
      pw_feed (hw_policy h2) = [PolicyRuleAdd "team" "docs:7" "read"]) (HostWorld target (hw_disk h1))) source_host.
Proof.
  eapply wp_mono.
  - apply (dump_roundtrip (fun _ => "casbin") cfg cfg "c" "c" "dump.json" source_host).
    + split; [split; exact I|exact I].
    + split; repeat constructor; apply (bool_decide_unpack _); vm_compute; exact I.
  - intros r h1 (-> & _ & Hi). split; [reflexivity|]. eapply wp_mono; [apply (Hi target); split; exact I|].
    intros r2 h2 (-> & Hp & _ & Hf). split; [reflexivity|]. split; [apply Hp; left; cbn; left|exact Hf].
Defined.
End CommandExamples.
