(* ===== verification/Stores.v ===== *)
(** Stores: where everything the process writes lies in its one bucket
    ([src/src/db.rs], [s3_builder] and [build_object_store] of
    [src/src/fs/object_store.rs], the openings in [src/src/main.rs] and
    [src/src/sync/snapshot.rs]).

    What an opening does belongs to [oxkv] and to [object_store]; this file is
    about what it is told: which store, which prefix, with or without the probe. *)
From S2P Require Import Prelude.
From S2P Require Import Effects.
From S2P Require Import RustStr.
From S2P Require Import Hex.
From S2P Require Import Lease.
From S2P Require Import FsTypes.
From S2P Require Import Token.
From S2P Require Import FsGc.
From S2P Require Import Replica.
From S2P Require Import Config.

(** ** Paths *)

(** The text of one segment of an [object_store::path::Path]: what the crate
    does not admit is written as an escape. *)
Class PathPart := { part : string -> string }.
Class PathPartLaws `{PathPart} := { part_inj :: Inj (=) (=) part }.

Section paths.
Context `{PathPart}.

(** [Path::from(s)]: the segments of [s] that are not empty. *)
Definition segments (s : string) : list string := filter (fun seg => seg <> "") (split_char "/" s).
Definition object_path (s : string) : list string := part <$> segments s.

(** An object lies below a path. *)
Definition below (p path : list string) : Prop := exists seg tail, path = p ++ seg :: tail.
End paths.

(** ** The configured object store *)

(** What an [AmazonS3Builder] was told. *)
Record AmazonS3Builder := {
  ab_bucket : string;
  ab_region : string;
  ab_endpoint : option string;
  ab_allow_http : bool;
  ab_keys : option (string * string);
  ab_virtual_hosted : option bool;
}.

Definition s3_builder (config : S3ClientConfig) : AmazonS3Builder :=
  {| ab_bucket := s3c_bucket config; ab_region := s3c_region config;
     ab_endpoint := s3c_endpoint_url config;
     ab_allow_http := match s3c_endpoint_url config with Some e => starts_with e "http://" | None => false end;
     ab_keys := match s3c_access_key_id config, s3c_secret_access_key config with
                | Some ak, Some sk => Some (ak, sk) | _, _ => None end;
     ab_virtual_hosted := if s3c_force_path_style config then Some false else None |}.

(** The process's shared [InMemory] store, or a client of a bucket. *)
Inductive StoreHandle : Type :=
| SharedMemory
| Bucket (b : AmazonS3Builder).

(** [AmazonS3Builder::build] *)
Class AwsBuild := { aws_build : AmazonS3Builder -> result unit string }.

(** [ReplicaBackend] *)
Inductive ReplicaBackend : Type := ReplicaObjectStore | ReplicaInMemory.

(** What [OxKvStoreBuilder] is told. *)
Record StoreBuilder := {
  sb_store : StoreHandle;
  sb_prefix : list string;
  sb_skip_probe : bool;
}.

Section opening.
Context `{PathPart} `{AwsBuild} `{Sha256}.

(** [db::build_object_store] *)
Definition build_object_store (cfg : S3ClientConfig) : result StoreHandle string :=
  if bool_decide (s3c_backend cfg = BackendMemory) then Ok SharedMemory else
  match aws_build (s3_builder cfg) with Ok _ => Ok (Bucket (s3_builder cfg)) | Err e => Err e end.

(** [fs::object_store::build_object_store]: the store of the bytes, and whether
    the bucket's name leads each key. *)
Definition build_s3_client (cfg : S3ClientConfig) : result (StoreHandle * bool) string :=
  if bool_decide (s3c_backend cfg = BackendMemory) then Ok (SharedMemory, false) else
  match aws_build (s3_builder cfg) with Ok _ => Ok (Bucket (s3_builder cfg), false) | Err e => Err e end.

Definition build_s3_store (cfg : S3ClientConfig) (prefix : string) : result StoreBuilder string :=
  match build_object_store cfg with
  | Ok inner => Ok {| sb_store := inner; sb_prefix := object_path (trim_matches "/" prefix);
                      sb_skip_probe := bool_decide (s3c_backend cfg = BackendMemory) |}
  | Err e => Err e
  end.

(** The part of [SnapshotManager] that opens replicas. *)
Record SnapshotManager := {
  sm_object_store : StoreHandle;
  sm_db_prefix : string;
  sm_skip_probe : bool;
}.

Definition manager_new (object_store : StoreHandle) (db_prefix : string) (backend : ReplicaBackend) : SnapshotManager :=
  {| sm_object_store := object_store; sm_db_prefix := db_prefix;
     sm_skip_probe := match backend with ReplicaInMemory => true | ReplicaObjectStore => false end |}.

Definition open_writer (m : SnapshotManager) (sub : string) : StoreBuilder :=
  {| sb_store := sm_object_store m; sb_prefix := object_path (user_prefix (sm_db_prefix m) sub);
     sb_skip_probe := sm_skip_probe m |}.

(** A reader takes no ownership and makes no probe. *)
Definition open_reader (m : SnapshotManager) (sub : string) : StoreHandle * list string :=
  (sm_object_store m, object_path (user_prefix (sm_db_prefix m) sub)).

(** What a [FsEngine] is made of.  [fe_primary]: the loss of its store's fence
    ends the process. *)
Record FsEngineParts := {
  fe_store : StoreBuilder;
  fe_primary : bool;
  fe_s3 : StoreHandle * bool;
  fe_bucket : string;
  fe_token_keys : TokenKeys;
  fe_feed : option StoreBuilder;
}.

(** [FsEngine::from_parts], with the random bytes of its own keys. *)
Definition from_parts (random : secret) (store : StoreBuilder) (primary : bool) (s3 : StoreHandle * bool)
    (bucket : string) : FsEngineParts :=
  {| fe_store := store; fe_primary := primary; fe_s3 := s3; fe_bucket := bucket;
     fe_token_keys := ephemeral random; fe_feed := None |}.

(** [FsEngine::init] *)
Definition engine_init (random : secret) (s3_store : StoreBuilder) (s3_config : S3ClientConfig) :
    result FsEngineParts FsError :=
  match build_s3_client s3_config with
  | Err e => Err (FsInternal ("failed to build S3 client: " +:+ e))
  | Ok s3 => Ok (from_parts random s3_store true s3 (s3c_bucket s3_config))
  end.

Definition with_token_keys (keys : TokenKeys) (e : FsEngineParts) : FsEngineParts :=
  {| fe_store := fe_store e; fe_primary := fe_primary e; fe_s3 := fe_s3 e; fe_bucket := fe_bucket e;
     fe_token_keys := keys; fe_feed := fe_feed e |}.

Definition with_change_sink (feed : StoreBuilder) (e : FsEngineParts) : FsEngineParts :=
  {| fe_store := fe_store e; fe_primary := fe_primary e; fe_s3 := fe_s3 e; fe_bucket := fe_bucket e;
     fe_token_keys := fe_token_keys e; fe_feed := Some feed |}.

(** What [serve] opens, in its order. *)
Record Opened := {
  op_policy : StoreBuilder;
  op_wal : StoreBuilder;
  op_engine : FsEngineParts;
  op_replicas : SnapshotManager;
}.

(** One of the three stores; a failure says which. *)
Definition open_domain (cfg : S3ClientConfig) (db_prefix domain : string) : result StoreBuilder chain :=
  map_err (fun e => ["build " +:+ domain +:+ " OxKvStore: " +:+ e])
    (build_s3_store cfg (domain_prefix db_prefix domain)).

Definition open_stores (random : secret) (token_keys : TokenKeys) (config : Config) : result Opened chain :=
  let cfg := s3_client_config config in
  let db_prefix := db_root config in
  match open_domain cfg db_prefix "policy" with Err e => Err e | Ok policy =>
  match open_domain cfg db_prefix "fs" with Err e => Err e | Ok fs =>
  match open_domain cfg db_prefix "wal" with Err e => Err e | Ok wal =>
  match map_err (fun e => [fs_text e]) (engine_init random fs cfg) with Err e => Err e | Ok engine =>
  match map_err (fun e => ["build snapshot object store"; e]) (build_object_store cfg) with Err e => Err e | Ok replicas =>
  Ok {| op_policy := policy; op_wal := wal;
        op_engine := with_change_sink wal (with_token_keys token_keys engine);
        op_replicas := manager_new replicas db_prefix ReplicaObjectStore |}
  end end end end end.
End opening.

(** ** The segments of what is opened *)

Lemma segments_cat s t : segments (s +:+ "/" +:+ t) = segments s ++ segments t.
Proof. unfold segments. change ("/" +:+ t) with (String "/" t). by rewrite split_char_cat, filter_app. Qed.

Lemma segments_one s : contains_char "/" s = false -> s <> "" -> segments s = [s].
Proof. intros Hs Hne. unfold segments. rewrite split_char_none by done. by rewrite filter_cons_True. Qed.

Lemma segments_slash s : segments (String "/" s) = segments s.
Proof. exact (segments_cat "" s). Qed.

Lemma segments_trim_start s : segments (trim_start_char "/" s) = segments s.
Proof. induction s as [|a s IH]; [done|]. cbn [trim_start_char]. case_decide as Ha; [|done]. subst a. by rewrite segments_slash. Qed.

Lemma segments_trim_end s : segments (trim_end_char "/" s) = segments s.
Proof.
  enough (forall t, segments (t +:+ trim_end_char "/" s) = segments (t +:+ s)) as He by exact (He "").
  induction s as [|a s IH]; intros t; [done|]. cbn [trim_end_char].
  assert (forall c u, t +:+ String c u = (t +:+ String c "") +:+ u) as Hsh by (intros; by rewrite RustStr.app_assoc).
  rewrite (Hsh a s), <- IH. destruct (trim_end_char "/" s) as [|b r] eqn:E.
  - rewrite RustStr.app_nil_r. case_decide as Ha; [|done]. subst a.
    rewrite RustStr.app_nil_r. change (String "/" "") with ("/" +:+ ""). rewrite segments_cat. by rewrite List.app_nil_r.
  - by rewrite <- Hsh.
Qed.

Lemma segments_trim s : segments (trim_matches "/" s) = segments s.
Proof. unfold trim_matches. by rewrite segments_trim_end, segments_trim_start. Qed.

Lemma segments_lease s : segments (lease_key s) = segments s ++ [LEASE_KEY].
Proof.
  unfold lease_key. case_bool_decide as Hs; [by subst s|]. rewrite segments_cat. f_equal.
Qed.

Lemma segments_user `{Sha256Laws} s sub : segments (user_prefix s sub) = segments s ++ ["u"; safe_sub sub].
Proof.
  unfold user_prefix. change ("/u/" +:+ safe_sub sub) with ("/" +:+ ("u" +:+ "/" +:+ safe_sub sub)).
  rewrite !segments_cat, segments_trim. f_equal. cbn [segments]. rewrite (segments_one (safe_sub sub)); [done|..].
  - apply all_hex_contains; [done|]. apply all_hex_bytes, digest_bytes.
  - intros He. apply (f_equal String.length) in He. unfold safe_sub in He.
    rewrite length_hex_bytes, digest_length in He by apply digest_bytes. done.
Qed.

(** ** One bucket, and no two owners of a key *)

(** The stores of the process, and the replica of each subject. *)
Inductive Place : Type := InPolicy | InFs | InWal | InReplica (sub : string).

Section apart.
Context `{PathPartLaws} `{AwsBuild} `{Sha256Laws}.

Definition place (o : Opened) (p : Place) : StoreBuilder :=
  match p with
  | InPolicy => op_policy o
  | InFs => fe_store (op_engine o)
  | InWal => op_wal o
  | InReplica sub => open_writer (op_replicas o) sub
  end.

(** Subjects with the same digest share a replica. *)
Definition same_place (p q : Place) : Prop :=
  match p, q with
  | InReplica s, InReplica t => digest s = digest t
  | _, _ => p = q
  end.

Definition domain (p : Place) : list string :=
  match p with
  | InPolicy => ["policy"]
  | InFs => ["fs"]
  | InWal => ["wal"]
  | InReplica sub => ["u"; safe_sub sub]
  end.

(** The handle that every part of the process has. *)
Definition handle (config : Config) : StoreHandle :=
  if bool_decide (s3c_backend (s3_client_config config) = BackendMemory) then SharedMemory
  else Bucket (s3_builder (s3_client_config config)).

Lemma build_object_store_handle config h :
  build_object_store (s3_client_config config) = Ok h -> h = handle config.
Proof. unfold build_object_store, handle. case_bool_decide; [congruence|]. destruct (aws_build _); congruence. Qed.

Lemma build_s3_client_handle config h :
  build_s3_client (s3_client_config config) = Ok h -> h = (handle config, false).
Proof. unfold build_s3_client, handle. case_bool_decide; [congruence|]. destruct (aws_build _); congruence. Qed.

Lemma build_s3_store_at config prefix b : build_s3_store (s3_client_config config) prefix = Ok b ->
  b = {| sb_store := handle config; sb_prefix := object_path prefix;
         sb_skip_probe := bool_decide (s3c_backend (s3_client_config config) = BackendMemory) |}.
Proof.
  unfold build_s3_store. destruct (build_object_store _) as [h|] eqn:E; [|done].
  apply build_object_store_handle in E as ->. intros [= <-]. unfold object_path. by rewrite segments_trim.
Qed.

Lemma open_domain_at config domain b :
  open_domain (s3_client_config config) (db_root config) domain = Ok b ->
  sb_store b = handle config /\
  sb_prefix b = object_path (domain_prefix (db_root config) domain).
Proof.
  unfold open_domain. destruct (build_s3_store _ _) as [x|] eqn:E; [|done]. intros [= <-].
  apply build_s3_store_at in E as ->. done.
Qed.

Lemma engine_init_parts random config store e : engine_init random store (s3_client_config config) = Ok e ->
  e = from_parts random store true (handle config, false) (s3c_bucket (s3_client_config config)).
Proof.
  unfold engine_init. destruct (build_s3_client _) as [s3|] eqn:E; [|done].
  apply build_s3_client_handle in E as ->. congruence.
Qed.

(** The engine of the process, on the store of its rows and that of the feed. *)
Definition engine_of (config : Config) (keys : TokenKeys) (rows feed : StoreBuilder) : FsEngineParts :=
  {| fe_store := rows; fe_primary := true; fe_s3 := (handle config, false);
     fe_bucket := s3c_bucket (s3_client_config config); fe_token_keys := keys; fe_feed := Some feed |}.

Lemma opened_places random keys config o : open_stores random keys config = Ok o ->
  op_engine o = engine_of config keys (place o InFs) (place o InWal) /\ forall p,
  sb_store (place o p) = handle config /\
  sb_prefix (place o p) = part <$> (segments (db_prefix_ (database config)) ++ domain p).
Proof.
  unfold open_stores. intros Ho.
  destruct (open_domain _ _ "policy") as [policy|] eqn:Ep; [|done].
  destruct (open_domain _ _ "fs") as [fs|] eqn:Ef; [|done].
  destruct (open_domain _ _ "wal") as [wal|] eqn:Ew; [|done].
  destruct (engine_init _ _ _) as [engine|] eqn:Ee; [|done].
  destruct (build_object_store _) as [replicas|] eqn:Er; [|done]. injection Ho as <-.
  apply open_domain_at in Ep as [Ep1 Ep2], Ef as [Ef1 Ef2], Ew as [Ew1 Ew2].
  apply engine_init_parts in Ee as ->. apply build_object_store_handle in Er as ->.
  split; [done|]. intros [| | |sub]; (split; [done|]);
    cbn [place sb_prefix open_writer op_policy op_wal op_engine op_replicas sm_db_prefix manager_new
         fe_store with_change_sink with_token_keys from_parts].
  1-3: rewrite ?Ep2, ?Ef2, ?Ew2; unfold object_path, domain_prefix, db_root;
    rewrite segments_cat, segments_trim; by f_equal.
  unfold object_path, db_root. by rewrite segments_user, segments_trim.
Qed.

(** Two paths below a common root, told apart by what follows it. *)
Lemma below_app (root d : list string) path : below (part <$> (root ++ d)) path ->
  exists rest, path = (part <$> root) ++ (part <$> d) ++ rest /\ rest <> [].
Proof. intros (seg & tail & ->). exists (seg :: tail). by rewrite fmap_app, <- List.app_assoc. Qed.

Lemma domain_apart p q r1 r2 : (part <$> domain p) ++ r1 = (part <$> domain q) ++ r2 -> same_place p q.
Proof.
  destruct p, q; cbn; try done; intros [= He].
  all: try (exfalso; by apply (inj part) in He).
  match goal with He : part (safe_sub _) = _ |- _ => apply (inj part) in He; unfold safe_sub in He end.
  eapply hex_bytes_inj; [apply digest_bytes..| |exact He]. by rewrite !digest_length.
Qed.

Lemma domain_not_files p d ds : domain p = d :: ds -> d <> "files".
Proof. by destruct p; intros [= <- _]. Qed.

Lemma domain_head p : exists d ds, domain p = d :: ds /\ d <> LEASE_KEY.
Proof. by destruct p; eexists _, _. Qed.

(** C29: The process keeps to one bucket and nothing in it has two owners.  The
    stores of the policy, the files and the feed, the replicas and the bytes of
    the files are all opened on the one configured store, and the file engine
    announces to the store of the feed and signs with the configured keys.  No
    object lies in two of the stores, and none in two replicas, unless two
    subjects have the same digest; the lease lies in none of them.  The sweep,
    which deletes what it does not know below [files/], reaches into a store or
    a replica exactly if the first segment of the configured prefix is [files]. *)
Theorem stores_apart random keys config o : open_stores random keys config = Ok o ->
  let root := segments (db_prefix_ (database config)) in
  op_engine o = engine_of config keys (place o InFs) (place o InWal) /\
  (forall p, sb_store (place o p) = handle config) /\
  (forall p q path, below (sb_prefix (place o p)) path -> below (sb_prefix (place o q)) path -> same_place p q) /\
  (forall p, ~ below (sb_prefix (place o p)) (object_path (lease_key (db_root config)))) /\
  (forall p path, below (sb_prefix (place o p)) path ->
     (below (object_path FILE_BYTES_PREFIX) path <-> head root = Some "files")).
Proof.
  intros [Hb Hp]%opened_places root. split; [done|]. split; [intros p; apply Hp|]. split; [|split].
  - intros p q path Hx Hy. rewrite (proj2 (Hp p)) in Hx. rewrite (proj2 (Hp q)) in Hy.
    apply below_app in Hx as (r1 & -> & _), Hy as (r2 & He & _).
    apply app_inv_head in He. by eapply domain_apart.
  - intros p Hx. rewrite (proj2 (Hp _)) in Hx. apply below_app in Hx as (rest & He & Hr).
    unfold object_path, db_root in He. rewrite segments_lease, segments_trim, fmap_app in He. apply app_inv_head in He.
    destruct (domain_head p) as (d & ds & Hd & Hne). rewrite Hd in He. injection He as He _.
    by apply (inj part) in He.
  - intros p path Hx. rewrite (proj2 (Hp _)) in Hx. apply below_app in Hx as (rest & -> & Hr).
    change (object_path FILE_BYTES_PREFIX) with [part "files"]. fold root. destruct root as [|s root]; cbn.
    + split; [|done]. intros (seg & tail & He). destruct (domain p) as [|d ds] eqn:Ed; [by destruct p|].
      injection He as He _. apply (inj part) in He. by apply (domain_not_files _ _ _ Ed) in He.
    + split; [intros (seg & tail & [= He _]); by apply (inj part) in He as ->|]. intros [= ->].
      destruct ((part <$> root) ++ (part <$> domain p) ++ rest) as [|x l] eqn:E; [|by exists x, l].
      by apply app_eq_nil in E as [_ [_ ?]%app_eq_nil].
Qed.
End apart.
