(* ===== verification/Server.v ===== *)
(** Server: how [serve] starts and stops ([src/src/main.rs]), with the reactive
    services that an application attaches ([src/src/reactive.rs]).

    The parts that [serve] calls are modelled in files of their own; here each is
    one step, which answers or fails, and the world is the list of the steps that
    were taken.  The starter kit attaches no services. *)
From S2P Require Import Prelude.
From S2P Require Import Effects.
From Stdlib Require Import FunctionalExtensionality.

Inductive Step : Type :=
| LoadConfig
| ResolveTokenKeys
| InitTelemetry
| ParseAddress
| JoinRedirect
| DiscoverOidc
| InitOidcModule
| ClaimLease
| OpenStore (domain : string)
| InitPolicy
| InitFs
| Register (service : string)
| Spawn (service : string)
| SpawnSweeper
| BuildReplicaObjects
| SpawnProbes
| OpenMirror
| SpawnBuilds (workers : nat)
| Serve
| Cancel
| Join (service : string)
| ReleaseLease
| ShutdownTelemetry.

#[export] Instance Step_eq_dec : EqDecision Step.
Proof. solve_decision. Defined.

Section serve.
(** What each step answers, whether the lease is enforced, whether reads of the
    master go through a mirror, and the names of the reactive services. *)
Variables (answers : Step -> result unit string) (enforced mirror_master : bool) (services : list string).

#[local] Abbreviation task := (prog (list Step)).

(** A step that can fail, and one that cannot. *)
Definition try_step (s : Step) : task (result unit string) := atomically (fun tr => (answers s, tr ++ [s])).
Definition do_step (s : Step) : task unit := atomically (fun tr => (tt, tr ++ [s])).

Fixpoint each (f : string -> Step) (l : list string) : task unit :=
  match l with [] => mret tt | x :: l => _ ← do_step (f x); each f l end.

(** [spawn_services]: every service is registered before one runs. *)
Definition spawn_services : task unit := _ ← each Register services; each Spawn services.

(** From the claim of the lease to the listener. *)
Definition wire : task (result unit string) :=
  _ <-? try_step (OpenStore "policy");
  _ <-? try_step (OpenStore "fs");
  _ <-? try_step (OpenStore "wal");
  _ <-? try_step InitPolicy;
  _ <-? try_step InitFs;
  _ ← spawn_services;
  _ ← do_step SpawnSweeper;
  _ <-? try_step BuildReplicaObjects;
  _ ← do_step SpawnProbes;
  _ <-? (if mirror_master then try_step OpenMirror else mret (Ok tt));
  _ ← do_step (SpawnBuilds 2);
  mret (Ok tt).

(** The end: tasks are told to stop, services waited for, the lease released. *)
Definition close : task unit :=
  _ ← do_step Cancel;
  _ ← each Join services;
  if enforced then do_step ReleaseLease else mret tt.

(** Everything up to the listener. *)
Definition prepare : task (result unit string) :=
  _ <-? try_step LoadConfig;
  _ <-? try_step ResolveTokenKeys;
  _ <-? try_step InitTelemetry;
  _ <-? try_step ParseAddress;
  _ <-? try_step JoinRedirect;
  _ <-? try_step DiscoverOidc;
  _ <-? try_step InitOidcModule;
  _ <-? try_step ClaimLease;
  wire.

Definition serve : task (result unit string) :=
  _ <-? prepare;
  served ← try_step Serve;
  _ ← close;
  _ <-? mret served;
  try_step ShutdownTelemetry.

(** ** The order of the steps *)

(** The steps before the listener, in the order of the code. *)
Definition before_claim : list Step :=
  [LoadConfig; ResolveTokenKeys; InitTelemetry; ParseAddress; JoinRedirect; DiscoverOidc; InitOidcModule].
Definition wiring : list Step :=
  [OpenStore "policy"; OpenStore "fs"; OpenStore "wal"; InitPolicy; InitFs] ++ (Register <$> services) ++ (Spawn <$> services) ++
  [SpawnSweeper; BuildReplicaObjects; SpawnProbes] ++ (if mirror_master then [OpenMirror] else []) ++ [SpawnBuilds 2].
Definition closing : list Step := [Cancel] ++ (Join <$> services) ++ (if enforced then [ReleaseLease] else []).

(** The steps whose answer is looked at. *)
Definition fallible (s : Step) : bool :=
  match s with
  | Register _ | Spawn _ | SpawnSweeper | SpawnProbes | SpawnBuilds _ | Cancel | Join _ | ReleaseLease => false
  | _ => true
  end.

Definition answered (s : Step) : Prop := fallible s = true -> is_ok (answers s) = true.

(** [p] takes the steps [l] in order, up to the first that fails. *)
Definition follows (p : task (result unit string)) (l : list Step) : Prop := forall tr,
  wp (run p) (fun r tr' => exists t, tr' = tr ++ t /\
    match r with
    | Ok _ => t = l /\ Forall answered t
    | Err e => t `prefix_of` l /\ exists t0 s, t = t0 ++ [s] /\ Forall answered t0 /\ answers s = Err e
    end) tr.

Lemma follows_ret : follows (mret (Ok tt)) [].
Proof. intros tr. apply wp_ret. exists []. rewrite List.app_nil_r. by split. Qed.

Lemma follows_try s : follows (try_step s) [s].
Proof.
  intros tr. apply wp_run_atomically. unfold wp. exists [s]. split; [done|]. destruct (answers s) as [[]|e] eqn:Ea.
  - split; [done|]. repeat constructor. by unfold answered; rewrite Ea.
  - split; [done|]. exists [], s. by split; [|split].
Qed.

Lemma follows_bindR p q l1 l2 : follows p l1 -> follows q l2 -> follows (_ <-? p; q) (l1 ++ l2).
Proof.
  intros Hp Hq tr. apply wp_run_bindR. eapply wp_mono; [apply Hp|]. intros [[]|e] tr1 (t1 & -> & H1).
  - destruct H1 as [-> Ha]. eapply wp_mono; [apply Hq|]. intros r tr2 (t2 & -> & H2).
    exists (l1 ++ t2). rewrite List.app_assoc. split; [done|]. destruct r as [u|e].
    + destruct H2 as [-> Hb]. split; [done|]. by apply Forall_app.
    + destruct H2 as (Hpre & t0 & s & -> & Hb & He). split; [by apply prefix_app|].
      exists (l1 ++ t0), s. rewrite List.app_assoc. split; [done|]. split; [by apply Forall_app|done].
  - destruct H1 as [Hpre H1]. exists t1. split; [done|]. split; [by apply prefix_app_r|done].
Qed.

Lemma follows_cons s q l : follows q l -> follows (_ <-? try_step s; q) (s :: l).
Proof. apply (follows_bindR (try_step s) q [s] l), follows_try. Qed.

Lemma follows_do s q l : fallible s = false -> follows q l -> follows (_ ← do_step s; q) (s :: l).
Proof.
  intros Hs Hq tr. apply wp_run_bind, wp_run_atomically. unfold wp at 1. eapply wp_mono; [apply Hq|].
  intros r tr' (t & -> & Hr). exists (s :: t). rewrite <- List.app_assoc. split; [done|].
  assert (answered s) as Ha by (unfold answered; congruence). destruct r as [u|e].
  - destruct Hr as [-> Ht]. split; [done|]. by constructor.
  - destruct Hr as (Hpre & t0 & s0 & -> & Ht & He). split; [by apply prefix_cons|].
    exists (s :: t0), s0. split; [done|]. split; [by constructor|done].
Qed.

Lemma follows_each f l q l2 : (forall x, fallible (f x) = false) -> follows q l2 -> follows (_ ← each f l; q) ((f <$> l) ++ l2).
Proof.
  intros Hf Hq. induction l as [|x l IH]; [exact Hq|].
  change (follows (_ ← do_step (f x); (_ ← each f l; q)) (f x :: ((f <$> l) ++ l2))). by apply follows_do.
Qed.

Lemma follows_services q l : follows q l -> follows (_ ← spawn_services; q) ((Register <$> services) ++ (Spawn <$> services) ++ l).
Proof.
  intros Hq. unfold spawn_services.
  assert (forall (p1 p2 : task unit), (_ ← (_ ← p1; p2); q) = (_ ← p1; (_ ← p2; q))) as ->.
  { intros p1 p2. unfold mbind, prog_mbind. induction p1 as [[]|X g k IH]; [done|]. cbn. f_equal. by apply functional_extensionality. }
  apply follows_each; [done|]. by apply follows_each.
Qed.

Lemma follows_wire : follows wire wiring.
Proof.
  unfold wire, wiring. do 5 apply follows_cons. apply follows_services. apply follows_do; [done|]. apply follows_cons, follows_do; [done|].
  apply follows_bindR; [destruct mirror_master; [apply follows_try|apply follows_ret]|].
  apply follows_do; [done|apply follows_ret].
Qed.

(** The start: everything up to the listener. *)
Definition startup : list Step := before_claim ++ ClaimLease :: wiring.

Lemma wp_each f l Q tr : Q tt (tr ++ (f <$> l)) -> wp (run (each f l)) Q tr.
Proof.
  revert tr. induction l as [|x l IH]; intros tr HQ; cbn [each].
  - apply wp_ret. by rewrite List.app_nil_r in HQ.
  - apply wp_run_bind, wp_run_atomically. unfold wp at 1. apply IH. by rewrite <- List.app_assoc.
Qed.

Lemma wp_close Q tr : Q tt (tr ++ closing) -> wp (run close) Q tr.
Proof.
  intros HQ. apply wp_run_bind, wp_run_atomically. unfold wp at 1. apply wp_run_bind, wp_each. unfold closing in HQ.
  destruct enforced.
  - apply wp_run_atomically. unfold wp. by rewrite <- !List.app_assoc.
  - apply wp_ret. rewrite List.app_nil_r in HQ. by rewrite <- List.app_assoc.
Qed.

(** What the process does from start to end: a start that fails takes its steps
    in order up to the one that failed; one that serves ends in order. *)
Definition ended (r : result unit string) (tr : list Step) : Prop :=
  (exists e t0 s, r = Err e /\ tr = t0 ++ [s] /\ tr `prefix_of` startup /\ Forall answered t0 /\ answers s = Err e) \/
  (Forall answered startup /\
   tr = startup ++ [Serve] ++ closing ++ (if is_ok (answers Serve) then [ShutdownTelemetry] else []) /\
   r = match answers Serve with Ok _ => answers ShutdownTelemetry | Err e => Err e end).

Lemma wp_serve : wp (run serve) ended [].
Proof.
  assert (follows prepare startup) as Hp.
  { unfold prepare, startup, before_claim. cbn [app]. do 8 apply follows_cons. apply follows_wire. }
  apply wp_run_bindR. eapply wp_mono; [apply Hp|]. intros [[]|e] tr (t & -> & Hr).
  2: { destruct Hr as (Hpre & t0 & s & -> & Ha & He). left. by exists e, t0, s. }
  destruct Hr as [-> Ha]. apply wp_run_bind, wp_run_atomically. unfold wp at 1. apply wp_run_bind, wp_close.
  destruct (answers Serve) as [[]|e] eqn:Es; cbn [is_ok].
  - apply wp_run_bindR, wp_ret, wp_run_atomically. unfold wp. right. rewrite Es. cbn [is_ok app]. split; [done|].
    by rewrite <- !List.app_assoc.
  - apply wp_run_bindR, wp_ret. right. rewrite Es. cbn [is_ok app]. split; [done|]. by rewrite List.app_nil_r, <- !List.app_assoc.
Qed.

(** The steps that write to the stores of the prefix, or start what does. *)
Definition under_lease (s : Step) : bool :=
  match s with
  | OpenStore _ | InitPolicy | InitFs | Register _ | Spawn _ | SpawnSweeper | OpenMirror | SpawnBuilds _ | Serve => true
  | _ => false
  end.

Lemma startup_claims tr s : tr ++ [s] `prefix_of` startup -> under_lease s = true -> ClaimLease ∈ tr.
Proof.
  intros [rest He] Hs. unfold startup, before_claim in He. cbn [app] in He. rewrite <- List.app_assoc in He.
  do 8 (destruct tr as [|? tr]; [cbn in He; injection He as <- _; done|injection He as <- He]).
  do 7 right. by left.
Qed.

(** C28: the order of a server's life.  Whatever its parts answer, the process
    opens no store and starts no task or service before it has claimed the
    lease, and only when the claim succeeded; a start that fails at a step has
    taken the steps before it, each with success, and none after it; and once
    it has served, with success or not, it tells its tasks to stop, waits for
    every service and only then releases the lease, once and last but for the
    flush of its telemetry. *)
Theorem serve_ordered :
  wp (run serve) (fun r tr => ended r tr /\
    forall pre s post, tr = pre ++ s :: post -> under_lease s = true ->
      ClaimLease ∈ pre /\ is_ok (answers ClaimLease) = true) [].
Proof.
  eapply wp_mono; [apply wp_serve|]. intros r tr Hend. split; [done|]. intros pre s post -> Hs.
  assert (ClaimLease ∈ pre /\ (exists t0, Forall answered t0 /\ ClaimLease ∈ t0)) as [Hin (t0 & Ha & Ht0)].
  2: { split; [done|]. rewrite Forall_forall in Ha. by apply (Ha ClaimLease). }
  destruct Hend as [(e & t0 & s0 & -> & Htr & Hpre & Ha & He)|(Ha & Htr & _)].
  - assert (ClaimLease ∈ pre) as Hin.
    { apply (startup_claims pre s); [|done]. etrans; [|exact Hpre]. exists post. by rewrite <- List.app_assoc. }
    split; [done|]. exists t0. split; [done|]. destruct post as [|x post _] using rev_ind.
    + apply app_inj_tail in Htr as [-> _]. done.
    + rewrite app_comm_cons, List.app_assoc in Htr. apply app_inj_tail in Htr as [<- _]. apply elem_of_app. by left.
  - assert (ClaimLease ∈ startup) as Hc by (unfold startup; set_solver). split; [|by exists startup].
    destruct (prefix_weak_total (pre ++ [s]) startup (pre ++ s :: post)) as [Hp|Hp].
    + exists post. by rewrite <- List.app_assoc.
    + rewrite Htr. by eexists.
    + by apply (startup_claims pre s).
    + eapply elem_of_prefix in Hp; [|exact Hc]. apply elem_of_app in Hp as [?|He]; [done|].
      apply list_elem_of_singleton in He. by subst s.
Qed.
End serve.

(** ** Evaluated *)

Module ServerExamples.

(** A server that starts, serves one service, and stops. *)
Example whole_life :
  run (serve (fun _ => Ok tt) true false ["mail"]) [] =
  (Ok tt, [LoadConfig; ResolveTokenKeys; InitTelemetry; ParseAddress; JoinRedirect; DiscoverOidc; InitOidcModule; ClaimLease;
           OpenStore "policy"; OpenStore "fs"; OpenStore "wal"; InitPolicy; InitFs; Register "mail"; Spawn "mail"; SpawnSweeper;
           BuildReplicaObjects; SpawnProbes; SpawnBuilds 2; Serve; Cancel; Join "mail"; ReleaseLease; ShutdownTelemetry]).
Proof. vm_compute. reflexivity. Qed.

(** A store that does not open: the lease is claimed, and its release is left
    to the drop of its guard. *)
Example store_fails :
  (run (serve (fun s => if bool_decide (s = OpenStore "fs") then Err "down" else Ok tt) true false []) []).2 =
  [LoadConfig; ResolveTokenKeys; InitTelemetry; ParseAddress; JoinRedirect; DiscoverOidc; InitOidcModule; ClaimLease;
   OpenStore "policy"; OpenStore "fs"].
Proof. vm_compute. reflexivity. Qed.
End ServerExamples.
