(* ===== verification/Telemetry.v ===== *)
(** Telemetry: the providers of traces and metrics and how they end
    ([src/src/telemetry.rs]).

    The OpenTelemetry library and the subscriber registry are a class of
    operations; what is exported is theirs. *)
From S2P Require Import Prelude.
From S2P Require Import Effects.
From S2P Require Import RustStr.
From S2P Require Import Float64.

(** [P] and [M] are the tracer and the meter provider, [L] is what the library
    holds. *)
Class Otel (L P M : Type) := {
  set_text_map_propagator : act L unit;
  build_tracer (service endpoint : string) (ratio : f64) : act L (result P string);
  build_meter (service endpoint : string) : act L (result M string);
  set_meter_provider : M -> act L unit;
  install (filter : string) (tracer : option P) : act L (result unit string);
  shutdown_tracer : P -> act L (result unit string);
  shutdown_meter : M -> act L (result unit string);
}.

(** [f64::clamp(0.0, 1.0)] *)
Definition clamp_unit (x : f64) : f64 :=
  if f64_ltb x (f64_of_Z 0) then f64_of_Z 0 else if f64_ltb (f64_of_Z 1) x then f64_of_Z 1 else x.

Section telemetry.
Context {L P M : Type} `{!Otel L P M}.

Record Telemetry := {
  tracer_provider : option P;
  meter_provider : option M;
}.

Definition no_export : Telemetry := {| tracer_provider := None; meter_provider := None |}.

Definition install_subscriber (filter : string) (tracer : option P) : act L (result unit string) :=
  map_errM (fun e => "telemetry initialization: failed to install tracing subscriber: " +:+ e) (install filter tracer).

(** [init], with the HTTP exporter; a context and its cause are one text here.  [env] is the filter of [RUST_LOG], when
    there is one that parses. *)
Definition init (env : option string) (verbose : bool) (service_name : string) (otlp_endpoint : option string)
    (sample_ratio : f64) : act L (result Telemetry string) :=
  let filter := default (if verbose then "debug" else "info") env in
  _ ← set_text_map_propagator;
  match otlp_endpoint with
  | Some endpoint =>
      provider <-? map_errM (fun e => "telemetry initialization: OTLP span exporter build failed: " +:+ e)
                     (build_tracer service_name endpoint (clamp_unit sample_ratio));
      meter <-? map_errM (fun e => "telemetry initialization: OTLP metric exporter build failed: " +:+ e)
                  (build_meter service_name endpoint);
      _ ← set_meter_provider meter;
      _ <-? install_subscriber filter (Some provider);
      mret (Ok {| tracer_provider := Some provider; meter_provider := Some meter |})
  | None =>
      _ <-? install_subscriber filter None;
      mret (Ok no_export)
  end.

(** [if let Some(provider) = self.….take()], and what its end answers. *)
Definition end_provider {A} (provider : option A) (stop : A -> act L (result unit string)) (label : string) :
    act L (list string) :=
  match provider with
  | Some p => r ← stop p; mret (match r with Ok _ => [] | Err e => [label +:+ e] end)
  | None => mret []
  end.

Definition end_providers (t : Telemetry) : act L (list string * Telemetry) :=
  e1 ← end_provider (tracer_provider t) shutdown_tracer "tracer provider: ";
  e2 ← end_provider (meter_provider t) shutdown_meter "meter provider: ";
  mret (e1 ++ e2, no_export).

(** [shutdown_inner]: the failures go to the standard error. *)
Definition shutdown_inner (t : Telemetry) : act L Telemetry := '(_, t) ← end_providers t; mret t.

(** [shutdown(mut self)]: the handle is dropped at its end. *)
Definition shutdown (t : Telemetry) : act L (result unit string) :=
  '(errors, t) ← end_providers t;
  _ ← shutdown_inner t;
  mret (match errors with [] => Ok tt | _ => Err ("telemetry shutdown failed: " +:+ join "; " errors) end).
End telemetry.

(** ** What is built is ended *)

Inductive Event : Type :=
| SetPropagator
| BuildTracer (service endpoint : string) (ratio : f64)
| BuildMeter (service endpoint : string)
| SetMeter
| Install (filter : string) (exports : bool)
| StopTracer
| StopMeter.

Section events.
Variable answers : Event -> result unit string.

(** A library that answers as [answers] says; the world is what it was asked. *)
Definition ask (e : Event) : act (list Event) (result unit string) := fun tr => (answers e, tr ++ [e]).
Definition tell (e : Event) : act (list Event) unit := fun tr => (tt, tr ++ [e]).

#[export] Instance asked : Otel (list Event) unit unit := {
  set_text_map_propagator := tell SetPropagator;
  build_tracer s e r := ask (BuildTracer s e r);
  build_meter s e := ask (BuildMeter s e);
  set_meter_provider _ := tell SetMeter;
  install f t := ask (Install f (bool_decide (t <> None)));
  shutdown_tracer _ := ask StopTracer;
  shutdown_meter _ := ask StopMeter;
}.

#[local] Abbreviation handle := (Telemetry (P := unit) (M := unit)).

(** What the end of a handle has to stop, and what it reports of it. *)
Definition stops (t : handle) : list (Event * string) :=
  match tracer_provider t with Some _ => [(StopTracer, "tracer provider: ")] | None => [] end ++
  match meter_provider t with Some _ => [(StopMeter, "meter provider: ")] | None => [] end.

Definition reports (t : handle) : list string :=
  omap (fun s => match answers s.1 with Ok _ => None | Err e => Some (s.2 +:+ e) end) (stops t).

#[local] Ltac calls := unfold wp, shutdown, shutdown_inner, end_providers, end_provider, init, install_subscriber,
  map_errM, bindR, set_text_map_propagator, build_tracer, build_meter, set_meter_provider, install, shutdown_tracer,
  shutdown_meter, asked, mbind, act_bind, mret, act_ret, ask, tell; cbn.

(** The end of a handle asks each provider that is there to stop, once, the
    tracer first, and the meter also after the tracer failed; the dropping of the
    handle asks nothing more.  Every failure is in the report. *)
Lemma telemetry_ends (t : handle) tr : wp (shutdown t) (fun r tr' =>
  tr' = tr ++ (stops t).*1 /\
  r = match reports t with [] => Ok tt | es => Err ("telemetry shutdown failed: " +:+ join "; " es) end) tr.
Proof.
  destruct t as [[[]|] [[]|]]; calls.
  all: unfold reports, stops; cbn.
  all: repeat destruct (answers _) as [[]|?]; cbn; rewrite <- ?List.app_assoc, ?List.app_nil_r; done.
Qed.

(** Without an endpoint nothing is exported and nothing is left to stop.  With
    one, the exporters are built before the subscriber is installed, and a handle
    comes only of a start in which every step answered; it stops both. *)
Lemma telemetry_starts env verbose service endpoint ratio tr : wp (init env verbose service endpoint ratio) (fun r tr' =>
  let filter := default (if verbose then "debug" else "info") env in
  let steps := match endpoint with
    | Some e => [BuildTracer service e (clamp_unit ratio); BuildMeter service e; SetMeter; Install filter true]
    | None => [Install filter false] end in
  exists k, tr' = tr ++ SetPropagator :: take k steps /\
    match r with
    | Ok t => k = length steps /\ (stops t).*1 = match endpoint with Some _ => [StopTracer; StopMeter] | None => [] end
    | Err _ => exists e cause, last (take k steps) = Some e /\ answers e = Err cause
    end) tr.
Proof.
  destruct endpoint as [e|]; calls.
  - destruct (answers (BuildTracer _ _ _)) as [[]|c1] eqn:E1; cbn.
    2: { exists 1. rewrite <- ?List.app_assoc. split; [done|by eexists _, _]. }
    destruct (answers (BuildMeter _ _)) as [[]|c2] eqn:E2; cbn.
    2: { exists 2. rewrite <- ?List.app_assoc. split; [done|by eexists _, _]. }
    destruct (answers (Install _ _)) as [[]|c3] eqn:E3; cbn.
    all: exists 4; rewrite <- ?List.app_assoc; split; [done|]; by try eexists _, _.
  - destruct (answers (Install _ _)) as [[]|c3] eqn:E3; cbn.
    all: exists 1; rewrite <- ?List.app_assoc; split; [done|]; by try eexists _, _.
Qed.
End events.
