(* ===== verification/ReplicaSlots.v ===== *)
(** ReplicaSlots: requests and pool workers together.  A task holds the in-flight
    slot of at most one subject; under every interleaving a replica is written
    only by the task that holds its slot. *)
From S2P Require Import Prelude.
From S2P Require Import Effects.
From S2P Require Import RustStr.
From S2P Require Import Kv.
From S2P Require Import FsTypes.
From S2P Require Import FsStore.
From S2P Require Import FsPages.
From S2P Require Import Policy.
From S2P Require Import Wal.
From S2P Require Import Replica.

(** How one action moves the slots: [h] is the slot its task holds. *)
Inductive slot_move : option string -> option string -> BuildQueue -> BuildQueue -> Prop :=
| move_none h q : slot_move h h q q
| move_claim s q : s ∉ inflight q ->
    slot_move None (Some s) q {| inflight := {[s]} ∪ inflight q; jobs := jobs q; pool_up := pool_up q |}
| move_drop s q :
    slot_move (Some s) None q {| inflight := inflight q ∖ {[s]}; jobs := jobs q; pool_up := pool_up q |}
| move_hand s hd q : slot_move (Some s) None q
    {| inflight := inflight q; jobs := jobs q ++ [{| bj_sub := s; bj_head := hd |}]; pool_up := true |}
| move_take j js q : jobs q = j :: js ->
    slot_move None (Some (bj_sub j)) q {| inflight := inflight q; jobs := js; pool_up := pool_up q |}
| move_close q : slot_move None None q
    {| inflight := inflight q ∖ list_to_set (bj_sub <$> jobs q); jobs := []; pool_up := false |}.

(** The calls of a mirror leave the rows alone. *)
Definition mirror_reads {S T : Type} `{!KvStore S T} `{!KvLaws S T} (cfg : FsConfig S) : Prop := forall m, mirror cfg = Some m ->
  (forall k, exists g, kv_reads kv_data kv_up (mirror_get m k) g) /\
  (forall from to, exists g, kv_reads kv_data kv_up (mirror_scan m from to) g) /\
  exists g, kv_reads kv_data kv_up (mirror_refresh m) g.

(** The slots held by the tasks and by the queued jobs. *)
Definition owned (hs : list (option string)) (q : BuildQueue) : list string := omap id hs ++ (bj_sub <$> jobs q).

(** No slot is held twice, and the in-flight set is the held slots. *)
Definition slots_ok (hs : list (option string)) (q : BuildQueue) : Prop :=
  NoDup (owned hs q) /\ forall s, s ∈ inflight q <-> s ∈ owned hs q.

Lemma owned_at (hs : list (option string)) i h : hs !! i = Some h -> exists rest, forall h' (js : list BuildJob),
  omap id (<[i:=h']> hs) ++ (bj_sub <$> js) ≡ₚ option_list h' ++ rest ++ (bj_sub <$> js).
Proof.
  intros Hi. exists (omap id (take i hs) ++ omap id (drop (Datatypes.S i) hs)). intros h' js.
  rewrite insert_take_drop by by eapply lookup_lt_Some.
  rewrite omap_app. destruct h' as [s|]; cbn; [|done].
  by rewrite <- Permutation_middle.
Qed.

Lemma slots_ok_move hs i h h' q q' :
  hs !! i = Some h -> slot_move h h' q q' -> slots_ok hs q -> slots_ok (<[i:=h']> hs) q'.
Proof.
  intros Hi Hm [Hn Hs]. unfold slots_ok, owned in *. destruct (owned_at hs i h Hi) as [rest Hr].
  pose proof (Hr h (jobs q)) as Hq. rewrite list_insert_id in Hq by done. rewrite Hq in Hn.
  setoid_rewrite Hq in Hs. clear Hq. rewrite (Hr h' (jobs q')). setoid_rewrite (Hr h' (jobs q')).
  destruct Hm as [h q|s q Hin|s q|s hd q|j js q Hj|q]; cbn in *.
  - done.
  - split; [|set_solver]. apply NoDup_cons. split; [|done]. by rewrite <- Hs.
  - apply NoDup_cons in Hn as [Hx Hn]. split; [done|]. set_solver.
  - rewrite fmap_app, List.app_assoc. cbn. rewrite <- Permutation_cons_append. split; [done|].
    intros s'. rewrite Hs. set_solver.
  - rewrite Hj in Hn, Hs. cbn in Hn, Hs. rewrite <- Permutation_middle in Hn. split; [done|]. set_solver.
  - apply NoDup_app in Hn as (Hn & Hd & _). rewrite List.app_nil_r. split; [done|].
    intros s. rewrite elem_of_difference, elem_of_list_to_set, Hs. set_solver.
Qed.

Section slots.
Context {S E T : Type} `{!KvStore S T} `{!KvLaws S T} `{!ReplicaHost S} `{!ReplicaHostLaws S T} `{!StoreText} `{!Enforcer E}.
Context `{!Serde Z} `{!Serde WalEntry} `{!Serde FileRecord} `{!Serde RefInfo}.
Variable cfg : FsConfig S.

#[local] Abbreviation W := (sync_world S E).
#[local] Abbreviation task := (prog W).

Definition rows_of (f : fs_state S) : gmap string bytes := kv_data (kv f).

(** What an action leaves alone when its task holds the slot [h]: the feed, the
    master, the policy, and the stores of every other subject. *)
Definition writes_own (h : option string) (w w' : W) : Prop :=
  rows_of (sw_wal w') = rows_of (sw_wal w) /\ rows_of (sw_master w') = rows_of (sw_master w) /\
  sw_policy w' = sw_policy w /\
  forall s, h <> Some s ->
    rows_of (sw_live w' s) = rows_of (sw_live w s) /\ rows_of (sw_scratch w' s) = rows_of (sw_scratch w s).

(** [p] starts with the slot [h] and keeps to it action by action. *)
Fixpoint holds {A} (post : A -> option string -> Prop) (h : option string) (p : task A) : Prop :=
  match p with
  | Ret a => post a h
  | Act f k => forall w, wp f (fun x w' => exists h',
      slot_move h h' (sw_builds w) (sw_builds w') /\ writes_own h w w' /\ holds post h' (k x)) w
  end.

(** [p] leaves the slots as they are and keeps to [h]. *)
Fixpoint calm {A} (h : option string) (p : task A) : Prop :=
  match p with
  | Ret _ => True
  | Act f k => forall w, wp f (fun x w' => sw_builds w' = sw_builds w /\ writes_own h w w' /\ calm h (k x)) w
  end.

Lemma holds_mono {A} (P Q : A -> option string -> Prop) h (p : task A) :
  (forall a h', P a h' -> Q a h') -> holds P h p -> holds Q h p.
Proof.
  intros HPQ. revert h. induction p as [a|X f k IH]; intros h; cbn; [apply HPQ|].
  intros Hp w. eapply wp_mono; [apply Hp|]. intros x w' (h' & Hm & Hw & Hk). exists h'. by auto.
Qed.

Lemma holds_bind {A B} post h (p : task A) (k : A -> task B) :
  holds (fun a h' => holds post h' (k a)) h p -> holds post h (p ≫= k).
Proof.
  revert h. induction p as [a|X f k' IH]; intros h; [done|]. intros Hp w. cbn.
  eapply wp_mono; [apply Hp|]. intros x w' (h' & Hm & Hw & Hk). exists h'.
  split; [done|]. split; [done|]. by apply IH.
Qed.

Lemma calm_holds {A} h (p : task A) : calm h p -> holds (fun _ h' => h' = h) h p.
Proof.
  induction p as [a|X f k IH]; [done|]. intros Hp w. eapply wp_mono; [apply Hp|].
  intros x w' (Hb & Hw & Hk). exists h. rewrite Hb. split; [constructor|]. split; [done|]. by apply IH.
Qed.

Lemma holds_calm_bind {A B} post h (p : task A) (k : A -> task B) :
  calm h p -> (forall a, holds post h (k a)) -> holds post h (p ≫= k).
Proof.
  intros Hp%calm_holds Hk. apply holds_bind. eapply holds_mono; [|exact Hp]. intros a h' ->. apply Hk.
Qed.

Lemma calm_ret {A} h (a : A) : calm h (mret a).
Proof. done. Qed.

Lemma calm_bind {A B} h (p : task A) (k : A -> task B) :
  calm h p -> (forall a, calm h (k a)) -> calm h (p ≫= k).
Proof.
  intros Hp Hk. induction p as [a|X f k' IH]; [apply Hk|]. intros w. cbn.
  eapply wp_mono; [apply Hp|]. intros x w' (Hb & Hw & Hc). split; [done|]. split; [done|]. by apply IH.
Qed.

Lemma calm_bindR {A B F} h (p : task (result A F)) (k : A -> task (result B F)) :
  calm h p -> (forall a, calm h (k a)) -> calm h (bindR p k).
Proof. intros Hp Hk. apply calm_bind; [done|]. intros [a|e]; [apply Hk|done]. Qed.

Lemma calm_map_errM {A F G} h (f : F -> G) (p : task (result A F)) : calm h p -> calm h (map_errM f p).
Proof. intros Hp. apply calm_bind; [done|]. by intros. Qed.

Lemma calm_atomically {A} h (m : act W A) :
  (forall w, wp m (fun _ w' => sw_builds w' = sw_builds w /\ writes_own h w w') w) -> calm h (atomically m).
Proof. intros Hm w. eapply wp_mono; [apply Hm|]. intros x w' [Hb Hw]. by split_and!. Qed.

Lemma writes_own_trans h w1 w2 w3 : writes_own h w1 w2 -> writes_own h w2 w3 -> writes_own h w1 w3.
Proof.
  intros (H1 & H2 & H3 & H4) (K1 & K2 & K3 & K4). split_and!; [congruence..|].
  intros s Hs. destruct (H4 s Hs) as [? ?], (K4 s Hs) as [? ?]. split; congruence.
Qed.

Lemma calm_run {A} h (p : task A) w : calm h p ->
  wp (run p) (fun _ w' => sw_builds w' = sw_builds w /\ writes_own h w w') w.
Proof.
  revert w. induction p as [a|X f k IH]; intros w; cbn [calm run].
  { intros _. by apply wp_ret. }
  intros Hp. specialize (Hp w). unfold wp in *. destruct (f w) as [x w1]. destruct Hp as (Hb & Hw & Hk).
  specialize (IH x w1 Hk). destruct (run (k x) w1) as [a w2]. destruct IH as [Hb' Hw'].
  split; [congruence|]. by eapply writes_own_trans.
Qed.

Lemma writes_own_refl h w : writes_own h w w.
Proof. done. Qed.

(** ** Reads of a store *)

(** [m] leaves the rows as they are. *)
Definition rows_kept {A} (m : act (fs_state S) A) : Prop :=
  forall f, wp m (fun _ f' => rows_of f' = rows_of f) f.

Lemma rows_kept_ret {A} (a : A) : rows_kept (mret a).
Proof. intros f. by apply wp_ret. Qed.

Lemma rows_kept_bind {A B} (m : act (fs_state S) A) (k : A -> act (fs_state S) B) :
  rows_kept m -> (forall a, rows_kept (k a)) -> rows_kept (m ≫= k).
Proof.
  intros Hm Hk f. apply wp_bind. eapply wp_mono; [apply Hm|]. intros a f' Hf.
  eapply wp_mono; [apply Hk|]. intros b f'' Hf'. by rewrite Hf'.
Qed.

Lemma rows_kept_bindR {A B F} (m : act (fs_state S) (result A F)) (k : A -> act (fs_state S) (result B F)) :
  rows_kept m -> (forall a, rows_kept (k a)) -> rows_kept (bindR m k).
Proof. intros Hm Hk. apply rows_kept_bind; [done|]. intros [a|e]; [apply Hk|apply rows_kept_ret]. Qed.

Lemma rows_kept_plain {A} (m : act S (result A StoreError)) g : kv_reads kv_data kv_up m g -> rows_kept (plain m).
Proof.
  intros Hm f. apply wp_plain_any. eapply wp_mono; [apply Hm|]. intros r s (Hd & _). exact Hd.
Qed.

Lemma rows_kept_ext {A} (m m' : act (fs_state S) A) : (forall f, m f = m' f) -> rows_kept m' -> rows_kept m.
Proof. intros He Hm f. unfold wp. rewrite He. apply Hm. Qed.

Hypothesis mirror_keeps : mirror_reads cfg.

Lemma rows_kept_get_one k : rows_kept (get_one cfg k).
Proof.
  pose proof mirror_keeps as Hmk. unfold mirror_reads in Hmk. unfold get_one. destruct (mirror cfg) as [m|] eqn:Em; [|eapply rows_kept_plain, kv_get_law].
  destruct (Hmk m eq_refl) as (Hg & _). destruct (Hg k). by eapply rows_kept_plain.
Qed.

Lemma rows_kept_scan_prefix p : rows_kept (scan_prefix cfg p).
Proof.
  pose proof mirror_keeps as Hmk. unfold mirror_reads in Hmk. unfold scan_prefix. destruct (mirror cfg) as [m|] eqn:Em; [|eapply rows_kept_plain, kv_scan_law].
  destruct (Hmk m eq_refl) as (_ & Hg & _). destruct (Hg (Some p) (Some (prefix_scan_end p))). by eapply rows_kept_plain.
Qed.

Lemma rows_kept_refresh : rows_kept (refresh_mirror cfg).
Proof.
  pose proof mirror_keeps as Hmk. unfold mirror_reads in Hmk. unfold refresh_mirror. destruct (mirror cfg) as [m|] eqn:Em; [|apply rows_kept_ret].
  destruct (Hmk m eq_refl) as (_ & _ & [g Hg]). by eapply rows_kept_plain.
Qed.

Create HintDb calm.
#[local] Hint Resolve rows_kept_ret rows_kept_bindR rows_kept_get_one rows_kept_scan_prefix rows_kept_refresh : calm.

Lemma rows_kept_get_file id : rows_kept (get_file cfg id).
Proof. unfold get_file, get_row. apply rows_kept_bindR; [auto with calm|]. intros [b|]; auto with calm. Qed.

Lemma rows_kept_rows_for_file id : rows_kept (rows_for_file cfg id).
Proof. unfold rows_for_file. auto with calm. Qed.

Lemma rows_kept_files_for_row ty rid : rows_kept (files_for_row cfg ty rid).
Proof. unfold files_for_row. auto with calm. Qed.

Lemma rows_kept_get_ref_info id : rows_kept (get_ref_info cfg id).
Proof. unfold get_ref_info. apply rows_kept_bindR; [auto with calm|]. intros [b|]; auto with calm. Qed.

Lemma rows_kept_head : rows_kept Wal.head.
Proof.
  unfold Wal.head. apply rows_kept_bindR; [eapply rows_kept_plain, kv_get_law|]. intros [b|]; auto with calm.
Qed.

Lemma rows_kept_read_entries n seq : rows_kept (read_entries n seq).
Proof.
  revert seq. induction n as [|n IH]; intros seq; cbn [read_entries]; [auto with calm|].
  apply rows_kept_bindR; [eapply rows_kept_plain, kv_get_law|]. intros [b|]; [|auto with calm].
  apply rows_kept_bindR; [auto with calm|]. intros e. case_bool_decide; [auto with calm|].
  apply rows_kept_bindR; [apply IH|auto with calm].
Qed.

Lemma rows_kept_range from to : rows_kept (range from to).
Proof. unfold range. case_bool_decide; [auto with calm|apply rows_kept_read_entries]. Qed.

(** ** The parts of a task *)

Lemma calm_wal {A} h (m : act (fs_state S) (result A FsError)) : rows_kept m -> calm h (on wal_lens m).
Proof.
  intros Hm. apply calm_map_errM, calm_atomically. intros w.
  apply (wp_zoom (H := wal_lens)). eapply wp_mono; [apply Hm|]. intros r f Hf. split; [done|]. by split.
Qed.

Lemma calm_master {A} h (m : act (fs_state S) (result A FsError)) : rows_kept m -> calm h (on master_lens m).
Proof.
  intros Hm. apply calm_map_errM, calm_atomically. intros w.
  apply (wp_zoom (H := master_lens)). eapply wp_mono; [apply Hm|]. intros r f Hf. split; [done|]. by split.
Qed.

Lemma set_prefix_ne {A} s s' (a : A) f : s' <> s -> set_prefix s a f s' = f s'.
Proof. intros Hne. unfold set_prefix. by rewrite bool_decide_eq_false_2. Qed.

(** The holder of a slot may do anything to its own stores. *)
Lemma calm_own_live {A} s (m : act (fs_state S) A) : calm (Some s) (atomically (zoom (H := live_lens s) m)).
Proof.
  apply calm_atomically. intros w. apply (wp_zoom (H := live_lens s)), wp_intro. intros a f _. split; [done|].
  split_and!; [done..|]. intros s' Hs. cbn. by rewrite set_prefix_ne by congruence.
Qed.

Lemma calm_own_scratch {A} s (m : act (fs_state S) A) : calm (Some s) (atomically (zoom (H := scratch_lens s) m)).
Proof.
  apply calm_atomically. intros w. apply (wp_zoom (H := scratch_lens s)), wp_intro. intros a f _. split; [done|].
  split_and!; [done..|]. intros s' Hs. cbn. by rewrite set_prefix_ne by congruence.
Qed.

Lemma calm_live {A} s (m : act (fs_state S) (result A FsError)) : calm (Some s) (on (live_lens s) m).
Proof. apply calm_map_errM, calm_own_live. Qed.

Lemma calm_scratch {A} s (m : act (fs_state S) (result A FsError)) : calm (Some s) (on (scratch_lens s) m).
Proof. apply calm_map_errM, calm_own_scratch. Qed.

(** Everyone may read a replica. *)
Lemma calm_peek {A} h s (m : act (fs_state S) A) : rows_kept m -> calm h (atomically (zoom (H := live_lens s) m)).
Proof.
  intros Hm. apply calm_atomically. intros w. apply (wp_zoom (H := live_lens s)).
  eapply wp_mono; [apply Hm|]. intros r f Hf. split; [done|]. split_and!; [done..|].
  intros s' _. split; [|done]. cbn. unfold set_prefix. by case_bool_decide; subst.
Qed.

Lemma calm_ask {A} h (f : E -> A) : calm h (ask (S := S) f).
Proof. apply calm_atomically. intros w. unfold wp. by split. Qed.

Lemma calm_ofs_ret {A} h (r : result A FsError) : calm h (ofs (S := S) (E := E) (mret r)).
Proof. by apply calm_map_errM. Qed.

#[local] Hint Resolve calm_ret calm_wal calm_master calm_live calm_scratch calm_own_live calm_own_scratch
  calm_ask calm_ofs_ret rows_kept_get_file rows_kept_rows_for_file rows_kept_files_for_row rows_kept_get_ref_info
  rows_kept_head rows_kept_range : calm.

Ltac calm := repeat first
  [ solve [eauto with calm]
  | apply calm_bindR; [|intros ?]
  | apply calm_bind; [|intros ?]
  | case_match ].

Lemma calm_load_applied h s : calm h (load_applied (E := E) s).
Proof.
  unfold load_applied. apply calm_bind.
  { apply calm_peek. intros f. apply wp_zoom. eapply wp_mono; [apply manifest_law|]. by intros r s' [Hd _]. }
  intros [[]|e]; [|by calm..]. apply calm_bindR; [apply calm_map_errM, calm_peek; eapply rows_kept_plain, kv_begin_law|].
  intros t. apply calm_bindR; [apply calm_map_errM, calm_peek; eapply rows_kept_plain, tx_get_law|].
  intros b. apply calm_bindR; [apply calm_map_errM, calm_peek; eapply rows_kept_plain, tx_rollback_law|]. by calm.
Qed.
#[local] Hint Resolve calm_load_applied : calm.

Lemma calm_visible h s rows out : calm h (visible s rows out : task (result _ sync_err)).
Proof. revert out. induction rows as [|[ty rid] rows IH]; intros out; cbn [visible]; calm. Qed.
#[local] Hint Resolve calm_visible : calm.

Lemma calm_visible_rows h s id : calm h (visible_rows cfg s id : task (result _ sync_err)).
Proof. unfold visible_rows. calm. Qed.
#[local] Hint Resolve calm_visible_rows : calm.

Lemma calm_can_read h s id : calm h (can_read cfg s id : task (result _ sync_err)).
Proof. unfold can_read. calm. Qed.
#[local] Hint Resolve calm_can_read : calm.

(** ** A full rebuild *)

Lemma calm_attach_rows s rows id : calm (Some s) (attach_rows (scratch_lens s) rows id : task (result _ sync_err)).
Proof. induction rows as [|[ty rid] rows IH]; cbn [attach_rows]; calm. Qed.
#[local] Hint Resolve calm_attach_rows : calm.

Lemma calm_copy_file s rec : calm (Some s) (copy_file cfg s rec : task (result _ sync_err)).
Proof. unfold copy_file. calm. Qed.
#[local] Hint Resolve calm_copy_file : calm.

Lemma calm_next_file h fuel p u :
  calm h (zoom_prog (H := kv_of master_lens) (next_file fuel p u) : task _).
Proof.
  revert p u. induction fuel as [|fuel IH]; intros p u; cbn [next_file]; [done|].
  cbn. intros w. apply (wp_zoom (H := kv_of master_lens)). unfold FsPages.next. cbn [view kv_of].
  enough (wp (FsPages.next p) (fun _ s' => kv_data s' = kv_data (kv (sw_master w))) (kv (sw_master w))) as Hn.
  { eapply wp_mono; [apply Hn|]. intros [[[kv|]|e] p'] s' Hs; (split; [done|]); (split; [by repeat split|]); cbn; try done.
    case_match; [apply IH|]. case_match; [done|apply IH]. }
  unfold FsPages.next. case_match; [|by apply wp_ret]. case_match; [by apply wp_ret|].
  apply wp_bind. eapply wp_mono; [apply kv_scan_law|]. intros [page|e] s' [Hd _].
  - case_match. by apply wp_ret.
  - by apply wp_ret.
Qed.
#[local] Hint Resolve calm_next_file : calm.

Lemma calm_copy_loop fuel s p u : calm (Some s) (copy_loop cfg fuel s p u : task (result _ sync_err)).
Proof. revert p u. induction fuel as [|fuel IH]; intros p u; cbn [copy_loop]; calm. Qed.
#[local] Hint Resolve calm_copy_loop : calm.

Lemma calm_walk_live s p : calm (Some s) (walk_next (live_lens s) p : task (result _ sync_err)).
Proof.
  unfold walk_next. apply calm_bind; [|by intros []]. apply calm_atomically. intros w.
  apply (wp_zoom (H := kv_of (live_lens s))), wp_intro. intros a f _. split; [done|].
  split_and!; [done..|]. intros s' Hs. cbn. by rewrite set_prefix_ne by congruence.
Qed.

Lemma calm_walk_scratch s p : calm (Some s) (walk_next (scratch_lens s) p : task (result _ sync_err)).
Proof.
  unfold walk_next. apply calm_bind; [|by intros []]. apply calm_atomically. intros w.
  apply (wp_zoom (H := kv_of (scratch_lens s))), wp_intro. intros a f _. split; [done|].
  split_and!; [done..|]. intros s' Hs. cbn. by rewrite set_prefix_ne by congruence.
Qed.
#[local] Hint Resolve calm_walk_live calm_walk_scratch : calm.

Lemma calm_next_data_key s fuel p : calm (Some s) (next_data_key s fuel p : task (result _ sync_err)).
Proof. revert p. induction fuel as [|fuel IH]; intros p; cbn [next_data_key]; calm. Qed.
#[local] Hint Resolve calm_next_data_key : calm.

Lemma calm_apply_write s t o : calm (Some s) (apply_write s t o : task (result _ sync_err)).
Proof. unfold apply_write. calm. Qed.
#[local] Hint Resolve calm_apply_write : calm.

Lemma calm_join_loop s fuel d l t b : calm (Some s) (join_loop s fuel d l t b : task (result _ sync_err)).
Proof. revert d l t b. induction fuel as [|fuel IH]; intros d l t b; cbn [join_loop]; calm. Qed.
#[local] Hint Resolve calm_join_loop : calm.

Lemma calm_build_full s fuel : calm (Some s) (build_full cfg fuel s : task (result _ sync_err)).
Proof.
  unfold build_full, copy_filtered, commit_diff. apply calm_bindR; [calm|]. intros hd.
  apply calm_bindR; [calm|]. intros _. apply calm_bind; [|intros _; calm].
  apply calm_atomically. intros w. apply (wp_zoom (H := kv_of (scratch_lens s))), wp_intro. intros a f _.
  split; [done|]. split_and!; [done..|]. intros s' Hs. cbn. by rewrite set_prefix_ne by congruence.
Qed.
#[local] Hint Resolve calm_build_full : calm.

(** ** A replay *)

Lemma calm_group_closure h fuel found fr : calm h (group_closure fuel found fr : task (result _ sync_err)).
Proof. revert found fr. induction fuel as [|fuel IH]; intros found [|n fr]; cbn [group_closure]; calm. Qed.
#[local] Hint Resolve calm_group_closure : calm.

Lemma calm_implicit_groups h fuel s : calm h (implicit_groups fuel s : task (result _ sync_err)).
Proof. unfold implicit_groups. calm. Qed.
#[local] Hint Resolve calm_implicit_groups : calm.

Lemma calm_resync_file s ty rid id : calm (Some s) (resync_file cfg s ty rid id : task (result _ sync_err)).
Proof. unfold resync_file. calm. Qed.
#[local] Hint Resolve calm_resync_file : calm.

Lemma calm_resync_files s ty rid ids : calm (Some s) (resync_files cfg s ty rid ids : task (result _ sync_err)).
Proof. induction ids as [|id ids IH]; cbn [resync_files]; calm. Qed.
#[local] Hint Resolve calm_resync_files : calm.

Lemma calm_resync_rows s rows n : calm (Some s) (resync_rows cfg s rows n : task (result _ sync_err)).
Proof. revert n. induction rows as [|[ty rid] rows IH]; intros n; cbn [resync_rows]; calm. Qed.
#[local] Hint Resolve calm_resync_rows : calm.

Lemma calm_rules_of_all h l rows : calm h (rules_of_all l rows : task (result _ sync_err)).
Proof. revert rows. induction l as [|s l IH]; intros rows; cbn [rules_of_all]; calm. Qed.
#[local] Hint Resolve calm_rules_of_all : calm.

Lemma calm_read_rows_for_group h fuel g : calm h (read_rows_for_group fuel g : task (result _ sync_err)).
Proof. unfold read_rows_for_group. calm. Qed.
#[local] Hint Resolve calm_read_rows_for_group : calm.

Lemma calm_apply_op s fuel op : calm (Some s) (apply_op cfg fuel s op : task (result _ sync_err)).
Proof. destruct op; cbn [apply_op]; unfold applied, apply_rule_op, apply_membership_op, apply_group_delete; calm. Qed.
#[local] Hint Resolve calm_apply_op : calm.

Lemma calm_apply_all s fuel es : calm (Some s) (apply_all cfg fuel s es : task (result _ sync_err)).
Proof. induction es as [|e es IH]; cbn [apply_all]; calm. Qed.
#[local] Hint Resolve calm_apply_all : calm.

Lemma calm_replay s fuel hd : calm (Some s) (replay cfg fuel hd s : task (result _ sync_err)).
Proof. unfold replay. calm. Qed.

(** ** Whole tasks *)

(** An action on the queue alone. *)
Lemma holds_slot {A} (post : A -> option string -> Prop) h (m : act BuildQueue A) :
  (forall q, wp m (fun a q' => exists h', slot_move h h' q q' /\ post a h') q) ->
  holds post h (atomically (zoom (H := builds_lens) m) : task A).
Proof.
  intros Hm w. apply (wp_zoom (H := builds_lens)). eapply wp_mono; [apply Hm|].
  intros a q' (h' & Hmv & Hp). exists h'. by repeat split.
Qed.

Lemma holds_drop s : holds (fun _ h => h = None) (Some s)
  (atomically (zoom (H := builds_lens) (drop_claim s)) : task unit).
Proof. apply holds_slot. intros q. exists None. split; [apply move_drop|done]. Qed.

Lemma holds_dispatch s hd : holds (fun _ h => h = None) (Some s)
  (atomically (zoom (H := builds_lens) (dispatch s hd)) : task bool).
Proof.
  apply holds_slot. intros q. unfold wp, dispatch. destruct (pool_up q) eqn:Hu; exists None; (split; [|done]).
  - apply move_hand.
  - apply move_drop.
Qed.

Lemma holds_claim s : holds (fun (won : bool) h => h = if won then Some s else None) None
  (atomically (zoom (H := builds_lens) (claim s)) : task bool).
Proof.
  apply holds_slot. intros q. unfold wp, claim. case_bool_decide as Hin.
  - exists None. split; [constructor|done].
  - exists (Some s). split; [by constructor|done].
Qed.

Lemma holds_take : holds (fun (j : option BuildJob) h => h = bj_sub <$> j) None
  (atomically (zoom (H := builds_lens) take_job) : task _).
Proof.
  apply holds_slot. intros q. unfold wp, take_job. destruct (jobs q) as [|j js] eqn:Hj.
  - exists None. split; [constructor|done].
  - exists (Some (bj_sub j)). split; [by apply move_take|done].
Qed.

Lemma holds_receiver : holds (fun _ h => h = None) None
  (atomically (zoom (H := builds_lens) drop_receiver) : task unit).
Proof. apply holds_slot. intros q. exists None. split; [apply move_close|done]. Qed.

Lemma holds_then {A B} h (post : B -> option string -> Prop) (p : task A) (k : A -> task B) :
  holds (fun _ h' => h' = None) h p -> (forall a, holds post None (k a)) -> holds post h (p ≫= k).
Proof. intros Hp Hk. apply holds_bind. eapply holds_mono; [|exact Hp]. intros a h' ->. apply Hk. Qed.

Lemma holds_advance fuel s : holds (fun _ h => h = None) None (advance cfg fuel s : task (result _ sync_err)).
Proof.
  unfold advance. apply holds_calm_bind; [calm|]. intros [hd|e]; [|done].
  apply holds_calm_bind; [calm|]. intros [ap|e]; [|done]. case_bool_decide; [done|].
  apply holds_bind. eapply holds_mono; [|apply holds_claim]. intros [] h' ->; [|done]. cbn [negb].
  apply holds_calm_bind; [apply calm_replay|]. intros [[seq|]|e].
  - apply holds_then; [apply holds_drop|done].
  - apply holds_then; [apply holds_dispatch|]. intros _. apply calm_holds. calm.
  - apply holds_then; [apply holds_drop|]. intros _. apply calm_holds. calm.
Qed.

Lemma holds_build_worker fuel cs : holds (fun _ h => h = None) None (build_worker cfg fuel cs : task unit).
Proof.
  induction cs as [|[[] after] cs IH]; [done..|]. cbn [build_worker]. apply holds_bind.
  eapply holds_mono; [|apply holds_take]. intros [j|] h' ->; [|apply IH]. destruct after; [apply holds_drop|].
  apply holds_calm_bind; [apply calm_build_full|]. intros _. apply holds_then; [apply holds_drop|done].
Qed.

Inductive replica_task : Type :=
| RequestAdvance (fuel : nat) (sub : string)
| RunWorker (fuel : nat) (cancelled : list (bool * bool))
| ClosePool.

Definition task_of (t : replica_task) : task unit :=
  match t with
  | RequestAdvance fuel s => _ ← advance cfg fuel s; mret tt
  | RunWorker fuel cancelled => build_worker cfg fuel cancelled
  | ClosePool => atomically (zoom (H := builds_lens) drop_receiver)
  end.

Lemma holds_task_of t : holds (fun _ h => h = None) None (task_of t).
Proof.
  destruct t; cbn [task_of].
  - apply holds_bind. eapply holds_mono; [|apply holds_advance]. by intros a h' ->.
  - apply holds_build_worker.
  - apply holds_receiver.
Qed.

(** Every task keeps to the slot it holds, and a task that is done holds none. *)
Definition pool_ok (hs : list (option string)) (c : list (task unit) * W) : Prop :=
  length hs = length c.1 /\ slots_ok hs (sw_builds c.2) /\
  forall i p h, c.1 !! i = Some p -> hs !! i = Some h -> holds (fun _ h => h = None) h p.

Lemma pool_ok_step hs c i : pool_ok hs c -> exists hs', pool_ok hs' (pool_step i c).
Proof.
  intros (Hl & Hok & Hp). unfold pool_step. destruct (c.1 !! i) as [p|] eqn:Ep; [|by exists hs].
  destruct (lookup_lt_is_Some_2 hs i) as [h Hh]; [rewrite Hl; by eapply lookup_lt_Some|].
  pose proof (Hp i p h Ep Hh) as Hho. destruct p as [a|X f k]; cbn [prog_step].
  - exists hs. rewrite list_insert_id by done. done.
  - specialize (Hho c.2). unfold wp in Hho. destruct (f c.2) as [x w'].
    destruct Hho as (h' & Hm & _ & Hk). exists (<[i:=h']> hs). split_and!.
    + cbn. by rewrite !length_insert.
    + exact (slots_ok_move hs i h h' _ _ Hh Hm Hok).
    + cbn. intros j q hj. destruct (decide (i = j)) as [<-|Hne].
      * rewrite !list_lookup_insert_eq by (rewrite ?Hl; by eapply lookup_lt_Some). by intros [= <-] [= <-].
      * rewrite !list_lookup_insert_ne by done. apply Hp.
Qed.

Lemma pool_ok_start tasks w : inflight (sw_builds w) = ∅ -> jobs (sw_builds w) = [] ->
  pool_ok (replicate (length tasks) None) (task_of <$> tasks, w).
Proof.
  intros Hi Hj. split_and!.
  - cbn. by rewrite length_replicate, length_fmap.
  - assert (owned (replicate (length tasks) None) (sw_builds w) = []) as Ho.
    { unfold owned. rewrite Hj. induction (length tasks); [done|]. done. }
    unfold slots_ok. cbn [snd]. rewrite Ho, Hi. split; [constructor|set_solver].
  - cbn. intros i p h Hp Hh. apply lookup_replicate in Hh as [-> _].
    rewrite list_lookup_fmap in Hp. apply fmap_Some in Hp as (t & _ & ->). apply holds_task_of.
Qed.

(** C12: a replica has one writer at a time, and no slot leaks.  However any
    requests, pool workers and a closing pool interleave, slots are held
    without duplicates by tasks and queued jobs, and are what the in-flight set
    says; the next action of a task leaves every replica alone but the one
    whose slot it holds, and the feed, the master and the policy too; and when
    all tasks are done and no job is queued, nothing is in flight. *)
Theorem one_writer_per_replica tasks sched w :
  inflight (sw_builds w) = ∅ -> jobs (sw_builds w) = [] ->
  let c := pool_run sched (task_of <$> tasks, w) in
  exists hs, length hs = length tasks /\ slots_ok hs (sw_builds c.2) /\
    (forall i p h, c.1 !! i = Some p -> hs !! i = Some h -> writes_own h c.2 (prog_step p c.2).2) /\
    ((forall p, p ∈ c.1 -> exists a, p = Ret a) -> jobs (sw_builds c.2) = [] -> inflight (sw_builds c.2) = ∅).
Proof.
  intros Hi Hj c.
  assert (length c.1 = length tasks /\ exists hs, pool_ok hs c) as [Hlen (hs & Hl & Hok & Hp)].
  { apply (pool_run_invariant (fun c => length c.1 = length tasks /\ exists hs, pool_ok hs c)).
    - split; [cbn; by rewrite length_fmap|]. eexists. by apply pool_ok_start.
    - intros i c' [Hlen [hs Hhs]]. rewrite pool_step_length. split; [done|]. by eapply pool_ok_step. }
  exists hs. split_and!; [congruence|done| |].
  - intros i p h Ep Hh. specialize (Hp i p h Ep Hh). destruct p as [a|X f k]; [done|]. cbn.
    specialize (Hp c.2). unfold wp in Hp. destruct (f c.2) as [x w']. by destruct Hp as (h' & _ & Hw & _).
  - intros Hdone Hjs. destruct Hok as [_ Hs]. apply set_eq. intros s. rewrite Hs. unfold owned. rewrite Hjs.
    cbn. rewrite List.app_nil_r, list_elem_of_omap. split; [|set_solver]. intros ([s'|] & Hin & [= ->]).
    apply list_elem_of_lookup in Hin as [i Hi']. exfalso.
    destruct (lookup_lt_is_Some_2 c.1 i) as [p Ep]; [rewrite <- Hl; by eapply lookup_lt_Some|].
    destruct (Hdone p) as [a ->]; [by eapply list_elem_of_lookup_2|]. by specialize (Hp i _ _ Ep Hi').
Qed.
End slots.
