(* ===== verification/ReplicaBuild.v ===== *)
(** ReplicaBuild: what the commit of a full rebuild leaves in a replica, and what
    an advance says of it. *)
From S2P Require Import Prelude.
From S2P Require Import Effects.
From S2P Require Import RustStr.
From S2P Require Import Kv.
From S2P Require Import FsTypes.
From S2P Require Import FsStore.
From S2P Require Import FsPages.
From S2P Require Import Policy.
From S2P Require Import Wal.
From S2P Require Import Replica.
From S2P Require Import ReplicaSlots.

(** ** The join, on lists *)

Definition write_of (o : option (kv_pair + string)) (d : gmap string bytes) : gmap string bytes :=
  match o with
  | Some (inl (k, v)) => <[k := v]> d
  | Some (inr k) => delete k d
  | None => d
  end.

(** What the rounds of the join write, and whether they write at all. *)
Fixpoint join_rows (D L : list kv_pair) (d : gmap string bytes) : gmap string bytes :=
  match D, L with
  | a :: D, b :: L => join_rows D L (write_of (join_write (Some a) (Some b)) d)
  | a :: D, [] => join_rows D [] (write_of (join_write (Some a) None) d)
  | [], L => foldl (fun d b => write_of (join_write None (Some b)) d) d L
  end.

Fixpoint join_wrote (D L : list kv_pair) : bool :=
  match D, L with
  | a :: D, b :: L => negb (bool_decide (join_write (Some a) (Some b) = None)) || join_wrote D L
  | [], [] => false
  | _, _ => true
  end.

(** One key list begins with the other. *)
Definition aligned (D L : list kv_pair) : Prop := D.*1 `prefix_of` L.*1 \/ L.*1 `prefix_of` D.*1.

Lemma aligned_cons a D b L : aligned (a :: D) (b :: L) -> a.1 = b.1 /\ aligned D L.
Proof.
  intros [Hp|Hp]; cbn in Hp; pose proof (prefix_cons_inv_1 _ _ _ _ Hp); apply prefix_cons_inv_2 in Hp;
    (split; [congruence|]); [by left|by right].
Qed.

Lemma join_write_same (a b : kv_pair) : a.1 = b.1 ->
  join_write (Some a) (Some b) = if bool_decide (a.2 <> b.2) then Some (inl a) else None.
Proof.
  intros He. unfold join_write. rewrite He.
  pose proof (compare_app b.1 "" "") as Hc. rewrite !app_nil_r in Hc. by rewrite Hc.
Qed.

Lemma join_deletes L d k :
  foldl (fun d b => write_of (join_write None (Some b)) d) d L !! k = if decide (k ∈ L.*1) then None else d !! k.
Proof.
  revert d. induction L as [|b L IH]; intros d; [done|]. cbn [foldl]. rewrite IH. cbn [write_of join_write].
  rewrite lookup_delete. repeat case_decide; set_solver.
Qed.

(** On aligned listings the join gives every desired entry and drops the rest. *)
Lemma join_rows_lookup D L d :
  NoDup D.*1 -> NoDup L.*1 -> aligned D L -> (forall kv, kv ∈ L -> d !! kv.1 = Some kv.2) ->
  (forall kv, kv ∈ D -> join_rows D L d !! kv.1 = Some kv.2) /\
  (forall k, k ∉ D.*1 -> join_rows D L d !! k = if decide (k ∈ L.*1) then None else d !! k).
Proof.
  revert L d. induction D as [|a D IH]; intros L d HD HL Hal Hd; cbn [join_rows].
  { split; [intros kv Hkv; by apply elem_of_nil in Hkv|]. intros k _. destruct L; apply join_deletes. }
  apply NoDup_cons in HD as [Ha HD].
  assert (forall L' d', NoDup L'.*1 -> aligned D L' -> (forall kv, kv ∈ L' -> d' !! kv.1 = Some kv.2) ->
    d' !! a.1 = Some a.2 -> (forall k, k <> a.1 -> d' !! k = d !! k) -> a.1 ∉ L'.*1 ->
    (forall kv, kv ∈ a :: D -> join_rows D L' d' !! kv.1 = Some kv.2) /\
    (forall k, k ∉ (a :: D).*1 -> join_rows D L' d' !! k = if decide (k ∈ L'.*1) then None else d !! k)) as Hstep.
  { intros L' d' HL' Hal' Hd' Hda Hother HaL. destruct (IH L' d' HD HL' Hal' Hd') as [I1 I2]. split.
    - intros kv [->|Hkv]%elem_of_cons; [|by apply I1]. rewrite I2 by done. by rewrite decide_False.
    - intros k Hk. cbn in Hk. rewrite I2 by set_solver. rewrite Hother by set_solver. done. }
  destruct L as [|b L].
  - apply Hstep; [constructor|by right; apply prefix_nil|by intros kv Hkv%elem_of_nil| | |set_solver].
    + cbn. destruct a. apply lookup_insert_eq.
    + intros k Hk. destruct a. cbn in *. by rewrite lookup_insert_ne.
  - apply aligned_cons in Hal as [He Hal]. cbn in HL. apply NoDup_cons in HL as [Hb HL].
    rewrite join_write_same by done.
    assert (forall d', d' !! a.1 = Some a.2 -> (forall k, k <> a.1 -> d' !! k = d !! k) ->
      (forall kv, kv ∈ a :: D -> join_rows D L d' !! kv.1 = Some kv.2) /\
      (forall k, k ∉ (a :: D).*1 -> join_rows D L d' !! k = if decide (k ∈ (b :: L).*1) then None else d !! k)) as Hone.
    { intros d' Hda Hother. destruct (Hstep L d') as [I1 I2]; [done|done| |done|done|by rewrite He|].
      - intros kv Hkv. rewrite Hother; [apply Hd; set_solver|]. rewrite He. intros Heq. apply Hb. rewrite <- Heq.
        by apply list_elem_of_fmap_2.
      - split; [done|]. intros k Hk. rewrite I2 by done. cbn in *. repeat case_decide; set_solver. }
    case_bool_decide as Hv; cbn [write_of].
    + destruct a as [ka va]. cbn in *. apply Hone; [apply lookup_insert_eq|]. intros k Hk. by rewrite lookup_insert_ne.
    + apply Hone; [|done]. rewrite He, Hv. apply Hd. set_solver.
Qed.

Lemma join_wrote_false D L : aligned D L -> join_wrote D L = false -> D = L.
Proof.
  revert L. induction D as [|a D IH]; intros [|b L] Hal Hw; try done. cbn [join_wrote] in Hw.
  apply aligned_cons in Hal as [He Hal]. apply orb_false_iff in Hw as [Hj Hw].
  rewrite join_write_same in Hj by done. f_equal; [|by apply IH].
  apply negb_false_iff, bool_decide_eq_true in Hj. case_bool_decide as Hv; [done|].
  destruct a, b. cbn in *. congruence.
Qed.

(** ** The commit *)

Section build.
Context {S E T : Type} `{!KvStore S T} `{!KvLaws S T} `{!ReplicaHost S} `{!ReplicaHostLaws S T}.
Context `{!StoreText} `{!Enforcer E} `{!Serde Z} `{!SerdeLaws Z}.

#[local] Abbreviation W := (sync_world S E).
#[local] Abbreviation task := (prog W).

(** What a transaction reads is its own writes over the committed rows. *)
Hypothesis tx_data_ext : forall (t : T) (s s' : S), kv_data s' = kv_data s -> tx_data t s' = tx_data t s.

Variable s : string.

(** The stores of the subject answer and hold these rows. *)
Definition stores_at (w : W) (D L : gmap string bytes) : Prop :=
  (kv_up (kv (sw_scratch w s)) /\ rows_of (sw_scratch w s) = D) /\
  kv_up (kv (sw_live w s)) /\ rows_of (sw_live w s) = L.

Lemma set_prefix_eq {A} (a : A) f : set_prefix s a f s = a.
Proof. unfold set_prefix. by rewrite bool_decide_eq_true_2. Qed.

Lemma wp_live_any {A} (m : act S (result A StoreError)) Q (w : W) :
  wp m (fun r x => Q (map_err SyncErr (map_err fs_of_store r))
    (@upd _ _ (live_lens s) (FsState x (latch (sw_live w s)) (fs_clk (sw_live w s))) w)) (kv (sw_live w s)) ->
  wp (run (on (live_lens s) (plain m))) Q w.
Proof.
  intros Hm. unfold on, ofs, map_errM. apply wp_run_bind, wp_run_atomically, (wp_zoom (H := live_lens s)).
  apply wp_plain_any. exact Hm.
Qed.

Lemma wp_live_step {A} (m : act S (result A StoreError)) f Q (w : W) :
  kv_reads kv_data kv_up m f -> (forall e w', Q (Err e) w') ->
  (forall a w', f (kv (sw_live w s)) (kv (sw_live w' s)) a -> Q (Ok a) w') ->
  wp (run (on (live_lens s) (plain m))) Q w.
Proof.
  intros Hm He HQ. apply wp_live_any. eapply wp_mono; [apply Hm|]. intros [a|e] x (_ & Hf & _); [|apply He].
  apply HQ. cbn. rewrite set_prefix_eq. by apply Hf.
Qed.

Lemma wp_live_read {A} (m : act S (result A StoreError)) f D L Q (w : W) :
  kv_reads kv_data kv_up m f -> stores_at w D L ->
  (forall a w', stores_at w' D L -> f (kv (sw_live w s)) (kv (sw_live w' s)) a -> Q (Ok a) w') ->
  wp (run (on (live_lens s) (plain m))) Q w.
Proof.
  intros Hm [Hs [Hu Hl]] HQ. apply wp_live_any. eapply wp_reads_up; [exact Hm|done|].
  intros a x Hux Hdx Hf. apply HQ; [|cbn; by rewrite set_prefix_eq].
  split; [done|]. cbn. rewrite set_prefix_eq. split; [done|]. unfold rows_of in *. cbn. by rewrite Hdx.
Qed.

(** A walk from [p] over the rows [d] has the entries [l] to come. *)
Definition yields (p : KvPages) (d : gmap string bytes) (l : list kv_pair) : Prop :=
  exists k, p = pages_at d k /\ l = drop k (kv_list d).

Lemma yields_new d : yields new_pages d (kv_list d).
Proof. by exists 0. Qed.

Lemma tail_of_drop {A} k (l : list A) : tail (drop k l) = drop (Datatypes.S k) l.
Proof. revert l. induction k as [|k IH]; intros [|x l]; try done. apply IH. Qed.

Lemma yields_step p d l : yields p d l ->
  exists p', walk_step p d = (hd_error l, p') /\ yields p' d (tail l).
Proof.
  intros (k & -> & ->). exists (pages_at d (Datatypes.S k)). rewrite walk_step_at. split.
  - f_equal. pose proof (lookup_drop (kv_list d) k 0) as Hl. rewrite Nat.add_0_r in Hl. rewrite <- Hl.
    by destruct (drop k _).
  - exists (Datatypes.S k). split; [done|]. apply tail_of_drop.
Qed.

Lemma wp_walk (l : Lens (fs_state S) W) p Q (w : W) :
  kv_up (kv (@view _ _ l w)) ->
  (forall x, kv_up x -> kv_data x = kv_data (kv (@view _ _ l w)) ->
    let '(o, p') := walk_step p (kv_data (kv (@view _ _ l w))) in
    Q (Ok (o, p')) (@upd _ _ (kv_of l) x w)) ->
  wp (run (walk_next l p)) Q w.
Proof.
  intros Hu HQ. unfold walk_next. apply wp_run_bind, wp_run_atomically, (wp_zoom (H := kv_of l)).
  apply wp_next; [done|]. intros x Hux Hdx. specialize (HQ x Hux Hdx). cbn [kv_of view] in *.
  destruct (walk_step p _) as [o p']. exact HQ.
Qed.

Lemma wp_walk_scratch p l D L Q (w : W) : stores_at w D L -> yields p D l ->
  (forall p' w', stores_at w' D L -> kv_data (kv (sw_live w' s)) = kv_data (kv (sw_live w s)) ->
    yields p' D (tail l) -> Q (Ok (hd_error l, p')) w') ->
  wp (run (walk_next (scratch_lens s) p)) Q w.
Proof.
  intros [[Hu Hd] Hl] Hy HQ. destruct (yields_step _ _ _ Hy) as (p' & Hp & Hy'). apply wp_walk; [done|].
  intros x Hux Hdx. cbn [view scratch_lens] in *. unfold rows_of in Hd. rewrite Hd, Hp.
  apply HQ; [|done|done]. split; [|done]. cbn. rewrite set_prefix_eq. split; [done|]. unfold rows_of. cbn. congruence.
Qed.

Lemma wp_walk_live p l D L Q (w : W) : stores_at w D L -> yields p L l ->
  (forall p' w', stores_at w' D L -> kv_data (kv (sw_live w' s)) = kv_data (kv (sw_live w s)) ->
    yields p' L (tail l) -> Q (Ok (hd_error l, p')) w') ->
  wp (run (walk_next (live_lens s) p)) Q w.
Proof.
  intros [Hs [Hu Hd]] Hy HQ. destruct (yields_step _ _ _ Hy) as (p' & Hp & Hy'). apply wp_walk; [done|].
  intros x Hux Hdx. cbn [view live_lens] in *. unfold rows_of in Hd. rewrite Hd, Hp.
  apply HQ; [| |done].
  - split; [done|]. cbn. rewrite set_prefix_eq. split; [done|]. unfold rows_of. cbn. congruence.
  - cbn. by rewrite set_prefix_eq.
Qed.

(** The entries of the live replica that the join sees. *)
Definition data_keys (l : list kv_pair) : list kv_pair := List.filter (fun kv => negb (bool_decide (kv.1 = APPLIED_KEY))) l.

Lemma wp_next_data_key fuel p l D L Q (w : W) : stores_at w D L -> yields p L l -> length l < fuel ->
  (forall p' l' w', stores_at w' D L -> kv_data (kv (sw_live w' s)) = kv_data (kv (sw_live w s)) ->
    yields p' L l' -> data_keys l' = tail (data_keys l) -> length l' <= pred (length l) ->
    Q (Ok (hd_error (data_keys l), p')) w') ->
  wp (run (next_data_key s fuel p)) Q w.
Proof.
  revert p l w. induction fuel as [|fuel IH]; intros p l w Hst Hy Hf HQ; [lia|]. cbn [next_data_key].
  apply wp_run_bindR. eapply wp_walk_live; [done|done|]. intros p1 w1 Hst1 Hd1 Hy1.
  destruct l as [|kv l]; cbn [hd_error tail] in *.
  { apply wp_ret. by eapply HQ. }
  unfold data_keys in *. cbn [List.filter] in HQ. case_bool_decide as Hk.
  - eapply (IH p1 l); [done|done|cbn in Hf; lia|]. intros p' l' w' Hst' Hd' Hy' Hl' Hlen.
    cbn [negb] in HQ. eapply HQ; [done|congruence|done|done|cbn; lia].
  - apply wp_ret. cbn [negb] in HQ. eapply HQ; [done|congruence|done|done|done].
Qed.

Lemma wp_apply_write t o D L Q (w : W) : stores_at w D L ->
  (forall t' w', stores_at w' D L ->
    tx_data t' (kv (sw_live w' s)) = write_of (Some o) (tx_data t (kv (sw_live w s))) -> Q (Ok t') w') ->
  wp (run (apply_write s t o)) Q w.
Proof.
  intros Hst HQ. destruct o as [[k v]|k]; cbn [apply_write].
  - eapply wp_live_read; [apply tx_set_law|done|]. auto.
  - eapply wp_live_read; [apply tx_delete_law|done|]. auto.
Qed.

Lemma wp_join_loop fuel dp lp ds ls t wrote D L Q (w : W) :
  stores_at w D L -> yields dp D ds -> yields lp L ls -> length ds + length ls < fuel ->
  (forall t' w', stores_at w' D L ->
    tx_data t' (kv (sw_live w' s)) = join_rows ds (data_keys ls) (tx_data t (kv (sw_live w s))) ->
    Q (Ok (t', wrote || join_wrote ds (data_keys ls))) w') ->
  wp (run (join_loop s fuel dp lp t wrote)) Q w.
Proof.
  revert dp lp ds ls t wrote w. induction fuel as [|fuel IH]; intros dp lp ds ls t wrote w Hst Hd Hl Hf HQ; [lia|].
  cbn [join_loop]. apply wp_run_bindR. eapply wp_walk_scratch; [done|done|]. intros dp' w1 Hst1 Hd1 Hd'.
  apply wp_run_bindR. eapply wp_next_data_key; [done|done|lia|]. intros lp' ls' w2 Hst2 Hd2 Hl' Hls Hlen.
  assert (tx_data t (kv (sw_live w2 s)) = tx_data t (kv (sw_live w s))) as Ht by (apply tx_data_ext; congruence).
  destruct ds as [|a ds], (data_keys ls) as [|b dl] eqn:El; cbn [hd_error tail length] in *.
  1: { apply wp_ret. specialize (HQ t w2 Hst2 Ht). by rewrite orb_false_r in HQ. }
  all: assert (0 < length ls \/ data_keys ls = []) as Hpos by (destruct ls; [by right|left; cbn; lia]).
  - apply wp_run_bindR, (wp_apply_write _ _ D L); [done|]. intros t' w3 Hst3 Ht3.
    eapply (IH dp' lp' [] ls'); [done..|cbn; rewrite El in Hpos; destruct Hpos; [lia|done]|].
    intros t4 w4 Hst4 Ht4. rewrite Hls, Ht3, Ht in Ht4. rewrite Hls. cbn [join_wrote] in *.
    specialize (HQ t4 w4 Hst4 Ht4). by rewrite orb_true_r in HQ.
  - apply wp_run_bindR, (wp_apply_write _ _ D L); [done|]. intros t' w3 Hst3 Ht3.
    eapply (IH dp' lp' ds ls'); [done..|lia|].
    intros t4 w4 Hst4 Ht4. rewrite Hls, Ht3, Ht in Ht4. rewrite Hls. cbn [join_wrote] in *.
    specialize (HQ t4 w4 Hst4 Ht4). by rewrite orb_true_r in HQ.
  - rewrite El in Hpos. destruct Hpos; [|done]. cbn [join_rows join_wrote] in HQ.
    destruct (join_write (Some a) (Some b)) as [o|] eqn:Ej.
    + apply wp_run_bindR, (wp_apply_write _ _ D L); [done|]. intros t' w3 Hst3 Ht3.
      eapply (IH dp' lp' ds ls'); [done..|lia|].
      intros t4 w4 Hst4 Ht4. rewrite Hls, Ht3, Ht in Ht4. rewrite Hls.
      specialize (HQ t4 w4 Hst4 Ht4). by rewrite orb_true_r in HQ.
    + eapply (IH dp' lp' ds ls'); [done..|lia|].
      intros t4 w4 Hst4 Ht4. rewrite Hls, Ht in Ht4. rewrite Hls. by apply HQ.
Qed.

Definition marker_of (L : gmap string bytes) : option Z := b ← L !! APPLIED_KEY; ok (from_slice b).

Lemma wp_load_applied D L Q (w : W) : stores_at w D L ->
  (forall w', stores_at w' D L -> kv_data (kv (sw_live w' s)) = kv_data (kv (sw_live w s)) -> Q (Ok (marker_of L)) w') ->
  wp (run (load_applied s)) Q w.
Proof.
  intros Hst HQ. unfold load_applied. apply wp_run_bind, wp_run_atomically, (wp_zoom (H := live_lens s)), wp_zoom.
  eapply wp_mono; [apply manifest_law|]. intros r x (Hdx & Hno & Hux).
  destruct Hst as [Hs [Hu Hd]]. destruct (Hux Hu) as [Hux' [b ->]].
  set (w1 := @upd _ _ (live_lens s) _ w).
  assert (stores_at w1 D L /\ kv_data (kv (sw_live w1 s)) = kv_data (kv (sw_live w s))) as [Hst1 Hd1].
  { unfold stores_at, rows_of, w1. cbn. rewrite !set_prefix_eq. cbn. rewrite Hdx. split_and!; first [apply Hs|exact Hd|done]. }
  clearbody w1. destruct b.
  - apply wp_run_bindR. eapply wp_live_read; [apply kv_begin_law|done|]. intros t w2 Hst2 Ht.
    apply wp_run_bindR. eapply wp_live_read; [apply tx_get_law|done|]. intros o w3 Hst3 [-> _].
    apply wp_run_bindR. eapply wp_live_read; [apply tx_rollback_law|done|]. intros [] w4 Hst4 _.
    apply wp_ret. rewrite Ht, Hd1. destruct Hst1 as [_ [_ Hl1]]. unfold rows_of in Hl1. rewrite <- Hd1, Hl1.
    apply HQ; [done|]. destruct Hst4 as [_ [_ Hl4]]. unfold rows_of in Hl4. congruence.
  - apply wp_ret. replace None with (marker_of L); [by apply HQ|].
    rewrite <- Hd. unfold marker_of, rows_of. specialize (Hno eq_refl). cbn in Hno. by rewrite Hno.
Qed.

Lemma wp_live_write (m : act S (result unit StoreError)) g D L Q (w : W) :
  kv_writes kv_data kv_up m g -> stores_at w D L ->
  (forall w', stores_at w' D (g (kv (sw_live w s))) -> Q (Ok tt) w') ->
  wp (run (on (live_lens s) (plain m))) Q w.
Proof.
  intros Hm [Hs [Hu Hl]] HQ. apply wp_live_any. eapply wp_writes_up; [exact Hm|done|].
  intros x Hux Hdx. apply HQ. split; [done|]. cbn. rewrite set_prefix_eq. split; [done|]. exact Hdx.
Qed.

Lemma elem_of_data_keys kv L : kv ∈ data_keys (kv_list L) <-> L !! kv.1 = Some kv.2 /\ kv.1 <> APPLIED_KEY.
Proof.
  unfold data_keys. rewrite list_elem_of_In, filter_In, <- list_elem_of_In. destruct kv as [k v].
  rewrite elem_of_kv_list. cbn. rewrite negb_true_iff, bool_decide_eq_false. done.
Qed.

Lemma data_keys_NoDup L : NoDup (data_keys (kv_list L)).*1.
Proof.
  pose proof (kv_list_NoDup L) as Hn. induction (kv_list L) as [|kv l IH]; [done|]. cbn in *.
  apply NoDup_cons in Hn as [Hk Hn]. case_bool_decide; cbn; [by apply IH|]. apply NoDup_cons. split; [|by apply IH].
  intros Hin. apply Hk. apply list_elem_of_fmap in Hin as (kv' & He & Hin). apply list_elem_of_fmap. exists kv'.
  split; [done|]. unfold data_keys in Hin. rewrite list_elem_of_In, filter_In, <- list_elem_of_In in Hin. apply Hin.
Qed.

Lemma data_keys_length l : length (data_keys l) <= length l.
Proof. induction l as [|kv l IH]; [done|]. unfold data_keys in *. cbn. case_bool_decide; cbn; lia. Qed.

(** A replica without its marker. *)
Lemma joined_rows D L k : D !! APPLIED_KEY = None -> aligned (kv_list D) (data_keys (kv_list L)) -> k <> APPLIED_KEY ->
  join_rows (kv_list D) (data_keys (kv_list L)) L !! k = D !! k.
Proof.
  intros HD Hal Hk. destruct (join_rows_lookup (kv_list D) (data_keys (kv_list L)) L) as [H1 H2].
  - apply kv_list_NoDup.
  - apply data_keys_NoDup.
  - done.
  - intros kv Hkv. by apply elem_of_data_keys in Hkv as [? _].
  - destruct (D !! k) as [v|] eqn:Ek.
    + apply (H1 (k, v)). by apply elem_of_kv_list.
    + rewrite H2.
      * case_decide as Hin; [done|]. destruct (L !! k) as [v|] eqn:El; [|done]. exfalso. apply Hin.
        apply list_elem_of_fmap. exists (k, v). split; [done|]. apply elem_of_data_keys. by split.
      * intros Hin. apply list_elem_of_fmap in Hin as ([k' v] & -> & Hin). apply elem_of_kv_list in Hin. cbn in Ek. congruence.
Qed.

(** The same entries, the marker aside. *)
Lemma same_rows D L : D !! APPLIED_KEY = None -> kv_list D = data_keys (kv_list L) -> delete APPLIED_KEY L = D.
Proof.
  intros HD He. apply map_eq. intros k. rewrite lookup_delete. case_decide as Hk; [by subst|].
  apply option_eq. intros v. rewrite <- (elem_of_kv_list D), He, elem_of_data_keys. cbn. naive_solver.
Qed.

Lemma kv_list_length d : length (kv_list d) = size d.
Proof. rewrite (Permutation_length (kv_list_perm d)). apply length_map_to_list. Qed.

(** A full rebuild commits exactly the filtered copy when the keys of the
    replica and of the copy line up, one list beginning with the other: when
    the replica is new, when only values changed, and when the difference is
    at the end.  The replica is then the copy, and its marker covers the head. *)
Lemma wp_commit_aligned fuel hd D L (w : W) :
  stores_at w D L -> D !! APPLIED_KEY = None -> aligned (kv_list D) (data_keys (kv_list L)) ->
  size D + size L < fuel ->
  wp (run (commit_diff fuel hd s)) (fun r w' => r = Ok hd /\
    delete APPLIED_KEY (rows_of (sw_live w' s)) = D /\ marker_of (rows_of (sw_live w' s)) = Some hd) w.
Proof.
  intros Hst HD Hal Hf. unfold commit_diff.
  apply wp_run_bindR. eapply wp_live_read; [apply open_writer_law|done|]. intros [] w1 Hst1 _.
  apply wp_run_bindR. eapply wp_live_read; [apply kv_begin_law|done|]. intros t w2 Hst2 Ht.
  apply wp_run_bindR. eapply wp_join_loop; [done|apply yields_new..| |].
  { rewrite !kv_list_length. lia. }
  intros t' w3 Hst3 Ht'. cbn [orb].
  assert (tx_data t' (kv (sw_live w3 s)) = join_rows (kv_list D) (data_keys (kv_list L)) L) as Htx.
  { rewrite Ht', Ht. destruct Hst1 as [_ [_ Hl1]]. unfold rows_of in Hl1. by rewrite Hl1. }
  destruct (to_vec_ok hd) as [m Hm]. unfold ofs, FsStore.encode. rewrite Hm. cbn [map_err].
  apply from_to in Hm. apply wp_run_bindR, wp_ret, wp_run_bindR.
  eapply wp_load_applied; [done|]. intros w4 Hst4 Hd4.
  assert (tx_data t' (kv (sw_live w4 s)) = join_rows (kv_list D) (data_keys (kv_list L)) L) as Htx4
    by (rewrite <- Htx; by apply tx_data_ext).
  destruct (negb _ && bool_decide _) eqn:Ec.
  - apply andb_true_iff in Ec as [Hw%negb_true_iff Hc%bool_decide_eq_true].
    apply wp_run_bindR. eapply wp_live_read; [apply tx_rollback_law|done|]. intros [] w5 Hst5 _.
    apply wp_ret. split; [done|]. destruct Hst5 as [_ [_ ->]]. split; [|done].
    apply same_rows; [done|]. by apply join_wrote_false.
  - apply wp_run_bindR. eapply wp_live_read; [apply tx_set_law|done|]. intros t5 w5 Hst5 Ht5.
    apply wp_run_bindR. eapply wp_live_write; [apply tx_commit_law|done|]. intros w6 Hst6.
    apply wp_ret. split; [done|]. destruct Hst6 as [_ [_ ->]]. rewrite Ht5, Htx4. split.
    + apply map_eq. intros k. rewrite lookup_delete. destruct (decide (APPLIED_KEY = k)) as [<-|Hk]; [by rewrite HD|].
      rewrite lookup_insert_ne by done. by apply joined_rows.
    + unfold marker_of. rewrite lookup_insert_eq. cbn. by rewrite Hm.
Qed.
End build.

(** ** What an advance says *)

Section advance.
Context {S E T : Type} `{!KvStore S T} `{!KvLaws S T} `{!ReplicaHost S} `{!ReplicaHostLaws S T}.
Context `{!StoreText} `{!Enforcer E} `{!Serde Z} `{!SerdeLaws Z}.
Context `{!Serde WalEntry} `{!Serde FileRecord} `{!Serde RefInfo}.
Variable cfg : FsConfig S.
Hypothesis mirror_keeps : mirror_reads cfg.
Variable s : string.

#[local] Abbreviation W := (sync_world S E).

Definition live_marker (w : W) : option Z := marker_of (rows_of (sw_live w s)).

(** Whatever a part of a task does and answers. *)
Lemma wp_any_bindR {A B F} (p : prog W (result A F)) (k : A -> prog W (result B F)) Q w :
  (forall e w', Q (Err e) w') -> (forall a w', wp (run (k a)) Q w') -> wp (run (bindR p k)) Q w.
Proof. intros He Hk. apply wp_run_bindR, wp_intro. intros [a|e] w' _; auto. Qed.

Lemma wp_load_any w : wp (run (load_applied s)) (fun r w' => sw_builds w' = sw_builds w /\
  live_marker w' = live_marker w /\ forall v, r = Ok v -> v = live_marker w) w.
Proof.
  assert (wp (run (load_applied s)) (fun r _ => forall v, r = Ok v -> v = live_marker w) w) as Hv.
  { unfold load_applied. apply wp_run_bind, wp_run_atomically, (wp_zoom (H := live_lens s)), wp_zoom.
    eapply wp_mono; [apply manifest_law|]. intros r x (Hdx & Hno & _). cbn in Hdx, Hno. unfold live_marker, rows_of.
    destruct r as [[]|e].
    - set (w1 := @upd _ _ (live_lens s) _ w).
      assert (kv_data (kv (sw_live w1 s)) = kv_data (kv (sw_live w s))) as Hd1 by (cbn; by rewrite set_prefix_eq).
      clearbody w1. apply wp_run_bindR. eapply wp_live_step; [apply kv_begin_law|done|]. intros t w2 Ht.
      apply wp_run_bindR. eapply wp_live_step; [apply tx_get_law|done|]. intros o w3 [-> _].
      apply wp_any_bindR; [done|]. intros [] w'. apply wp_ret. intros v [= <-]. by rewrite Ht, Hd1.
    - apply wp_ret. intros v [= <-]. unfold marker_of. by rewrite (Hno eq_refl).
    - by apply wp_ret. }
  eapply wp_mono; [apply wp_and; [exact Hv|apply (calm_run None), calm_load_applied]|].
  intros r w' (Hr & Hb & (_ & _ & _ & Hrows)). split; [done|]. split; [|done].
  unfold live_marker. by destruct (Hrows s) as [-> _].
Qed.

(** An acknowledged replay has moved the marker. *)
Lemma wp_replay_marker fuel hd w : wp (run (replay cfg fuel hd s)) (fun r w' =>
  sw_builds w' = sw_builds w /\ forall seq, r = Ok (Advanced seq) -> live_marker w' = Some seq) w.
Proof.
  assert (wp (run (replay cfg fuel hd s)) (fun r w' => forall seq, r = Ok (Advanced seq) -> live_marker w' = Some seq) w) as Hv.
  { unfold replay. apply wp_run_bindR. eapply wp_mono; [apply wp_load_any|]. intros [ap|e] w1 (_ & Hm & Hv); [|done].
    specialize (Hv ap eq_refl). destruct ap as [ap|]; [|by apply wp_ret]. case_bool_decide; [by apply wp_ret|].
    case_bool_decide as Heq; [apply wp_ret; intros seq [= <-]; congruence|].
    apply wp_any_bindR; [done|]. intros es w2. destruct (_ || _); [by apply wp_ret|].
    apply wp_any_bindR; [done|]. intros [] w3. apply wp_any_bindR; [done|]. intros [|] w4; [|by apply wp_ret].
    destruct (to_vec_ok hd) as [m Hm']. unfold ofs, FsStore.encode. rewrite Hm'. cbn [map_err]. apply from_to in Hm'.
    apply wp_run_bindR, wp_ret, wp_run_bindR, wp_live_any. eapply wp_mono; [apply kv_set_law|].
    intros [[]|e] x (Hok & _ & _); cbn [map_err]; [|done]. apply wp_ret. intros seq [= <-].
    unfold live_marker, rows_of. cbn. rewrite set_prefix_eq. cbn. rewrite Hok by done. unfold marker_of.
    rewrite lookup_insert_eq. cbn. by rewrite Hm'. }
  eapply wp_mono; [apply wp_and; [exact Hv|apply (calm_run (Some s)); by apply calm_replay]|].
  by intros r w' (Hr & Hb & _).
Qed.

(** An action on the queue alone. *)
Lemma wp_builds {A B} (m : act BuildQueue A) (k : A -> prog W B) Q (w : W) :
  wp m (fun a q => wp (run (k a)) Q (@upd _ _ builds_lens q w)) (sw_builds w) ->
  wp (run (atomically (zoom (H := builds_lens) m) ≫= k)) Q w.
Proof. intros Hm. by apply wp_run_bind, wp_run_atomically, (wp_zoom (H := builds_lens)). Qed.

(** An advance tells the truth, however its stores fail.  An answer that
    is not pending names the sequence that the replica's own marker covers when
    the answer is made; a pending answer is backed by a rebuild: the subject is
    in flight, or there is no pool to run one. *)
Theorem advance_honest fuel w : wp (run (advance cfg fuel s)) (fun r w' => forall o, r = Ok o ->
  if pending o then s ∈ inflight (sw_builds w') \/ pool_up (sw_builds w') = false
  else live_marker w' = Some (applied_seq o)) w.
Proof.
  unfold advance. apply wp_any_bindR; [done|]. intros hd w1.
  apply wp_run_bindR. eapply wp_mono; [apply wp_load_any|]. intros [ap|e] w2 (_ & Hm & Hv); [|done].
  specialize (Hv ap eq_refl). case_bool_decide as Heq.
  { apply wp_ret. intros o [= <-]. cbn. congruence. }
  apply wp_builds. unfold wp at 1, claim. case_bool_decide as Hin.
  { apply wp_ret. intros o [= <-]. by left. }
  cbn [negb]. set (w3 := @upd _ _ builds_lens _ _).
  assert (s ∈ inflight (sw_builds w3)) as Hs3 by (cbn; set_solver). clearbody w3.
  apply wp_run_bind. eapply wp_mono; [apply wp_replay_marker|]. intros [[seq|]|e] w4 [Hb4 Hr].
  - apply wp_builds, wp_ret. intros o [= <-]. exact (Hr seq eq_refl).
  - apply wp_builds. unfold wp at 1, dispatch. rewrite Hb4.
    destruct (pool_up (sw_builds w3)) eqn:Hup; set (w5 := @upd _ _ builds_lens _ _);
      (apply wp_run_bindR; eapply wp_mono; [apply wp_load_any|]; intros [ap'|e] w6 (Hb6 & _); [|done]);
      apply wp_ret; intros o [= <-]; cbn; rewrite Hb6; [by left|by right].
  - apply wp_builds. unfold wp at 1, drop_claim. set (w5 := @upd _ _ builds_lens _ _). destruct (sync_fencing_loss e).
    + apply wp_run_bindR. eapply wp_mono; [apply wp_load_any|]. intros [ap'|e'] w6 (_ & Hm6 & Hv6); [|done].
      specialize (Hv6 ap' eq_refl). destruct ap' as [seq|]; apply wp_ret; intros o [= <-]. cbn. congruence.
    + by apply wp_ret.
Qed.
End advance.
