(* ===== verification/ReplicaCopy.v ===== *)
(** ReplicaCopy: the filtered copy of the master that a full rebuild makes, and
    the replica that a rebuild over stores that answer commits. *)
From S2P Require Import Prelude.
From S2P Require Import Effects.
From S2P Require Import RustStr.
From S2P Require Import Kv.
From S2P Require Import FsTypes.
From S2P Require Import FsStore.
From S2P Require Import FsRels.
From S2P Require Import FsPages.
From S2P Require Import Policy.
From S2P Require Import Wal.
From S2P Require Import Replica.
From S2P Require Import ReplicaSlots.
From S2P Require Import ReplicaBuild.

(** ** The walk over the file records *)

Section scan.
Context `{!Serde FileRecord}.

(** The rows of a listing that [list_files] would return. *)
Definition file_scan (l : list kv_pair) : RecordScan FileRecord := scan_records FILES_PREFIX FILE_META_SUFFIX l.

(** Up to the next record: it, the keys that did not decode, and the rest. *)
Fixpoint next_record (l : list kv_pair) : option FileRecord * list string * list kv_pair :=
  match l with
  | [] => (None, [], [])
  | (k, v) :: l =>
      if negb (starts_with k FILES_PREFIX) || negb (ends_with k FILE_META_SUFFIX) then next_record l else
      match from_slice v with
      | Ok rec => (Some rec, [], l)
      | Err _ => let '(o, u, l') := next_record l in (o, k :: u, l')
      end
  end.

Lemma file_scan_next l : let '(o, u, l') := next_record l in
  file_scan l = match o with
    | None => Build_RecordScan [] u
    | Some rec => Build_RecordScan (rec :: rs_records (file_scan l')) (u ++ rs_undecodable (file_scan l'))
    end /\ (is_Some o -> length l' < length l).
Proof.
  unfold file_scan. induction l as [|[k v] l IH]; cbn [next_record scan_records length]; [by split; [|intros [? ?]]|].
  destruct (next_record l) as [[o u] l'], IH as [IH Hl].
  assert (is_Some o -> length l' < Datatypes.S (length l)) as Hl' by (intros Ho; specialize (Hl Ho); lia).
  destruct (negb _ || negb _); [done|]. destruct (from_slice v) as [rec|e].
  - split; [by destruct (scan_records _ _ l)|lia].
  - rewrite IH. by destruct o.
Qed.
End scan.

(** ** What a subject may see *)

Section copy.
Context {S E T : Type} `{!KvStore S T} `{!KvLaws S T} `{!StoreText} `{!Enforcer E}.
Context `{!Serde FileRecord} `{!SerdeLaws FileRecord} `{!Serde RefInfo} `{!SerdeLaws RefInfo}.

(** The subject, the policy, and the rows of the master. *)
Variables (s : string) (e : E) (D : gmap string bytes).

Definition record_in (rec : FileRecord) : Prop :=
  exists v, D !! file_key (fr_id rec) = Some v /\ from_slice v = Ok rec.

(** [k] relates the file to a row that the subject may read. *)
Definition opens (f k : string) : Prop :=
  exists ty rid, k = rel_key ty rid f /\ plain_name ty /\ plain_name rid /\ is_Some (D !! k) /\
    authorize_row s ty rid Read e = Ok true.

Definition sees (rec : FileRecord) : Prop := fr_owner_sub rec = s \/ exists k, opens (fr_id rec) k.

(** The keys that a visible record has in the copy. *)
Definition copy_key (rec : FileRecord) (k : string) : Prop :=
  k = file_key (fr_id rec) \/ opens (fr_id rec) k \/ (k = refs_key (fr_id rec) /\ exists k', opens (fr_id rec) k').

(** [X] is the filtered copy of the records [P]: it has their visible rows and
    no others, with reference counts of its own. *)
Record copied (P : FileRecord -> Prop) (X : gmap string bytes) : Prop := {
  copied_keys k : is_Some (X !! k) <-> exists rec, P rec /\ sees rec /\ copy_key rec k;
  copied_files rec : P rec -> sees rec -> exists v, X !! file_key (fr_id rec) = Some v /\ from_slice v = Ok rec;
  copied_refs : all_refs_ok X;
}.

(** Every file row is at the key of its record. *)
Definition files_plain : Prop := forall k v rec, D !! k = Some v ->
  starts_with k FILES_PREFIX = true -> ends_with k FILE_META_SUFFIX = true -> from_slice v = Ok rec ->
  k = file_key (fr_id rec) /\ plain_name (fr_id rec).

Lemma copied_ext P P' X : (forall rec, P rec <-> P' rec) -> copied P X -> copied P' X.
Proof.
  intros HP [Hk Hf Hr]. split; [|intros rec Hrec; by apply Hf, HP|done].
  intros k. rewrite Hk. split; intros (rec & Hrec & ?); exists rec; (split; [by apply HP|done]).
Qed.

Lemma rels_empty f : rels (∅ : gmap string bytes) f = ∅.
Proof. apply set_eq. intros k. rewrite elem_of_rels, lookup_empty. split; [by intros [_ [? ?]]|set_solver]. Qed.

Lemma copied_empty : copied (fun _ => False) ∅.
Proof.
  split; [|done|].
  - intros k. rewrite lookup_empty. split; [by intros [? ?]|by intros (? & [] & _)].
  - intros f _. exists default_ref_info. by rewrite rels_empty, size_empty.
Qed.

Lemma file_key_ends id : ends_with (file_key id) FILE_META_SUFFIX = true.
Proof. unfold file_key. rewrite <- app_assoc. apply ends_with_app. Qed.

Lemma record_in_plain rec : files_plain -> record_in rec -> plain_name (fr_id rec).
Proof. intros Hp (v & Hk & Hv). by destruct (Hp _ v rec Hk (starts_with_app _ _) (file_key_ends _) Hv). Qed.

Lemma elem_of_file_scan rec : files_plain -> rec ∈ rs_records (file_scan (kv_list D)) <-> record_in rec.
Proof.
  intros Hp. split.
  - intros (k & v & Hk & H1 & H2 & Hv)%scan_records_in. apply elem_of_kv_list in Hk.
    destruct (Hp k v rec Hk H1 H2 Hv) as [-> ?]. by exists v.
  - intros (v & Hk & Hv). eapply scan_records_has; [by apply elem_of_kv_list|apply starts_with_app|apply file_key_ends|done].
Qed.

Lemma file_scan_NoDup l : NoDup l.*1 -> (forall k v, (k, v) ∈ l -> D !! k = Some v) -> files_plain ->
  NoDup (fr_id <$> rs_records (file_scan l)).
Proof.
  intros Hn Hl Hp. unfold file_scan. induction l as [|[k v] l IH]; cbn [scan_records]; [constructor|].
  cbn in Hn. apply NoDup_cons in Hn as [Hk Hn].
  specialize (IH Hn ltac:(intros; apply Hl; by right)).
  destruct (starts_with k FILES_PREFIX) eqn:H1, (ends_with k FILE_META_SUFFIX) eqn:H2; cbn [negb orb]; try done.
  destruct (from_slice v) as [rec|e'] eqn:Hv; [|done]. cbn. apply NoDup_cons. split; [|done].
  destruct (Hp k v rec ltac:(apply Hl; by left) H1 H2 Hv) as [-> _].
  intros (rec' & Hid & Hin)%list_elem_of_fmap. apply scan_records_in in Hin as (k' & v' & Hin & H1' & H2' & Hv').
  destruct (Hp k' v' rec' ltac:(apply Hl; by right) H1' H2' Hv') as [-> _].
  apply Hk, list_elem_of_fmap. exists (file_key (fr_id rec'), v'). by rewrite Hid.
Qed.

(** ** One file into the copy *)

(** [X'] is [X] with the relations [keys] of the file attached. *)
Record attached (f : string) (keys : list string) (X X' : gmap string bytes) : Prop := {
  att_rels : rels X' f = list_to_set keys ∪ rels X f;
  att_refs : refs_ok X' f;
  att_frame k : k ∉ keys -> k <> refs_key f -> X' !! k = X !! k;
  att_nil : keys = [] -> X' = X;
}.

Lemma attached_nil f X : refs_ok X f -> attached f [] X X.
Proof. intros Hr. split; [set_solver|done..]. Qed.

Lemma rel_file_key f g : is_rel f (file_key g) = false.
Proof. done. Qed.
Lemma rel_refs_key f g : is_rel f (refs_key g) = false.
Proof. done. Qed.

Lemma opens_rel f k : plain_name f -> opens f k -> is_rel f k = true.
Proof. intros Hf (ty & rid & -> & _). by apply is_rel_key. Qed.

Lemma opens_file f g k : plain_name f -> plain_name g -> opens f k -> is_rel g k = true -> f = g.
Proof. intros Hf Hg (ty & rid & -> & _) Hr. by apply is_rel_key in Hr. Qed.

(** The rows of a file that is not yet in the copy. *)
Lemma copied_fresh P X f : copied P X -> plain_name f ->
  (forall r, P r -> plain_name (fr_id r) /\ fr_id r <> f) ->
  X !! file_key f = None /\ X !! refs_key f = None /\ rels X f = ∅.
Proof.
  intros [Hk _ _] Hf HP.
  assert (forall k, (forall r, plain_name (fr_id r) -> fr_id r <> f -> ~ copy_key r k) -> X !! k = None) as Hnone.
  { intros k Hno. destruct (X !! k) eqn:Ek; [|done]. exfalso.
    assert (is_Some (X !! k)) as (r & Hr & _ & Hc)%Hk by (rewrite Ek; eauto).
    destruct (HP r Hr). by eapply Hno. }
  split; [|split].
  - apply Hnone. intros r Hp Hne [He|[Ho|[He _]]].
    + by apply file_key_inj in He.
    + by apply opens_rel in Ho.
    + by apply file_refs_ne in He.
  - apply Hnone. intros r Hp Hne [He|[Ho|[He _]]].
    + symmetry in He. by apply file_refs_ne in He.
    + by apply opens_rel in Ho.
    + by apply refs_key_inj in He.
  - apply set_eq. intros k. rewrite elem_of_rels. split; [|set_solver]. intros [Hr [v Hv]].
    rewrite Hnone in Hv; [done|]. intros r Hp Hne [->|[Ho|[-> _]]]; [done| |done].
    by apply Hne, (opens_file _ _ k).
Qed.

Lemma file_row_refs f g v X : rels (<[file_key g := v]> X) f = rels X f /\ (refs_ok X f -> refs_ok (<[file_key g := v]> X) f).
Proof.
  assert (rels (<[file_key g := v]> X) f = rels X f) as He.
  { apply set_eq. intros k. rewrite !elem_of_rels. split; intros [Hk Hd]; (split; [done|]).
    - rewrite lookup_insert_ne in Hd; [done|]. by intros <-.
    - rewrite lookup_insert_ne; [done|]. by intros <-. }
  split; [done|]. unfold refs_ok, ref_info. rewrite He, lookup_insert_ne by apply file_refs_ne. done.
Qed.

Lemma opens_rels f k : plain_name f -> opens f k -> k ∈ rels D f.
Proof. intros Hf Ho. apply elem_of_rels. split; [by apply opens_rel|]. by destruct Ho as (? & ? & -> & _ & _ & ? & _). Qed.

(** Attaching at least one relation leaves a reference count. *)
Lemma refs_present X f k : refs_ok X f -> k ∈ rels X f -> is_Some (X !! refs_key f).
Proof.
  intros (info & Hi & Hc & _) Hk. unfold ref_info in Hi. destruct (X !! refs_key f); [by eexists|].
  injection Hi as <-. cbn in Hc. assert (size (rels X f) <> 0); [|lia]. intros Hz%size_empty_inv. set_solver.
Qed.

Lemma attached_keys P X X' rec v keys k : let f := fr_id rec in
  copied P X -> plain_name f -> (forall r, P r -> plain_name (fr_id r) /\ fr_id r <> f) ->
  (forall k, k ∈ keys <-> opens f k) -> attached f keys (<[file_key f := v]> X) X' ->
  is_Some (X' !! k) <-> copy_key rec k \/ is_Some (X !! k).
Proof.
  intros f HX Hf HP Hkeys [Hrels Hrefs Hframe Hnil]. unfold copy_key. fold f.
  destruct (copied_fresh P X f HX Hf HP) as (Hno & Hnorefs & _).
  destruct (decide (k ∈ keys)) as [Hk|Hk].
  { assert (k ∈ rels X' f) as [_ ?]%elem_of_rels by (rewrite Hrels; set_solver).
    split; [intros _; left; right; left; by apply Hkeys|done]. }
  destruct (decide (k = refs_key f)) as [->|Hne].
  - destruct keys as [|k0 keys].
    + rewrite Hnil, lookup_insert_ne, Hnorefs by (done || apply file_refs_ne). split; [by intros [? ?]|].
      intros [[He|[Ho|(_ & k' & Hk')]]|[? ?]]; [|by apply Hkeys in Ho|apply Hkeys in Hk'; set_solver|done].
      symmetry in He. by apply file_refs_ne in He.
    + split; [|intros _; apply (refs_present _ _ k0); [done|rewrite Hrels; set_solver]].
      intros _. left. right. right. split; [done|]. exists k0. apply Hkeys. set_solver.
  - rewrite Hframe by done. destruct (decide (k = file_key f)) as [->|Hnf].
    + rewrite lookup_insert_eq. split; [intros _; by left; left|by eexists].
    + rewrite lookup_insert_ne by done. rewrite <- Hkeys. naive_solver.
Qed.

Lemma attached_refs f keys v X X' : plain_name f -> all_refs_ok X -> Forall (fun k => is_rel f k = true) keys ->
  attached f keys (<[file_key f := v]> X) X' -> all_refs_ok X'.
Proof.
  intros Hf HX Hkeys [_ Hrefs Hframe _] g Hg. destruct (decide (g = f)) as [->|Hne]; [done|].
  rewrite Forall_forall in Hkeys.
  assert (forall k, is_rel g k = true \/ k = refs_key g -> X' !! k = X !! k) as Hsame.
  { intros k Hk. rewrite Hframe.
    - rewrite lookup_insert_ne; [done|]. intros <-. destruct Hk as [?|He]; [done|]. by apply file_refs_ne in He.
    - intros Hin. apply Hkeys in Hin. destruct Hk as [Hk| ->]; [|done].
      apply Hne. apply andb_true_iff in Hk as [_ Hk]. apply andb_true_iff in Hin as [_ Hin].
      apply ends_with_spec in Hk as [p1 Hp1]. apply ends_with_spec in Hin as [p2 Hp2].
      rewrite Hp1 in Hp2. by apply app_last_inj in Hp2 as [_ ?].
    - intros ->. destruct Hk as [?|He]; [done|]. by apply refs_key_inj in He. }
  destruct (HX g Hg) as (info & Hi & Hc). exists info. unfold ref_info in *. rewrite Hsame by by right.
  split; [done|]. assert (rels X' g = rels X g) as ->; [|done].
  apply set_eq. intros k. rewrite !elem_of_rels. split; intros [Hr Hs]; (split; [done|]); by rewrite Hsame in * by by left.
Qed.

(** The copy of a visible record, and the passing over of another. *)
Lemma copied_step P X X' rec v keys : let f := fr_id rec in
  copied P X -> plain_name f -> (forall r, P r -> plain_name (fr_id r) /\ fr_id r <> f) -> sees rec ->
  from_slice v = Ok rec -> (forall k, k ∈ keys <-> opens f k) -> attached f keys (<[file_key f := v]> X) X' ->
  copied (fun r => P r \/ r = rec) X'.
Proof.
  intros f HX Hf HP Hsees Hv Hkeys Hatt. destruct (HX) as [Hk Hfiles Hrefs].
  assert (Forall (fun k => is_rel f k = true) keys) as Hrel.
  { apply Forall_forall. intros k Ho%Hkeys. by eapply opens_rel. }
  split; [| |by eapply attached_refs].
  - intros k. rewrite (attached_keys P X X' rec v keys k) by done. rewrite Hk. naive_solver.
  - rewrite Forall_forall in Hrel. intros r Hr Hs. rewrite (att_frame _ _ _ _ Hatt).
    + destruct Hr as [Hr| ->]; [|rewrite lookup_insert_eq; by eexists].
      destruct (HP r Hr) as [_ Hne]. rewrite lookup_insert_ne by (intros He; by apply Hne, file_key_inj). by apply Hfiles.
    + intros Hin%Hrel. by rewrite rel_file_key in Hin.
    + apply file_refs_ne.
Qed.

Lemma copied_skip P X rec : copied P X -> ~ sees rec -> copied (fun r => P r \/ r = rec) X.
Proof. intros [Hk Hf Hr] Hs. split; [|naive_solver|done]. intros k. rewrite Hk. naive_solver. Qed.

(** The copy has no key that the master has not. *)
Lemma copied_dom P X : copied P X -> (forall r, P r -> record_in r /\ plain_name (fr_id r)) -> all_refs_ok D -> dom X ⊆ dom D.
Proof.
  intros HX HP HD k. rewrite !elem_of_dom. rewrite (copied_keys _ _ HX). intros (r & Hr & _ & Hc).
  destruct (HP r Hr) as [(v & Hv & _) Hp]. destruct Hc as [->|[(ty & rid & -> & _ & _ & ? & _)|(-> & k' & Ho)]]; [by eexists|done|].
  apply (refs_present _ _ k'); [by apply HD|by apply opens_rels].
Qed.
End copy.

(** ** The copy, on stores that answer *)

(** A mirror that has converged answers as the store does; the refresh at the
    start of a build is for that. *)
Definition converged {S T : Type} `{!KvStore S T} `{!KvLaws S T} (cfg : FsConfig S) : Prop := forall m, mirror cfg = Some m ->
  (forall k, kv_reads kv_data kv_up (mirror_get m k) (fun x _ o => o = kv_data x !! k)) /\
  (forall from to, kv_reads kv_data kv_up (mirror_scan m from to) (fun x _ l => l = kv_range (kv_data x) None from to)) /\
  kv_reads kv_data kv_up (mirror_refresh m) (fun _ _ _ => True).

#[export] Instance kv_master_laws {S E : Type} : LensLaws (H := kv_of (E := E) master_lens) S (sync_world S E).
Proof. by split; intros; destruct w as [? [] ? ? ? ?]. Qed.

Section run_copy.
Context {S E T : Type} `{!KvStore S T} `{!KvLaws S T} `{!StoreText} `{!Enforcer E}.
Context `{!Serde FileRecord} `{!SerdeLaws FileRecord} `{!Serde RefInfo} `{!SerdeLaws RefInfo}.
Variable cfg : FsConfig S.
Hypothesis mirror_fresh : converged cfg.
Variables (s : string) (e : E) (D L : gmap string bytes).

#[local] Abbreviation W := (sync_world S E).

(** The master has the rows [D], the subject's replica [L], and its scratch
    store [X]. *)
Record copy_at (w : W) (X : gmap string bytes) : Prop := {
  at_master_up : kv_up (kv (sw_master w));
  at_master : rows_of (sw_master w) = D;
  at_stores : stores_at s w X L;
  at_policy : sw_policy w = e;
}.

Lemma wp_on {A} (l : Lens (fs_state S) W) (m : act (fs_state S) (result A FsError)) Q (w : W) :
  wp m (fun r x => Q (map_err SyncErr r) (@upd _ _ l x w)) (@view _ _ l w) -> wp (run (on l m)) Q w.
Proof. intros Hm. unfold on, ofs, map_errM. by apply wp_run_bind, wp_run_atomically, (wp_zoom (H := l)). Qed.

(** A read of the master. *)
Definition reads_as {A} (m : act (fs_state S) (result A FsError)) (P : A -> Prop) : Prop :=
  forall x, kv_up (kv x) -> rows_of x = D ->
    wp m (fun r x' => kv_up (kv x') /\ rows_of x' = D /\ exists a, r = Ok a /\ P a) x.

Lemma wp_master {A} (m : act (fs_state S) (result A FsError)) P X Q (w : W) : reads_as m P -> copy_at w X ->
  (forall a w', P a -> copy_at w' X -> Q (Ok a) w') -> wp (run (on master_lens m)) Q w.
Proof.
  intros Hm [Hu Hd Hs Hp] HQ. apply wp_on. eapply wp_mono; [by apply Hm|].
  intros r x (Hux & Hdx & a & -> & HP). by apply HQ.
Qed.

(** A write of the copy. *)
Lemma wp_scratch {A} (m : act (fs_state S) (result A FsError)) (P : gmap string bytes -> Prop) X Q (w : W) :
  (forall x, kv_up (kv x) -> rows_of x = X ->
    wp m (fun r x' => kv_up (kv x') /\ P (rows_of x') /\ exists a, r = Ok a) x) ->
  copy_at w X -> (forall a w' X', P X' -> copy_at w' X' -> Q (Ok a) w') -> wp (run (on (scratch_lens s) m)) Q w.
Proof.
  intros Hm [Hu Hd [[Hsu Hsd] Hl] Hp] HQ. apply wp_on. eapply wp_mono; [by apply Hm|].
  intros r x (Hux & HP & a & ->). apply (HQ a _ _ HP). split; [done..| |done].
  split; [|done]. cbn. by rewrite set_prefix_eq.
Qed.

Lemma wp_get_one k Q (x : fs_state S) : kv_up (kv x) ->
  (forall x', kv_up (kv x') -> rows_of x' = rows_of x -> Q (Ok (rows_of x !! k)) x') -> wp (get_one cfg k) Q x.
Proof.
  intros Hu HQ. unfold get_one. destruct (mirror cfg) as [m|] eqn:Em.
  - destruct (mirror_fresh m Em) as (Hg & _). apply wp_plain. eapply wp_reads_up; [apply Hg|done|].
    intros o s' Hu' Hd ->. eexists. split; [done|]. by apply HQ.
  - apply wp_plain, wp_get_up; [done|]. intros s' Hu' Hd. eexists. split; [done|]. by apply HQ.
Qed.

Lemma wp_scan_prefix p Q (x : fs_state S) : kv_up (kv x) ->
  (forall x', kv_up (kv x') -> rows_of x' = rows_of x ->
    Q (Ok (kv_range (rows_of x) None (Some p) (Some (prefix_scan_end p)))) x') -> wp (scan_prefix cfg p) Q x.
Proof.
  intros Hu HQ. unfold scan_prefix. destruct (mirror cfg) as [m|] eqn:Em.
  - destruct (mirror_fresh m Em) as (_ & Hg & _). apply wp_plain. eapply wp_reads_up; [apply Hg|done|].
    intros o s' Hu' Hd ->. eexists. split; [done|]. by apply HQ.
  - apply wp_plain, wp_scan_up; [done|]. intros s' Hu' Hd. eexists. split; [done|]. by apply HQ.
Qed.

Lemma reads_rows f : plain_name f -> rels_plain D -> reads_as (rows_for_file cfg f)
  (fun rows => forall ty rid, (ty, rid) ∈ rows <-> plain_name ty /\ plain_name rid /\ is_Some (D !! rel_key ty rid f)).
Proof.
  intros Hf Hp x Hu Hd. unfold rows_for_file. apply wp_bindR, wp_scan_prefix; [done|]. intros x' Hu' Hd'.
  apply wp_ret. split; [done|]. split; [congruence|]. eexists. split; [done|]. rewrite Hd. intros ty rid. by apply elem_of_rows_in.
Qed.

Lemma reads_ref_info f : plain_name f -> all_refs_ok D -> reads_as (get_ref_info cfg f)
  (fun info => count info = Z.of_nat (size (rels D f))).
Proof.
  intros Hf Hr x Hu Hd. destruct (Hr f Hf) as (info & Hi & Hc & _).
  unfold get_ref_info. apply wp_bindR, wp_get_one; [done|]. intros x' Hu' Hd'.
  unfold ref_info in Hi. rewrite Hd. destruct (D !! refs_key f) as [v|].
  - apply wp_ret. split; [done|]. split; [congruence|]. exists info. unfold decode.
    destruct (from_slice v); [|done]. injection Hi as ->. done.
  - apply wp_ret. injection Hi as <-. split; [done|]. split; [congruence|]. by eexists.
Qed.

Lemma reads_refresh : reads_as (refresh_mirror cfg) (fun _ => True).
Proof.
  intros x Hu Hd. unfold refresh_mirror. destruct (mirror cfg) as [m|] eqn:Em; [|apply wp_ret; eauto].
  destruct (mirror_fresh m Em) as (_ & _ & Hg). apply wp_plain. eapply wp_reads_up; [apply Hg|done|].
  intros n s' Hu' Hd' _. eexists. split; [done|]. split; [done|]. unfold rows_of in *. cbn. split; [congruence|eauto].
Qed.

(** *** The relations of one file *)

Definition may (row : string * string) : bool :=
  match authorize_row s row.1 row.2 Read e with Ok b => b | Err _ => false end.

Lemma may_true row : may row = true <-> authorize_row s row.1 row.2 Read e = Ok true.
Proof. unfold may. destruct (authorize_row _ _ _ _ _) as [[]|err]; naive_solver. Qed.

Lemma wp_visible rows out X Q (w : W) : copy_at w X ->
  Q (Ok (out ++ List.filter may rows)) w -> wp (run (visible s rows out)) Q w.
Proof.
  intros Hw. revert out. induction rows as [|[ty rid] rows IH]; intros out HQ; cbn [visible].
  { by rewrite List.app_nil_r in HQ. }
  unfold ask. apply wp_run_bind, wp_run_atomically. unfold wp at 1. cbn. rewrite (at_policy _ _ Hw).
  apply IH. cbn [List.filter] in HQ. unfold may in HQ at 1. cbn [fst snd] in HQ.
  destruct (authorize_row s ty rid Read e) as [[]|err]; cbn in HQ; try done.
  by rewrite <- List.app_assoc.
Qed.

Definition row_keys (f : string) (rows : list (string * string)) : list string :=
  (fun row => rel_key row.1 row.2 f) <$> rows.

Lemma wp_visible_rows f X Q (w : W) : plain_name f -> rels_plain D -> copy_at w X ->
  (forall rows w', copy_at w' X -> (forall k, k ∈ row_keys f rows <-> opens s e D f k) -> Q (Ok rows) w') ->
  wp (run (visible_rows cfg s f)) Q w.
Proof.
  intros Hf Hp Hw HQ. unfold visible_rows. apply wp_run_bindR. eapply wp_master; [by apply reads_rows|done|].
  intros rows w1 Hrows Hw1. eapply wp_visible; [done|]. apply HQ; [done|]. intros k. unfold row_keys, opens.
  rewrite list_elem_of_fmap. setoid_rewrite list_elem_of_In. setoid_rewrite List.filter_In. setoid_rewrite <- list_elem_of_In.
  split.
  - intros ([ty rid] & -> & Hin & Hm%may_true). apply Hrows in Hin as (? & ? & ?). by exists ty, rid.
  - intros (ty & rid & -> & ? & ? & ? & Ha). exists (ty, rid). split; [done|]. split; [by apply Hrows|].
    by apply may_true.
Qed.

Lemma wp_attach_rows f rows (B : gset string) X Q (w : W) : plain_name f -> copy_at w X -> refs_ok X f ->
  rels X f ∪ list_to_set (row_keys f rows) ⊆ B -> (Z.of_nat (size B) < u32_max)%Z ->
  (forall w' X', copy_at w' X' -> attached f (row_keys f rows) X X' -> Q (Ok tt) w') ->
  wp (run (attach_rows (scratch_lens s) rows f)) Q w.
Proof.
  intros Hf. revert X w. induction rows as [|[ty rid] rows IH]; intros X w Hw Hr HB Hmax HQ; cbn [attach_rows].
  { apply wp_ret. eapply HQ; [done|]. by apply attached_nil. }
  apply wp_run_bindR. eapply (wp_scratch _ (attached f [rel_key ty rid f] X)); [|done|].
  { intros x Hu Hd. eapply wp_mono; [apply wp_attach; [done|done|by rewrite <- Hd in Hr|]|].
    - unfold fs_data, rows_of in *. rewrite Hd. cbn in HB.
      pose proof (subseteq_size (rels X f) B ltac:(set_solver)). lia.
    - intros r x' (Hu' & -> & Hrels & Hrefs & Hframe & _). unfold fs_data, rows_of in *. rewrite Hd in *.
      split; [done|]. split; [|by eexists]. split; [by rewrite Hrels; set_solver|done| |done].
      intros k Hk Hk'. apply Hframe; [set_solver|done]. }
  intros a w1 X1 Hatt Hw1. eapply (IH X1); [done|by destruct Hatt| |done|].
  { rewrite (att_rels _ _ _ _ Hatt). cbn in HB. set_solver. }
  intros w2 X2 Hw2 Hatt2. eapply HQ; [done|]. destruct Hatt as [A1 A2 A3 A4], Hatt2 as [B1 B2 B3 B4]. cbn. split; [|done| |done].
  - rewrite B1, A1. set_solver.
  - intros k Hk Hk'. rewrite B3, A3 by set_solver. done.
Qed.

(** *** One file, and all of them *)

Hypothesis master_files : files_plain D.
Hypothesis master_rels : rels_plain D.
Hypothesis master_refs : all_refs_ok D.
Hypothesis master_size : (Z.of_nat (size D) < u32_max)%Z.

Lemma wp_save_copy rec X Q (w : W) : copy_at w X ->
  (forall v w', from_slice v = Ok rec -> copy_at w' (<[file_key (fr_id rec) := v]> X) -> Q (Ok tt) w') ->
  wp (run (on (scratch_lens s) (save_file dst_cfg rec))) Q w.
Proof.
  intros Hw HQ. destruct (to_vec_ok rec) as [v Hv].
  eapply (wp_scratch _ (fun X' => X' = <[file_key (fr_id rec) := v]> X)); [|done|].
  - intros x Hu Hd. unfold save_file, put_row, FsStore.encode. rewrite Hv. cbn [map_err]. unfold rows_of in *. fs_steps. eauto.
  - intros [] w' X' -> Hw'. apply (HQ v); [by apply from_to|done].
Qed.

Lemma wp_copy_file P rec X Q (w : W) : copy_at w X -> copied s e D P X -> plain_name (fr_id rec) ->
  (forall r, P r -> plain_name (fr_id r) /\ fr_id r <> fr_id rec) ->
  (forall w' X', copy_at w' X' -> copied s e D (fun r => P r \/ r = rec) X' -> Q (Ok tt) w') ->
  wp (run (copy_file cfg s rec)) Q w.
Proof.
  intros Hw HX Hf HP HQ. unfold copy_file. apply wp_run_bindR, (wp_visible_rows _ X); [done..|].
  intros rows w1 Hw1 Hkeys.
  assert (rows = [] <-> ~ exists k, opens s e D (fr_id rec) k) as Hnil.
  { split; [intros ->; intros [k Hk%Hkeys]; by apply not_elem_of_nil in Hk|].
    intros Hno. destruct rows as [|r rows]; [done|]. destruct Hno. exists (rel_key r.1 r.2 (fr_id rec)). apply Hkeys. by left. }
  destruct (bool_decide (fr_owner_sub rec <> s) && bool_decide (rows = [])) eqn:Ec.
  { apply andb_true_iff in Ec as [Ho%bool_decide_eq_true Hr%bool_decide_eq_true].
    apply wp_ret. eapply HQ; [done|]. apply copied_skip; [done|]. unfold sees. naive_solver. }
  assert (sees s e D rec) as Hsees.
  { apply andb_false_iff in Ec as [Ho%bool_decide_eq_false|Hr%bool_decide_eq_false]; unfold sees.
    - left. destruct (decide (fr_owner_sub rec = s)); [done|]. by destruct Ho.
    - right. destruct rows as [|r rows]; [done|]. exists (rel_key r.1 r.2 (fr_id rec)). apply Hkeys. by left. }
  clear Ec. destruct (copied_fresh s e D P X _ HX Hf HP) as (_ & _ & Hrels).
  apply wp_run_bindR, (wp_save_copy rec X); [done|]. intros v w2 Hv Hw2. set (X1 := <[_ := _]> X) in *.
  destruct (file_row_refs (fr_id rec) (fr_id rec) v X) as [Hrels1 Hrefs1].
  specialize (Hrefs1 (copied_refs _ _ _ _ _ HX _ Hf)). fold X1 in Hrels1, Hrefs1.
  apply wp_run_bindR. eapply wp_master; [by apply reads_ref_info|done|]. intros info w3 Hcount Hw3.
  cbn beta in Hcount. case_bool_decide as Hpos.
  - apply (wp_attach_rows _ rows (dom D) X1); [done..| |by rewrite size_dom|].
    + rewrite Hrels1, Hrels. intros k. rewrite elem_of_union, elem_of_list_to_set, elem_of_empty, Hkeys.
      intros [[]|Ho%opens_rels]; [|done]. apply elem_of_rels in Ho as [_ ?]. by apply elem_of_dom.
    + intros w4 X' Hw4 Hatt. eapply HQ; [done|]. by eapply copied_step.
  - apply wp_ret. eapply HQ; [done|]. eapply (copied_step _ _ _ _ _ _ _ _ (row_keys (fr_id rec) rows)); [done..|].
    assert (rows = []) as ->; [|by apply attached_nil]. apply Hnil. intros [k Ho%opens_rels]; [|done].
    assert (size (rels D (fr_id rec)) = 0) as Hz%size_empty_inv by lia. set_solver.
Qed.

Lemma wp_next_file fuel p u l Q (x : S) : kv_up x -> kv_data x = D -> yields p D l -> length l < fuel ->
  (forall p' x', kv_up x' -> kv_data x' = D -> let '(o, un, l') := next_record l in yields p' D l' ->
    Q (Some (Ok {| fsc_record := o; fsc_undecodable := u ++ un |}, p')) x') ->
  wp (run (next_file fuel p u)) Q x.
Proof.
  revert p u l x. induction fuel as [|fuel IH]; intros p u l x Hu Hd Hy Hl HQ; [lia|]. cbn [next_file].
  destruct (yields_step _ _ _ Hy) as (p' & Hp & Hy'). apply wp_run_bind, wp_run_atomically, wp_next; [done|].
  intros x' Hu' Hd'. rewrite Hd, Hp. cbn [fst snd]. destruct l as [|[k v] l]; cbn [hd_error tail next_record length fst snd] in *.
  { apply wp_ret. specialize (HQ p' x' Hu' ltac:(congruence) Hy'). by rewrite List.app_nil_r in HQ. }
  destruct (negb _ || negb _).
  { eapply (IH _ _ l); [done|congruence|done|lia|]. exact HQ. }
  destruct (from_slice v) as [rec|err].
  - apply wp_ret. specialize (HQ p' x' Hu' ltac:(congruence) Hy'). by rewrite List.app_nil_r in HQ.
  - eapply (IH _ _ l); [done|congruence|done|lia|]. intros p2 x2 Hu2 Hd2. specialize (HQ p2 x2 Hu2 Hd2).
    destruct (next_record l) as [[o un] l']. intros Hy2. rewrite <- List.app_assoc. exact (HQ Hy2).
Qed.

Lemma wp_copy_loop fuel p u l P X Q (w : W) : copy_at w X -> copied s e D P X -> yields p D l -> length l < fuel ->
  NoDup (fr_id <$> rs_records (file_scan l)) ->
  (forall r, r ∈ rs_records (file_scan l) -> plain_name (fr_id r)) ->
  (forall r, P r -> plain_name (fr_id r) /\ fr_id r ∉ fr_id <$> rs_records (file_scan l)) ->
  (forall w' X', copy_at w' X' -> copied s e D (fun r => P r \/ r ∈ rs_records (file_scan l)) X' ->
    Q (Ok (u ++ rs_undecodable (file_scan l))) w') ->
  wp (run (copy_loop cfg fuel s p u)) Q w.
Proof.
  revert p u l P X w. induction fuel as [|fuel IH]; intros p u l P X w Hw HX Hy Hl Hn Hplain HP HQ; [lia|].
  cbn [copy_loop]. apply wp_run_bind, (wp_zoom_prog (H := kv_of master_lens)).
  destruct Hw as [Hmu Hm Hst Hpol]. eapply (wp_next_file _ _ _ l); [done|exact Hm|done|done|]. intros p' x' Hu' Hd'.
  set (w1 := @upd _ _ (kv_of master_lens) x' w). assert (copy_at w1 X) as Hw1 by by split. clearbody w1.
  pose proof (file_scan_next l) as Hscan. destruct (next_record l) as [[o un] l']. intros Hy'.
  destruct Hscan as [Hscan Hlen]. rewrite Hscan in *. cbn [fsc_record fsc_undecodable app].
  destruct o as [rec|]; cbn [rs_records rs_undecodable] in *.
  2: { apply wp_ret. eapply HQ; [done|]. eapply copied_ext; [|done]. intros r. set_solver. }
  cbn in Hn. apply NoDup_cons in Hn as [Hfresh Hn].
  apply wp_run_bindR, (wp_copy_file P rec X); [done..|apply Hplain; by left| |].
  { intros r Hr. destruct (HP r Hr) as [? Hne]. split; [done|]. intros He. apply Hne. rewrite He. by left. }
  intros w2 X2 Hw2 HX2. eapply (IH p' _ l'); [done|done|done| |done| | |].
  - specialize (Hlen ltac:(eauto)). lia.
  - intros r Hr. apply Hplain. by right.
  - intros r [Hr| ->]; [|split; [apply Hplain; by left|done]].
    destruct (HP r Hr) as [? Hne]. split; [done|]. intros Hin. apply Hne. by right.
  - intros w3 X3 Hw3 HX3. rewrite <- List.app_assoc. eapply HQ; [done|]. eapply copied_ext; [|done].
    intros r. cbn. rewrite elem_of_cons. tauto.
Qed.

(** The copy is exact: enough fuel is more than the rows of the master. *)
Lemma wp_copy_filtered fuel Q (w : W) : copy_at w ∅ -> size D < fuel ->
  (forall w' X, copy_at w' X -> copied s e D (record_in D) X -> Q (Ok (rs_undecodable (file_scan (kv_list D)))) w') ->
  wp (run (copy_filtered cfg fuel s)) Q w.
Proof.
  intros Hw Hf HQ. eapply wp_copy_loop; [done|apply copied_empty|apply yields_new|by rewrite kv_list_length| | |done|].
  - eapply file_scan_NoDup; [apply kv_list_NoDup| |done]. intros k v. apply elem_of_kv_list.
  - intros r Hr. apply (record_in_plain D); [done|]. by apply elem_of_file_scan.
  - intros w' X Hw' HX. eapply HQ; [done|]. eapply copied_ext; [|done].
    intros r. cbn beta. pose proof (elem_of_file_scan D r master_files). tauto.
Qed.
End run_copy.

(** ** The rebuild *)

Section rebuild.
Context {S E T : Type} `{!KvStore S T} `{!KvLaws S T} `{!ReplicaHost S} `{!ReplicaHostLaws S T}.
Context `{!StoreText} `{!Enforcer E} `{!Serde Z} `{!SerdeLaws Z} `{!Serde WalEntry} `{!SerdeLaws WalEntry}.
Context `{!Serde FileRecord} `{!SerdeLaws FileRecord} `{!Serde RefInfo} `{!SerdeLaws RefInfo}.
Variable cfg : FsConfig S.
Hypothesis mirror_fresh : converged cfg.
Hypothesis tx_data_ext : forall (t : T) (x x' : S), kv_data x' = kv_data x -> tx_data t x' = tx_data t x.
Variable s : string.

#[local] Abbreviation W := (sync_world S E).

(** The stores that a build uses answer, and hold sound rows. *)
Record buildable (w : W) (log : list WalOp) : Prop := {
  b_wal_up : kv_up (kv (sw_wal w));
  b_wal : wal_log (rows_of (sw_wal w)) log;
  b_master_up : kv_up (kv (sw_master w));
  b_files : files_plain (rows_of (sw_master w));
  b_rels : rels_plain (rows_of (sw_master w));
  b_refs : all_refs_ok (rows_of (sw_master w));
  b_size : (Z.of_nat (size (rows_of (sw_master w))) < u32_max)%Z;
  b_live_up : kv_up (kv (sw_live w s));
}.

(** The head of the log is its length. *)
Lemma wp_feed_head l w : wal_log (kv_data (kv w)) l -> kv_up (kv w) ->
  wp Wal.head (fun r w' => kv_up (kv w') /\ kv_data (kv w') = kv_data (kv w) /\ r = Ok (Z.of_nat (length l))) w.
Proof.
  intros Hl Hu. unfold Wal.head. apply wp_bindR. fs_steps. pose proof (log_head _ _ Hl) as Hh.
  destruct (kv_data (kv w) !! seq_key) as [b|]; apply wp_ret; cbn [kv]; kv_norm; [by rewrite Hh|by subst l].
Qed.

Lemma copied_no_marker e D P X : copied s e D P X -> X !! APPLIED_KEY = None.
Proof.
  intros HX. destruct (X !! APPLIED_KEY) eqn:Ek; [|done]. exfalso.
  assert (is_Some (X !! APPLIED_KEY)) as (r & _ & _ & Hc)%(copied_keys _ _ _ _ _ HX) by (rewrite Ek; eauto).
  destruct Hc as [?|[(ty & rid & ? & _)|[? _]]]; done.
Qed.

(** C9: a full rebuild gives the subject what it may see, and nothing else, when
    no name holds a colon.  The stores answer and a mirror has converged; in the
    master every relation names its type, row and file without a colon, every
    file row that decodes is at the key of its record, whose identifier holds no
    colon either, the counts agree with the relations, and there are fewer than
    [u32::MAX] rows; the model's loops have fuel for all rows.  When the keys of the replica and of the copy line up, as
    they do when the subject has no replica yet, the build succeeds with the head
    of the feed; the replica's marker covers that head; a file's record is in the
    replica exactly when the subject owns the file or may read a row it is
    attached to; of its relations exactly those to rows the subject may read; and
    its reference count is the number of these.  A file row of the master that
    does not decode makes the build refuse and leave the replica alone. *)
Theorem build_exact fuel log (w : W) :
  let D := rows_of (sw_master w) in let L := rows_of (sw_live w s) in
  buildable w log ->
  (forall X, copied s (sw_policy w) D (record_in D) X -> aligned (kv_list X) (data_keys (kv_list L))) ->
  size D + size L < fuel ->
  wp (run (build_full cfg fuel s)) (fun r w' =>
    let replica := rows_of (sw_live w' s) in
    if bool_decide (rs_undecodable (file_scan (kv_list D)) = []) then
      r = Ok (Z.of_nat (length log)) /\ marker_of replica = Some (Z.of_nat (length log)) /\
      copied s (sw_policy w) D (record_in D) (delete APPLIED_KEY replica)
    else (exists e, r = Err (SyncErr (FsInternal e))) /\ replica = L) w.
Proof.
  intros D L [Hwu Hw Hmu Hf Hr Hrefs Hmax Hlu] Hal Hfuel. unfold build_full. cbn zeta.
  apply wp_run_bindR, wp_on. eapply wp_mono; [by apply wp_feed_head|]. intros hd x1 (_ & _ & ->).
  set (w1 := @upd _ _ wal_lens _ _). apply wp_run_bindR, wp_on.
  eapply wp_mono; [by apply (reads_refresh cfg mirror_fresh D)|]. intros n x2 (Hmu2 & Hd2 & n' & -> & _).
  apply wp_run_bind, wp_run_atomically, (wp_zoom (H := kv_of (scratch_lens s))). unfold wp at 1.
  set (w3 := @upd _ _ (kv_of (scratch_lens s)) _ _).
  assert (copy_at s (sw_policy w) D L w3 ∅) as Hw3.
  { destruct scratch_law as [Hs0 Hs1]. split; [done|done| |done]. split; [|done]. cbn. rewrite set_prefix_eq. done. }
  clearbody w3. apply wp_run_bindR, (wp_copy_filtered cfg mirror_fresh s (sw_policy w) D L); [done..|lia|].
  intros w4 X Hw4 HX. rewrite bool_decide_not. destruct (bool_decide _) eqn:Eb; cbn [negb].
  - eapply wp_mono; [apply (wp_commit_aligned tx_data_ext s fuel _ X L)|].
    + apply Hw4.
    + by eapply copied_no_marker.
    + by apply Hal.
    + assert (size X <= size D); [|lia]. rewrite <- !size_dom. apply subseteq_size.
      eapply copied_dom; [done| |done]. intros r Hrec. split; [done|]. by eapply record_in_plain.
    + intros r w' (-> & -> & Hm). done.
  - apply wp_ret. split; [by eexists|]. by destruct (at_stores _ _ _ _ _ _ Hw4) as [_ [_ ?]].
Qed.
End rebuild.
