(* ===== verification/ReplicaView.v ===== *)
(** ReplicaView: a replica one file at a time.  What a subject may see of a file
    of the master, when a replica shows it, and what each write of a replica does
    to one file and leaves of the others. *)
From S2P Require Import Prelude.
From S2P Require Import Effects.
From S2P Require Import RustStr.
From S2P Require Import Kv.
From S2P Require Import FsTypes.
From S2P Require Import FsStore.
From S2P Require Import FsRels.
From S2P Require Import Policy.
From S2P Require Import Wal.
From S2P Require Import Replica.
From S2P Require Import ReplicaSlots.
From S2P Require Import ReplicaBuild.
From S2P Require Import ReplicaCopy.

(** ** Files, as the rows tell them *)

(** A file as its rows tell it: its record and its relations. *)
Abbreviation file_view := (option FileRecord * gset string)%type.

Section view.
Context {E : Type} `{!Enforcer E} `{!Serde FileRecord}.

Definition file_of (d : gmap string bytes) (f : string) : option FileRecord :=
  v ← d !! file_key f; ok (from_slice v).

Definition view_of (d : gmap string bytes) (f : string) : file_view := (file_of d f, rels d f).

Variables (s : string) (e : E).

(** The relations of a file to rows that the subject may read. *)
Definition visible_rels (D : gmap string bytes) (f : string) : gset string :=
  list_to_set (row_keys f (List.filter (may s e)
    (rows_in f (kv_range D None (Some REL_PREFIX) (Some (prefix_scan_end REL_PREFIX)))))).

Definition readable (D : gmap string bytes) (f : string) : bool :=
  match file_of D f with
  | Some rec => bool_decide (fr_owner_sub rec = s) || negb (bool_decide (visible_rels D f = ∅))
  | None => false
  end.

(** The replica [X] shows the subject the master [D]: a readable file as it is,
    with its visible relations; of another no relation, and no record unless it
    is [stale]. *)
Definition shows (stale : string -> Prop) (X D : gmap string bytes) : Prop :=
  forall f, plain_name f ->
    if readable D f then view_of X f = (file_of D f, visible_rels D f)
    else rels X f = ∅ /\ (file_of X f = None \/ stale f /\ is_Some (file_of D f)).

(** A relation to a row that the subject may read. *)
Definition okey (f k : string) : Prop :=
  exists ty rid, k = rel_key ty rid f /\ plain_name ty /\ plain_name rid /\ may s e (ty, rid) = true.

Lemma okey_rel f ty rid : plain_name ty -> plain_name rid -> okey f (rel_key ty rid f) <-> may s e (ty, rid) = true.
Proof.
  intros Hty Hrid. split; [|intros Hm; by exists ty, rid]. intros (ty' & rid' & He & Hty' & Hrid' & Hm).
  pose proof (split_rel_key ty rid f Hty Hrid) as H1. rewrite He, split_rel_key in H1 by done. by injection H1 as -> ->.
Qed.

Lemma elem_of_visible D f k : plain_name f -> rels_plain D -> k ∈ visible_rels D f <-> k ∈ rels D f /\ okey f k.
Proof.
  intros Hf Hp. unfold visible_rels, row_keys. rewrite elem_of_list_to_set, list_elem_of_fmap.
  setoid_rewrite list_elem_of_In. setoid_rewrite List.filter_In. setoid_rewrite <- list_elem_of_In. split.
  - intros ([ty rid] & -> & Hin & Hm). apply elem_of_rows_in in Hin as (? & ? & ?); [|done..]. cbn.
    split; [by apply rel_in|by exists ty, rid].
  - intros [Hk (ty & rid & -> & ? & ? & ?)]. exists (ty, rid). split; [done|]. split; [|done].
    apply elem_of_rows_in; [done..|]. split_and!; [done..|]. by apply rel_in in Hk.
Qed.

Lemma elem_of_visible_opens D f k : plain_name f -> rels_plain D -> k ∈ visible_rels D f <-> opens s e D f k.
Proof.
  intros Hf Hp. rewrite elem_of_visible by done. unfold okey, opens. setoid_rewrite (may_true s e). split.
  - intros [Hk (ty & rid & -> & ? & ? & ?)]. exists ty, rid. split_and!; try done. by apply rel_in in Hk.
  - intros (ty & rid & -> & ? & ? & ? & ?). split; [by apply rel_in|by exists ty, rid].
Qed.

(** No file has relations and no record. *)
Definition grounded (D : gmap string bytes) : Prop := forall f, plain_name f -> file_of D f = None -> rels D f = ∅.

Lemma readable_spec D f r : file_of D f = Some r -> readable D f = true <-> fr_owner_sub r = s \/ visible_rels D f <> ∅.
Proof.
  intros Hr. unfold readable. rewrite Hr, orb_true_iff, negb_true_iff, bool_decide_eq_true, bool_decide_eq_false. done.
Qed.

Lemma readable_file D f : readable D f = true -> is_Some (file_of D f).
Proof. unfold readable. destruct (file_of D f); [eauto|done]. Qed.
End view.

(** ** The writes of a replica, on stores that answer *)

(** [L'] is [L] with the file [f] at [v]. *)
Record moves `{!Serde FileRecord} `{!Serde RefInfo} (f : string) (v : file_view) (L L' : gmap string bytes) : Prop := {
  moves_view : view_of L' f = v;
  moves_refs : all_refs_ok L -> all_refs_ok L';
  moves_frame g : plain_name g -> g <> f -> view_of L' g = view_of L g;
}.

Section writes.
Context {S E T : Type} `{!KvStore S T} `{!KvLaws S T} `{!ReplicaHost S} `{!ReplicaHostLaws S T}.
Context `{!StoreText} `{!Enforcer E} `{!Serde Z} `{!SerdeLaws Z} `{!Serde WalEntry} `{!SerdeLaws WalEntry}.
Context `{!Serde FileRecord} `{!SerdeLaws FileRecord} `{!Serde RefInfo} `{!SerdeLaws RefInfo}.
Variable cfg : FsConfig S.
Hypothesis mirror_fresh : converged cfg.
Variables (s : string) (e : E) (D X : gmap string bytes).

#[local] Abbreviation W := (sync_world S E).

(** Every file row decodes to a record of its file. *)
Definition files_sound : Prop := forall f v, plain_name f -> D !! file_key f = Some v ->
  exists rec, from_slice v = Ok rec /\ fr_id rec = f.

Hypothesis master_files : files_sound.
Hypothesis master_rels : rels_plain D.

Lemma wp_live {A} (m : act (fs_state S) (result A FsError)) (P : gmap string bytes -> Prop) L Q (w : W) :
  (forall x, kv_up (kv x) -> rows_of x = L ->
    wp m (fun r x' => kv_up (kv x') /\ P (rows_of x') /\ exists a, r = Ok a) x) ->
  copy_at s e D L w X -> (forall a w' L', P L' -> copy_at s e D L' w' X -> Q (Ok a) w') ->
  wp (run (on (live_lens s) m)) Q w.
Proof.
  intros Hm [Hu Hd [Hs [Hlu Hld]] Hp] HQ. apply wp_on. eapply wp_mono; [by apply Hm|].
  intros r x (Hux & HP & a & ->). apply (HQ a _ _ HP). split; [done..| |done].
  split; [done|]. cbn. by rewrite set_prefix_eq.
Qed.

Lemma reads_file f : plain_name f -> reads_as D (get_file cfg f) (fun o => o = file_of D f).
Proof.
  intros Hf x Hu Hd. unfold get_file, get_row. apply wp_bindR, (wp_get_one cfg mirror_fresh); [done|]. intros x' Hu' Hd'. rewrite Hd.
  unfold file_of. destruct (D !! file_key f) as [v|] eqn:Ev; apply wp_ret.
  - destruct (master_files f v Hf Ev) as (rec & Hr & _). unfold decode. rewrite Hr. cbn.
    split; [done|]. split; [by rewrite Hd'|]. exists (Some rec). by rewrite Hr.
  - split; [done|]. split; [by rewrite Hd'|]. by eexists.
Qed.

Lemma file_of_id f rec : plain_name f -> file_of D f = Some rec -> fr_id rec = f.
Proof.
  unfold file_of. intros Hf Hr. destruct (D !! file_key f) as [v|] eqn:Ev; [|done]. cbn in Hr.
  destruct (master_files f v Hf Ev) as (rec' & Hv & Hid). rewrite Hv in Hr. by injection Hr as <-.
Qed.

Lemma wp_can_read f L Q (w : W) : plain_name f -> copy_at s e D L w X ->
  (forall w', copy_at s e D L w' X -> Q (Ok (readable s e D f)) w') -> wp (run (can_read cfg s f)) Q w.
Proof.
  intros Hf Hw HQ. unfold can_read. apply wp_run_bindR. eapply wp_master; [by apply reads_file|done|].
  intros o w1 -> Hw1. unfold readable in HQ. destruct (file_of D f) as [rec|]; [|by apply wp_ret, HQ].
  case_bool_decide as Ho; cbn [orb] in HQ; [by apply wp_ret, HQ|].
  apply wp_run_bindR, (wp_visible_rows cfg mirror_fresh s e D L f X); [done..|]. intros rows w2 Hw2 Hkeys. apply wp_ret.
  assert (bool_decide (rows = []) = bool_decide (visible_rels s e D f = ∅)) as ->; [|by apply HQ].
  apply bool_decide_ext. pose proof (fun k => elem_of_visible_opens s e D f k Hf master_rels) as Hv. split.
  - intros ->. apply set_eq. intros k. rewrite Hv, <- Hkeys. cbn. set_solver.
  - intros He. destruct rows as [|r rows]; [done|]. exfalso.
    assert (rel_key r.1 r.2 f ∈ visible_rels s e D f) as Hin by (rewrite Hv, <- Hkeys; by left).
    rewrite He in Hin. set_solver.
Qed.

(** *** The writes of a replica *)

Lemma file_of_eq (d d' : gmap string bytes) f : d' !! file_key f = d !! file_key f -> file_of d' f = file_of d f.
Proof. unfold file_of. by intros ->. Qed.

Lemma refs_frame (d d' : gmap string bytes) f : refs_ok d' f ->
  (forall g, plain_name g -> g <> f -> rels d' g = rels d g /\ ref_info d' g = ref_info d g) ->
  all_refs_ok d -> all_refs_ok d'.
Proof. intros Hf Hg Hall. by eapply all_refs_frame. Qed.

Lemma wp_live_save rec L Q (w : W) : plain_name (fr_id rec) -> copy_at s e D L w X ->
  (forall w' L', moves (fr_id rec) (Some rec, rels L (fr_id rec)) L L' -> copy_at s e D L' w' X -> Q (Ok tt) w') ->
  wp (run (on (live_lens s) (save_file dst_cfg rec))) Q w.
Proof.
  intros Hf Hw HQ. destruct (to_vec_ok rec) as [v Hv]. apply from_to in Hv as Hr.
  eapply (wp_live _ (fun L' => L' = <[file_key (fr_id rec) := v]> L)); [|done|].
  - intros x Hu Hd. unfold save_file, put_row, FsStore.encode. rewrite Hv. cbn [map_err]. unfold rows_of in *. fs_steps. eauto.
  - intros [] w' L' -> Hw'. apply (HQ _ (<[file_key (fr_id rec) := v]> L)); [|done]. split.
    + unfold view_of. destruct (file_row_refs (fr_id rec) (fr_id rec) v L) as [-> _].
      f_equal. unfold file_of. rewrite lookup_insert_eq. cbn. by rewrite Hr.
    + intros Hall g Hg. by apply file_row_refs, Hall.
    + intros g Hg Hne. unfold view_of. destruct (file_row_refs g (fr_id rec) v L) as [-> _]. f_equal.
      apply file_of_eq, lookup_insert_ne. intros He. by apply file_key_inj in He.
Qed.

Lemma moves_rel f rs ty rid (L L' : gmap string bytes) : rels L' f = rs -> refs_ok L' f ->
  (forall k, k <> rel_key ty rid f -> k <> refs_key f -> L' !! k = L !! k) ->
  (forall g, plain_name g -> g <> f -> rels L' g = rels L g /\ ref_info L' g = ref_info L g) ->
  moves f (file_of L f, rs) L L'.
Proof.
  intros Hr Hok Hfr Hg.
  assert (forall g, file_of L' g = file_of L g) as Hfile.
  { intros g. apply file_of_eq, Hfr; [by intros He; symmetry in He|]. apply file_refs_ne. }
  split; [by unfold view_of; rewrite Hfile, Hr|intros Hall; by apply (refs_frame L L' f)|].
  intros g Hpg Hne. destruct (Hg g Hpg Hne) as [Hrg _]. unfold view_of. by rewrite Hfile, Hrg.
Qed.

Lemma moves_trans f v v' (L L' L'' : gmap string bytes) : moves f v L L' -> moves f v' L' L'' -> moves f v' L L''.
Proof.
  intros [_ Hr Hg] [Hv' Hr' Hg']. split; [done|auto|]. intros g Hp Hne. by rewrite (Hg' g Hp Hne), (Hg g Hp Hne).
Qed.

Definition room (L : gmap string bytes) (n : nat) : Prop :=
  forall f, plain_name f -> (Z.of_nat (size (rels L f)) + Z.of_nat n < u32_max)%Z.

Lemma room_moves f v (L L' : gmap string bytes) n : moves f v L L' -> room L n ->
  (Z.of_nat (size v.2) + Z.of_nat n < u32_max)%Z -> room L' n.
Proof.
  intros [Hv _ Hg] Hroom Hsz g Hpg. destruct (decide (g = f)) as [->|Hne].
  - by rewrite <- Hv in Hsz.
  - specialize (Hg g Hpg Hne). injection Hg as _ ->. by apply Hroom.
Qed.

Lemma wp_live_attach ty rid f L Q (w : W) : plain_name f -> copy_at s e D L w X -> all_refs_ok L -> room L 0 ->
  (forall n w' L', moves f (file_of L f, {[rel_key ty rid f]} ∪ rels L f) L L' -> copy_at s e D L' w' X -> Q (Ok n) w') ->
  wp (run (on (live_lens s) (attach dst_cfg ty rid f))) Q w.
Proof.
  intros Hf Hw Hall Hroom HQ. specialize (Hroom f Hf).
  eapply (wp_live _ (moves f (file_of L f, {[rel_key ty rid f]} ∪ rels L f) L)); [|done|].
  - intros x Hu Hd. eapply wp_mono; [apply wp_attach; [done|done| |]|].
    + unfold fs_data. unfold rows_of in Hd. rewrite Hd. by apply Hall.
    + unfold fs_data. unfold rows_of in Hd. rewrite Hd. lia.
    + intros r x' (Hu' & -> & Hr & Hok & Hfr & Hg). unfold fs_data, rows_of in *. rewrite Hd in *.
      split; [done|]. split; [|by eexists]. by apply (moves_rel f _ ty rid).
  - intros n w' L' Hm Hw'. by eapply HQ.
Qed.

Lemma wp_live_detach ty rid f L Q (w : W) : plain_name f -> copy_at s e D L w X -> all_refs_ok L -> room L 0 ->
  (forall n w' L', moves f (file_of L f, rels L f ∖ {[rel_key ty rid f]}) L L' -> copy_at s e D L' w' X -> Q (Ok n) w') ->
  wp (run (on (live_lens s) (detach dst_cfg ty rid f))) Q w.
Proof.
  intros Hf Hw Hall Hroom HQ. specialize (Hroom f Hf).
  eapply (wp_live _ (moves f (file_of L f, rels L f ∖ {[rel_key ty rid f]}) L)); [|done|].
  - intros x Hu Hd. eapply wp_mono; [apply wp_detach; [done|done| |]|].
    + unfold fs_data. unfold rows_of in Hd. rewrite Hd. by apply Hall.
    + unfold fs_data. unfold rows_of in Hd. rewrite Hd. lia.
    + intros r x' (Hu' & -> & Hr & Hok & _ & Hfr & Hg). unfold fs_data, rows_of in *. rewrite Hd in *.
      split; [done|]. split; [|by eexists]. by apply (moves_rel f _ ty rid).
  - intros n w' L' Hm Hw'. by eapply HQ.
Qed.

Lemma wp_live_delete f L Q (w : W) : plain_name f -> copy_at s e D L w X ->
  (forall w' L', moves f (None, ∅) L L' -> copy_at s e D L' w' X -> Q (Ok tt) w') ->
  wp (run (on (live_lens s) (delete_file dst_cfg f))) Q w.
Proof.
  intros Hf Hw HQ. eapply (wp_on _ _ Q). destruct Hw as [Hu Hd [Hs [Hlu Hld]] Hp].
  eapply wp_mono; [by apply wp_delete_file|]. intros r x (Hux & -> & Hno & Hr & Hi & Hfr & Hg).
  unfold fs_data, rows_of in *. cbn [view live_lens] in *. rewrite Hld in *.
  eapply (HQ _ (kv_data (kv x))).
  - split.
    + unfold view_of, file_of. by rewrite Hno, Hr.
    + apply (refs_frame L (kv_data (kv x)) f); [|done]. exists default_ref_info. rewrite Hr, Hi. by rewrite size_empty.
    + intros g Hpg Hne. destruct (Hg g Hpg Hne) as [Hrg _]. unfold view_of. rewrite Hrg. f_equal. by apply file_of_eq, Hfr.
  - split; [done..| |done]. split; [done|]. cbn. by rewrite set_prefix_eq.
Qed.

(** *** The marker *)

(** A step on the subject's replica leaves the master, the feed and the policy. *)
Definition beside (w w' : W) : Prop :=
  sw_master w' = sw_master w /\ sw_wal w' = sw_wal w /\ sw_policy w' = sw_policy w /\ sw_builds w' = sw_builds w.

Lemma keeps_live {A} w0 (m : act (fs_state S) (result A FsError)) : keeps (beside w0) (on (live_lens s) m).
Proof. intros w Hw. apply wp_on, wp_intro. by intros. Qed.

Lemma keeps_load_applied w0 : keeps (beside w0) (load_applied s).
Proof.
  unfold load_applied. apply keeps_bind.
  - apply keeps_atomically. intros w Hw. apply (wp_zoom (H := live_lens s)), wp_intro. by intros.
  - intros [[]|err]; [|apply keeps_ret..]. do 3 (apply keeps_bindR; [apply keeps_live|intros ?]). apply keeps_ret.
Qed.

Lemma wp_marker L Q (w : W) : copy_at s e D L w X ->
  (forall w', copy_at s e D L w' X -> beside w w' -> Q (Ok (marker_of L)) w') -> wp (run (load_applied s)) Q w.
Proof.
  intros [Hu Hd Hs Hp] HQ. eapply wp_mono; [apply wp_and|].
  - eapply (wp_load_applied s X L (fun r w' => r = Ok (marker_of L) /\ stores_at s w' X L)); [done|]. by intros.
  - apply (keeps_load_applied w). done.
  - intros r w' [[-> Hs'] Hb]. apply HQ; [|done]. destruct Hb as (Hm & _ & Hpol & _). split; [by rewrite Hm..|done|by rewrite Hpol].
Qed.

Lemma marker_row v L f : view_of (<[APPLIED_KEY := v]> L) f = view_of L f /\
  ref_info (<[APPLIED_KEY := v]> L) f = ref_info L f.
Proof.
  split; [|by unfold ref_info; rewrite lookup_insert_ne]. unfold view_of, file_of. rewrite lookup_insert_ne by done.
  f_equal. apply set_eq. intros k. rewrite !elem_of_rels. destruct (decide (APPLIED_KEY = k)) as [<-|Hne].
  - split; by intros [? _].
  - by rewrite lookup_insert_ne.
Qed.

End writes.
