(* ===== verification/ReplicaGroups.v ===== *)
(** ReplicaGroups: the search for the groups that a subject reaches.  It ends,
    however the groups contain each other, and finds them all. *)
From S2P Require Import Prelude.
From S2P Require Import Effects.
From S2P Require Import RustStr.
From S2P Require Import Kv.
From S2P Require Import FsTypes.
From S2P Require Import Policy.
From S2P Require Import Wal.
From S2P Require Import Replica.
From stdpp Require Import relations.

(** ** The search *)

Lemma new_groups_spec gs found frontier : exists new, NoDup new /\
  (forall g, g ∈ new <-> g ∈ gs /\ g ∉ found) /\
  (new_groups gs found frontier).1 = list_to_set new ∪ found /\
  exists k, (new_groups gs found frontier).2 = k ++ frontier /\ k ≡ₚ new.
Proof.
  revert found frontier. induction gs as [|g gs IH]; intros found frontier; cbn [new_groups].
  { exists []. split; [constructor|]. split; [set_solver|]. split; [set_solver|]. by exists []. }
  case_bool_decide as Hg.
  - destruct (IH found frontier) as (new & Hnd & Hnew & Hf & Hk). exists new. split_and!; [done| |done|done].
    intros h. rewrite Hnew. set_solver.
  - destruct (IH ({[g]} ∪ found) (g :: frontier)) as (new & Hnd & Hnew & Hf & k & Hk & Hp).
    exists (g :: new). split; [apply NoDup_cons; split; [rewrite Hnew; set_solver|done]|].
    split; [intros h; rewrite elem_of_cons, Hnew; destruct (decide (h = g)) as [->|]; set_solver|].
    split; [rewrite Hf; set_solver|]. exists (k ++ [g]). rewrite Hk. split; [by rewrite <- (assoc_L (++))|].
    rewrite Hp. by rewrite (comm (++)).
Qed.

Section groups.
Context {S E : Type} `{!Enforcer E}.

#[local] Abbreviation W := (sync_world S E).

(** [b] is a direct group of [a]. *)
Definition in_group (e : E) (a b : string) : Prop := b ∈ get_groups_of_user a e.

#[export] Instance in_group_dec e a b : Decision (in_group e a b).
Proof. unfold in_group. apply _. Defined.

(** What the search has done: what it found is reached from the subject, and
    the groups of everything that it has taken from the frontier are found. *)
Record searched (e : E) (sub : string) (found : gset string) (frontier : list string) : Prop := {
  found_reached g : g ∈ found -> tc (in_group e) sub g;
  frontier_known g : g ∈ frontier -> g = sub \/ g ∈ found;
  taken_done a b : a = sub \/ a ∈ found -> a ∉ frontier -> in_group e a b -> b ∈ found;
}.

Lemma searched_step e sub found name frontier : searched e sub found (name :: frontier) ->
  searched e sub (new_groups (get_groups_of_user name e) found frontier).1
    (new_groups (get_groups_of_user name e) found frontier).2.
Proof.
  intros [Hf Hk Ht]. destruct (new_groups_spec (get_groups_of_user name e) found frontier) as (new & _ & Hnew & -> & k & -> & Hp).
  assert (forall g, g ∈ k <-> g ∈ new) as Hkn by (intros g; by rewrite Hp).
  assert (name = sub \/ tc (in_group e) sub name) as Hname.
  { destruct (Hk name) as [->|?]; [by left|by left|right; auto]. }
  split.
  - intros g [Hg|Hg]%elem_of_union; [|auto]. apply elem_of_list_to_set, Hnew in Hg as [Hg _].
    destruct Hname as [->|Htc]; [by apply tc_once|by eapply tc_r].
  - intros g [Hg|Hg]%elem_of_app; [right; apply elem_of_union; left; apply elem_of_list_to_set; by apply Hkn|].
    destruct (Hk g) as [?|?]; [by right|by left|right; set_solver].
  - intros a b Ha Hnot Hab. rewrite elem_of_app, Hkn in Hnot.
    destruct (decide (b ∈ found)) as [?|Hb]; [set_solver|]. destruct (decide (a = name)) as [->|Hne].
    + apply elem_of_union. left. apply elem_of_list_to_set, Hnew. by split.
    + apply elem_of_union. right. apply (Ht a b); [|set_solver|done].
      destruct Ha as [?|Ha]; [by left|right]. apply elem_of_union in Ha as [Ha|?]; [|done].
      apply elem_of_list_to_set in Ha. tauto.
Qed.

Lemma searched_end e sub found : searched e sub found [] -> forall g, g ∈ found <-> tc (in_group e) sub g.
Proof.
  intros [Hf _ Ht'] g. split; [auto|]. intros Htc.
  assert (forall a b, a = sub \/ a ∈ found -> in_group e a b -> b ∈ found) as Ht
    by (intros a b Ha; apply Ht'; [done|apply not_elem_of_nil]).
  assert (forall a b, tc (in_group e) a b -> a = sub \/ a ∈ found -> b ∈ found) as Hall; [|by eapply Hall; [|left]].
  induction 1 as [a b Hab|a b c Hab _ IH]; intros Ha; [by eapply Ht|]. apply IH. right. by eapply Ht.
Qed.

(** What is left to do, when the groups within reach are among [U]. *)
Definition work (U found : gset string) (frontier : list string) : nat := length frontier + size (U ∖ found).

Lemma work_step U e found name frontier : (forall g, in_group e name g -> g ∈ U) ->
  let n := new_groups (get_groups_of_user name e) found frontier in
  work U found (name :: frontier) = Datatypes.S (work U n.1 n.2).
Proof.
  intros HU n. destruct (new_groups_spec (get_groups_of_user name e) found frontier) as (new & Hnd & Hnew & Hf & k & Hk & Hp).
  unfold work, n. rewrite Hf, Hk, length_app, (Permutation_length Hp). cbn [length].
  assert (U ∖ found = list_to_set new ∪ U ∖ (list_to_set new ∪ found)) as ->.
  { apply set_eq. intros g. rewrite elem_of_union, !elem_of_difference, elem_of_union, !elem_of_list_to_set, Hnew.
    split; [intros [? ?]|intros [[Hg ?]|?]; [split; [by apply HU|done]|tauto]].
    destruct (decide (g ∈ get_groups_of_user name e)); [by left|right; tauto]. }
  rewrite size_union by set_solver. rewrite size_list_to_set by done. lia.
Qed.

Lemma run_closure U (e : E) sub fuel found frontier (w : W) : sw_policy w = e ->
  (forall g, tc (in_group e) sub g -> g ∈ U) -> searched e sub found frontier -> work U found frontier <= fuel ->
  exists gs, run (group_closure fuel found frontier) w = (Ok gs, w) /\ forall g, g ∈ gs <-> tc (in_group e) sub g.
Proof.
  intros He HU. revert found frontier. induction fuel as [|fuel IH]; intros found [|name frontier] Hs Hfuel;
    cbn [group_closure].
  1, 3: exists found; split; [done|by apply searched_end].
  { unfold work in Hfuel. cbn in Hfuel. lia. }
  assert (name = sub \/ name ∈ found) as Hname by (apply (frontier_known _ _ _ _ Hs); by left).
  rewrite (work_step U e) in Hfuel.
  2: { intros g Hg. apply HU. destruct Hname as [->|Hf]; [by apply tc_once|].
       eapply tc_r; [by apply (found_reached _ _ _ _ Hs)|done]. }
  pose proof (searched_step e sub found name frontier Hs) as Hs'.
  destruct (new_groups (get_groups_of_user name e) found frontier) as [found' frontier'] eqn:En. cbn [fst snd] in *.
  destruct (IH found' frontier' Hs' ltac:(lia)) as (gs & Hrun & Hgs). exists gs. split; [|done].
  cbn. rewrite He, En. exact Hrun.
Qed.

(** The search for a subject's groups ends, and finds exactly the groups
    that it reaches in one or more steps, also when groups contain each other;
    one round per group within reach, and one for the subject, is enough. *)
Theorem implicit_groups_exact (U : gset string) fuel sub (w : W) :
  (forall g, tc (in_group (sw_policy w)) sub g -> g ∈ U) -> size U < fuel ->
  exists gs, run (implicit_groups fuel sub) w = (Ok gs, w) /\
    forall g, g ∈ gs <-> tc (in_group (sw_policy w)) sub g.
Proof.
  intros HU Hfuel. apply (run_closure U (sw_policy w)); [done|done| |].
  - split; [set_solver|intros g Hg; left; set_solver|intros a b [->|?] Hn; set_solver].
  - unfold work. cbn [length]. rewrite difference_empty_L. lia.
Qed.
End groups.
