(* ===== verification/ReplicaResync.v ===== *)
(** ReplicaResync: what the replay of a change of the policy does to a replica.
    The change touches rows; every file on a touched row is brought to what the
    subject may see of it, and every other file is left alone. *)
From stdpp Require Import relations.
From S2P Require Import Prelude.
From S2P Require Import Effects.
From S2P Require Import RustStr.
From S2P Require Import Kv.
From S2P Require Import FsTypes.
From S2P Require Import FsStore.
From S2P Require Import FsRels.
From S2P Require Import Policy.
From S2P Require Import Wal.
From S2P Require Import Replica.
From S2P Require Import ReplicaSlots.
From S2P Require Import ReplicaBuild.
From S2P Require Import ReplicaCopy.
From S2P Require Import ReplicaView.
From S2P Require Import ReplicaGroups.

Abbreviation row := (string * string)%type.

(** ** The files on a row *)

Lemma NoDup_dedup l : StronglySorted (fun a b => str_le a b = true) l -> NoDup (dedup l) /\ forall a, a ∈ dedup l <-> a ∈ l.
Proof.
  induction 1 as [|a l Hl [IH Hin] Ha]; [by split; [constructor|]|]. destruct l as [|b l]; [split; [repeat constructor; set_solver|done]|].
  cbn [dedup] in *. fold (dedup (b :: l)) in *. case_bool_decide as He.
  - subst b. split; [done|]. intros x. rewrite Hin. set_solver.
  - split; [|intros x; rewrite !elem_of_cons, Hin; set_solver]. constructor; [|done]. rewrite Hin. intros Hab.
    apply elem_of_cons in Hab as [?|Hab]; [done|].
    apply StronglySorted_inv in Hl as [_ Hb]. rewrite Forall_forall in Hb. specialize (Hb a Hab).
    apply Forall_inv in Ha. unfold str_le in *. rewrite bool_decide_eq_true in Ha, Hb. apply He. by apply (anti_symm String.le).
Qed.

Lemma str_le_total a b : str_le a b = false -> str_le b a = true.
Proof. unfold str_le. rewrite bool_decide_eq_false, bool_decide_eq_true. destruct (total String.le a b); tauto. Qed.

Lemma str_le_trans a b c : str_le a b = true -> str_le b c = true -> str_le a c = true.
Proof. unfold str_le. rewrite !bool_decide_eq_true. apply transitivity. Qed.

(** The keys of the relations of a row. *)
Definition row_rels (D : gmap string bytes) (r : row) : gset string :=
  filter (fun k => starts_with k (rel_prefix_for_row r.1 r.2) = true) (dom D).

Lemma rel_key_row ty rid f : rel_key ty rid f = rel_prefix_for_row ty rid +:+ f.
Proof. unfold rel_key, rel_prefix_for_row. by rewrite !app_assoc. Qed.

Lemma rel_key_plain ty rid f ty' rid' f' : plain_name ty -> plain_name rid -> plain_name ty' -> plain_name rid' ->
  rel_key ty rid f = rel_key ty' rid' f' -> ty = ty' /\ rid = rid' /\ f = f'.
Proof.
  intros Hty Hrid Hty' Hrid' He. pose proof (split_rel_key ty rid f Hty Hrid) as H1.
  rewrite He, split_rel_key in H1 by done. injection H1 as -> ->. split_and!; [done..|].
  rewrite !rel_key_row in He. by apply (inj (String.append _)) in He.
Qed.

Lemma row_in_range ty rid f :
  in_range (Some (rel_prefix_for_row ty rid)) (Some (prefix_scan_end (rel_prefix_for_row ty rid))) (rel_key ty rid f) = true.
Proof.
  rewrite rel_key_row. unfold in_range. rewrite !bool_decide_eq_true_2; [done| |apply le_app_r].
  assert (rel_prefix_for_row ty rid = ("fs:rel:" +:+ ty +:+ ":" +:+ rid) +:+ ":") as He
    by (unfold rel_prefix_for_row; by rewrite !app_assoc).
  rewrite He. generalize ("fs:rel:" +:+ ty +:+ ":" +:+ rid). intros q. unfold prefix_scan_end.
  rewrite pop_app, app_assoc. by apply le_app.
Qed.

Lemma elem_of_files_in (D : gmap string bytes) ty rid f : let p := rel_prefix_for_row ty rid in
  f ∈ files_in p (kv_range D None (Some p) (Some (prefix_scan_end p))) <->
  f <> "" /\ plain_name f /\ is_Some (D !! rel_key ty rid f).
Proof.
  intros p. unfold files_in. rewrite list_elem_of_omap. split.
  - intros ([k v] & Hk & Hs). cbn [fst] in Hs. apply elem_of_kv_range in Hk as [_ Hk].
    destruct (strip_prefix p k) as [g|] eqn:Ep; [|done]. cbn in Hs. apply strip_prefix_Some in Ep as ->.
    case_bool_decide as Hg; [done|]. cbn in Hs. destruct (contains_char ":" g) eqn:Ec; [done|]. injection Hs as ->.
    split; [done|]. split; [done|]. rewrite rel_key_row. by eexists.
  - intros (Hne & Hpl & v & Hv). exists (rel_key ty rid f, v). split.
    + apply elem_of_kv_range. split; [apply row_in_range|done].
    + cbn [fst]. rewrite rel_key_row. unfold p. rewrite strip_prefix_app. cbn.
      rewrite bool_decide_eq_false_2 by done. unfold plain_name in Hpl. by rewrite Hpl.
Qed.

(** ** What a change touches *)

Section touches.
Context {E : Type} `{!Enforcer E}.

(** A rule that the group [g] has, or reaches, lets it read the row. *)
Definition reads_row (e : E) (g : string) (r : row) : Prop :=
  exists h, rtc (in_group e) g h /\ r ∈ read_rows (rules_for_subject h e).

(** The rows that the replay of a change looks at, for the subject [s]. *)
Definition touches (s : string) (e : E) (op : WalOp) (r : row) : Prop :=
  match op with
  | PolicyRuleAdd sub obj a | PolicyRuleRemove sub obj a =>
      eq_ignore_ascii_case a "read" = true /\ split_row_obj obj = Some r /\ rtc (in_group e) s sub
  | GroupAdd user group | GroupRemove user group => user = s /\ reads_row e group r
  | GroupDelete group => reads_row e group r
  | _ => False
  end.

Definition policy_op (op : WalOp) : Prop :=
  match op with
  | PolicyRuleAdd _ _ _ | PolicyRuleRemove _ _ _ | GroupAdd _ _ | GroupRemove _ _ | GroupDelete _ => True
  | _ => False
  end.

(** Whose groups the replay of a change searches for. *)
Definition search_of (s : string) (op : WalOp) : option string :=
  match op with
  | PolicyRuleAdd _ _ _ | PolicyRuleRemove _ _ _ => Some s
  | GroupAdd _ group | GroupRemove _ group | GroupDelete group => Some group
  | _ => None
  end.

(** The search from [a] ends within [fuel] rounds. *)
Definition searchable (fuel : nat) (e : E) (a : string) : Prop :=
  exists U : gset string, (forall g, tc (in_group e) a g -> g ∈ U) /\ size U < fuel.

(** The replay of a change stays within its budget of files, the rows it looks
    at have names without the separator of the keys, and no file has the empty
    name, which the listing of a row leaves out. *)
Record resync_fits (fuel : nat) (s : string) (e : E) (D : gmap string bytes) (op : WalOp) : Prop := {
  fits_op : policy_op op;
  fits_named : rels D "" = ∅;
  fits_search a : search_of s op = Some a -> searchable fuel e a;
  fits_plain r : touches s e op r -> plain_name r.1 /\ plain_name r.2;
  fits_few rows : NoDup rows -> (forall r, r ∈ rows <-> touches s e op r) ->
    sum_list (size ∘ row_rels D <$> rows) <= MAX_POLICY_REPLAY_FILES;
}.
End touches.

(** ** The resync of a file *)

Section resync.
Context {S E T : Type} `{!KvStore S T} `{!KvLaws S T} `{!ReplicaHost S} `{!ReplicaHostLaws S T}.
Context `{!StoreText} `{!Enforcer E} `{!Serde Z} `{!SerdeLaws Z} `{!Serde WalEntry} `{!SerdeLaws WalEntry}.
Context `{!Serde FileRecord} `{!SerdeLaws FileRecord} `{!Serde RefInfo} `{!SerdeLaws RefInfo}.
Variable cfg : FsConfig S.
Hypothesis mirror_fresh : converged cfg.
Variables (s : string) (e : E) (D X : gmap string bytes).
Hypothesis master_files : files_sound D.
Hypothesis master_rels : rels_plain D.
Hypothesis master_named : rels D "" = ∅.

#[local] Abbreviation W := (sync_world S E).

(** Where the resync of the row [r] brings the file [f]. *)
Definition resync_view (f : string) (v : file_view) (r : row) : file_view :=
  if readable s e D f then
    (file_of D f, if may s e r then {[rel_key r.1 r.2 f]} ∪ v.2 else v.2 ∖ {[rel_key r.1 r.2 f]})
  else (None, ∅).

Lemma resync_view_size f v r : size (resync_view f v r).2 <= Datatypes.S (size v.2).
Proof.
  unfold resync_view. destruct (readable s e D f); cbn [snd]; [|rewrite size_empty; lia].
  assert (size (v.2 ∖ {[rel_key r.1 r.2 f]}) <= size v.2) as Hd by (apply subseteq_size; set_solver).
  destruct (may s e r); [rewrite size_union_alt, size_singleton|]; lia.
Qed.

Lemma room_le (L : gmap string bytes) n m : room L n -> m <= n -> room L m.
Proof. intros Hr Hle f Hf. specialize (Hr f Hf). lia. Qed.

Lemma wp_resync_file ty rid f L Q (w : W) : plain_name f -> copy_at s e D L w X -> all_refs_ok L -> room L 0 ->
  (forall w' L', moves f (resync_view f (view_of L f) (ty, rid)) L L' -> copy_at s e D L' w' X -> Q (Ok tt) w') ->
  wp (run (resync_file cfg s ty rid f)) Q w.
Proof.
  intros Hf Hw Hall Hroom HQ. unfold resync_file, resync_view in *.
  apply wp_run_bindR. eapply wp_master; [by apply reads_file|done|]. intros o w1 -> Hw1.
  destruct (file_of D f) as [rec|] eqn:Er.
  2: { apply (wp_live_delete s e D X f L); [done..|]. intros w2 L2 Hm Hw2. apply (HQ _ L2); [|done].
       unfold readable. by rewrite Er. }
  apply wp_run_bindR, (wp_can_read cfg mirror_fresh s e D X master_files master_rels f L); [done..|]. intros w2 Hw2.
  destruct (readable s e D f) eqn:Hr; cbn [negb].
  2: { apply (wp_live_delete s e D X f L); [done..|]. intros w3 L3 Hm Hw3. by apply (HQ _ L3). }
  pose proof (file_of_id _ master_files f rec Hf Er) as Hid.
  apply wp_run_bindR, (wp_live_save s e D X rec L); [by rewrite Hid|done|]. rewrite Hid. intros w3 L3 Hm3 Hw3.
  assert (view_of L3 f = (Some rec, rels L f)) as Hv3 by apply Hm3. injection Hv3 as Hf3 Hr3.
  assert (room L3 0) as Hroom3 by (apply (room_moves f _ L _ _ Hm3); [|by apply Hroom]; done).
  unfold ask. apply wp_run_bind, wp_run_atomically. unfold wp at 1. rewrite (at_policy _ _ _ _ _ _ Hw3).
  unfold may in HQ. cbn [fst snd view_of] in HQ.
  destruct (authorize_row s ty rid Read e) as [[]|err]; apply wp_run_bindR.
  1: apply (wp_live_attach s e D X ty rid f L3); [done|done|by apply Hm3|done|].
  2, 3: apply (wp_live_detach s e D X ty rid f L3); [done|done|by apply Hm3|done|].
  all: intros n w4 L4 Hm4 Hw4; apply wp_ret, (HQ _ L4); [rewrite Hf3, Hr3 in Hm4; by eapply moves_trans|done].
Qed.

Lemma room_resync f r n L L' : moves f (resync_view f (view_of L f) r) L L' -> plain_name f -> room L (Datatypes.S n) -> room L' n.
Proof.
  intros Hm Hf Hroom. apply (room_moves f _ L _ _ Hm); [eapply room_le; [done|lia]|].
  pose proof (resync_view_size f (view_of L f) r) as Hsz. specialize (Hroom f Hf).
  change (size (view_of L f).2) with (size (rels L f)) in Hsz. lia.
Qed.

(** The files [fs] are resynced, and the others are as they were. *)
Lemma wp_resync_files ty rid fs n L Q (w : W) : NoDup fs -> (forall f, f ∈ fs -> plain_name f) ->
  copy_at s e D L w X -> all_refs_ok L -> room L (length fs + n) ->
  (forall w' L', all_refs_ok L' -> room L' n -> copy_at s e D L' w' X ->
    (forall g, plain_name g -> view_of L' g = if bool_decide (g ∈ fs) then resync_view g (view_of L g) (ty, rid) else view_of L g) ->
    Q (Ok tt) w') ->
  wp (run (resync_files cfg s ty rid fs)) Q w.
Proof.
  intros Hnd. revert L w. induction Hnd as [|f fs Hf Hnd IH]; intros L w Hpl Hw Hall Hroom HQ; cbn [resync_files length] in *.
  { apply wp_ret, (HQ _ L); [done..|]. intros g _. by rewrite bool_decide_eq_false_2 by apply not_elem_of_nil. }
  assert (plain_name f) as Hpf by (apply Hpl; by left).
  apply wp_run_bindR, (wp_resync_file _ _ _ L); [done..|eapply room_le; [done|lia]|]. intros w1 L1 Hm Hw1.
  apply (IH L1); [intros g Hg; apply Hpl; by right|done|by apply Hm|by eapply room_resync|].
  intros w2 L2 Hall2 Hroom2 Hw2 Hv. apply (HQ _ L2); [done..|]. intros g Hg. rewrite (Hv g Hg).
  destruct (decide (g = f)) as [->|Hne].
  - rewrite bool_decide_eq_false_2 by done. rewrite bool_decide_eq_true_2 by by left. apply Hm.
  - rewrite (moves_frame _ _ _ _ Hm g Hg Hne). erewrite bool_decide_ext; [done|]. rewrite elem_of_cons. tauto.
Qed.

(** *** Rows *)

Lemma reads_row_files ty rid : plain_name ty -> plain_name rid -> reads_as D (files_for_row cfg ty rid)
  (fun fs => NoDup fs /\ (forall f, f ∈ fs <-> plain_name f /\ rel_key ty rid f ∈ rels D f) /\
    length fs <= size (row_rels D (ty, rid))).
Proof.
  intros Hty Hrid x Hu Hd. unfold files_for_row. apply wp_bindR, (wp_scan_prefix cfg mirror_fresh); [done|]. intros x' Hu' Hd'.
  apply wp_ret. split; [done|]. split; [congruence|]. eexists. split; [done|]. rewrite Hd.
  pose proof (sort_by_sorted str_le str_le_total str_le_trans
    (files_in (rel_prefix_for_row ty rid) (kv_range D None (Some (rel_prefix_for_row ty rid)) (Some (prefix_scan_end (rel_prefix_for_row ty rid)))))) as Hsort.
  apply NoDup_dedup in Hsort as [Hnd Hin]. set (fs := dedup _) in *.
  assert (forall f, f ∈ fs <-> plain_name f /\ rel_key ty rid f ∈ rels D f) as Hfs.
  { intros f. rewrite Hin, sort_by_perm, elem_of_files_in. split.
    - intros (_ & Hf & Hd0). split; [done|]. by apply rel_in.
    - intros [Hf Hk]. split; [|split; [done|by apply rel_in in Hk]]. intros ->. rewrite master_named in Hk. set_solver. }
  split; [done|]. split; [done|].
  assert (NoDup (rel_key ty rid <$> fs)) as Hk.
  { apply NoDup_fmap_2_strong; [|done]. intros f g _ _ He. rewrite !rel_key_row in He. by apply (inj (String.append _)) in He. }
  rewrite <- (length_fmap (rel_key ty rid)), <- (size_list_to_set (C := gset string)) by done.
  apply subseteq_size. intros k Hin'. apply elem_of_list_to_set, list_elem_of_fmap in Hin' as (f & -> & Hf%Hfs).
  destruct Hf as [Hf Hr]. apply rel_in in Hr; [|done]. apply elem_of_filter. split; [|by apply elem_of_dom].
  cbn [fst snd]. rewrite rel_key_row. apply starts_with_app.
Qed.

(** The resync of a row moves the files that are on it. *)
Definition row_view (f : string) (v : file_view) (r : row) : file_view :=
  if bool_decide (rel_key r.1 r.2 f ∈ rels D f) then resync_view f v r else v.

Lemma wp_resync_row ty rid fs n L Q (w : W) : plain_name ty -> plain_name rid ->
  NoDup fs -> (forall f, f ∈ fs <-> plain_name f /\ rel_key ty rid f ∈ rels D f) ->
  copy_at s e D L w X -> all_refs_ok L -> room L (length fs + n) ->
  (forall w' L', all_refs_ok L' -> room L' n -> copy_at s e D L' w' X ->
    (forall g, plain_name g -> view_of L' g = row_view g (view_of L g) (ty, rid)) -> Q (Ok tt) w') ->
  wp (run (resync_files cfg s ty rid fs)) Q w.
Proof.
  intros Hty Hrid Hnd Hfs Hw Hall Hroom HQ. apply (wp_resync_files ty rid fs n L); [done| |done..|].
  { intros f Hf. by apply Hfs in Hf as [? _]. }
  intros w1 L1 Hall1 Hroom1 Hw1 Hv. apply (HQ _ L1); [done..|]. intros g Hg. rewrite (Hv g Hg). unfold row_view.
  erewrite bool_decide_ext; [done|]. rewrite Hfs. cbn [fst snd]. tauto.
Qed.

Lemma wp_resync_rows rows total n L Q (w : W) : (forall r, r ∈ rows -> plain_name r.1 /\ plain_name r.2) ->
  total + sum_list (size ∘ row_rels D <$> rows) <= MAX_POLICY_REPLAY_FILES ->
  copy_at s e D L w X -> all_refs_ok L -> room L (sum_list (size ∘ row_rels D <$> rows) + n) ->
  (forall w' L', all_refs_ok L' -> room L' n -> copy_at s e D L' w' X ->
    (forall g, plain_name g -> view_of L' g = foldl (row_view g) (view_of L g) rows) -> Q (Ok Applied) w') ->
  wp (run (resync_rows cfg s rows total)) Q w.
Proof.
  revert total L w. induction rows as [|[ty rid] rows IH]; intros total L w Hpl Hsum Hw Hall Hroom HQ;
    cbn [resync_rows foldl fmap list_fmap sum_list sum_list_with id] in *.
  { apply wp_ret, (HQ _ L); done. }
  destruct (Hpl (ty, rid)) as [Hty Hrid]; [by left|]. cbn [fst snd] in Hty, Hrid.
  apply wp_run_bindR. eapply wp_master; [by apply reads_row_files|done|]. intros fs w1 (Hnd & Hfs & Hlen) Hw1.
  change ((size ∘ row_rels D) (ty, rid)) with (size (row_rels D (ty, rid))) in *.
  rewrite bool_decide_eq_false_2 by lia.
  apply wp_run_bindR, (wp_resync_row ty rid fs (sum_list (size ∘ row_rels D <$> rows) + n) L); [done..|eapply room_le; [done|lia]|].
  intros w2 L2 Hall2 Hroom2 Hw2 Hv. apply (IH _ L2); [intros r Hr; apply Hpl; by right|lia|done..|].
  intros w3 L3 Hall3 Hroom3 Hw3 Hv3. apply (HQ _ L3); [done..|]. intros g Hg. rewrite (Hv3 g Hg). by rewrite (Hv g Hg).
Qed.

(** *** The search for groups *)

Lemma wp_implicit_groups fuel a L Q (w : W) : searchable fuel e a -> copy_at s e D L w X ->
  (forall gs, (forall g, g ∈ gs <-> tc (in_group e) a g) -> Q (Ok gs) w) -> wp (run (implicit_groups (S := S) fuel a)) Q w.
Proof.
  intros (U & HU & Hfuel) Hw HQ. destruct (run_closure U e a fuel ∅ [a] w) as (gs & Hrun & Hgs).
  - apply Hw.
  - done.
  - split; [set_solver|intros g Hg; left; set_solver|intros x y [->|?] Hn; set_solver].
  - unfold work. cbn [length]. rewrite difference_empty_L. lia.
  - unfold wp, implicit_groups. rewrite Hrun. by apply HQ.
Qed.

Lemma wp_rules_of_all subjects rows Q (w : W) : sw_policy w = e ->
  Q (Ok (rows ++ concat ((fun a => read_rows (rules_for_subject a e)) <$> subjects))) w ->
  wp (run (rules_of_all (S := S) subjects rows)) Q w.
Proof.
  intros He. revert rows. induction subjects as [|a subjects IH]; intros rows HQ; cbn [rules_of_all].
  { cbn in HQ. rewrite List.app_nil_r in HQ. by apply wp_ret. }
  unfold ask. apply wp_run_bind, wp_run_atomically. unfold wp at 1. rewrite He. apply IH.
  cbn in HQ. by rewrite List.app_assoc in HQ.
Qed.

Lemma wp_read_rows_for_group fuel g L Q (w : W) : searchable fuel e g -> copy_at s e D L w X ->
  (forall rows, NoDup rows -> (forall r, r ∈ rows <-> reads_row e g r) -> Q (Ok rows) w) ->
  wp (run (read_rows_for_group (S := S) fuel g)) Q w.
Proof.
  intros Hs Hw HQ. unfold read_rows_for_group. apply wp_run_bindR, (wp_implicit_groups _ _ L); [done..|]. intros gs Hgs.
  apply wp_run_bindR, wp_rules_of_all; [apply Hw|]. apply wp_ret, HQ.
  - rewrite sort_by_perm. apply NoDup_remove_dups.
  - intros r. rewrite sort_by_perm, elem_of_remove_dups. cbn [app]. rewrite list_elem_of_In, in_concat.
    unfold reads_row. setoid_rewrite rtc_tc. split.
    + intros (l & Hl & Hr). apply list_elem_of_In, list_elem_of_fmap in Hl as (h & -> & Hh). exists h.
      rewrite list_elem_of_In. split; [|done]. apply elem_of_cons in Hh as [->|Hh]; [by left|right].
      by apply Hgs, elem_of_elements.
    + intros (h & Hh & Hr). eexists. split; [|by apply list_elem_of_In]. apply list_elem_of_In, list_elem_of_fmap.
      exists h. split; [done|]. destruct Hh as [->|Hh]; [by left|right]. by apply elem_of_elements, Hgs.
Qed.

(** ** The replay of a change *)

(** [L'] is [L] after the resync of the rows that the change touches. *)
Definition resynced (op : WalOp) (L L' : gmap string bytes) : Prop :=
  all_refs_ok L' /\ exists rows, (forall r, r ∈ rows <-> touches s e op r) /\
    forall g, plain_name g -> view_of L' g = foldl (row_view g) (view_of L g) rows.

Lemma resynced_nothing op L : all_refs_ok L -> (forall r, ~ touches s e op r) -> resynced op L L.
Proof. intros Hall Hn. split; [done|]. exists []. split; [|done]. intros r. split; [set_solver|]. by intros ?%Hn. Qed.

Lemma wp_concerned fuel sub L Q (w : W) : searchable fuel e s -> copy_at s e D L w X ->
  (forall b : bool, (b = true <-> rtc (in_group e) s sub) -> Q (Ok b) w) ->
  wp (run (if bool_decide (sub = s) then mret (Ok true)
           else gs <-? implicit_groups (S := S) fuel s; mret (Ok (bool_decide (sub ∈ gs))))) Q w.
Proof.
  intros Hs Hw HQ. setoid_rewrite rtc_tc in HQ. case_bool_decide as He.
  - apply wp_ret, HQ. split; [by left|done].
  - apply wp_run_bindR, (wp_implicit_groups _ _ L); [done..|]. intros gs Hgs. apply wp_ret, HQ.
    rewrite bool_decide_eq_true, Hgs. split; [by right|]. intros [->|?]; done.
Qed.

Lemma wp_apply_rule_op fuel op sub obj a n L Q (w : W) : op = PolicyRuleAdd sub obj a \/ op = PolicyRuleRemove sub obj a ->
  resync_fits fuel s e D op -> copy_at s e D L w X -> all_refs_ok L -> room L (MAX_POLICY_REPLAY_FILES + n) ->
  (forall w' L', resynced op L L' -> room L' n -> copy_at s e D L' w' X -> Q (Ok Applied) w') ->
  wp (run (apply_rule_op cfg fuel s sub obj a)) Q w.
Proof.
  intros Hop [_ _ Hsearch Hpl Hfew] Hw Hall Hroom HQ. unfold apply_rule_op.
  assert (forall r, touches s e op r <-> eq_ignore_ascii_case a "read" = true /\ split_row_obj obj = Some r /\ rtc (in_group e) s sub)
    as Ht by (destruct Hop as [-> | ->]; done).
  assert (room L n) as Hroom0 by (eapply room_le; [done|lia]).
  destruct (eq_ignore_ascii_case a "read") eqn:Ea; cbn [negb].
  2: { apply wp_ret, (HQ _ L); [|done..]. apply resynced_nothing; [done|]. intros r Hr. by apply Ht in Hr as [? _]. }
  destruct (split_row_obj obj) as [[ty rid]|] eqn:Eo.
  2: { apply wp_ret, (HQ _ L); [|done..]. apply resynced_nothing; [done|]. intros r Hr. by apply Ht in Hr as (_ & ? & _). }
  apply wp_run_bindR, (wp_concerned _ _ L); [apply Hsearch; by destruct Hop as [-> | ->]|done|]. intros b Hb.
  destruct b; cbn [negb].
  2: { apply wp_ret, (HQ _ L); [|done..]. apply resynced_nothing; [done|]. intros r Hr. apply Ht in Hr as (_ & _ & ?). naive_solver. }
  assert (forall r, r ∈ [(ty, rid)] <-> touches s e op r) as Hrows.
  { intros r. rewrite Ht, list_elem_of_singleton. split; [intros ->; split_and!; [done..|by apply Hb]|]. by intros (_ & [= ->] & _). }
  destruct (Hpl (ty, rid)) as [Hty Hrid]; [apply Hrows; by left|]. cbn [fst snd] in Hty, Hrid.
  specialize (Hfew [(ty, rid)] ltac:(apply NoDup_singleton) Hrows).
  assert (size (row_rels D (ty, rid)) <= MAX_POLICY_REPLAY_FILES) as Hone by (cbn [fmap list_fmap sum_list sum_list_with id] in Hfew; unfold compose in Hfew; lia).
  apply wp_run_bindR. eapply wp_master; [by apply reads_row_files|done|]. intros fs w1 (Hnd & Hfs & Hlen) Hw1.
  rewrite bool_decide_eq_false_2 by lia.
  apply wp_run_bindR, (wp_resync_row ty rid fs n L); [done..|apply (room_le L _ _ Hroom); lia|].
  intros w2 L2 Hall2 Hroom2 Hw2 Hv. apply wp_ret, (HQ _ L2); [|done..]. split; [done|]. by exists [(ty, rid)].
Qed.

Lemma wp_resync_touched op rows n L Q (w : W) : (forall r, touches s e op r -> plain_name r.1 /\ plain_name r.2) ->
  sum_list (size ∘ row_rels D <$> rows) <= MAX_POLICY_REPLAY_FILES -> (forall r, r ∈ rows <-> touches s e op r) ->
  copy_at s e D L w X -> all_refs_ok L -> room L (MAX_POLICY_REPLAY_FILES + n) ->
  (forall w' L', resynced op L L' -> room L' n -> copy_at s e D L' w' X -> Q (Ok Applied) w') ->
  wp (run (resync_rows cfg s rows 0)) Q w.
Proof.
  intros Hpl Hfew Hrows Hw Hall Hroom HQ.
  apply (wp_resync_rows rows 0 n L); [intros r Hr; by apply Hpl, Hrows|done..|eapply room_le; [done|lia]|].
  intros w' L' Hall' Hroom' Hw' Hv. apply (HQ _ L'); [|done..]. split; [done|]. by exists rows.
Qed.

Lemma wp_apply_policy fuel op n L Q (w : W) :
  resync_fits fuel s e D op -> copy_at s e D L w X -> all_refs_ok L -> room L (MAX_POLICY_REPLAY_FILES + n) ->
  (forall w' L', resynced op L L' -> room L' n -> copy_at s e D L' w' X -> Q (Ok Applied) w') ->
  wp (run (apply_op cfg fuel s op)) Q w.
Proof.
  intros Hfits Hw Hall Hroom HQ. pose proof Hfits as [Hop _ Hsearch Hpl Hfew].
  assert (forall user g, search_of s op = Some g -> (forall r, touches s e op r <-> user = s /\ reads_row e g r) ->
    wp (run (apply_membership_op cfg fuel s user g)) Q w) as Hmember.
  { intros user g Hg Ht. unfold apply_membership_op. case_bool_decide as Hu.
    { apply wp_ret, (HQ _ L); [|eapply room_le; [done|lia]|done]. apply resynced_nothing; [done|]. intros r Hr. by apply Ht in Hr as [? _]. }
    apply wp_run_bindR, (wp_read_rows_for_group _ _ L); [by apply Hsearch|done|]. intros rows Hnd Hrows.
    assert (forall r, r ∈ rows <-> touches s e op r) as Hr by (intros r; rewrite Hrows, Ht; tauto).
    apply (wp_resync_touched op rows n L); [done|by apply Hfew|done..]. }
  destruct op; try done; cbn [apply_op].
  - apply (wp_apply_rule_op fuel (PolicyRuleAdd sub obj act) sub obj act n L); [by left|done..].
  - apply (wp_apply_rule_op fuel (PolicyRuleRemove sub obj act) sub obj act n L); [by right|done..].
  - by apply Hmember.
  - by apply Hmember.
  - unfold apply_group_delete. apply wp_run_bindR, (wp_read_rows_for_group _ _ L); [by apply Hsearch|done|]. intros rows Hnd Hrows.
    case_bool_decide as He; [|apply (wp_resync_touched (GroupDelete group) rows n L); [done|by apply Hfew|done..]].
    apply wp_ret, (HQ _ L); [|eapply room_le; [done|lia]|done]. apply resynced_nothing; [done|].
    intros r Hr. apply Hrows in Hr. rewrite He in Hr. set_solver.
Qed.
End resync.
