(* ===== verification/ReplicaReplay.v ===== *)
(** ReplicaReplay: what an incremental replay makes of a replica.  Over a feed of
    changes of files and of the policy it brings the replica where a rebuild
    would, when the changes account for what differs in the policy, but for the
    records of files that a detachment made invisible. *)
From S2P Require Import Prelude.
From S2P Require Import Prelude.
From S2P Require Import Effects.
From S2P Require Import RustStr.
From S2P Require Import Kv.
From S2P Require Import FsTypes.
From S2P Require Import FsStore.
From S2P Require Import FsRels.
From S2P Require Import Policy.
From S2P Require Import Wal.
From S2P Require Import Replica.
From S2P Require Import ReplicaSlots.
From S2P Require Import ReplicaBuild.
From S2P Require Import ReplicaCopy.
From S2P Require Import ReplicaView.
From S2P Require Import ReplicaGroups.
From S2P Require Import ReplicaResync.

(** ** The master's history, one file at a time *)

(** What a change does to the record and to the relations of the file [f]. *)
Definition master_step (f : string) (v : file_view) (op : WalOp) : file_view :=
  match op with
  | FileCreate rec => if bool_decide (fr_id rec = f) then (Some rec, v.2) else v
  | FileDelete g => if bool_decide (g = f) then (None, ∅) else v
  | Attach ty rid g => if bool_decide (g = f) then (v.1, {[rel_key ty rid f]} ∪ v.2) else v
  | Detach ty rid g => if bool_decide (g = f) then (v.1, v.2 ∖ {[rel_key ty rid f]}) else v
  | _ => v
  end.

Definition op_file (op : WalOp) : option string :=
  match op with
  | FileCreate rec => Some (fr_id rec)
  | FileDelete g | Attach _ _ g | Detach _ _ g => Some g
  | _ => None
  end.

(** A change of a file, its names without the separator of the keys. *)
Definition file_op (op : WalOp) : Prop :=
  match op with
  | FileCreate rec => plain_name (fr_id rec)
  | FileDelete g => plain_name g
  | Attach ty rid g | Detach ty rid g => plain_name ty /\ plain_name rid /\ plain_name g
  | _ => False
  end.

(** No id is given out twice while it is in use. *)
Fixpoint fresh_creates (f : string) (v : file_view) (ops : list WalOp) : Prop :=
  match ops with
  | [] => True
  | op :: ops =>
      match op with FileCreate rec => fr_id rec = f -> v.1 = None | _ => True end /\
      fresh_creates f (master_step f v op) ops
  end.

Definition detaches (f : string) (ops : list WalOp) : Prop := exists ty rid, Detach ty rid f ∈ ops.

Section view.
Context {E : Type} `{!Enforcer E} `{!Serde FileRecord}.

(** [D1] is [D0] after the changes [ops]. *)
Definition history (D0 : gmap string bytes) (ops : list WalOp) (D1 : gmap string bytes) : Prop :=
  forall f, plain_name f -> fresh_creates f (view_of D0 f) ops /\
    view_of D1 f = foldl (master_step f) (view_of D0 f) ops.

Variables (s : string) (e : E).

#[local] Abbreviation readable := (readable s e).
#[local] Abbreviation visible_rels := (visible_rels s e).
#[local] Abbreviation okey := (okey s e).
#[local] Abbreviation touches := (touches s e).

(** What a change of a file does to the subject's replica when the master is at
    [D]. *)
Definition replica_step (D : gmap string bytes) (f : string) (v : file_view) (op : WalOp) : file_view :=
  match op with
  | FileCreate rec => if bool_decide (fr_id rec = f) && readable D f then (Some rec, v.2) else v
  | FileDelete g => if bool_decide (g = f) then (None, ∅) else v
  | Attach ty rid g =>
      if bool_decide (g = f) && readable D f then
        (file_of D f, if may s e (ty, rid) then {[rel_key ty rid f]} ∪ v.2 else v.2)
      else v
  | Detach ty rid g => if bool_decide (g = f) then (v.1, v.2 ∖ {[rel_key ty rid f]}) else v
  | _ => v
  end.

(** What a change does: a change of the policy resyncs the rows that it touches,
    in some order. *)
Definition replica_move (D : gmap string bytes) (f : string) (v : file_view) (op : WalOp) (v' : file_view) : Prop :=
  match op_file op with
  | Some _ => v' = replica_step D f v op
  | None => exists rows, (forall r, r ∈ rows <-> touches op r) /\ v' = foldl (row_view s e D f) v rows
  end.

Fixpoint replica_path (D : gmap string bytes) (f : string) (ops : list WalOp) (v v' : file_view) : Prop :=
  match ops with
  | [] => v' = v
  | op :: ops => exists v1, replica_move D f v op v1 /\ replica_path D f ops v1 v'
  end.

(** A change that a replay takes on. *)
Definition replay_op (fuel : nat) (D : gmap string bytes) (op : WalOp) : Prop :=
  file_op op \/ resync_fits fuel s e D op.

Lemma replay_op_plain fuel D op r : replay_op fuel D op -> touches op r -> plain_name r.1 /\ plain_name r.2.
Proof. intros [Hop|Hfits]; [by destruct op|by apply Hfits]. Qed.

Lemma replay_op_known fuel D op : replay_op fuel D op -> is_legacy_policy_mark op = false.
Proof. intros [Hop|[Hop _]]; by destruct op. Qed.

(** At most so many relations does the replay of a change add to one file. *)
Definition cost (op : WalOp) : nat := if op_file op is Some _ then 1 else MAX_POLICY_REPLAY_FILES.
Definition costs (ops : list WalOp) : nat := sum_list (cost <$> ops).

Lemma replica_step_size D f v op : size (replica_step D f v op).2 <= Datatypes.S (size v.2).
Proof.
  assert (forall k, size ({[k]} ∪ v.2) <= Datatypes.S (size v.2)) as Hu.
  { intros k. rewrite size_union_alt, size_singleton. assert (size (v.2 ∖ {[k]}) <= size v.2) by (apply subseteq_size; set_solver). lia. }
  assert (forall k, size (v.2 ∖ {[k]}) <= size v.2) as Hd by (intros k; apply subseteq_size; set_solver).
  destruct op; cbn [replica_step]; try lia; case_bool_decide; cbn [andb fst snd]; try lia.
  - destruct (readable D f); [|lia]. cbn [snd]. destruct (may s e _); [apply Hu|lia].
  - specialize (Hd (rel_key row_type row_id f)). lia.
  - destruct (readable D f); cbn [snd]; lia.
  - rewrite size_empty. lia.
Qed.

(** *** One file through the feed *)

Section one_file.
Variables (D : gmap string bytes) (f : string).
Hypothesis f_plain : plain_name f.

Lemma okey_attach op ty rid : op = Attach ty rid f -> file_op op -> okey f (rel_key ty rid f) <-> may s e (ty, rid) = true.
Proof. intros -> (Hty & Hrid & _). by apply okey_rel. Qed.

(** The changes [ops] bring the relation [k] to what the subject may see of it,
    if the master has it. *)
Definition due (ops : list WalOp) (k : string) : Prop :=
  k ∈ rels D f -> exists op r, op ∈ ops /\ touches op r /\ k = rel_key r.1 r.2 f.

(** The relation [k] is of a row among [rows], and the master has it. *)
Definition hit (rows : list row) (k : string) : Prop := k ∈ rels D f /\ exists r, r ∈ rows /\ k = rel_key r.1 r.2 f.

Lemma due_cons op ops rows k : (forall r, r ∈ rows <-> touches op r) -> due (op :: ops) k -> due ops k \/ hit rows k.
Proof.
  intros Hrows Hd. destruct (decide (k ∈ rels D f)) as [Hk|Hk]; [|left; by intros ?].
  destruct (Hd Hk) as (op' & r & Hop & Ht & ->). apply elem_of_cons in Hop as [->|Hop].
  - right. split; [done|]. exists r. by rewrite Hrows.
  - left. intros _. by exists op', r.
Qed.

Lemma due_file op ops k : op_file op <> None -> due (op :: ops) k -> due ops k.
Proof.
  intros Hop Hd. destruct (due_cons op ops [] k) as [?|[_ (r & Hr & _)]]; [|done|done|by apply not_elem_of_nil in Hr].
  intros r. split; [by intros ?%not_elem_of_nil|]. intros Ht. by destruct op.
Qed.

(** What the resync of rows leaves of a file that the subject may read. *)
Lemma rows_readable last rows v : readable D f = true -> file_of D f = Some last ->
  (forall r, r ∈ rows -> plain_name r.1 /\ plain_name r.2) -> let v' := foldl (row_view s e D f) v rows in
  (forall k, hit rows k -> k ∈ v'.2 <-> okey f k) /\ (forall k, hit rows k \/ (k ∈ v'.2 <-> k ∈ v.2)) /\
  (v' = v \/ v'.1 = Some last).
Proof.
  intros Hr Hlast. induction rows as [|[ty rid] rows IH] using rev_ind; intros Hpl; cbn zeta.
  { cbn. split; [|by split; [right|left]]. intros k (_ & r & Hin & _). set_solver. }
  rewrite foldl_snoc. destruct IH as (Hhit & Hkeep & Hrec); [intros r Hin; apply Hpl, elem_of_app; by left|].
  destruct (Hpl (ty, rid)) as [Hty Hrid]; [apply elem_of_app; right; by left|]. cbn [fst snd] in Hty, Hrid.
  set (v' := foldl _ v rows) in *. unfold row_view, resync_view. cbn [fst snd]. rewrite Hr, Hlast.
  pose proof (okey_rel s e f ty rid Hty Hrid) as Hok.
  assert (forall k, hit (rows ++ [(ty, rid)]) k <-> hit rows k \/ k = rel_key ty rid f /\ rel_key ty rid f ∈ rels D f) as Hsnoc.
  { intros k. unfold hit. split.
    - intros (Hk & r & Hin & ->). apply elem_of_app in Hin as [Hin|Hin]; [left; eauto|right].
      apply list_elem_of_singleton in Hin as ->. done.
    - intros [(Hk & r & Hin & ->)|[-> Hk]]; (split; [done|]); [exists r|exists (ty, rid)]; rewrite elem_of_app;
        (split; [|done]); [by left|right; by left]. }
  case_bool_decide as Hin; cbn [fst snd].
  - split; [|split; [|by right]].
    + intros k Hk. apply Hsnoc in Hk. destruct (decide (k = rel_key ty rid f)) as [->|Hne].
      * rewrite Hok. destruct (may s e (ty, rid)); set_solver.
      * destruct Hk as [Hk|[? _]]; [|done]. rewrite <- (Hhit k Hk). destruct (may s e (ty, rid)); set_solver.
    + intros k. rewrite Hsnoc. destruct (decide (k = rel_key ty rid f)) as [->|Hne]; [left; by right|].
      destruct (Hkeep k) as [?|Hk]; [left; by left|right]. rewrite <- Hk. destruct (may s e (ty, rid)); set_solver.
  - split; [|split; [|done]].
    + intros k Hk. apply Hsnoc in Hk as [Hk|[_ ?]]; [|done]. by apply Hhit.
    + intros k. rewrite Hsnoc. destruct (Hkeep k) as [?|?]; [left; by left|by right].
Qed.

(** And of another. *)
Lemma rows_unreadable rows v : readable D f = false -> let v' := foldl (row_view s e D f) v rows in
  v' = (None, ∅) \/ v' = v /\ forall k, ~ hit rows k.
Proof.
  intros Hr. induction rows as [|r rows IH] using rev_ind; cbn zeta.
  { right. split; [done|]. intros k (_ & r & Hin & _). set_solver. }
  rewrite foldl_snoc. set (v' := foldl _ v rows) in *. unfold row_view, resync_view. rewrite Hr.
  case_bool_decide as Hin; [by left|]. destruct IH as [?|[He Hno]]; [by left|right]. rewrite He. split; [done|]. intros k (Hk & r' & Hr' & ->).
  apply elem_of_app in Hr' as [Hr'|Hr']; [apply (Hno (rel_key r'.1 r'.2 f)); split; eauto|].
  by apply list_elem_of_singleton in Hr' as ->.
Qed.
(** A readable file on the way: but for the relations that the changes to come,
    [ops], bring up to date, the replica has its visible relations, and maybe some
    that the master gets later; and it has its record or the one that the master
    has by now. *)
Record tracks (ops : list WalOp) (last : FileRecord) (m x : file_view) : Prop := {
  tracks_has k : k ∈ x.2 -> (k ∈ m.2 \/ k ∈ rels D f) /\ (okey f k \/ due ops k);
  tracks_all k : k ∈ m.2 -> okey f k -> k ∈ x.2 \/ due ops k;
  tracks_record r : m.1 = Some r -> fr_owner_sub r = s \/ x.2 <> ∅ -> x.1 = Some r \/ x.1 = Some last;
}.

Lemma tracks_file ops last m x op : readable D f = true -> file_of D f = Some last -> file_op op -> tracks ops last m x ->
  tracks ops last (master_step f m op) (replica_step D f x op).
Proof.
  intros Hr Hlast Hop Hin. destruct op; cbn [master_step replica_step]; rewrite ?Hr, ?andb_true_r; try done;
    (case_bool_decide as Hf; [|done]); try subst file_id; destruct Hin as [Hk Hm Hrec]; split; cbn [fst snd]; rewrite ?Hlast.
  - intros k Hin. pose proof (okey_attach _ row_type row_id eq_refl Hop) as Hok.
    assert (k ∈ x.2 -> (k ∈ {[rel_key row_type row_id f]} ∪ m.2 \/ k ∈ rels D f) /\ (okey f k \/ due ops k)) as Hold
      by (intros Hx; destruct (Hk k Hx) as [[?|?] ?]; split; [left; set_solver|done|by right|done]).
    destruct (may s e (row_type, row_id)); [|by apply Hold]. apply elem_of_union in Hin as [Hin%elem_of_singleton|Hin]; [|by apply Hold].
    subst k. split; left; [set_solver|by apply Hok].
  - intros k Hin Ho. pose proof (okey_attach _ row_type row_id eq_refl Hop) as Hok.
    apply elem_of_union in Hin as [Hin%elem_of_singleton|Hin].
    + subst k. apply Hok in Ho. rewrite Ho. left. set_solver.
    + destruct (Hm k Hin Ho) as [?|?]; [left|by right]. destruct (may s e (row_type, row_id)); set_solver.
  - intros r _ _. by right.
  - intros k [Hin Hne]%elem_of_difference. destruct (Hk k Hin) as [[?|?] ?]; split; [left; set_solver|done|by right|done].
  - intros k [Hin Hne]%elem_of_difference Ho. destruct (Hm k Hin Ho) as [?|?]; [left; set_solver|by right].
  - intros r Hr' Hv. apply Hrec; [done|]. set_solver.
  - done.
  - done.
  - intros r [= <-] _. by left.
  - intros k Hin. set_solver.
  - intros k Hin. set_solver.
  - done.
Qed.

Lemma tracks_later op ops last m x : (forall k, due (op :: ops) k -> due ops k) -> tracks (op :: ops) last m x -> tracks ops last m x.
Proof.
  intros Hd [Hk Hm Hrec]. split; [..|done].
  - intros k Hin. destruct (Hk k Hin) as [? [?|?]]; auto.
  - intros k Hin Ho. destruct (Hm k Hin Ho); auto.
Qed.

Lemma replay_op_file fuel op g : op_file op = Some g -> replay_op fuel D op -> file_op op.
Proof. intros Hg [?|[Hp _]]; [done|by destruct op]. Qed.

Lemma master_other m op : op_file op = None -> master_step f m op = m.
Proof. by destruct op. Qed.

Lemma tracks_step fuel op ops last m x x' : readable D f = true -> file_of D f = Some last -> replay_op fuel D op ->
  replica_move D f x op x' -> tracks (op :: ops) last m x -> tracks ops last (master_step f m op) x'.
Proof.
  intros Hr Hlast Hop Hx Hin. unfold replica_move in Hx. destruct (op_file op) eqn:Ef.
  { subst x'. apply tracks_file; [done|done|by eapply replay_op_file|].
    apply (tracks_later op); [|done]. intros k. apply due_file. by rewrite Ef. }
  destruct Hx as (rows & Hrows & ->). rewrite master_other by done.
  destruct (rows_readable last rows x Hr Hlast) as (Hhit & Hkeep & Hrec'); [intros r Hi; by eapply replay_op_plain, Hrows|].
  destruct Hin as [Hk Hm Hrec]. set (x' := foldl _ x rows) in *. split.
  - intros k Hin. destruct (Hkeep k) as [Hh|Hsame]; [split; [right; apply Hh|left; by apply Hhit]|].
    pose proof Hin as Hin'. apply Hsame in Hin. destruct (Hk k Hin) as [? [?|Hd]]; [by split; [|left]|]. split; [done|].
    apply (due_cons _ _ rows) in Hd as [?|Hh]; [by right| |done]. left. by apply Hhit.
  - intros k Hin Ho. destruct (Hkeep k) as [Hh|Hsame]; [left; by apply Hhit|].
    destruct (Hm k Hin Ho) as [?|Hd]; [left; by apply Hsame|].
    apply (due_cons _ _ rows) in Hd as [?|Hh]; [by right| |done]. left. by apply Hhit.
  - destruct Hrec' as [->|?]; [done|]. by right.
Qed.

(** A file that is not readable, on the way: at most the relations and the record
    that the replica had. *)
Record fades (ops : list WalOp) (lost : Prop) (m x : file_view) : Prop := {
  fades_has k : k ∈ x.2 -> k ∈ m.2 /\ (okey f k \/ due ops k);
  fades_gone : m.1 = None -> x = (None, ∅);
  fades_record : x.1 <> None -> lost \/
    exists r, m.1 = Some r /\ (fr_owner_sub r = s \/ exists k, k ∈ m.2 /\ (okey f k \/ due ops k));
}.

Lemma fades_none ops lost m : fades ops lost m (None, ∅).
Proof. split; [set_solver|done|done]. Qed.

Lemma fades_mono op ops (lost lost' : Prop) m x : (lost -> lost') -> (forall k, due (op :: ops) k -> due ops k) ->
  fades (op :: ops) lost m x -> fades ops lost' m x.
Proof.
  intros Hl Hd [Hk Hn Hr]. split; [|done|].
  - intros k Hin. destruct (Hk k Hin) as [? [?|?]]; auto.
  - intros Hx. destruct (Hr Hx) as [?|(r & Hm & [?|(k & Hin & [?|?])])]; [left; auto|right; exists r; eauto 10..].
Qed.

Lemma fades_file ops (lost : Prop) m x op : readable D f = false -> file_op op ->
  match op with FileCreate rec => fr_id rec = f -> m.1 = None | _ => True end -> fades ops lost m x ->
  fades ops (lost \/ exists ty rid, op = Detach ty rid f) (master_step f m op) (replica_step D f x op).
Proof.
  intros Hr Hop Hfresh Hin.
  assert (forall P : Prop, fades ops (lost \/ P) m x) as Hsame.
  { intros P. destruct Hin as [Hk Hn Hl]. split; [done..|]. intros Hx. destruct (Hl Hx); [left; by left|by right]. }
  destruct op; cbn [master_step replica_step]; rewrite ?Hr, ?andb_false_r; try apply Hsame;
    (case_bool_decide as Hf; [|apply Hsame]); try subst file_id; destruct Hin as [Hk Hnone Hlost].
  - split; cbn [fst snd]; [intros k Hx; destruct (Hk k Hx); set_solver|done|]. intros Hx.
    destruct (Hlost Hx) as [?|(r & ? & Ho)]; [by left; left|right].
    exists r. split; [done|]. destruct Ho as [?|(k & ? & ?)]; [by left|right]. exists k. set_solver.
  - split; cbn [fst snd].
    + intros k [Hx Hne]%elem_of_difference. destruct (Hk k Hx). split; [set_solver|done].
    + intros Hm. rewrite (Hnone Hm). cbn. f_equal. set_solver.
    + intros _. left. right. eauto.
  - rewrite (Hnone (Hfresh Hf)). apply fades_none.
  - apply fades_none.
Qed.

Lemma fades_step fuel op ops (lost : Prop) m x x' : readable D f = false -> replay_op fuel D op ->
  match op with FileCreate rec => fr_id rec = f -> m.1 = None | _ => True end ->
  replica_move D f x op x' -> fades (op :: ops) lost m x ->
  fades ops (lost \/ exists ty rid, op = Detach ty rid f) (master_step f m op) x'.
Proof.
  intros Hr Hop Hfresh Hx Hin. unfold replica_move in Hx. destruct (op_file op) eqn:Ef.
  { subst x'. apply fades_file; [done|by eapply replay_op_file|done|].
    apply (fades_mono op _ lost); [done| |done]. intros k. apply due_file. by rewrite Ef. }
  destruct Hx as (rows & Hrows & ->). rewrite master_other by done.
  destruct (rows_unreadable rows x Hr) as [-> |[-> Hno]]; [apply fades_none|].
  apply (fades_mono op _ lost); [by left| |done]. intros k Hd.
  apply (due_cons _ _ rows) in Hd as [?|Hh]; [done|by apply Hno in Hh|done].
Qed.

Lemma tracks_path fuel ops last m x x' : readable D f = true -> file_of D f = Some last -> Forall (replay_op fuel D) ops ->
  tracks ops last m x -> replica_path D f ops x x' -> tracks [] last (foldl (master_step f) m ops) x'.
Proof.
  intros Hr Hlast Hops. revert m x. induction Hops as [|op ops Hop Hops IH]; intros m x Hin Hpath; cbn [foldl replica_path] in *.
  { by subst x'. }
  destruct Hpath as (v & Hmove & Hpath). eapply IH; [|done]. by eapply tracks_step.
Qed.

Lemma fades_path fuel ops (lost : Prop) m x x' : readable D f = false -> Forall (replay_op fuel D) ops -> fresh_creates f m ops ->
  fades ops lost m x -> replica_path D f ops x x' ->
  fades [] (lost \/ detaches f ops) (foldl (master_step f) m ops) x'.
Proof.
  intros Hr Hops. revert lost m x. induction Hops as [|op ops Hop Hops IH]; intros lost m x Hfresh Hin Hpath;
    cbn [foldl replica_path fresh_creates] in *.
  { subst x'. destruct Hin as [Hk Hn Hl]. split; [done..|]. intros Hx. destruct (Hl Hx); [left; by left|by right]. }
  destruct Hfresh as [Hnew Hfresh], Hpath as (v & Hmove & Hpath).
  destruct (IH _ _ _ Hfresh (fades_step _ _ _ _ _ _ _ Hr Hop Hnew Hmove Hin) Hpath) as [Hk Hn Hl]. split; [done..|].
  intros Hx. destruct (Hl Hx) as [[[?|(ty & rid & ->)]|(ty & rid & ?)]|?]; [left; by left|left; right..|by right].
  - exists ty, rid. by left.
  - exists ty, rid. by right.
Qed.
End one_file.

(** *** Where the feed starts *)

(** Every row that the subject may read now and could not under [e0], or the other
    way round, is touched by a change. *)
Definition accounts (e0 : E) (ops : list WalOp) : Prop :=
  forall ty rid, plain_name ty -> plain_name rid -> may s e0 (ty, rid) <> may s e (ty, rid) ->
    exists op, op ∈ ops /\ touches op (ty, rid).

Lemma accounts_refl ops : accounts e ops.
Proof. by intros ty rid _ _ Hne. Qed.

Lemma accounted e0 D ops f k : accounts e0 ops ->
  (ReplicaView.okey s e0 f k -> okey f k \/ due D f ops k) /\ (okey f k -> ReplicaView.okey s e0 f k \/ due D f ops k).
Proof.
  intros Hacc. split; intros (ty & rid & -> & Hty & Hrid & Hm).
  - destruct (may s e (ty, rid)) eqn:Hm'; [left; by exists ty, rid|right]. intros _.
    destruct (Hacc ty rid Hty Hrid) as (op & Hop & Ht); [congruence|]. by exists op, (ty, rid).
  - destruct (may s e0 (ty, rid)) eqn:Hm'; [left; by exists ty, rid|right]. intros _.
    destruct (Hacc ty rid Hty Hrid) as (op & Hop & Ht); [congruence|]. by exists op, (ty, rid).
Qed.

Section start.
Variables (e0 : E) (D0 D1 X : gmap string bytes) (stale : string -> Prop) (ops : list WalOp) (f : string).
Hypotheses (rels0 : rels_plain D0) (shown : ReplicaView.shows s e0 stale X D0) (f_plain : plain_name f) (acc : accounts e0 ops).

#[local] Lemma visible0 k : k ∈ ReplicaView.visible_rels s e0 D0 f <-> k ∈ rels D0 f /\ ReplicaView.okey s e0 f k.
Proof. by apply elem_of_visible. Qed.

Lemma shows_tracks last : grounded D0 -> tracks D1 f ops last (view_of D0 f) (view_of X f).
Proof.
  intros Hg. pose proof (shown f f_plain) as Hshows.
  pose proof (fun k => accounted e0 D1 ops f k acc) as Hacc.
  destruct (ReplicaView.readable s e0 D0 f) eqn:Hr.
  - rewrite Hshows. split; cbn [view_of fst snd].
    + intros k [Hk Ho]%visible0. split; [by left|]. by apply Hacc.
    + intros k Hk Ho. destruct (proj2 (Hacc k) Ho) as [?|?]; [left; by apply visible0|by right].
    + intros r Hm _. by left.
  - destruct Hshows as [He _]. unfold view_of. rewrite He. cbn [fst snd]. split; cbn [fst snd]; [set_solver|..].
    + intros k Hk Ho. right. destruct (proj2 (Hacc k) Ho) as [Ho0|?]; [|done]. exfalso.
      destruct (file_of D0 f) as [r|] eqn:Ef; [|rewrite (Hg f f_plain Ef) in Hk; set_solver].
      pose proof (readable_spec s e0 D0 f r Ef) as Hspec. rewrite Hr in Hspec.
      assert (k ∈ ReplicaView.visible_rels s e0 D0 f) as Hin by (by apply visible0).
      assert (ReplicaView.visible_rels s e0 D0 f <> ∅) as Hne by (intros Hv; rewrite Hv in Hin; set_solver).
      assert (false = true); [|done]. apply Hspec. by right.
    + intros r Hm [Ho|?]; [|done]. exfalso. assert (false = true); [|done]. rewrite <- Hr. apply (readable_spec s e0 D0 f r Hm). by left.
Qed.

Lemma shows_fades : fades D1 f ops (stale f) (view_of D0 f) (view_of X f).
Proof.
  pose proof (shown f f_plain) as Hshows. pose proof (fun k => accounted e0 D1 ops f k acc) as Hacc.
  destruct (ReplicaView.readable s e0 D0 f) eqn:Hr.
  - rewrite Hshows. destruct (readable_file s e0 D0 f Hr) as [r Ef]. rewrite Ef. split; cbn [view_of fst snd].
    + intros k [Hk Ho]%visible0. split; [done|]. by apply Hacc.
    + by rewrite Ef.
    + intros _. right. exists r. split; [done|]. apply (readable_spec s e0 D0 f r Ef) in Hr as [?|Hne]; [by left|right].
      apply set_choose_L in Hne as [k [Hk Ho]%visible0]. exists k. split; [done|]. by apply Hacc.
  - destruct Hshows as [He Hs]. unfold view_of. rewrite He. split; cbn [fst snd].
    + set_solver.
    + intros Hn. destruct Hs as [->|[_ [r Hr']]]; [done|congruence].
    + intros Hx. destruct Hs as [?|[? _]]; [done|by left].
Qed.
End start.

(** The feed brings what the replica shows up to the master. *)
Lemma replay_fold fuel e0 D0 ops D1 stale X f v : rels_plain D0 -> rels_plain D1 -> grounded D0 ->
  Forall (replay_op fuel D1) ops -> history D0 ops D1 -> accounts e0 ops -> ReplicaView.shows s e0 stale X D0 ->
  plain_name f -> replica_path D1 f ops (view_of X f) v ->
  if readable D1 f then v = (file_of D1 f, visible_rels D1 f)
  else v.2 = ∅ /\ (v.1 = None \/ (stale f \/ detaches f ops) /\ is_Some (file_of D1 f)).
Proof.
  intros Hp0 Hp1 Hg0 Hops Hhist Hacc Hshows Hf Hpath. destruct (Hhist f Hf) as [Hfresh Hend].
  pose proof (fun k => elem_of_visible s e D1 f k Hf Hp1) as Hv1.
  assert (forall k, k ∈ rels D1 f -> okey f k \/ due D1 f [] k -> okey f k) as Hdue.
  { intros k Hk [?|Hd]; [done|]. destruct (Hd Hk) as (op & r & Hin & _). by apply not_elem_of_nil in Hin. }
  destruct (readable D1 f) eqn:Hr.
  - destruct (readable_file s e D1 f Hr) as [last Hlast].
    destruct (tracks_path D1 f Hf fuel ops last (view_of D0 f) (view_of X f) v) as [Hk Hm Hrec]; [done..|by eapply shows_tracks|done|].
    rewrite <- Hend in Hk, Hm, Hrec. destruct v as [o R]. cbn [fst snd view_of] in *.
    assert (R = visible_rels D1 f) as ->.
    { apply set_eq. intros k. rewrite Hv1. split.
      - intros Hin. destruct (Hk k Hin) as [Hor Ho]. assert (k ∈ rels D1 f) as Hk1 by (by destruct Hor). by split; [|apply Hdue].
      - intros [Hk1 Ho]. destruct (Hm k Hk1 Ho) as [?|Hd]; [done|]. destruct (Hd Hk1) as (op & r & Hin & _).
        by apply not_elem_of_nil in Hin. }
    rewrite Hlast. f_equal. apply (readable_spec s e D1 f last Hlast) in Hr. by destruct (Hrec last Hlast Hr).
  - destruct (fades_path D1 f Hf fuel ops (stale f) (view_of D0 f) (view_of X f) v) as [Hk Hn Hl]; [done..|by eapply shows_fades|done|].
    rewrite <- Hend in Hk, Hn, Hl. destruct v as [o R]. cbn [fst snd view_of] in *.
    destruct (file_of D1 f) as [r|] eqn:Ef; [|injection (Hn eq_refl) as -> ->; by split; [|left]].
    pose proof (readable_spec s e D1 f r Ef) as Hspec. rewrite Hr in Hspec.
    assert (fr_owner_sub r = s \/ visible_rels D1 f <> ∅ -> False) as Hhid by (intros Hv; by apply Hspec in Hv).
    assert (forall k, k ∈ rels D1 f -> okey f k -> False) as Hno.
    { intros k Hk1 Ho. apply Hhid. right. intros Hv. assert (k ∈ visible_rels D1 f) as Hin by (by apply Hv1).
      rewrite Hv in Hin. set_solver. }
    split.
    + apply set_eq. intros k. split; [|set_solver]. intros Hin. destruct (Hk k Hin) as [Hk1 Ho]. exfalso. eapply Hno; [done|by apply Hdue].
    + destruct o as [r'|]; [right|by left]. split; [|eauto].
      destruct (Hl ltac:(done)) as [?|(r2 & [= <-] & [Ho|(k & Hk1 & Hok)])]; [done|..]; exfalso.
      * apply Hhid. by left.
      * eapply Hno; [done|by apply Hdue].
Qed.
End view.

(** ** The replay, on stores that answer *)

Section run_replay.
Context {S E T : Type} `{!KvStore S T} `{!KvLaws S T} `{!ReplicaHost S} `{!ReplicaHostLaws S T}.
Context `{!StoreText} `{!Enforcer E} `{!Serde Z} `{!SerdeLaws Z} `{!Serde WalEntry} `{!SerdeLaws WalEntry}.
Context `{!Serde FileRecord} `{!SerdeLaws FileRecord} `{!Serde RefInfo} `{!SerdeLaws RefInfo}.
Variable cfg : FsConfig S.
Hypothesis mirror_fresh : converged cfg.
Variables (s : string) (e : E) (D X : gmap string bytes).

#[local] Abbreviation W := (sync_world S E).

Hypothesis master_files : files_sound D.
Hypothesis master_rels : rels_plain D.

(** *** The feed *)

(** A change of a file moves every file as [replica_step] says. *)
Definition stepped (op : WalOp) (L L' : gmap string bytes) : Prop :=
  all_refs_ok L' /\ forall f, plain_name f -> view_of L' f = replica_step s e D f (view_of L f) op.

Lemma step_other f op v : op_file op <> Some f -> replica_step s e D f v op = v.
Proof.
  destruct op; cbn; try done; intros Hne; rewrite bool_decide_eq_false_2 by naive_solver; done.
Qed.

Lemma moves_step f op L L' v : op_file op = Some f -> all_refs_ok L -> moves f v L L' ->
  v = replica_step s e D f (view_of L f) op -> stepped op L L'.
Proof.
  intros Hop Hall [Hv Hr Hg] Heq. split; [by apply Hr|]. intros g Hpg. destruct (decide (g = f)) as [->|Hne].
  - by rewrite Hv.
  - rewrite (Hg g Hpg Hne). symmetry. apply step_other. congruence.
Qed.

Lemma stays_step f op L : op_file op = Some f -> all_refs_ok L -> view_of L f = replica_step s e D f (view_of L f) op ->
  stepped op L L.
Proof. intros Hop Hall Heq. by eapply moves_step. Qed.

Lemma wp_apply_file fuel op L Q (w : W) : file_op op -> copy_at s e D L w X -> all_refs_ok L -> room L 0 ->
  (forall w' L', stepped op L L' -> copy_at s e D L' w' X -> Q (Ok Applied) w') ->
  wp (run (apply_op cfg fuel s op)) Q w.
Proof.
  intros Hop Hw Hall Hroom HQ. destruct op; try done; cbn [apply_op file_op] in *; unfold applied.
  - destruct Hop as (Hty & Hrid & Hf). apply wp_run_bindR. eapply wp_master; [by apply reads_file|done|].
    intros o w1 -> Hw1. destruct (file_of D file_id) as [rec|] eqn:Er.
    2: { apply wp_ret, (HQ _ L); [|done]. apply (stays_step file_id); [done..|]. cbn [replica_step].
         unfold readable. by rewrite Er, andb_false_r. }
    apply wp_run_bindR, (wp_can_read cfg mirror_fresh s e D X master_files master_rels _ L); [done..|]. intros w2 Hw2.
    destruct (readable s e D file_id) eqn:Hr; cbn [negb].
    2: { apply wp_ret, (HQ _ L); [|done]. apply (stays_step file_id); [done..|]. cbn [replica_step].
         by rewrite Hr, andb_false_r. }
    pose proof (file_of_id D master_files file_id rec Hf Er) as Hid.
    apply wp_run_bindR, (wp_live_save s e D X rec L); [by rewrite Hid|done|]. rewrite Hid. intros w3 L3 Hm3 Hw3.
    assert (view_of L3 file_id = (Some rec, rels L file_id)) as Hv3 by apply Hm3. injection Hv3 as Hf3 Hr3.
    assert (room L3 0) as Hroom3 by (apply (room_moves file_id _ L _ _ Hm3); [|by apply Hroom]; done).
    unfold ask. apply wp_run_bind, wp_run_atomically. unfold wp at 1. rewrite (at_policy _ _ _ _ _ _ Hw3).
    assert (forall L', moves file_id (Some rec, (if may s e (row_type, row_id) then {[rel_key row_type row_id file_id]} ∪ rels L file_id
      else rels L file_id)) L L' -> stepped (Attach row_type row_id file_id) L L') as Hend.
    { intros L' Hm. eapply moves_step; [done..|]. cbn [replica_step]. by rewrite Hr, bool_decide_eq_true_2, Er. }
    unfold may in Hend. cbn [fst snd] in Hend. destruct (authorize_row s row_type row_id Read e) as [[]|err].
    2,3: apply wp_ret, (HQ _ L3); [apply Hend|]; done.
    apply wp_run_bindR, (wp_live_attach s e D X _ _ _ L3); [done|done|by apply Hm3|done|].
    intros n w4 L4 Hm4 Hw4. apply wp_ret, (HQ _ L4); [apply Hend|done].
    rewrite Hf3, Hr3 in Hm4. by eapply moves_trans.
  - destruct Hop as (Hty & Hrid & Hf). apply wp_run_bindR, (wp_live_detach s e D X _ _ _ L); [done..|].
    intros n w1 L1 Hm Hw1. apply wp_ret, (HQ _ L1); [|done]. eapply moves_step; [done..|].
    cbn [replica_step]. by rewrite bool_decide_eq_true_2.
  - apply wp_run_bindR, (wp_can_read cfg mirror_fresh s e D X master_files master_rels _ L); [done..|]. intros w1 Hw1. destruct (readable s e D (fr_id rec)) eqn:Hr.
    + apply wp_run_bindR, (wp_live_save s e D X rec L); [done..|]. intros w2 L2 Hm Hw2. apply wp_ret, (HQ _ L2); [|done].
      eapply moves_step; [done..|]. cbn [replica_step]. by rewrite Hr, bool_decide_eq_true_2.
    + apply wp_ret, (HQ _ L); [|done]. apply (stays_step (fr_id rec)); [done..|]. cbn [replica_step].
      by rewrite Hr, andb_false_r.
  - apply wp_run_bindR, (wp_live_delete s e D X _ L); [done..|]. intros w1 L1 Hm Hw1. apply wp_ret, (HQ _ L1); [|done].
    eapply moves_step; [done..|]. cbn [replica_step]. by rewrite bool_decide_eq_true_2.
Qed.

Lemma room_step op n L L' : room L (Datatypes.S n) -> stepped op L L' -> room L' n.
Proof.
  intros Hroom [_ Hv] f Hf. specialize (Hroom f Hf). specialize (Hv f Hf).
  pose proof (replica_step_size s e D f (view_of L f) op) as Hsz. rewrite <- Hv in Hsz. cbn [view_of snd] in Hsz. lia.
Qed.

(** A change moves every file as [replica_move] says. *)
Definition moved (op : WalOp) (L L' : gmap string bytes) : Prop :=
  all_refs_ok L' /\ forall f, plain_name f -> replica_move s e D f (view_of L f) op (view_of L' f).

Lemma stepped_moved op L L' : file_op op -> stepped op L L' -> moved op L L'.
Proof. intros Hop [Hall Hv]. split; [done|]. intros f Hf. unfold replica_move. rewrite (Hv f Hf). by destruct op. Qed.

Lemma resynced_moved op L L' : policy_op op -> resynced s e D op L L' -> moved op L L'.
Proof.
  intros Hop (Hall & rows & Hrows & Hv). split; [done|]. intros f Hf. unfold replica_move.
  assert (op_file op = None) as -> by by destruct op. exists rows. split; [done|by apply Hv].
Qed.

Lemma wp_apply_op fuel op n L Q (w : W) : replay_op s e fuel D op -> copy_at s e D L w X -> all_refs_ok L ->
  room L (cost op + n) ->
  (forall w' L', moved op L L' -> room L' n -> copy_at s e D L' w' X -> Q (Ok Applied) w') ->
  wp (run (apply_op cfg fuel s op)) Q w.
Proof.
  intros [Hop|Hfits] Hw Hall Hroom HQ.
  - assert (cost op = 1) as Hc by (by destruct op). rewrite Hc in Hroom.
    apply (wp_apply_file _ _ L); [done..|eapply room_le; [done|lia]|]. intros w' L' Hst Hw'.
    apply (HQ _ L'); [by apply stepped_moved|by eapply room_step|done].
  - assert (policy_op op) as Hp by apply Hfits. assert (cost op = MAX_POLICY_REPLAY_FILES) as Hc by (by destruct op).
    rewrite Hc in Hroom. apply (wp_apply_policy cfg mirror_fresh s e D X master_files master_rels ltac:(apply Hfits) fuel op n L); [done..|].
    intros w' L' Hre Hroom' Hw'. apply (HQ _ L'); [by apply resynced_moved|done..].
Qed.

Lemma wp_apply_all fuel entries L Q (w : W) : Forall (replay_op s e fuel D) (map we_op entries) -> copy_at s e D L w X ->
  all_refs_ok L -> room L (costs (map we_op entries)) ->
  (forall w' L', all_refs_ok L' -> copy_at s e D L' w' X ->
    (forall f, plain_name f -> replica_path s e D f (map we_op entries) (view_of L f) (view_of L' f)) ->
    Q (Ok Applied) w') ->
  wp (run (apply_all cfg fuel s entries)) Q w.
Proof.
  revert L w. induction entries as [|en entries IH]; intros L w Hops Hw Hall Hroom HQ; cbn [apply_all map replica_path] in *.
  { by apply wp_ret, (HQ _ L). }
  apply Forall_cons in Hops as [Hop Hops].
  apply wp_run_bindR, (wp_apply_op fuel _ (costs (map we_op entries)) L); [done..|].
  intros w1 L1 Hst Hroom1 Hw1. apply (IH L1); [done..|by apply Hst|done|].
  intros w2 L2 Hall2 Hw2 Hv. apply (HQ w2 L2); [done..|]. intros f Hf. exists (view_of L1 f).
  split; [by apply Hst|by apply Hv].
Qed.

(** The world after a replay: the marker covers [hd], and every file is where
    the changes [ops] bring it. *)
Definition replayed_to (hd : Z) (ops : list WalOp) (L L' : gmap string bytes) : Prop :=
  marker_of L' = Some hd /\ all_refs_ok L' /\
  forall f, plain_name f -> replica_path s e D f ops (view_of L f) (view_of L' f).

Lemma wp_replay fuel log ap L Q (w : W) : let hd := Z.of_nat (length log) in let ops := drop (Z.to_nat ap) log in
  kv_up (kv (sw_wal w)) -> wal_log (rows_of (sw_wal w)) log -> in_u64 hd -> (0 <= ap <= hd)%Z -> marker_of L = Some ap ->
  copy_at s e D L w X -> all_refs_ok L -> Forall (replay_op s e fuel D) ops -> length ops <= MAX_REPLAY_OPS ->
  room L (costs ops) ->
  (forall w' L', copy_at s e D L' w' X -> replayed_to hd ops L L' -> Q (Ok (Advanced hd)) w') ->
  wp (run (replay cfg fuel hd s)) Q w.
Proof.
  intros hd ops Hwu Hw Hhd Hap Hm Hc Hall Hops Hmax Hroom HQ. unfold replay.
  apply wp_run_bindR, (wp_marker s e D X L); [done|]. intros w1 Hc1 (_ & Hwal & _). rewrite Hm, bool_decide_eq_false_2 by lia.
  case_bool_decide as Heq.
  { apply wp_ret. rewrite Heq. apply (HQ _ L); [done|]. rewrite <- Heq. split; [done|]. split; [done|].
    intros f _. unfold ops. rewrite drop_ge by lia. done. }
  apply wp_run_bindR, wp_on. rewrite u64_add_id by (ints; lia). unfold range. rewrite bool_decide_eq_false_2 by lia.
  assert (wal_log (kv_data (kv (sw_wal w1))) log) as Hw1 by (by rewrite Hwal).
  eapply wp_mono; [apply (wp_read_entries log); [done|lia]|]. intros r x (Hdx & Hes & Hup).
  destruct Hup as [_ Hok]; [by cbn; rewrite Hwal|lia|]. destruct r as [entries|]; [|done]. cbn [map_err].
  destruct (Hes entries eq_refl) as (_ & Hop & _).
  assert (map we_op entries = ops) as Hmap.
  { change (map we_op entries) with (we_op <$> entries). rewrite Hop. unfold ops.
    replace (Z.to_nat (ap + 1 - 1)) with (Z.to_nat ap) by lia. apply take_ge. rewrite length_drop. lia. }
  set (w2 := @upd _ _ wal_lens _ _). assert (copy_at s e D L w2 X) as Hc2 by (destruct Hc1; by split).
  clearbody w2. clear Hc1 Hes Hop Hok.
  assert (length entries = length ops) as Hlen by (by rewrite <- Hmap, length_map).
  rewrite bool_decide_eq_false_2 by lia. rewrite <- Hmap in Hops.
  assert (existsb (fun en => is_legacy_policy_mark (we_op en)) entries = false) as ->.
  { apply not_true_iff_false. rewrite existsb_exists. intros (en & Hin & Hmark).
    rewrite Forall_forall in Hops. specialize (Hops (we_op en)). rewrite list_elem_of_In in Hops.
    specialize (Hops ltac:(by apply in_map)). apply replay_op_known in Hops. congruence. }
  cbn [orb]. apply wp_run_bindR, (wp_live s e D X _ (fun L' => L' = L) L); [|done|].
  { intros x' Hu' Hd'. apply wp_plain. eapply wp_reads_up; [apply open_writer_law|done|].
    intros a x2 Hux2 Hdx2 _. eexists. split; [done|]. split; [done|]. split; [|by eexists]. unfold rows_of. cbn. by rewrite Hdx2. }
  intros [] w3 L3 -> Hc3. apply wp_run_bindR, (wp_apply_all fuel entries L); [done..|by rewrite Hmap|].
  intros w4 L4 Hall4 Hc4 Hview. destruct (to_vec_ok hd) as [m Hm']. unfold ofs, FsStore.encode. rewrite Hm'. cbn [map_err].
  apply from_to in Hm'. apply wp_run_bindR, wp_ret, wp_run_bindR.
  apply (wp_live s e D X _ (fun L' => L' = <[APPLIED_KEY := m]> L4) L4); [|done|].
  { intros x' Hu' Hd'. unfold rows_of in *. fs_steps. eauto. }
  intros [] w5 L5 -> Hc5. apply wp_ret, (HQ _ _ Hc5). split; [|split].
  - unfold marker_of. rewrite lookup_insert_eq. cbn. by rewrite Hm'.
  - intros f Hf. destruct (marker_row m L4 f) as [Hv Hi]. injection Hv as _ Hr. unfold refs_ok. rewrite Hr, Hi. by apply Hall4.
  - intros f Hf. rewrite (proj1 (marker_row m L4 f)), <- Hmap. by apply Hview.
Qed.
End run_replay.

(** ** The advance *)

Section advance.
Context {S E T : Type} `{!KvStore S T} `{!KvLaws S T} `{!ReplicaHost S} `{!ReplicaHostLaws S T}.
Context `{!StoreText} `{!Enforcer E} `{!Serde Z} `{!SerdeLaws Z} `{!Serde WalEntry} `{!SerdeLaws WalEntry}.
Context `{!Serde FileRecord} `{!SerdeLaws FileRecord} `{!Serde RefInfo} `{!SerdeLaws RefInfo}.
Variable cfg : FsConfig S.
Hypothesis mirror_fresh : converged cfg.
Variable s : string.

#[local] Abbreviation W := (sync_world S E).

(** A full copy shows the master, with no record left over. *)
Lemma copied_shows (e : E) D X : files_plain D -> files_sound D -> rels_plain D ->
  copied s e D (record_in D) X -> shows s e (fun _ => False) X D.
Proof.
  intros Hfp Hfs Hrp [Hk Hf _] f Hpf.
  assert (forall r, file_of D f = Some r -> sees s e D r <-> readable s e D f = true) as Hsees.
  { intros r Hr. rewrite (readable_spec s e D f r Hr). unfold sees. rewrite (file_of_id _ Hfs f r Hpf Hr).
    apply or_iff_compat_l. split.
    - intros (k & Ho%elem_of_visible_opens) Hv; [|done..]. rewrite Hv in Ho. set_solver.
    - intros Hne. apply set_choose_L in Hne as [k Hv]. exists k. by apply elem_of_visible_opens. }
  assert (forall r, record_in D r -> fr_id r = f -> file_of D f = Some r) as Hin.
  { intros r (v & Hv & Hr) <-. unfold file_of. rewrite Hv. cbn. by rewrite Hr. }
  assert (forall r, file_of D f = Some r -> record_in D r) as Hof.
  { intros r Hr. pose proof (file_of_id _ Hfs f r Hpf Hr) as Hid. unfold file_of in Hr.
    destruct (D !! file_key f) as [v|] eqn:Ev; [|done]. exists v. rewrite Hid. split; [done|].
    cbn in Hr. destruct (from_slice v); by inversion Hr. }
  assert (forall k, k ∈ rels X f <-> readable s e D f = true /\ k ∈ visible_rels s e D f) as Hrels.
  { intros k. rewrite elem_of_rels, Hk, elem_of_visible_opens by done. split.
    - intros [Hrel (r & Hr & Hsr & Hc)]. pose proof (record_in_plain D r Hfp Hr) as Hpr.
      destruct Hc as [->|[Ho|[-> _]]]; [done| |done].
      pose proof (opens_file s e D _ f k Hpr Hpf Ho Hrel) as Hid. subst f. split; [|done].
      by apply (Hsees r), Hsr; apply Hin.
    - intros [Hr Ho]. destruct (readable_file s e D f Hr) as [r Er].
      pose proof (file_of_id _ Hfs f r Hpf Er) as Hid. split; [by eapply opens_rel|].
      exists r. split; [by apply Hof|]. split; [by apply Hsees|]. right. left. by rewrite Hid. }
  destruct (readable s e D f) eqn:Hr.
  - destruct (readable_file s e D f Hr) as [r Er]. pose proof (file_of_id _ Hfs f r Hpf Er) as Hid.
    destruct (Hf r (Hof r Er)) as (v & Hv & Hdv); [by apply (Hsees r)|]. unfold view_of. rewrite Er. f_equal.
    + unfold file_of. rewrite <- Hid, Hv. cbn. by rewrite Hdv.
    + apply set_eq. intros k. rewrite Hrels. naive_solver.
  - split; [apply set_eq; intros k; rewrite Hrels; set_solver|]. left. unfold file_of.
    destruct (X !! file_key f) as [v|] eqn:Ev; [|done]. exfalso.
    assert (is_Some (X !! file_key f)) as (r & Hrec & Hsr & Hc)%Hk by (rewrite Ev; eauto).
    destruct Hc as [He|[Ho|[He _]]].
    + apply file_key_inj in He. apply (Hsees r) in Hsr; [congruence|]. by apply Hin.
    + by apply opens_rel in Ho; [|by eapply record_in_plain].
    + by apply file_refs_ne in He.
Qed.

(** A replica that can be replayed: a marker within the feed, the changes past it
    few and ones that a replay takes on, its counts sound and its slot free. *)
Record replayable (fuel : nat) (w : W) (log : list WalOp) (ap : Z) : Prop := {
  r_marker : marker_of (rows_of (sw_live w s)) = Some ap;
  r_covered : (0 <= ap <= Z.of_nat (length log))%Z;
  r_head : in_u64 (Z.of_nat (length log));
  r_ops : Forall (replay_op s (sw_policy w) fuel (rows_of (sw_master w))) (drop (Z.to_nat ap) log);
  r_few : length (drop (Z.to_nat ap) log) <= MAX_REPLAY_OPS;
  r_refs : all_refs_ok (rows_of (sw_live w s));
  r_room : room (rows_of (sw_live w s)) (costs (drop (Z.to_nat ap) log));
  r_files : files_sound (rows_of (sw_master w));
  r_scratch_up : kv_up (kv (sw_scratch w s));
  r_free : s ∉ inflight (sw_builds w);
}.

(** C10: an incremental advance brings a replica where a rebuild would bring it,
    when no name holds a colon.  The stores answer; the types, rows and files that
    the changes and the relations name hold no colon, and every file row is at
    the key of its record and decodes to one of its file; the counts of master and replica agree with their
    relations and stay below [u32::MAX].  The replica's marker lies
    within the feed, whose head fits 64 bits; at most [MAX_REPLAY_OPS] changes are
    past it, none an old mark; each change of the policy
    touches at most [MAX_POLICY_REPLAY_FILES] files, none with the empty name; and
    no build of the subject is in its slot; a mirror has converged, and the model's
    search of groups has fuel for those within reach.  Then the advance answers at once with
    the head of the feed, its marker covers that head, and the reference counts
    are sound.  Say the replica showed the subject the master as it was when the
    changes began, where a file without a record had no relation, under the
    policy of that time; the changes lead from that master to the present one,
    none creating a file that there is; and they account for every row whose
    readability differs since.  Then the replica shows the master as it is now
    under the policy as it is now: a readable file with its record and its visible
    relations, and of another file nothing, except that the record of a file that
    one of the changes detached may remain. *)
Theorem advance_exact fuel log ap D0 (e0 : E) stale (w : W) :
  let D := rows_of (sw_master w) in let e := sw_policy w in let ops := drop (Z.to_nat ap) log in
  buildable s w log -> replayable fuel w log ap ->
  rels_plain D0 -> grounded D0 -> history D0 ops D -> accounts s e e0 ops ->
  shows s e0 stale (rows_of (sw_live w s)) D0 ->
  wp (run (advance cfg fuel s)) (fun r w' => let replica := rows_of (sw_live w' s) in
    r = Ok {| applied_seq := Z.of_nat (length log); pending := false |} /\
    marker_of replica = Some (Z.of_nat (length log)) /\ all_refs_ok replica /\
    shows s e (fun f => stale f \/ detaches f ops) replica D) w.
Proof.
  intros D e ops [Hwu Hw Hmu Hf Hr Hrefs _ Hlu] [Hm Hap Hhd Hops Hfew Hlrefs Hroom Hfs Hsu Hfree] Hp0 Hg Hhist Hacc Hshows.
  assert (copy_at s e D (rows_of (sw_live w s)) w (rows_of (sw_scratch w s))) as Hc by (by split).
  assert (forall L', replayed_to s e D (Z.of_nat (length log)) ops (rows_of (sw_live w s)) L' ->
    marker_of L' = Some (Z.of_nat (length log)) /\ all_refs_ok L' /\ shows s e (fun f => stale f \/ detaches f ops) L' D) as Hend.
  { intros L' (Hm' & Hall' & Hv). split_and!; [done..|]. intros f Hpf.
    pose proof (replay_fold s e fuel e0 D0 ops D stale _ f (view_of L' f) Hp0 Hr Hg Hops Hhist Hacc Hshows Hpf (Hv f Hpf)) as Hfold.
    by destruct (readable s e D f). }
  unfold advance. apply wp_run_bindR, wp_on. eapply wp_mono; [by apply wp_feed_head|]. intros hd x (Hxu & Hxd & ->).
  set (w1 := @upd _ _ wal_lens x w).
  assert (copy_at s e D (rows_of (sw_live w s)) w1 (rows_of (sw_scratch w s))) as Hc1 by (destruct Hc; by split).
  apply wp_run_bindR, (wp_marker s e D (rows_of (sw_scratch w s)) (rows_of (sw_live w s))); [done|]. intros w2 Hc2 (_ & Hwal & _ & Hb). rewrite Hm.
  case_bool_decide as Heq.
  { injection Heq as Heq. apply wp_ret. split; [done|]. assert (rows_of (sw_live w2 s) = rows_of (sw_live w s)) as -> by apply Hc2.
    apply Hend. split; [by rewrite Hm, Heq|]. split; [done|]. intros f _. unfold ops. by rewrite drop_ge by lia. }
  apply wp_builds. unfold wp at 1, claim. rewrite Hb, bool_decide_eq_false_2 by done. cbn [negb].
  set (w3 := @upd _ _ builds_lens _ w2).
  assert (copy_at s e D (rows_of (sw_live w s)) w3 (rows_of (sw_scratch w s))) as Hc3 by (destruct Hc2; by split).
  apply wp_run_bind, (wp_replay cfg mirror_fresh s e D (rows_of (sw_scratch w s)) Hfs Hr fuel log ap (rows_of (sw_live w s)));
    [by cbn; rewrite Hwal| |done..|].
  { change (rows_of (sw_wal w3)) with (rows_of (sw_wal w2)). rewrite Hwal. unfold rows_of. cbn. by rewrite Hxd. }
  intros w4 L4 Hc4 Hto. apply wp_builds, wp_ret. cbn zeta. split; [done|].
  change (rows_of (sw_live _ s)) with (rows_of (sw_live w4 s)).
  assert (rows_of (sw_live w4 s) = L4) as -> by apply Hc4. by apply Hend.
Qed.
End advance.
