(* ===== verification/ReplicaPolicy.v ===== *)
(** ReplicaPolicy: which changes of the policy the replay accounts for.  Under
    the program's model (a rule for a subject is one for its members, directly
    or through groups), a feed that announces every rule that differs, or every
    link, touches every row that became readable or stopped being so.  What a
    feed of both kinds misses is in [SyncExamples] and [ReplayExamples]. *)
From stdpp Require Import relations.
From S2P Require Import Prelude.
From S2P Require Import Effects.
From S2P Require Import RustStr.
From S2P Require Import Kv.
From S2P Require Import FsTypes.
From S2P Require Import FsRels.
From S2P Require Import Policy.
From S2P Require Import Wal.
From S2P Require Import Replica.
From S2P Require Import ReplicaCopy.
From S2P Require Import ReplicaView.
From S2P Require Import ReplicaGroups.
From S2P Require Import ReplicaResync.
From S2P Require Import ReplicaReplay.

(** ** Objects of rows *)

Lemma split_row_object ty rid : plain_name ty -> ty <> "" -> rid <> "" -> split_row_obj (row_object ty rid) = Some (ty, rid).
Proof.
  intros Hty Hne Hne'. unfold split_row_obj, row_object. change (ty +:+ ":" +:+ rid) with (ty +:+ String ":" rid).
  rewrite split_once_app by done. cbn. by rewrite !bool_decide_eq_false_2.
Qed.

(** ** Paths that use a new link *)

(** A path that does not survive from one relation to another uses a link that
    did not, and after its last such link it is made of links of both. *)
Lemma bsteps_lost {A} (R R' : relation A) n x y : (forall a b, Decision (R' a b)) -> bsteps R n x y ->
  bsteps R' n x y \/ exists a b, rtc R x a /\ R a b /\ ~ R' a b /\ rtc (fun a b => R a b /\ R' a b) b y.
Proof.
  intros Hdec Hxy. assert (bsteps (fun a b => R a b /\ R' a b) n x y \/
    exists a b, rtc R x a /\ R a b /\ ~ R' a b /\ rtc (fun a b => R a b /\ R' a b) b y) as [Hb|?]; [|left|by right].
  2: { eapply (bsteps_congruence (fun a => a) R'); [|exact Hb]. by intros a b [_ ?]. }
  induction Hxy as [n x|n x z y Hxz _ IH]; [left; constructor|].
  destruct IH as [Hzy|(a & b & Hza & Hab)]; [|right; exists a, b; split; [by eapply rtc_l|done]].
  destruct (decide (R' x z)) as [?|Hno]; [left; by econstructor|right]. exists x, z.
  split; [constructor|]. split; [done|]. split; [done|by eapply rtc_bsteps_2].
Qed.

(** Two relations that agree on what one reaches have the same paths. *)
Lemma bsteps_agree {A} (R R' : relation A) n x y : (forall a b, rtc R x a -> R a b <-> R' a b) ->
  bsteps R n x y <-> bsteps R' n x y.
Proof.
  intros Hagree. assert (forall z, rtc R x z -> bsteps R n z y <-> bsteps R' n z y) as Hall; [|by apply Hall].
  intros z Hxz. split; intros Hzy; induction Hzy as [n z|n z t y Hzt _ IH]; try constructor.
  - apply bsteps_l with t; [by apply Hagree|]. apply IH. by eapply rtc_r.
  - apply Hagree in Hzt; [|done]. apply bsteps_l with t; [done|]. apply IH. by eapply rtc_r.
Qed.

(** ** What the model says *)

(** The engine's documented behaviour with the program's model [RBAC_MODEL]: a
    request is granted when a rule for its object and action has a subject that
    the request's subject is, or reaches in at most ten links; and the rules
    filtered by their first field are those that have it. *)
Class EnforcerModel (E : Type) `{!Enforcer E} := {
  model_enforce sub obj a e : exists b, ef_enforce sub obj a e = Ok b /\
    (b = true <-> exists g, bsteps (in_group e) 10 sub g /\ [g; obj; a] ∈ ef_policy e);
  model_rules g rest e : g :: rest ∈ ef_filtered 0 [g] e <-> g :: rest ∈ ef_policy e;
}.

Section model.
Context {E : Type} `{!Enforcer E} `{!EnforcerModel E} `{!Serde FileRecord}.
Variable s : string.

(** A rule about a row names it. *)
Definition rows_named (e : E) : Prop :=
  forall g ty rid, plain_name ty -> [g; row_object ty rid; "read"] ∈ ef_policy e -> ty <> "" /\ rid <> "".

Lemma may_spec e ty rid : may s e (ty, rid) = true <->
  exists g, bsteps (in_group e) 10 s g /\ [g; row_object ty rid; "read"] ∈ ef_policy e.
Proof.
  unfold may, authorize_row, authorize. cbn [fst snd action_text].
  destruct (model_enforce s (row_object ty rid) "read" e) as (b & -> & Hb). exact Hb.
Qed.

Lemma rule_reads_row e b g ty rid : plain_name ty -> rows_named e -> rtc (in_group e) b g ->
  [g; row_object ty rid; "read"] ∈ ef_policy e -> reads_row e b (ty, rid).
Proof.
  intros Hty Hn Hbg Hr. destruct (Hn g ty rid Hty Hr) as [Hne Hne']. exists g. split; [done|].
  unfold read_rows. apply list_elem_of_omap. exists (row_object ty rid, "read").
  split; [|cbn [fst snd]; by apply split_row_object].
  apply list_elem_of_omap. exists [g; row_object ty rid; "read"]. split; [by apply model_rules|done].
Qed.

(** The feed announces what differs between two policies, as far as the subject
    reaches: only rules differ, or only links do, its own ones and those into a
    deleted group. *)
Inductive announced (e0 e : E) (ops : list WalOp) : Prop :=
| RulesDiffer :
    (forall a g, rtc (in_group e0) s a -> in_group e0 a g <-> in_group e a g) ->
    (forall g obj a, [g; obj; a] ∈ ef_policy e0 -> [g; obj; a] ∉ ef_policy e -> PolicyRuleRemove g obj a ∈ ops) ->
    (forall g obj a, [g; obj; a] ∈ ef_policy e -> [g; obj; a] ∉ ef_policy e0 -> PolicyRuleAdd g obj a ∈ ops) ->
    announced e0 e ops
| LinksDiffer :
    (forall r, r ∈ ef_policy e0 <-> r ∈ ef_policy e) ->
    (forall a g, rtc (in_group e0) s a -> in_group e0 a g -> ~ in_group e a g ->
      a = s /\ GroupRemove s g ∈ ops \/ GroupDelete g ∈ ops) ->
    (forall a g, rtc (in_group e) s a -> in_group e a g -> ~ in_group e0 a g -> a = s /\ GroupAdd s g ∈ ops) ->
    announced e0 e ops.

(** C11: every row that becomes readable to a subject, or stops being so, is
    touched by the replay of the changes, when these are announced and are of
    rules only, or of links only: of the subject's own memberships, through
    however many groups, and of deleted groups. *)
Theorem changes_accounted (e0 e : E) ops : rows_named e0 -> rows_named e -> announced e0 e ops -> accounts s e e0 ops.
Proof.
  intros Hn0 Hn Hann ty rid Hty Hrid Hdiff.
  assert (may s e0 (ty, rid) = true /\ may s e (ty, rid) <> true \/ may s e (ty, rid) = true /\ may s e0 (ty, rid) <> true) as Hcases
    by (destruct (may s e0 (ty, rid)), (may s e (ty, rid)); auto).
  clear Hdiff. rewrite !may_spec in Hcases.
  assert (forall e' g, rows_named e' -> [g; row_object ty rid; "read"] ∈ ef_policy e' -> split_row_obj (row_object ty rid) = Some (ty, rid))
    as Hsplit by (intros e' g Hn' Hr; destruct (Hn' g ty rid Hty Hr); by apply split_row_object).
  destruct Hann as [Hlinks Hremoved Hadded|Hrules Hremoved Hadded], Hcases as [[(g & Hg & Hr) Hno]|[(g & Hg & Hr) Hno]].
  - apply (bsteps_agree _ (in_group e)) in Hg; [|done].
    exists (PolicyRuleRemove g (row_object ty rid) "read"). split; [apply Hremoved; [done|]|].
    + intros Hr'. apply Hno. by exists g.
    + split; [done|]. split; [by apply (Hsplit e0 g)|by eapply rtc_bsteps_2].
  - exists (PolicyRuleAdd g (row_object ty rid) "read"). split; [apply Hadded; [done|]|].
    + intros Hr'. apply Hno. exists g. split; [by apply (bsteps_agree _ (in_group e))|done].
    + split; [done|]. split; [by apply (Hsplit e g)|by eapply rtc_bsteps_2].
  - destruct (bsteps_lost _ (in_group e) _ _ _ _ Hg) as [Hg'|(a & b & Ha & Hab & Hnab & Hbg)].
    { exfalso. apply Hno. exists g. split; [done|by apply Hrules]. }
    assert (reads_row e b (ty, rid)) as Hrow.
    { apply (rule_reads_row e b g); [done|done| |by apply Hrules]. eapply (rtc_congruence (fun a => a)); [|exact Hbg]. by intros ?? [_ ?]. }
    destruct (Hremoved a b Ha Hab Hnab) as [[-> Hop]|Hop]; eexists; by split.
  - destruct (bsteps_lost _ (in_group e0) _ _ _ _ Hg) as [Hg'|(a & b & Ha & Hab & Hnab & Hbg)].
    { exfalso. apply Hno. exists g. split; [done|by apply Hrules]. }
    assert (reads_row e b (ty, rid)) as Hrow.
    { apply (rule_reads_row e b g); [done|done| |done]. eapply (rtc_congruence (fun a => a)); [|exact Hbg]. by intros ?? [? _]. }
    destruct (Hadded a b Ha Hab Hnab) as [-> Hop]. eexists; by split.
Qed.
End model.
