(* ===== verification/SyncRoute.v ===== *)
(** SyncRoute: the replica routes ([src/src/sync/route.rs]): the status of a
    replica, its advance, and the delivery of its objects, with the entity tags
    and the cache headers of each. *)
From S2P Require Import Prelude.
From S2P Require Import Effects.
From S2P Require Import RustStr.
From S2P Require Import Kv.
From S2P Require Import ObjStore.
From S2P Require Import FsTypes.
From S2P Require Import Http.
From S2P Require Import Gate.
From S2P Require Import FsStore.
From S2P Require Import FsObjects.
From S2P Require Import Policy.
From S2P Require Import Wal.
From S2P Require Import Replica.
From S2P Require Import ReplicaSlots.
From S2P Require Import ReplicaBuild.

Record SyncStatusResponse := { ss_prefix : string; ss_applied_seq : option Z; ss_head : Z }.
Record SyncAdvanceResponse := { sa_prefix : string; sa_applied_seq : Z; sa_pending : bool }.

Definition MANIFEST_OBJECT : string := "manifest.json".
Definition OWNERSHIP_OBJECT : string := "ownership.json".
Definition PROBE_CANARY_OBJECT : string := "probe/canary".
Definition MUTABLE_OBJECTS : list string := [MANIFEST_OBJECT; OWNERSHIP_OBJECT; PROBE_CANARY_OBJECT].
Definition JSON_OBJECTS : list string := [MANIFEST_OBJECT; OWNERSHIP_OBJECT].

(** ** Entity tags *)

Definition quote : ascii := "034".
Definition quoted (s : string) : string := String quote (s +:+ String quote "").

Definition status_tag (applied : option Z) (hd : Z) : string :=
  "snap-" +:+ (match applied with Some a => u64_text a | None => "none" end) +:+ "-h" +:+ u64_text hd.
Definition status_etag (applied : option Z) (hd : Z) : string := quoted (status_tag applied hd).

Definition advance_tag (seq : Z) (pending : bool) : string :=
  "snap-" +:+ u64_text seq +:+ "-p" +:+ (if pending then "1" else "0").
Definition advance_etag (seq : Z) (pending : bool) : string := quoted (advance_tag seq pending).

Definition normalize_etag (tag : string) : string :=
  let tag := trim tag in
  let tag := trim (default tag (strip_prefix "W/" tag)) in
  default tag (strip_prefix (String quote "") tag ≫= strip_suffix (String quote "")).

Definition etag_matches (header etag : string) : bool :=
  bool_decide (trim header = "*") ||
  existsb (fun tag => bool_decide (normalize_etag tag = normalize_etag etag)) (split_char "," header).

(** The [if let] on [If-None-Match]. *)
Definition not_modified (req : HttpRequest) (etag : string) : bool :=
  match header_str req "if-none-match" with
  | Some header => etag_matches header etag
  | None => false
  end.

(** ** Status and advance *)

Section routes.
Context {S E T : Type} `{!KvStore S T} `{!ReplicaHost S} `{!StoreText} `{!Enforcer E} `{!Sha256}.
Context `{!Serde Z} `{!Serde WalEntry} `{!Serde FileRecord} `{!Serde RefInfo}.
Context (cfg : FsConfig S) (db_prefix : string).

#[local] Abbreviation W := (sync_world S E).

Definition status_handler (sub : string) (req : HttpRequest) :
    prog W (result (HttpResponse SyncStatusResponse) sync_err) :=
  hd <-? on wal_lens Wal.head;
  applied <-? load_applied sub;
  let etag := status_etag applied hd in
  mret (Ok (if not_modified req etag then Resp 304 [("etag", etag)] None
            else Resp 200 [("etag", etag)]
                   (Some {| ss_prefix := user_prefix db_prefix sub; ss_applied_seq := applied; ss_head := hd |}))).

Definition sync_handler (fuel : nat) (sub : string) (req : HttpRequest) :
    prog W (result (HttpResponse SyncAdvanceResponse) sync_err) :=
  outcome <-? advance cfg fuel sub;
  let etag := advance_etag (applied_seq outcome) (pending outcome) in
  mret (Ok (if not_modified req etag then Resp 304 [("etag", etag)] None
            else Resp 200 [("etag", etag)]
                   (Some {| sa_prefix := user_prefix db_prefix sub; sa_applied_seq := applied_seq outcome;
                            sa_pending := pending outcome |}))).
End routes.

(** ** Objects *)

(** [GetResult::range] *)
Class GetRange (G : Type) := { get_range : G -> Z * Z }.

Section objects.
Context {O G Sem : Type} `{!ObjectStore O G} `{!GetRange G} `{!ObjText} `{!Semaphore Sem} `{!Sha256}.
Context (db_prefix : string).

Definition is_one_object_of (path replica_prefix : string) (names : list string) : bool :=
  existsb (fun name => bool_decide (path = os_path (replica_prefix +:+ "/" +:+ name))) names.
Definition is_mutable_object_key (path replica_prefix : string) : bool :=
  is_one_object_of path replica_prefix MUTABLE_OBJECTS.
Definition is_json_object_key (path replica_prefix : string) : bool :=
  is_one_object_of path replica_prefix JSON_OBJECTS.

Definition object_cache_headers (hs : headers) (is_mutable is_json : bool) : headers :=
  let hs := insert_header ("cache-control", if is_mutable then "no-cache" else "public, max-age=31536000, immutable") hs in
  insert_header ("content-type", if is_json then "application/json" else "application/octet-stream") hs.

Definition etag_header (etag : option string) : headers :=
  match etag with Some e => [("etag", e)] | None => [] end.

Definition object_not_modified (etag : option string) (is_mutable is_json : bool) : HttpResponse (G * option unit) :=
  Resp 304 (object_cache_headers (etag_header etag) is_mutable is_json) None.

(** The body is the stream of the object, which holds the permit. *)
Definition object_response (out : G) (is_mutable is_json : bool) (etag : option string) (size : Z) (permit : option unit) :
    HttpResponse (G * option unit) :=
  Resp 200 (insert_header ("content-length", u64_text size) (object_cache_headers (etag_header etag) is_mutable is_json))
    (Some (out, permit)).

Record object_world := ObjectWorld { ow_gate : ConcurrencyGate Sem; ow_store : O }.

Definition on_gate {A} (m : act (ConcurrencyGate Sem) A) : act object_world A := fun w =>
  let '(a, g) := m (ow_gate w) in (a, ObjectWorld g (ow_store w)).
Definition on_store {A} (m : act O A) : act object_world A := fun w =>
  let '(a, s) := m (ow_store w) in (a, ObjectWorld (ow_gate w) s).

(** Every early return drops the permit. *)
Definition object_handler (sub tail : string) (req : HttpRequest) :
    prog object_world (result (HttpResponse (G * option unit)) FsError) :=
  key <-? mret (resolve_object db_prefix sub tail);
  let object_path := os_path key in
  let replica_prefix := os_path (user_prefix db_prefix sub) in
  let is_mutable := is_mutable_object_key object_path replica_prefix in
  let is_json := is_json_object_key object_path replica_prefix in
  permit <-? atomically (on_gate admit_download);
  out ← atomically (on_store (os_get object_path));
  match out with
  | Err ObjNotFound => _ ← atomically (on_gate (drop_stream permit)); mret (Ok (Resp 404 [] None))
  | Err e => _ ← atomically (on_gate (drop_stream permit)); mret (Err (FsInternal (obj_text e)))
  | Ok out =>
      let etag := e_tag (os_meta out) in
      let size := u64_saturating_sub (snd (get_range out)) (fst (get_range out)) in
      if match etag with Some current => not_modified req current | None => false end then
        _ ← atomically (on_gate (drop_stream permit));
        mret (Ok (object_not_modified etag is_mutable is_json))
      else mret (Ok (object_response out is_mutable is_json etag size permit))
  end.
End objects.

(** ** Entity tags tell states apart *)

Lemma normalize_quoted s : normalize_etag (quoted s) = s.
Proof.
  unfold normalize_etag, quoted. rewrite !trim_black by (vm_compute; reflexivity).
  change (strip_prefix "W/" (String quote (s +:+ String quote ""))) with (None : option string). cbn [default].
  rewrite trim_black by (vm_compute; reflexivity).
  change (String quote (s +:+ String quote "")) with (String quote "" +:+ (s +:+ String quote "")).
  rewrite strip_prefix_app. cbn [mbind option_bind]. by rewrite strip_suffix_app.
Qed.

Lemma normalize_space s : normalize_etag (String " " s) = normalize_etag s.
Proof. unfold normalize_etag, trim. by rewrite trim_start_space. Qed.

Lemma quoted_no c s : c <> quote -> contains_char c s = false -> contains_char c (quoted s) = false.
Proof.
  intros Hc Hs. unfold quoted. cbn. rewrite contains_char_app, Hs. cbn. by rewrite bool_decide_false.
Qed.

(** The segments of a list of tags, the first of them after [lead]. *)
Definition lead_in (lead : string) : Prop := lead = "" \/ lead = " ".

Lemma normalize_lead lead t : lead_in lead -> normalize_etag (lead +:+ quoted t) = t.
Proof.
  intros [-> | ->]; [|change (" " +:+ quoted t) with (String " " (quoted t)); rewrite normalize_space]; apply normalize_quoted.
Qed.

Lemma lead_no_comma lead t : lead_in lead -> contains_char "," t = false -> contains_char "," (lead +:+ quoted t) = false.
Proof.
  intros Hl Ht. rewrite contains_char_app, quoted_no by done. by destruct Hl as [-> | ->].
Qed.

Lemma tags_split lead x t tags : lead_in lead -> Forall (fun t => contains_char "," t = false) (t :: tags) ->
  existsb (fun seg => bool_decide (normalize_etag seg = x)) (split_char "," (lead +:+ join ", " (quoted <$> t :: tags))) =
  bool_decide (x ∈ t :: tags).
Proof.
  revert lead t. induction tags as [|t2 tags IH]; intros lead t Hlead [Ht Hall]%Forall_cons.
  - cbn [fmap list_fmap join]. rewrite split_char_none by by apply lead_no_comma.
    cbn [existsb]. rewrite normalize_lead, orb_false_r by done. apply bool_decide_ext. rewrite list_elem_of_singleton. naive_solver.
  - change (lead +:+ join ", " (quoted <$> t :: t2 :: tags))
      with (lead +:+ (quoted t +:+ String "," (" " +:+ join ", " (quoted <$> t2 :: tags)))).
    rewrite <- app_assoc, split_char_app by by apply lead_no_comma. cbn [existsb].
    rewrite normalize_lead by done. rewrite (IH " ") by (done || by right).
    rewrite (bool_decide_ext (x ∈ t :: t2 :: tags) (t = x \/ x ∈ t2 :: tags)) by (rewrite elem_of_cons; naive_solver).
    by rewrite bool_decide_or.
Qed.

(** A list of tags, as a client sends it back, matches exactly the tags in it. *)
Lemma etag_matches_list x t tags : Forall (fun t => contains_char "," t = false) (t :: tags) ->
  etag_matches (join ", " (quoted <$> t :: tags)) (quoted x) = bool_decide (x ∈ t :: tags).
Proof.
  intros Hall. unfold etag_matches. rewrite normalize_quoted, <- (tags_split "" x t tags) by (by left || done).
  rewrite bool_decide_false; [done|]. unfold trim.
  assert (exists s, join ", " (quoted <$> t :: tags) = String quote s) as [s ->].
  { destruct tags; cbn; eauto. }
  rewrite trim_start_black by done. cbn [trim_end]. by destruct (is_blank _).
Qed.

Lemma u64_text_no c z : digit c = None -> contains_char c (u64_text z) = false.
Proof. intros Hc. by apply show_N_no. Qed.

Lemma u64_text_inj a b : (0 <= a)%Z -> (0 <= b)%Z -> u64_text a = u64_text b -> a = b.
Proof. intros Ha Hb He%show_N_inj. by apply Z2N.inj. Qed.

Definition applied_text (applied : option Z) : string := match applied with Some a => u64_text a | None => "none" end.

Lemma applied_text_inj a b : (forall x, a = Some x -> (0 <= x)%Z) -> (forall x, b = Some x -> (0 <= x)%Z) ->
  applied_text a = applied_text b -> a = b.
Proof.
  assert (forall x, u64_text x <> "none") as Hn.
  { intros x He. pose proof (all_digits_show (Z.to_N x)) as Hd. unfold u64_text in He. by rewrite He in Hd. }
  intros Ha Hb He. destruct a as [a|], b as [b|]; cbn in He; [|by apply Hn in He|by symmetry in He; apply Hn in He|done].
  f_equal. apply u64_text_inj; auto.
Qed.

Lemma applied_text_no c a : digit c = None -> contains_char c "none" = false -> contains_char c (applied_text a) = false.
Proof. intros Hc Hn. destruct a; cbn [applied_text]; [by apply u64_text_no|done]. Qed.

Definition tag_state : Type := option Z * Z.
Definition state_ok (s : tag_state) : Prop := (0 <= s.2)%Z /\ forall a, s.1 = Some a -> (0 <= a)%Z.

Lemma status_tag_inj s1 s2 : state_ok s1 -> state_ok s2 ->
  status_tag s1.1 s1.2 = status_tag s2.1 s2.2 -> s1 = s2.
Proof.
  destruct s1 as [a h], s2 as [a' h']. intros [Hh Ha] [Hh' Ha'] He. cbn in *. unfold status_tag in He.
  change (match a with Some a => u64_text a | None => "none" end) with (applied_text a) in He.
  change (match a' with Some a => u64_text a | None => "none" end) with (applied_text a') in He.
  apply (inj (String.append "snap-")) in He.
  assert (forall a h, split_once "-" (applied_text a +:+ "-h" +:+ u64_text h) = Some (applied_text a, String "h" (u64_text h))) as Hs.
  { intros b k. apply (split_once_app "-" (applied_text b) (String "h" (u64_text k))). by apply applied_text_no. }
  pose proof (Hs a h) as H1. rewrite He, Hs in H1. injection H1 as H1 H2.
  f_equal; [symmetry; by apply applied_text_inj|symmetry; by apply u64_text_inj].
Qed.

Lemma status_tag_no_comma a h : contains_char "," (status_tag a h) = false.
Proof.
  unfold status_tag. change (match a with Some a => u64_text a | None => "none" end) with (applied_text a).
  rewrite !contains_char_app, applied_text_no, u64_text_no by done. done.
Qed.

Lemma join_tags (states : list tag_state) :
  join ", " ((fun s => status_etag s.1 s.2) <$> states) = join ", " (quoted <$> ((fun s => status_tag s.1 s.2) <$> states)).
Proof. by rewrite <- list_fmap_compose. Qed.

(** A list of status tags matches the tag of a state exactly when it is the
    state of one of them. *)
Lemma status_etag_matches s states : states <> [] -> Forall state_ok (s :: states) ->
  etag_matches (join ", " ((fun s => status_etag s.1 s.2) <$> states)) (status_etag s.1 s.2) = bool_decide (s ∈ states).
Proof.
  intros Hne Hall. destruct states as [|s1 states]; [done|]. rewrite join_tags. unfold status_etag at 1.
  assert (Forall (fun t => contains_char "," t = false) ((fun s : tag_state => status_tag s.1 s.2) <$> s1 :: states)) as Hno
    by (apply Forall_fmap, Forall_forall; intros s' _; apply status_tag_no_comma).
  etransitivity; [exact (etag_matches_list (status_tag s.1 s.2) _ _ Hno)|].
  apply bool_decide_ext.
  change (status_tag s.1 s.2 ∈ (fun s : tag_state => status_tag s.1 s.2) <$> s1 :: states <-> s ∈ s1 :: states).
  rewrite list_elem_of_fmap. split; [|by eauto]. intros (s' & He & Hs').
  rewrite Forall_forall in Hall. apply status_tag_inj in He; [by subst s'|apply Hall; by left|apply Hall; by right].
Qed.

Section status.
Context {S E T : Type} `{!KvStore S T} `{!KvLaws S T} `{!ReplicaHost S} `{!ReplicaHostLaws S T}.
Context `{!StoreText} `{!Enforcer E} `{!Sha256} `{!Serde Z} `{!SerdeLaws Z} `{!Serde WalEntry} `{!Serde FileRecord} `{!Serde RefInfo}.
Context (db_prefix sub : string).

#[local] Abbreviation W := (sync_world S E).

(** The head of the feed, when its row decodes. *)
Definition feed_head (w : W) : option Z :=
  match kv_data (kv (sw_wal w)) !! seq_key with
  | None => Some 0%Z
  | Some b => ok (from_slice b)
  end.

Lemma wp_head (w : W) : wp (run (on wal_lens Wal.head)) (fun r w' =>
  live_marker sub w' = live_marker sub w /\ forall v, r = Ok v -> Some v = feed_head w) w.
Proof.
  unfold on, ofs. apply wp_run_bind, wp_run_atomically, (wp_zoom (H := wal_lens)). apply wp_bindR. unfold plain.
  apply wp_map_errM, (wp_zoom (H := kv_lens)). eapply wp_mono; [apply kv_get_law|].
  intros [b|e] s' (_ & Hb & _); cbn [map_err]; [|by apply wp_ret].
  specialize (Hb b eq_refl). unfold feed_head. cbn [view wal_lens kv_lens] in Hb. rewrite <- Hb.
  destruct b as [b|]; apply wp_ret; cbn; (split; [done|]); [|by intros v [= <-]].
  destruct (from_slice b); cbn; [by intros v [= <-]|done].
Qed.

(** C37: a status request with [If-None-Match] is answered 304 exactly when the
    client already holds the tag of the present state: for every list of tags
    of earlier states that it sends, the answer is 304 if the pair of the
    replica's marker and the feed's head is among those states, and otherwise
    it is 200 with that marker and that head. *)
Theorem status_not_modified_exact (states : list tag_state) req (w : W) :
  states <> [] -> Forall state_ok states -> (forall hd, feed_head w = Some hd -> state_ok (live_marker sub w, hd)) ->
  header_str req "if-none-match" = Some (join ", " ((fun s => status_etag s.1 s.2) <$> states)) ->
  wp (run (status_handler db_prefix sub req)) (fun r _ => forall resp, r = Ok resp -> exists hd,
    feed_head w = Some hd /\ get_header "etag" (resp_headers resp) = Some (status_etag (live_marker sub w) hd) /\
    if bool_decide ((live_marker sub w, hd) ∈ states) then status resp = 304%Z /\ body resp = None
    else status resp = 200%Z /\
         body resp = Some {| ss_prefix := user_prefix db_prefix sub; ss_applied_seq := live_marker sub w; ss_head := hd |}) w.
Proof.
  intros Hne Hall Hok Hreq. unfold status_handler.
  apply wp_run_bindR. eapply wp_mono; [apply wp_head|]. intros [hd|e] w1 [Hm Hhd]; [|done].
  specialize (Hhd hd eq_refl). apply wp_run_bindR. eapply wp_mono; [apply (wp_load_any sub)|].
  intros [applied|e] w2 (_ & _ & Ha); [|done]. rewrite (Ha applied eq_refl), Hm. apply wp_ret. intros resp [= <-].
  exists hd. split; [done|]. unfold not_modified. rewrite Hreq.
  assert (Forall state_ok ((live_marker sub w, hd) :: states)) as Hall' by (constructor; [by apply Hok|done]).
  rewrite (status_etag_matches _ states Hne Hall' : etag_matches _ (status_etag (live_marker sub w) hd) = _).
  case_bool_decide; case_bool_decide; by try contradiction.
Qed.
End status.

(** ** Objects: what is served, and the slots *)

Section serving.
Context {O G Sem : Type} `{!ObjectStore O G} `{!ObjectStoreLaws O G} `{!GetRange G} `{!ObjText} `{!Semaphore Sem} `{!SemaphoreLaws Sem} `{!Sha256}.
Context (db_prefix : string).

#[local] Abbreviation W := (object_world (O := O) (Sem := Sem)).

(** The permits of a gate with [n] slots. *)
Definition free_slots (n : nat) (w : W) (k : nat) : Prop :=
  gate_max (ow_gate w) = Some n /\ permits (semaphore (ow_gate w)) = k.

(** The three objects of a replica that change under their names, and the two of
    them that are JSON. *)
Definition mutable_paths (replica : string) : list string :=
  [os_path (replica +:+ "/manifest.json"); os_path (replica +:+ "/ownership.json"); os_path (replica +:+ "/probe/canary")].
Definition json_paths (replica : string) : list string :=
  [os_path (replica +:+ "/manifest.json"); os_path (replica +:+ "/ownership.json")].

(** Whether a request with this [If-None-Match] has the object of this tag: not
    without the header, nor an object without a tag; with [*] any object that has
    one; with the tag sent back as it came that object; and with a list of quoted
    tags those that are in it. *)
Definition client_has (if_none_match etag : option string) (has : bool) : Prop :=
  (if_none_match = None \/ etag = None -> has = false) /\
  (if_none_match = Some "*" -> is_Some etag -> has = true) /\
  (forall e, etag = Some e -> contains_char "," e = false -> if_none_match = Some e -> has = true) /\
  (forall x t tags, etag = Some (quoted x) -> Forall (fun t => contains_char "," t = false) (t :: tags) ->
     if_none_match = Some (join ", " (quoted <$> t :: tags)) -> has = bool_decide (x ∈ t :: tags)).

Lemma not_modified_has req etag :
  client_has (header_str req "if-none-match") etag match etag with Some current => not_modified req current | None => false end.
Proof.
  unfold not_modified. split; [|split; [|split]].
  - intros [-> | ->]; [by destruct etag|done].
  - intros -> [e ->]. done.
  - intros e -> He ->. unfold etag_matches. rewrite split_char_none by done. cbn [existsb].
    by rewrite (bool_decide_eq_true_2 (normalize_etag e = _)), orb_true_r.
  - intros x t tags -> Hall ->. by apply etag_matches_list.
Qed.

(** The headers that every answer about an object has. *)
Definition object_headers (replica path : string) (o : object) (hs : headers) : Prop :=
  get_header "etag" hs = e_tag o.2 /\
  get_header "cache-control" hs = Some (if bool_decide (path ∈ mutable_paths replica)
    then "no-cache" else "public, max-age=31536000, immutable") /\
  get_header "content-type" hs = Some (if bool_decide (path ∈ json_paths replica)
    then "application/json" else "application/octet-stream").

(** What the answer promises of the object at [path], given the free slots [k]
    before: [w] is the world then, [d] what the store holds. *)
Definition object_answer (replica path : string) (if_none_match : option string) (n k : nat) (w : W)
    (r : result (HttpResponse (G * option unit)) FsError) (w' : W) : Prop :=
  let d := os_data (ow_store w) in
  match r with
  | Ok resp => k <> 0 /\
      match body resp with
      | Some (out, permit) =>
          let o := (os_content out, os_meta out) in
          status resp = 200%Z /\ permit = Some tt /\ d !! path = Some o /\
          client_has if_none_match (e_tag o.2) false /\ object_headers replica path o (resp_headers resp) /\
          get_header "content-length" (resp_headers resp) =
            Some (u64_text (u64_saturating_sub (snd (get_range out)) (fst (get_range out)))) /\
          (exists k', k = S k' /\ free_slots n w' k')
      | None => free_slots n w' k /\
          match d !! path with
          | None => status resp = 404%Z
          | Some o => status resp = 304%Z /\ client_has if_none_match (e_tag o.2) true /\
              object_headers replica path o (resp_headers resp)
          end
      end
  | Err e =>
      if bool_decide (k = 0) then e = FsTooManyRequests /\ free_slots n w' 0
      else ~ os_up (ow_store w) /\ free_slots n w' k /\ exists oe, e = FsInternal (obj_text oe)
  end.

Lemma mutable_key_spec path replica : is_mutable_object_key path replica = bool_decide (path ∈ mutable_paths replica).
Proof.
  unfold is_mutable_object_key, is_one_object_of. cbn [existsb MUTABLE_OBJECTS]. rewrite orb_false_r, <- !bool_decide_or.
  apply bool_decide_ext. unfold mutable_paths. rewrite !elem_of_cons, elem_of_nil. naive_solver.
Qed.

Lemma json_key_spec path replica : is_json_object_key path replica = bool_decide (path ∈ json_paths replica).
Proof.
  unfold is_json_object_key, is_one_object_of. cbn [existsb JSON_OBJECTS]. rewrite orb_false_r, <- !bool_decide_or.
  apply bool_decide_ext. unfold json_paths. rewrite !elem_of_cons, elem_of_nil. naive_solver.
Qed.

Lemma cache_headers_spec replica path o hs : (hs = object_cache_headers (etag_header (e_tag o.2))
    (is_mutable_object_key path replica) (is_json_object_key path replica) \/
  exists size, hs = insert_header ("content-length", size) (object_cache_headers (etag_header (e_tag o.2))
    (is_mutable_object_key path replica) (is_json_object_key path replica))) -> object_headers replica path o hs.
Proof.
  unfold object_headers. rewrite mutable_key_spec, json_key_spec.
  intros [-> | [size ->]]; destruct (e_tag o.2); by split_and!.
Qed.

Lemma wp_on_gate {A} (m : act (ConcurrencyGate Sem) A) Q (w : W) :
  wp m (fun a g => Q a (ObjectWorld g (ow_store w))) (ow_gate w) -> wp (on_gate m) Q w.
Proof. unfold wp, on_gate. by destruct (m (ow_gate w)). Qed.

Lemma wp_on_objects {A} (m : act O A) Q (w : W) :
  wp m (fun a s => Q a (ObjectWorld (ow_gate w) s)) (ow_store w) -> wp (on_store m) Q w.
Proof. unfold wp, on_store. by destruct (m (ow_store w)). Qed.

(** Giving the permit back restores the slot. *)
Lemma wp_drop_permit n k {A} (a : A) Q (w : W) : free_slots n w k ->
  (forall w', free_slots n w' (S k) /\ ow_store w' = ow_store w -> Q a w') ->
  wp (run (_ ← atomically (on_gate (drop_stream (Some tt))); mret a)) Q w.
Proof.
  intros [Hm Hk] HQ. apply wp_run_bind, wp_run_atomically, wp_on_gate. cbn [drop_stream].
  pose proof (law_release (semaphore (ow_gate w))) as Hr. unfold wp, on_semaphore in *.
  destruct (sem_release (semaphore (ow_gate w))) as [u s]. apply HQ. split; [|done]. split; cbn; [done|]. by rewrite Hr, Hk.
Qed.

(** C23: an object request whose path resolves is answered for one object, the one
    its own path resolves to, at a gate that is on.  With no slot free the answer is 429.  With one free it is: 404
    when there is no such object; 200 with the object's bytes as they are stored
    and the length of the range that the store gave, or 304, when there is one,
    both with its tag and the headers of its kind; and an internal error only when
    the store does not answer.  A request without [If-None-Match] is never
    answered 304, one with [*] is when the object has a tag, one that
    sends the tag back as it came is, and one with a list of quoted tags is exactly
    when the object's tag is among them.  The manifest, the
    ownership file and the canary of the replica are sent with [no-cache], every
    other object with the immutable cache header.  The answer keeps one slot of
    the gate exactly when it carries a stream; every other leaves the free slots
    as they were; and no object is changed. *)
Theorem object_handler_exact sub tail req key n k (w : W) :
  resolve_object db_prefix sub tail = Ok key -> free_slots n w k -> os_inv (ow_store w) ->
  wp (run (object_handler db_prefix sub tail req))
    (fun r w' => os_data (ow_store w') = os_data (ow_store w) /\
      object_answer (os_path (user_prefix db_prefix sub)) (os_path key) (header_str req "if-none-match") n k w r w') w.
Proof.
  intros Hkey [Hmax Hfree] Hinv. unfold object_handler. rewrite Hkey. apply wp_run_bindR, wp_ret.
  apply wp_run_bindR, wp_run_atomically, wp_on_gate. eapply wp_mono; [by apply admit_enabled|].
  intros [permit|e] g (Hmax' & Hperm).
  2: { destruct Hperm as (-> & Hno & Hno'). split; [done|]. unfold object_answer. rewrite bool_decide_eq_true_2 by congruence.
       split; [done|]. by split. }
  destruct Hperm as (-> & Hp). rewrite Hfree in Hp.
  apply wp_run_bind, wp_run_atomically, wp_on_objects. eapply wp_mono; [by apply os_get_law|].
  intros out s (_ & Hd & _ & Hout & _). cbn [ow_store ow_gate] in *.
  set (w1 := ObjectWorld g s). assert (free_slots n w1 (permits (semaphore g))) as Hf by done.
  assert (os_data (ow_store w1) = os_data (ow_store w)) as Hd1 by done. clearbody w1.
  assert (k <> 0) as Hk by lia. destruct out as [out|e].
  - cbv zeta. pose proof (not_modified_has req (e_tag (os_meta out))) as Hhas.
    set (cond := match e_tag (os_meta out) with Some _ => _ | None => _ end) in *. destruct cond.
    + apply (wp_drop_permit n _ _ _ _ Hf). intros w2 [Hf2 Hd2]. rewrite Hd2. split; [done|]. unfold object_answer.
      cbn [body object_not_modified]. rewrite Hp, Hout. split_and!; [done..|]. apply cache_headers_spec. by left.
    + apply wp_ret. split; [done|]. unfold object_answer. cbn [body object_response]. split_and!; try done.
      * apply cache_headers_spec. right. by eexists.
      * by destruct (e_tag (os_meta out)).
      * by exists (permits (semaphore g)).
  - destruct e; (apply (wp_drop_permit n _ _ _ _ Hf); intros w2 [Hf2 Hd2]; rewrite Hd2; split; [done|]);
      unfold object_answer; cbn [body]; rewrite ?Hout, ?bool_decide_eq_false_2, Hp by done; split_and!; try done; try lia.
    all: by eexists.
Qed.
End serving.
