(* ===== verification/FsExamples.v ===== *)
(** FsExamples: the file store on concrete stores: instances of the theorems of
    the Fs files, and runs that show what the code does at its edges. *)
From S2P Require Import Prelude.
From S2P Require Import Effects.
From S2P Require Import RustStr.
From S2P Require Import Kv.
From S2P Require Import FsTypes.
From S2P Require Import FsStore.
From S2P Require Import FsRels.
From S2P Require Import FsPages.
From S2P Require Import ObjStore.
From S2P Require Import Policy.
From S2P Require Import FsLocks.
From S2P Require Import FsEngine.
From S2P Require Import FsGc.
From S2P Require Import Tokio.
From S2P Require Import FsSweeper.
From S2P Require Import FsObjects.

#[export] Instance RefInfo_eq_dec : EqDecision RefInfo.
Proof. solve_decision. Defined.
#[export] Instance RefInfo_countable : Countable RefInfo.
Proof.
  refine (inj_countable' (fun r => (count r, orphan_since r))
    (fun '(c, o) => {| count := c; orphan_since := o |}) _).
  by intros [].
Defined.

#[export] Instance UploadSession_eq_dec : EqDecision UploadSession.
Proof. solve_decision. Defined.
#[export] Instance UploadSession_countable : Countable UploadSession.
Proof.
  refine (inj_countable'
    (fun s => (us_id s, us_file_size s, us_part_size s, us_file_total_parts s, us_s3_upload_id s,
               (us_s3_key s, us_owner_sub s, us_created_at s, us_etags s, us_checksums s)))
    (fun '(a, b, c, d, e, (f, g, h, i, j)) =>
       {| us_id := a; us_file_size := b; us_part_size := c; us_file_total_parts := d;
          us_s3_upload_id := e; us_s3_key := f; us_owner_sub := g; us_created_at := h;
          us_etags := i; us_checksums := j |}) _).
  by intros [].
Defined.

#[export] Instance FileRecord_countable : Countable FileRecord.
Proof.
  refine (inj_countable'
    (fun r => (fr_id r, fr_name r, fr_mimetype r, fr_size r, fr_s3_key r, fr_owner_sub r, fr_created_at r))
    (fun '(a, b, c, d, e, f, g) =>
       {| fr_id := a; fr_name := b; fr_mimetype := c; fr_size := d; fr_s3_key := e;
          fr_owner_sub := f; fr_created_at := g |}) _).
  by intros [].
Defined.

#[export] Instance PersistedMultipart_eq_dec : EqDecision PersistedMultipart.
Proof. solve_decision. Defined.
#[export] Instance PersistedMultipart_countable : Countable PersistedMultipart.
Proof.
  refine (inj_countable'
    (fun m => (pm_upload_id m, pm_bucket m, pm_key m, pm_s3_upload_id m, pm_parts m, pm_created_at m))
    (fun '(a, b, c, d, e, f) =>
       {| pm_upload_id := a; pm_bucket := b; pm_key := c; pm_s3_upload_id := d; pm_parts := e;
          pm_created_at := f |}) _).
  by intros [].
Defined.

Module FsExamples.

#[export] Existing Instances ScriptKv.kv ScriptKv.laws.
#[export] Instance serde_refs : Serde RefInfo := CountableSerde.serde RefInfo.
#[export] Instance serde_refs_laws : SerdeLaws RefInfo := CountableSerde.serde_laws RefInfo.
#[export] Instance serde_session : Serde UploadSession := CountableSerde.serde UploadSession.
#[export] Instance serde_session_laws : SerdeLaws UploadSession := CountableSerde.serde_laws UploadSession.
#[export] Instance serde_file : Serde FileRecord := CountableSerde.serde FileRecord.
#[export] Instance serde_file_laws : SerdeLaws FileRecord := CountableSerde.serde_laws FileRecord.
#[export] Instance serde_mp : Serde PersistedMultipart := CountableSerde.serde PersistedMultipart.
#[export] Instance serde_mp_laws : SerdeLaws PersistedMultipart := CountableSerde.serde_laws PersistedMultipart.

#[export] Instance texts : StoreText := {| store_text _ := "store error" |}.

(** ** Requests *)

Definition three_parts : InitRequest :=
  {| file_size := 2500; part_size := 1024; file_total_parts := 3 |}.

Lemma validate_init_accepts_witness : validate_init three_parts = Ok tt.
Proof. apply validate_init_accepts; ints; repeat split; by vm_compute. Defined.

Lemma internal_errors_look_alike_witness :
  client_message (FsInternal "db password") = client_message (FsFenced "epoch 7").
Proof. by apply (internal_errors_look_alike (FsInternal "db password") (FsFenced "epoch 7")). Defined.

(** ** Relations *)

Definition plain_cfg : FsConfig ScriptKv.store := {| mirror := None; primary := true |}.
Definition empty_fs : fs_state ScriptKv.store :=
  FsState (ScriptKv.Store ∅ []) new_latch (Clock (fun _ => 100%Z) 0).

Definition some_calls : list RelCall :=
  [CallAttach "doc" "1" "f"; CallAttach "doc" "2" "f"; CallAttach "doc" "1" "f";
   CallDetach "doc" "1" "f"; CallDetach "doc" "9" "f"; CallDetach "doc" "2" "f"; CallDelete "f"].

Lemma empty_refs_ok : all_refs_ok (∅ : gmap string bytes).
Proof. intros f _. by exists default_ref_info. Qed.

Lemma relations_refine_witness :
  (spec_calls some_calls (fun _ => ∅)).1 = [1; 2; 2; 1; 1; 0; 0]%Z /\
  wp (rel_calls plain_cfg some_calls) (fun rs _ =>
    rs = Ok <$> [1; 2; 2; 1; 1; 0; 0]%Z) empty_fs.
Proof.
  assert ((spec_calls some_calls (fun _ => ∅)).1 = [1; 2; 2; 1; 1; 0; 0]%Z) as Hs by by vm_compute.
  split; [exact Hs|]. eapply wp_mono.
  - apply (relations_refine plain_cfg some_calls (fun _ => ∅) empty_fs).
    + reflexivity.
    + by repeat constructor.
    + apply empty_refs_ok.
    + by intros f _.
    + intros f. rewrite size_empty. by vm_compute.
  - intros rs w' (-> & _). by rewrite Hs.
Defined.

Definition a_session : UploadSession :=
  {| us_id := "s"; us_file_size := 2500; us_part_size := 1024; us_file_total_parts := 3;
     us_s3_upload_id := Some "up-1"; us_s3_key := "k"; us_owner_sub := "ann"; us_created_at := 100;
     us_etags := [None; None; None]; us_checksums := [None; None; None] |}.

Lemma delete_session_complete_witness :
  wp (save_session plain_cfg a_session) (fun _ w1 =>
    wp (run (delete_session plain_cfg "s")) (fun r w' =>
      r = Ok tt /\ kv_data (kv w') !! staged_key "s" 1 = None) w1) empty_fs.
Proof.
  pose proof (delete_session_complete plain_cfg a_session empty_fs eq_refl eq_refl) as H.
  unfold wp at 1 in H. unfold wp at 1.
  destruct (save_session plain_cfg a_session empty_fs) as [r1 w1] eqn:E.
  assert (kv_up (kv w1)) as Hup.
  { change w1 with (r1, w1).2. rewrite <- E. by vm_compute. }
  eapply wp_mono; [apply (H w1); done|].
  intros r w' [-> Hk]. split; [done|]. rewrite Hk. by vm_compute.
Defined.
(** ** The engine *)

#[export] Existing Instances MemBackend.mem PolicyExamples.mem_enforcer.
#[export] Instance obj_texts : ObjText := {| obj_text _ := "object store error" |}.
#[export] Instance client_in_memory : S3Client (client MemBackend.store) := ObjectStoreClient true.
#[export] Instance policy_texts : PolicyText := {| policy_text _ := "policy error" |}.
#[export] Instance no_orphans : KvGc ScriptKv.store := {| kv_gc_orphans := fun s => (Ok 0, s) |}.

(** A feed whose calls fail on demand. *)
Record script_feed := ScriptFeed { fails : list bool; announced_ops : list WalOp }.
#[export] Instance script_sink : ChangeSink script_feed := {|
  append op := fun f =>
    match fails f with
    | true :: rest => (Err "feed down", ScriptFeed rest (announced_ops f))
    | _ :: rest => (Ok tt, ScriptFeed rest (announced_ops f ++ [op]))
    | [] => (Ok tt, ScriptFeed [] (announced_ops f ++ [op]))
    end |}.

Abbreviation engine_world := (world ScriptKv.store (client MemBackend.store) PolicyExamples.mem script_feed).

Definition names (prefix : string) : uuids := Uuids (fun n => prefix +:+ show_N (N.of_nat n)) 0.

Definition engine_at (clk : nat -> Z) (rules : list (list string)) (f : script_feed) : engine_world :=
  World (FsState (ScriptKv.Store ∅ []) new_latch (Clock clk 0))
    (Client (MemBackend.Store ∅ ∅ 0 1000) ∅ (names "up"))
    (PolicyExamples.Mem rules []) f no_locks (names "id").

Definition one_byte : InitRequest := {| file_size := 1; part_size := 1; file_total_parts := 1 |}.
Definition named : CompleteRequest := {| cr_name := "a.txt"; cr_mimetype := "text/plain" |}.

(** The clock moves on by a day and a second after two readings. *)
Definition a_day_later (n : nat) : Z := if bool_decide (n < 2) then 1000 else 1000 + 24 * 3600 + 1.

Definition ann_rules : list (list string) := [["ann"; "doc:1"; "write"]; ["ann"; "doc:1"; "read"]].

(** The sweep can delete the bytes of a committed file: the announcement of
    a completed single-part upload fails, so the completion answers an error
    and leaves the session; the file is attached to a row and is in use; a day
    later the sweep takes the session for an abandoned upload and deletes the
    object, and from then on the file's metadata is served and its bytes are
    not found. *)
Theorem sweep_deletes_committed_bytes :
  let w0 := engine_at a_day_later ann_rules (ScriptFeed [true] []) in
  let '(r1, w1) := run (init_upload plain_cfg "b" one_byte "ann") w0 in
  let '(r2, w2) := run (FsEngine.upload_part plain_cfg "b" "id0" 0 [Ok "x"] (Some 1%Z) None "ann") w1 in
  let '(r3, w3) := run (complete_upload plain_cfg "b" true "id0" named "ann") w2 in
  let '(r4, w4) := run (FsEngine.attach plain_cfg true "doc" "1" "id0" "ann") w3 in
  let '(r5, w5) := run (get_object plain_cfg "b" "id0" "ann") w4 in
  let '(r6, w6) := run (sweep_once plain_cfg "b" true) w5 in
  let '(r7, w7) := run (get_metadata plain_cfg "id0" "ann") w6 in
  let '(r8, w8) := run (get_object plain_cfg "b" "id0" "ann") w7 in
  r1 = Ok "id0" /\ r2 = Ok tt /\ r3 = Err (FsInternal "feed down") /\ r4 = Ok 1%Z /\
  (exists rec, r5 = Ok (rec, {| os_size := 1; os_stream := [Ok "x"] |})) /\
  r6 = Ok 1 /\
  r7 = Ok {| md_id := "id0"; md_name := "a.txt"; md_mimetype := "text/plain"; md_size := 1 |} /\
  r8 = Err (FsNotFound "object store error").
Proof. vm_compute. repeat split; by eexists. Qed.

(** A reader of one row can pass the access check of a file of another: when
    a row identifier contains the separator of the keys, the check consults the
    row named by its first part, so the readers of ["doc:a"] may read a file
    that is attached to ["doc:a:b"] only, which the policy denies them. *)
Theorem access_through_another_row :
  let w0 := engine_at (fun _ => 1000%Z)
              [["ann"; "doc:a:b"; "write"]; ["bob"; "doc:a"; "read"]] (ScriptFeed [] []) in
  let '(_, w1) := run (init_upload plain_cfg "b" one_byte "ann") w0 in
  let '(_, w2) := run (FsEngine.upload_part plain_cfg "b" "id0" 0 [Ok "x"] (Some 1%Z) None "ann") w1 in
  let '(_, w3) := run (complete_upload plain_cfg "b" true "id0" named "ann") w2 in
  let '(r4, w4) := run (FsEngine.attach plain_cfg true "doc" "a:b" "id0" "ann") w3 in
  let '(r5, w5) := run (can_access plain_cfg "bob" "id0" Read) w4 in
  r4 = Ok 1%Z /\ r5 = Ok true /\ authorize_row "bob" "doc" "a:b" Read (policy w5) = Ok false.
Proof. by vm_compute. Qed.

(** *** Instances *)

Definition three_session : UploadSession :=
  {| us_id := "s"; us_file_size := 2500; us_part_size := 1024; us_file_total_parts := 3;
     us_s3_upload_id := Some "up-1"; us_s3_key := "k"; us_owner_sub := "ann"; us_created_at := 100;
     us_etags := [None; None; None]; us_checksums := [None; None; None] |}.

Lemma part_lengths_cover_witness :
  validate_init three_parts = Ok tt /\ total_len three_session 3 = 2500%Z.
Proof.
  split; [reflexivity|].
  apply (part_lengths_cover three_parts three_session);
    [split; vm_compute; discriminate..|reflexivity|by repeat split].
Defined.

Lemma read_body_exact_witness :
  read_body 3 false 0 [Ok "ab"; Ok "c"] = Ok "abc" /\ whole [Ok "ab"; Ok "c"] = Some "abc".
Proof.
  assert (read_body 3 false 0 [Ok "ab"; Ok "c"] = Ok "abc") as Hr by reflexivity.
  split; [exact Hr|]. apply (read_body_exact 3 false 0 [Ok "ab"; Ok "c"]); [vm_compute; split; discriminate| |exact Hr].
  repeat constructor; intros b [= <-]; vm_compute; discriminate.
Defined.

Definition a_file : FileRecord :=
  {| fr_id := "f"; fr_name := "a.txt"; fr_mimetype := "text/plain"; fr_size := 1; fr_s3_key := "files/f";
     fr_owner_sub := "ann"; fr_created_at := 1000 |}.

Definition attached_rows : gmap string bytes :=
  <[file_key "f" := CountableSerde.show_pos (countable.encode a_file)]> {[rel_key "doc" "7" "f" := "1"]}.

Definition attached_world : engine_world :=
  World (FsState (ScriptKv.Store attached_rows []) new_latch (Clock (fun _ => 1000%Z) 0))
    (Client (MemBackend.Store ∅ ∅ 0 1000) ∅ (names "up"))
    (PolicyExamples.Mem [["bob"; "doc:7"; "read"]] []) (ScriptFeed [] []) no_locks (names "id").

Lemma can_access_exact_witness :
  wp (run (can_access plain_cfg "bob" "f" Read)) (fun r _ => r = Ok true) attached_world.
Proof.
  eapply wp_mono.
  - apply (can_access_exact plain_cfg eq_refl "bob" "f" Read a_file (CountableSerde.show_pos (countable.encode a_file)) attached_world).
    + reflexivity.
    + reflexivity.
    + intros k Hk Hp. unfold attached_world, rows_data, attached_rows in Hk. cbn in Hk.
      rewrite lookup_insert in Hk. case_decide as He; [by subst k|].
      destruct Hk as [v Hv]. apply lookup_singleton_Some in Hv as [<- _]. by exists "doc", "7", "f".
    + reflexivity.
    + apply from_to. reflexivity.
  - intros r w' (b & -> & _ & _ & Hb). f_equal. apply Hb. right. exists "doc", "7".
    split; [done|]. split; [done|]. split; [by eexists|]. by vm_compute.
Defined.

(** ** The sweep *)

Lemma mem_path_inj b k k' : MemBackend.mem.(be_path) (b +:+ "/" +:+ k) = MemBackend.mem.(be_path) (b +:+ "/" +:+ k') -> k = k'.
Proof. cbn. intros He. apply (inj (String.append b)) in He. by apply (inj (String.append "/")) in He. Qed.

Definition mem_object (b k : string) (o : client MemBackend.store) : option bytes :=
  option_map fst (MemBackend.objects (backend o) !! (b +:+ "/" +:+ k)).

#[export] Instance client_s3_laws : S3Laws (client MemBackend.store).
Proof.
  refine {| s3_object := mem_object |}.
  - intros b k o. apply wp_run_bind, wp_run_atomically, wp_zoom. unfold wp. cbn.
    intros k' Hk. unfold mem_object. cbn. rewrite lookup_delete_ne; [done|]. intros He. apply Hk. symmetry. by apply (mem_path_inj b).
  - intros b k u o. cbn [s3_abort client_in_memory ObjectStoreClient]. unfold abort_multipart_upload.
    apply wp_run_bindR, wp_run_atomically, wp_zoom. unfold wp at 1. cbn [view states_lens].
    destruct (states o !! u) as [st|]; [destruct (mismatch st b k)|]; cbn; by unfold wp.
  - intros b m o. cbn [s3_restore client_in_memory ObjectStoreClient]. unfold restore_multipart.
    destruct (bool_decide (pm_bucket m = "") || bool_decide (pm_key m = "")); [done|].
    apply wp_run_bind, wp_run_atomically, wp_zoom. by unfold wp.
  - intros b p o. apply wp_run_bind, wp_run_atomically, wp_zoom. by unfold wp.
Defined.

#[export] Instance no_orphans_laws : KvGcLaws ScriptKv.store ScriptKv.tx.
Proof. split. intros s. unfold wp. cbn. naive_solver. Qed.

(** The file above, in use, and an unreferenced object beside its own. *)
Definition swept_rows : gmap string bytes :=
  <[refs_key "f" := CountableSerde.show_pos (countable.encode {| count := 1; orphan_since := None |})]> attached_rows.

Definition swept_world : engine_world :=
  World (FsState (ScriptKv.Store swept_rows []) new_latch (Clock (fun _ => 1000000%Z) 0))
    (Client (MemBackend.Store {["b/files/f" := ("x", 1000%Z); "b/files/g" := ("y", 1000%Z)]} ∅ 0 1000) ∅ (names "up"))
    (PolicyExamples.Mem [] []) (ScriptFeed [] []) no_locks (names "id").

Lemma swept_lookup k v : swept_rows !! k = Some v ->
  (k = refs_key "f" /\ v = CountableSerde.show_pos (countable.encode {| count := 1; orphan_since := None |})) \/
  (k = file_key "f" /\ v = CountableSerde.show_pos (countable.encode a_file)) \/ k = rel_key "doc" "7" "f".
Proof.
  unfold swept_rows, attached_rows.
  intros [[<- <-]|[_ [[<- <-]|[_ [<- _]%lookup_singleton_Some]]%lookup_insert_Some]]%lookup_insert_Some; auto.
Qed.

Lemma sweep_keeps_files_in_use_witness :
  (run (sweep_once plain_cfg "b" true) swept_world).1 = Ok 1 /\
  wp (run (sweep_once plain_cfg "b" true)) (fun _ w' =>
    s3_object "b" "files/f" (s3 w') = Some "x") swept_world.
Proof.
  split; [vm_compute; reflexivity|]. eapply wp_mono.
  - apply (sweep_keeps_files_in_use plain_cfg "b" true eq_refl a_file swept_world). split.
    + exists (CountableSerde.show_pos (countable.encode a_file)). split; [reflexivity|]. apply from_to. reflexivity.
    + eexists _, {| count := 1; orphan_since := None |}. split; [reflexivity|].
      split; [apply from_to; reflexivity|done].
    + intros id v s Hv. apply swept_lookup in Hv as [[Hk _]|[[Hk _]|Hk]]; done.
    + intros k v f Hp Hv Hf Hkey. apply swept_lookup in Hv as [[-> ->]|[[-> ->]| -> ]]; [| |done].
      * exfalso. vm_compute in Hf. discriminate Hf.
      * assert (from_slice (CountableSerde.show_pos (countable.encode a_file)) = Ok a_file) as He
          by (apply from_to; reflexivity).
        rewrite He in Hf. injection Hf as <-. reflexivity.
  - intros r w' (Hs & _). cbn [a_file fr_s3_key] in Hs. rewrite Hs. by vm_compute.
Defined.

(** ** Walks *)

Definition two_keys : ScriptKv.store := ScriptKv.Store {["a" := "1"; "b" := "2"]} [].

Lemma paged_walk_exact_witness :
  entries_of (walk_calls new_pages [two_keys; two_keys; two_keys]) = [("a", "1"); ("b", "2")].
Proof.
  destruct (paged_walk_exact [two_keys; two_keys; two_keys]) as (_ & _ & _ & _ & H);
    [by repeat constructor|].
  destruct (H {["a" := "1"; "b" := "2"]}) as [_ ->]; [|by vm_compute; lia|by vm_compute].
  intros s Hs. by rewrite !elem_of_cons, elem_of_nil in Hs; destruct_or!; subst.
Defined.

(** ** The sweeper *)

(** A runtime that wakes a task at once: the time, and the next tick. *)
#[local] Instance prompt_sweeper : Tokio (Z * Z) := {
  tick_interval := fun c => (tt, (Z.max c.1 c.2, c.2 + SWEEP_PERIOD)%Z);
  tick_within d := fun c => if bool_decide (c.2 <= c.1 + d)%Z then (true, (Z.max c.1 c.2, c.2 + SWEEP_PERIOD)%Z)
                            else (false, (c.1 + d, c.2)%Z);
}.

#[local] Instance prompt_sweeper_laws : TickLaws (Z * Z) SWEEP_PERIOD.
Proof.
  refine {| clock_at := fst : Z * Z -> Z; next_tick := snd : Z * Z -> Z |}.
  intros d [n t]. unfold wp. cbn. case_bool_decide; cbn; lia.
Defined.

Lemma sweeper_keeps_up_witness :
  wp (run (spawn_sweeper plain_cfg "b" true (mret false) 1)) (fun _ w => exists k, 0 < k /\
    w.2 = Nat.iter k (swept plain_cfg "b" true) swept_world) ((0, 0)%Z, swept_world).
Proof.
  eapply wp_mono; [apply (sweeper_keeps_up (C := Z * Z) plain_cfg "b" true (mret false) ltac:(intros c; by apply wp_ret) 1 (0, 0)%Z swept_world)|].
  intros u w (k & Hk & (Hw & _) & Hlive). exists k. split; [|exact Hw].
  apply Hlive; [lia|vm_compute; discriminate].
Defined.
End FsExamples.
