(* ===== verification/UploadExamples.v ===== *)
(** UploadExamples: an upload run on the stores of [FsExamples]: the parts come
    out of order, one twice, and some are refused. *)
From S2P Require Import Prelude.
From S2P Require Import Effects.
From S2P Require Import RustStr.
From S2P Require Import Kv.
From S2P Require Import FsTypes.
From S2P Require Import FsStore.
From S2P Require Import FsLocks.
From S2P Require Import FsCalls.
From S2P Require Import Policy.
From S2P Require Import FsEngine.
From S2P Require Import FsObjects.
From S2P Require Import FsClient.
From S2P Require Import FsUpload.
From S2P Require Import FsMerges.
From S2P Require Import FsExamples.

Module UploadExamples.
Import FsExamples.

(** ** The stores *)

(** A part with its tag. *)
Definition tagged (m : gmap nat bytes) : gmap nat (string * bytes) :=
  map_imap (fun i b => Some (MemBackend.part_id i, b)) m.

Lemma tagged_insert i b m : tagged (<[i := b]> m) = <[i := (MemBackend.part_id i, b)]> (tagged m).
Proof. unfold tagged. by apply map_imap_insert_Some. Qed.

Lemma tagged_bytes m : snd <$> tagged m = m.
Proof. apply map_eq. intros i. unfold tagged. rewrite lookup_fmap, map_lookup_imap. by destruct (m !! i). Qed.

#[export] Instance mem_laws : BackendLaws MemBackend.store.
Proof.
  refine {| be_up _ := True; be_objects s := fst <$> MemBackend.objects s;
            be_parts s _ id := tagged <$> MemBackend.uploads s !! id |}.
  - intros p body attrs s _. unfold wp. cbn. by rewrite fmap_insert.
  - intros p s _. unfold wp. cbn. split_and!; [done..|]. eexists. split; [done|]. by rewrite lookup_insert_eq.
  - intros p id i body m s _ Hm. unfold wp. cbn in *. destruct (_ !! id) as [parts|] eqn:Hid; [|done]. cbn in *. injection Hm as <-.
    split_and!; [done..|]. eexists. split; [done|]. rewrite lookup_alter_eq, Hid. cbn. by rewrite tagged_insert.
  - intros p id etags m s _ Hm _. unfold wp. cbn in *. destruct (_ !! id) as [parts|]; [|done]. cbn in *. injection Hm as <-.
    split_and!; [done..|]. by rewrite fmap_insert, tagged_bytes.
Defined.

#[export] Instance script_laws : SinkLaws script_feed.
Proof.
  refine {| sink_up f := fails f = []; sink_ops := announced_ops |}.
  intros op f Hf. unfold wp. cbn. by rewrite Hf.
Defined.

(** ** The run *)

Definition two_and_a_bit : InitRequest := {| file_size := 2049; part_size := 1024; file_total_parts := 3 |}.

(** The same letter, over and over. *)
Fixpoint letters (n : nat) (a : Ascii.ascii) : bytes :=
  match n with 0 => "" | S n => String a (letters n a) end.

Definition a_call (i : Z) (chunks : list bytes) (caller : string) : PartCall :=
  {| pc_index := i; pc_body := Ok <$> chunks; pc_declared := None; pc_checksum := None; pc_caller := caller |}.

(** The last part first; a part of another caller, one too short and one out of
    range; the first part twice, once in two chunks. *)
Definition some_parts : list PartCall :=
  [a_call 2 ["c"] "ann"; a_call 0 [letters 1000 "x"; letters 24 "y"] "ann"; a_call 1 [letters 1024 "z"] "bob";
   a_call 1 ["b"] "ann"; a_call 3 ["d"] "ann"; a_call 1 [letters 1024 "b"] "ann"; a_call 0 [letters 1024 "a"] "ann"].

Definition the_bytes : bytes := letters 1024 "a" +:+ letters 1024 "b" +:+ "c".

(** Uploads of others, open before. *)
Definition a_multipart (file_id upload : string) : UploadSession :=
  {| us_id := file_id; us_file_size := 2049; us_part_size := 1024; us_file_total_parts := 3; us_s3_upload_id := Some upload;
     us_s3_key := "files/" +:+ file_id; us_owner_sub := "ann"; us_created_at := 1000;
     us_etags := [None; None; None]; us_checksums := [None; None; None] |}.

Definition a_record (file_id upload : string) : PersistedMultipart :=
  {| pm_upload_id := upload; pm_bucket := "b"; pm_key := "files/" +:+ file_id; pm_s3_upload_id := upload; pm_parts := ∅; pm_created_at := 1000 |}.

Definition text_of {A} `{Countable A} (a : A) : string := CountableSerde.show_pos (countable.encode a).

Definition two_uploads : gmap string bytes :=
  <[session_key "f" := text_of (a_multipart "f" "u")]> (<[multipart_key "u" := text_of (a_record "f" "u")]>
  (<[session_key "g" := text_of (a_multipart "g" "v")]> {[multipart_key "v" := text_of (a_record "g" "v")]})).

Definition upload_world : engine_world :=
  World (FsState (ScriptKv.Store two_uploads []) new_latch (Clock (fun _ => 1000%Z) 0))
    (Client (MemBackend.Store {["b/files/x" := ("x", 1%Z)]} ∅ 0 1000) ∅ (names "up")) (PolicyExamples.Mem [] []) (ScriptFeed [] []) no_locks (names "id").

Lemma upload_stores_bytes_witness :
  let run_it := whole_upload plain_cfg "b" true true two_and_a_bit "ann" some_parts named in
  match (run run_it upload_world).1 with Ok r => is_ok <$> r.1.2 | Err _ => [] end = [true; true; false; false; false; true; true] /\
  MemBackend.objects (backend (s3 (run run_it upload_world).2)) !! "b/files/id0" = Some (the_bytes, 1000%Z) /\
  wp (run run_it) (fun res w' => be_objects (backend (s3 w')) = {["b/files/id0" := the_bytes; "b/files/x" := "x"]} /\
    rows_data w' !! session_key "id0" = None /\ rows_data w' !! session_key "g" = two_uploads !! session_key "g") upload_world.
Proof.
  split; [by vm_compute|]. split; [by vm_compute|]. eapply wp_mono.
  - apply (upload_stores_bytes plain_cfg eq_refl "b" true true two_and_a_bit "ann" "id0" "ostore-up0" {["b/files/x" := "x"]} two_uploads []) with
      (calls := some_parts) (creq := named) (c := s3 upload_world) (fd := feed upload_world); try done.
    repeat constructor; cbn [a_call pc_index]; try (ints; lia); by intros ? [= <-].
  - intros res w' (rs & r & _ & _ & Hd).
    assert (all_there two_and_a_bit (received two_and_a_bit "ann" some_parts)) as Hall.
    { apply (bool_decide_unpack _). by vm_compute. }
    rewrite decide_True in Hd by exact Hall. destruct Hd as (_ & [Hb _ _ Hs Ho]). split; [|split; [by apply Hs, own_session|by apply Ho; vm_compute; set_solver]].
    rewrite Hb. by vm_compute.
Defined.

(** ** Two parts at the same time *)

Definition two_uploads_world : engine_world :=
  World (FsState (ScriptKv.Store two_uploads []) new_latch (Clock (fun _ => 1000%Z) 0))
    (Client (MemBackend.Store ∅ ∅ 0 1000) ∅ (names "up")) (PolicyExamples.Mem [] []) (ScriptFeed [] []) no_locks (names "id").

(** Two calls for slot 0 of the file [f], one for its slot 2, and one of [g]. *)
Definition part_of (i : nat) : Merge :=
  {| mg_slot := if bool_decide (i = 2) then 2 else 0; mg_etag := "e" +:+ show_N (N.of_nat i); mg_checksum := None |}.

Definition a_merge (file_id upload : string) (i : nat) : string * prog engine_world (result unit FsError) :=
  (file_id, merge_locked plain_cfg file_id (Z.of_nat (mg_slot (part_of i))) (Some upload) (mg_etag (part_of i)) (mg_checksum (part_of i)) "ann").

Definition four_calls : list (string * prog engine_world (result unit FsError)) :=
  [a_merge "f" "u" 0; a_merge "f" "u" 1; a_merge "f" "u" 2; a_merge "g" "v" 3].

(** Another task, which has nothing to do with uploads. *)
Definition new_feed (w : engine_world) : engine_world :=
  World (fs w) (s3 w) (policy w) (ScriptFeed [] [FileDelete "x"]) (session_locks w) (ids w).

Definition in_turn : list (event engine_world) :=
  concat (replicate 30 [Turn 2; Turn 3; Turn 0; Other new_feed; Turn 1]).

Lemma two_uploads_named : rows_named two_uploads_world.
Proof.
  assert (forall A `{Countable A} (a b : A), @from_slice A (CountableSerde.serde A) (text_of a) = Ok b -> a = b) as Hdec.
  { intros A ? ? a b Hb. assert (@from_slice A (CountableSerde.serde A) (text_of a) = Ok a) as He by (by apply (@from_to A _ (CountableSerde.serde_laws A))).
    rewrite He in Hb. by injection Hb. }
  split; unfold two_uploads_world, rows_data, two_uploads; cbn [fs kv kv_data ScriptKv.laws ScriptKv.data]; intros g v x Hv Hx.
  all: repeat (apply lookup_insert_Some in Hv as [[Hk <-]|[_ Hv]]); [..|apply lookup_singleton_Some in Hv as [Hk <-]].
  all: try done.
  all: try (apply session_key_inj in Hk as <-); try (apply multipart_key_inj in Hk as <-).
  all: by apply Hdec in Hx as <-.
Qed.

#[local] Abbreviation ended := (turns in_turn (begin four_calls two_uploads_world)).

Lemma all_ended i : i < length four_calls -> exists a, stages ended !! i = Some (Finished a).
Proof.
  assert (stages ended = replicate 4 (Finished (Ok tt))) as -> by (vm_compute; reflexivity).
  intros Hi. exists (Ok tt). by apply lookup_replicate_2.
Qed.

Lemma four_calls_merging : merging plain_cfg "f" (Some "u") (a_multipart "f" "u") "ann" part_of four_calls.
Proof.
  split.
  - intros [|[|[|[|i]]]] body Hi; try done; injection Hi as <-; (split; [done|vm_compute; repeat constructor]).
  - intros [|[|[|[|i]]]] g body Hi Hg; try done; injection Hi as <- <-; try done. apply within_merge; [done|done|by intros x [= <-]].
Qed.

Lemma merges_all_kept_witness : exists s r j,
  rows_are (S := ScriptKv.store) "f" (Some "u") s r (now ended) /\ (j = 0 \/ j = 1) /\
  us_etags s !! 0 = Some (Some (mg_etag (part_of j))) /\ pm_parts r !! 0 = Some (mg_etag (part_of j)) /\
  us_etags s !! 2 = Some (Some "e2") /\ pm_parts r !! 2 = Some "e2".
Proof.
  destruct (merges_all_kept plain_cfg eq_refl "f" (Some "u") (a_multipart "f" "u") (a_record "f" "u") "ann" part_of four_calls in_turn
    two_uploads_world) as [_ Hend]; try done.
  - intros v [= <-]. done.
  - apply four_calls_merging.
  - apply Forall_concat, Forall_replicate. repeat (constructor; try done); unfold leaves_alone; naive_solver.
  - apply two_uploads_named.
  - split; [done|..]; eexists; (split; [|reflexivity]); by apply from_to.
  - destruct (Hend all_ended) as (order & _ & _ & _ & Hrows & Hslots).
    destruct (Hslots 0) as (j & [body Hj] & Hs & H1 & H2); [by eexists|].
    destruct (Hslots 2) as (j' & [body' Hj'] & Hs' & H3 & H4); [by eexists|].
    eexists _, _, j. split; [exact Hrows|].
    destruct j as [|[|[|[|j]]]]; try done. all: destruct j' as [|[|[|[|j']]]]; try done; auto.
Defined.
End UploadExamples.
