(* ===== verification/StoreExamples.v ===== *)
(** StoreExamples: the stores of concrete configurations, and what the sweep
    does to a database whose prefix it takes for the files' bytes. *)
From S2P Require Import Prelude.
From S2P Require Import Effects.
From S2P Require Import RustStr.
From S2P Require Import Kv.
From S2P Require Import ObjStore.
From S2P Require Import Policy.
From S2P Require Import FsTypes.
From S2P Require Import FsStore.
From S2P Require Import FsLocks.
From S2P Require Import FsEngine.
From S2P Require Import FsObjects.
From S2P Require Import FsGc.
From S2P Require Import Token.
From S2P Require Import Replica.
From S2P Require Import Config.
From S2P Require Import Stores.
From S2P Require Import FsExamples.

Module StoreExamples.
Import FsExamples ConfigExamples.

#[local] Existing Instance lib.

(** Segments that the crate admits are written as they are. *)
#[local] Instance plain_part : PathPart := {| part s := s |}.
#[local] Instance plain_part_laws : PathPartLaws.
Proof. split. by intros s t. Qed.
#[local] Instance builds : AwsBuild := {| aws_build _ := Ok tt |}.

(** A digest by the length of the text. *)
#[local] Instance sha : Sha256 := {| digest s := N.of_nat (String.length s mod 256) :: repeat 0%N 31 |}.
#[local] Instance sha_laws : Sha256Laws.
Proof.
  split; [done|]. intros s. constructor; [|by repeat constructor].
  pose proof (Nat.mod_upper_bound (String.length s) 256). lia.
Qed.

Definition capability_keys : TokenKeys := {| current := key_of_secret [1%N]; previous := None |}.

Definition at_prefix (prefix : string) : option Opened :=
  match open_stores [] capability_keys (minimal prefix "s") with Ok o => Some o | Err _ => None end.

Lemma stores_apart_witness : exists o, open_stores [] capability_keys (minimal "/files/db/" "s") = Ok o /\
  sb_prefix (op_policy o) = ["files"; "db"; "policy"] /\
  below (object_path FILE_BYTES_PREFIX) ["files"; "db"; "policy"; "manifest.json"] /\
  ~ below (sb_prefix (fe_store (op_engine o))) ["files"; "db"; "policy"; "manifest.json"].
Proof.
  eexists. split; [vm_compute; reflexivity|]. split; [reflexivity|].
  edestruct (stores_apart [] capability_keys (minimal "/files/db/" "s")) as (_ & _ & Hone & _ & Hswept); [vm_compute; reflexivity|].
  split.
  - apply (Hswept InPolicy); [by exists "manifest.json", []|reflexivity].
  - intros Hfs. by specialize (Hone InPolicy InFs ["files"; "db"; "policy"; "manifest.json"] ltac:(by exists "manifest.json", []) Hfs).
Defined.

(** The store of the service: keys are not led by the bucket's name. *)
#[local] Instance client_of_service : S3Client (client MemBackend.store) := ObjectStoreClient false.

(** The policy store of a process with the prefix [files], a day after its rows
    were written, and an empty file store. *)
Definition day_old_database : engine_world :=
  World (FsState (ScriptKv.Store ∅ []) new_latch (Clock (fun _ => 1000000%Z) 0))
    (Client (MemBackend.Store {["files/policy/e000000/sst/1" := ("rules", 1000%Z)]} ∅ 0 1000) ∅ (names "up"))
    (PolicyExamples.Mem [] []) (ScriptFeed [] []) no_locks (names "id").

(** A configuration with the prefix [files] is accepted, its policy lies below
    [files/policy], and the hourly sweep deletes the rows of the policy as bytes
    that no file refers to. *)
Theorem sweep_deletes_the_database :
  validate (minimal "files" "s") = Ok tt /\
  (sb_prefix ∘ op_policy <$> at_prefix "files") = Some ["files"; "policy"] /\
  let '(r, w) := run (sweep_once (S := ScriptKv.store) plain_cfg "b" true) day_old_database in
  r = Ok 1 /\ MemBackend.objects (backend (s3 w)) = ∅.
Proof. split; [vm_compute; reflexivity|]. split; [vm_compute; reflexivity|]. vm_compute. split; reflexivity. Qed.

(** With the memory backend the stores skip the probe, and the replicas, on the
    same store, do not. *)
Theorem memory_replicas_probe random keys config o : open_stores random keys config = Ok o -> s3c_backend (s3_client_config config) = BackendMemory ->
  sb_store (op_policy o) = SharedMemory /\ sb_skip_probe (op_policy o) = true /\
  forall sub, sb_store (open_writer (op_replicas o) sub) = SharedMemory /\ sb_skip_probe (open_writer (op_replicas o) sub) = false.
Proof.
  unfold open_stores, open_domain, engine_init, build_s3_store, build_s3_client, build_object_store. intros Ho Hm.
  rewrite !bool_decide_eq_true_2 in Ho by done. injection Ho as <-. done.
Qed.
End StoreExamples.
