(* ===== verification/SyncExamples.v ===== *)
(** SyncExamples: the change feed and the replicas on concrete stores. *)
From S2P Require Import Prelude.
From S2P Require Import Effects.
From S2P Require Import RustStr.
From S2P Require Import Kv.
From S2P Require Import FsTypes.
From S2P Require Import FsStore.
From S2P Require Import FsPages.
From S2P Require Import Policy.
From S2P Require Import Wal.
From S2P Require Import Replica.
From S2P Require Import ReplicaSlots.
From S2P Require Import ReplicaBuild.
From S2P Require Import ReplicaCopy.
From S2P Require Import FsRels.
From S2P Require Import FsExamples.

#[export] Instance WalOp_countable : Countable WalOp.
Proof.
  refine (inj_countable'
    (fun o => match o with
      | PolicyAdd a => inl (inl a) | PolicyRemove a => inl (inr a)
      | PolicyRuleAdd a b c => inr (0, (a, b, c), None) | PolicyRuleRemove a b c => inr (1, (a, b, c), None)
      | GroupAdd a b => inr (2, (a, b, ""), None) | GroupRemove a b => inr (3, (a, b, ""), None)
      | GroupDelete a => inr (4, (a, "", ""), None)
      | Attach a b c => inr (5, (a, b, c), None) | Detach a b c => inr (6, (a, b, c), None)
      | FileCreate r => inr (7, ("", "", ""), Some r) | FileDelete a => inr (8, (a, "", ""), None)
      end)
    (fun x => match x with
      | inl (inl a) => PolicyAdd a | inl (inr a) => PolicyRemove a
      | inr (0, (a, b, c), _) => PolicyRuleAdd a b c | inr (1, (a, b, c), _) => PolicyRuleRemove a b c
      | inr (2, (a, b, _), _) => GroupAdd a b | inr (3, (a, b, _), _) => GroupRemove a b
      | inr (4, (a, _, _), _) => GroupDelete a
      | inr (5, (a, b, c), _) => Attach a b c | inr (6, (a, b, c), _) => Detach a b c
      | inr (7, _, Some r) => FileCreate r | inr (_, (a, _, _), _) => FileDelete a
      end) _).
  by intros [].
Defined.

#[export] Instance WalEntry_eq_dec : EqDecision WalEntry.
Proof. solve_decision. Defined.
#[export] Instance WalEntry_countable : Countable WalEntry.
Proof.
  refine (inj_countable' (fun e => (we_seq e, we_op e, we_ts e))
    (fun '(a, b, c) => {| we_seq := a; we_op := b; we_ts := c |}) _).
  by intros [].
Defined.

Module SyncExamples.
Import FsExamples.

#[export] Instance serde_z : Serde Z := CountableSerde.serde Z.
#[export] Instance serde_z_laws : SerdeLaws Z := CountableSerde.serde_laws Z.
#[export] Instance serde_entry : Serde WalEntry := CountableSerde.serde WalEntry.
#[export] Instance serde_entry_laws : SerdeLaws WalEntry := CountableSerde.serde_laws WalEntry.

(** A replica exists once it has a row. *)
#[export] Instance host : ReplicaHost ScriptKv.store := {|
  rh_manifest := fun s => (Ok (negb (bool_decide (ScriptKv.data s = ∅))), s);
  rh_open_writer := fun s => (Ok tt, s);
  rh_scratch := ScriptKv.Store ∅ [];
|}.

#[export] Instance host_laws : ReplicaHostLaws ScriptKv.store ScriptKv.tx.
Proof.
  split.
  - intros s. unfold wp. cbn. split; [done|]. split; [|eauto]. intros [= Hd].
    by apply negb_false_iff, bool_decide_eq_true in Hd.
  - intros s. unfold wp. cbn. by repeat split.
  - by split.
Qed.

(** A digest of 32 bytes: the first ones of the subject. *)
#[export] Instance sha : Sha256 := {|
  digest s := (fun i => match String.get i s with Some a => N_of_ascii a | None => 0%N end) <$> seq 0 32;
|}.
#[export] Instance sha_laws : Sha256Laws.
Proof.
  split; intros s; cbn [digest sha].
  - by rewrite length_fmap, length_seq.
  - apply Forall_fmap, Forall_forall. intros i _. cbn. destruct (String.get i s) as [a|]; [|done].
    apply N_ascii_bounded.
Qed.

(** ** The change feed *)

Definition feed_with (script : list (option StoreError)) : fs_state ScriptKv.store :=
  FsState (ScriptKv.Store ∅ script) new_latch (Clock (fun _ => 7%Z) 0).

Definition two_ops : list WalOp := [FileDelete "f"; GroupDelete "g"].

Lemma empty_log : wal_log (∅ : gmap string bytes) [].
Proof. by split. Qed.

Lemma wal_append_exact_witness :
  wp (append_all two_ops) (fun rs w' => exists new, logged two_ops rs new /\ wal_log (kv_data (kv w')) new)
    (feed_with [None; None; Some (StoreOther "down")]).
Proof.
  apply (wal_append_exact [] two_ops (feed_with [None; None; Some (StoreOther "down")]));
    [apply empty_log|by vm_compute].
Defined.

(** The log of the two operations. *)
Definition two_rows : gmap string bytes := ScriptKv.data (kv (append_all two_ops (feed_with [])).2).
Definition two_logged : fs_state ScriptKv.store :=
  FsState (ScriptKv.Store two_rows []) new_latch (Clock (fun _ => 7%Z) 2).

(** A feed whose appends are all acknowledged holds them all. *)
Lemma append_log ops : forallb is_ok (append_all ops (feed_with [])).1 = true ->
  in_u64 (Z.of_nat (length ops)) -> wal_log (kv_data (kv (append_all ops (feed_with [])).2)) ops.
Proof.
  intros Hok Hlen. pose proof (wp_append_all [] ops (feed_with []) empty_log Hlen) as H. unfold wp in H.
  destruct (append_all ops (feed_with [])) as [rs w']. destruct H as (new & Hnew & Hl).
  by rewrite (logged_all _ _ _ Hnew Hok) in Hl.
Qed.

Lemma two_log : wal_log (kv_data (kv two_logged)) two_ops.
Proof. apply (append_log two_ops); by vm_compute. Qed.

Lemma wal_range_exact_witness :
  wp (range 2 2) (fun r _ => is_ok r = true /\ forall es, r = Ok es -> we_op <$> es = [GroupDelete "g"]) two_logged.
Proof.
  eapply wp_mono; [apply (wal_range_exact two_ops 2 2 two_logged); [apply two_log|done]|].
  intros r w' (_ & Hes & Hup). split; [by apply Hup|]. intros es Hr. by destruct (Hes es Hr) as (_ & -> & _).
Defined.

(** ** Names *)

Lemma resolve_object_contained_witness :
  exists p, resolve_object "db/" "ann" "manifest.json" = Ok p /\
    forall sub' tail', resolve_object "db/" sub' tail' = Ok p -> tail' = "manifest.json".
Proof.
  eexists. split; [vm_compute; reflexivity|]. intros sub' tail' Hr.
  destruct (resolve_object_contained "db/" "ann" "manifest.json" _ eq_refl) as (_ & _ & Hall).
  by destruct (Hall sub' tail' Hr).
Defined.

(** ** A rebuild over a stale replica *)

Definition owned (id : string) : FileRecord :=
  {| fr_id := id; fr_name := id; fr_mimetype := "text/plain"; fr_size := 1; fr_s3_key := "files/" +:+ id;
     fr_owner_sub := "ann"; fr_created_at := 1 |}.

Definition file_row (id : string) : string * bytes :=
  (file_key id, CountableSerde.show_pos (countable.encode (owned id))).

Definition fs_of (rows : list (string * bytes)) : fs_state ScriptKv.store :=
  FsState (ScriptKv.Store (list_to_map rows) []) new_latch (Clock (fun _ => 9%Z) 0).

(** Ann owns the files [master]; her replica holds the files [live]. *)
Definition sync_of (master live : list string) : sync_world ScriptKv.store PolicyExamples.mem :=
  SyncWorld (fs_of []) (fs_of (file_row <$> master))
    (fun _ => fs_of ((APPLIED_KEY, CountableSerde.show_pos (countable.encode 0%Z)) :: (file_row <$> live)))
    (fun _ => fs_of []) (PolicyExamples.Mem [] []) {| inflight := ∅; jobs := []; pool_up := true |}.

Definition live_files (w : sync_world ScriptKv.store PolicyExamples.mem) : list string :=
  List.filter (fun k => negb (bool_decide (k = APPLIED_KEY))) (kv_list (kv_data (kv (sw_live w "ann")))).*1.

(** A full rebuild can leave a replica that is not the master's: each round
    of the join takes an entry of both walks, also when only one of them was
    dealt with.  Ann's master holds the files [a] and [c] and her replica [b]
    and [c]: the first rebuild reports success and keeps the deleted [b]; the
    second reports success and deletes [c], which the master still holds. *)
Theorem rebuild_misses_rows :
  let w0 := sync_of ["a"; "c"] ["b"; "c"] in
  let '(r1, w1) := run (build_full plain_cfg 20 "ann") w0 in
  let '(r2, w2) := run (build_full plain_cfg 20 "ann") w1 in
  r1 = Ok 0%Z /\ live_files w1 = [file_key "a"; file_key "b"; file_key "c"] /\
  r2 = Ok 0%Z /\ live_files w2 = [file_key "a"].
Proof. by vm_compute. Qed.

(** ** A replay of several changes *)

(** Ann's file [f] is attached to [docs:7], which the members of [team] may
    read; Bob is one. *)
Definition team_policy : PolicyExamples.mem := PolicyExamples.Mem [["team"; "docs:7"; "read"]] [["bob"; "team"]].
Definition team_master : fs_state ScriptKv.store := (attach plain_cfg "docs" "7" "f" (fs_of [file_row "f"])).2.

Definition with_team (feed : list WalOp) (e : PolicyExamples.mem)
    (live : string -> fs_state ScriptKv.store) : sync_world ScriptKv.store PolicyExamples.mem :=
  SyncWorld (append_all feed (feed_with [])).2 team_master live (fun _ => fs_of []) e
    {| inflight := ∅; jobs := []; pool_up := true |}.

(** An incremental replay can report that it is done and leave a file the
    subject lost.  Bob's replica, built while his group may read the row, holds
    Ann's file.  The rule is then removed, and Bob from the group.  Each entry
    of the feed is judged by the policy of the replay, not of the entry: the
    first concerns nobody Bob still is, the second a group that has no rules
    any more.  The advance reports the head of the feed, and Bob's replica
    keeps the file that he may not read. *)
Theorem replay_keeps_revoked_file :
  let w0 := with_team [] team_policy (fun _ => fs_of []) in
  let '(r1, w1) := run (build_full plain_cfg 20 "bob") w0 in
  let w2 := with_team [PolicyRuleRemove "team" "docs:7" "read"; GroupRemove "bob" "team"]
    (PolicyExamples.Mem [] []) (sw_live w1) in
  let '(r3, w3) := run (advance plain_cfg 20 "bob") w2 in
  let '(r4, w4) := run (can_read plain_cfg "bob" "f") w3 in
  r1 = Ok 0%Z /\
  r3 = Ok {| applied_seq := 2; pending := false |} /\
  kv_data (kv (sw_live w3 "bob")) !! file_key "f" = Some (file_row "f").2 /\
  r4 = Ok false.
Proof. by vm_compute. Qed.

(** ** Requests and workers together *)

(** A mirror that is always fresh. *)
Definition mirrored_cfg : FsConfig ScriptKv.store := {|
  mirror := Some {| mirror_get := kv_get; mirror_scan from to := kv_scan None from to;
                    mirror_refresh := fun s => (Ok 0, s) |};
  primary := true |}.

Lemma mirrored_reads : mirror_reads (T := ScriptKv.tx) mirrored_cfg.
Proof.
  intros m [= <-]. split; [|split].
  - intros k. eexists. exact (kv_get_law (S := ScriptKv.store) (T := ScriptKv.tx) k).
  - intros from to. eexists. exact (kv_scan_law (S := ScriptKv.store) (T := ScriptKv.tx) None from to).
  - exists (fun _ _ _ => True). intros s. unfold wp. cbn. by repeat split.
Qed.

(** Two requests for Ann, whose replica was never built, and two workers. *)
Definition busy : list replica_task :=
  [RequestAdvance 20 "ann"; RequestAdvance 20 "ann";
   RunWorker 20 [(false, false); (false, false)]; RunWorker 20 [(false, false); (false, false)]; ClosePool].
Definition busy_world : sync_world ScriptKv.store PolicyExamples.mem :=
  SyncWorld two_logged (fs_of (file_row <$> ["a"; "c"])) (fun _ => fs_of []) (fun _ => fs_of [])
    (PolicyExamples.Mem [] []) {| inflight := ∅; jobs := []; pool_up := true |}.

(** The requests in turn, then the workers in turn, then the end of the pool. *)
Definition busy_schedule : list nat :=
  mjoin (replicate 12 [0; 1]) ++ mjoin (replicate 80 [2; 3]) ++ [4].

Lemma one_writer_per_replica_witness :
  let c := pool_run busy_schedule (task_of mirrored_cfg <$> busy, busy_world) in
  live_files c.2 = [file_key "a"; file_key "c"] /\ inflight (sw_builds c.2) = ∅.
Proof.
  set (c := pool_run busy_schedule (task_of mirrored_cfg <$> busy, busy_world)).
  assert (jobs (sw_builds c.2) = []) as Hjobs by (vm_compute; reflexivity).
  assert (forallb (fun p => match p with Ret _ => true | Act _ _ => false end) c.1 = true) as Hall
    by (vm_compute; reflexivity).
  assert (forall p, p ∈ c.1 -> exists a, p = Ret a) as Hdone.
  { intros p Hp%list_elem_of_In. rewrite forallb_forall in Hall. specialize (Hall p Hp).
    destruct p as [a|]; [exists a; reflexivity|discriminate Hall]. }
  destruct (one_writer_per_replica mirrored_cfg) with (tasks := busy) (sched := busy_schedule) (w := busy_world)
    as (hs & _ & _ & _ & Hidle); [|done..|].
  { apply mirrored_reads. }
  split; [vm_compute; reflexivity|]. exact (Hidle Hdone Hjobs).
Defined.

(** Ann's replica covers the head of the feed. *)
Definition caught_up : sync_world ScriptKv.store PolicyExamples.mem :=
  SyncWorld two_logged (fs_of (file_row <$> ["a"; "c"]))
    (fun _ => fs_of [(APPLIED_KEY, CountableSerde.show_pos (countable.encode 2%Z))]) (fun _ => fs_of [])
    (PolicyExamples.Mem [] []) {| inflight := ∅; jobs := []; pool_up := true |}.

Lemma advance_honest_witness :
  wp (run (advance mirrored_cfg 20 "ann")) (fun r w' => forall o, r = Ok o -> pending o = false ->
    live_marker "ann" w' = Some (applied_seq o)) caught_up /\
  (run (advance mirrored_cfg 20 "ann") caught_up).1 = Ok {| applied_seq := 2; pending := false |}.
Proof.
  split; [|vm_compute; reflexivity].
  eapply wp_mono; [apply (advance_honest mirrored_cfg mirrored_reads "ann" 20 caught_up)|].
  intros r w' H o Hr Hp. specialize (H o Hr). rewrite Hp in H. exact H.
Defined.

(** ** The first build of a replica *)

Definition team_rows : gmap string bytes := rows_of team_master.

Lemma one_file_refs_ok : all_refs_ok (rows_of (fs_of [file_row "f"])).
Proof.
  intros g Hg. change (rows_of (fs_of [file_row "f"])) with (<[file_key "f" := (file_row "f").2]> (∅ : gmap string bytes)).
  apply file_row_refs. by apply empty_refs_ok.
Qed.

Lemma team_refs_ok : all_refs_ok team_rows.
Proof.
  pose proof (wp_attach plain_cfg "docs" "7" "f" (fs_of [file_row "f"])) as Ha. unfold wp in Ha.
  unfold team_rows, team_master. destruct (attach plain_cfg "docs" "7" "f" (fs_of [file_row "f"])) as [r w'].
  destruct Ha as (_ & _ & _ & Hf & _ & Hg); [done|done|by apply one_file_refs_ok|vm_compute; reflexivity|].
  by eapply all_refs_frame; [apply one_file_refs_ok|exact Hf|].
Qed.

Lemma listed_key (d : gmap string bytes) k v : d !! k = Some v -> k ∈ (kv_list d).*1.
Proof. intros Hk. apply list_elem_of_fmap. exists (k, v). split; [done|]. by apply elem_of_kv_list. Qed.

Lemma team_entries k v : team_rows !! k = Some v ->
  (k = file_key "f" /\ from_slice v = Ok (owned "f")) \/ k = refs_key "f" \/ k = rel_key "docs" "7" "f".
Proof.
  assert ((kv_list team_rows).*1 = [file_key "f"; refs_key "f"; rel_key "docs" "7" "f"]) as Hkeys
    by (vm_compute; reflexivity).
  assert (team_rows !! file_key "f" = Some (file_row "f").2) as Hv by (vm_compute; reflexivity).
  generalize team_rows, Hkeys, Hv. clear Hkeys Hv. intros d Hkeys Hv Hk.
  pose proof (listed_key d k v Hk) as Hin. rewrite Hkeys in Hin.
  apply elem_of_cons in Hin as [->|Hin]; [left; split; [reflexivity|]|right].
  - rewrite Hv in Hk. injection Hk as <-. by apply from_to.
  - apply elem_of_cons in Hin as [->|Hin]; [by left|]. apply list_elem_of_singleton in Hin. by right.
Qed.

(** Bob, a member of the team, has no replica; the feed has two entries. *)
Definition bob_new : sync_world ScriptKv.store PolicyExamples.mem :=
  SyncWorld two_logged team_master (fun _ => fs_of []) (fun _ => fs_of [file_row "stale"]) team_policy
    {| inflight := ∅; jobs := []; pool_up := true |}.

Lemma bob_buildable : buildable "bob" bob_new two_ops.
Proof.
  split; try done.
  - apply two_log.
  - intros k v rec Hk H1 H2 Hv. destruct (team_entries k v Hk) as [[-> Hf]|[->| ->]]; [|done..].
    assert (rec = owned "f") as -> by congruence. done.
  - intros k [v Hk] Hrel. destruct (team_entries k v Hk) as [[-> _]|[->| ->]]; [done..|]. by exists "docs", "7", "f".
  - apply team_refs_ok.
Qed.

Lemma build_exact_witness :
  wp (run (build_full plain_cfg 20 "bob")) (fun r w' => r = Ok 2%Z /\
    is_Some (rows_of (sw_live w' "bob") !! file_key "f")) bob_new.
Proof.
  eapply wp_mono.
  - apply (build_exact (S := ScriptKv.store) (T := ScriptKv.tx) plain_cfg ltac:(done) ltac:(done) "bob" 20 two_ops bob_new).
    + apply bob_buildable.
    + intros X _. right. apply prefix_nil.
    + vm_compute. lia.
  - intros r w'. cbn zeta. rewrite bool_decide_eq_true_2 by by vm_compute. intros (-> & _ & HX).
    split; [done|].
    assert (is_Some (delete APPLIED_KEY (rows_of (sw_live w' "bob")) !! file_key "f")) as Hs.
    { apply (copied_keys _ _ _ _ _ HX). exists (owned "f"). split; [|split; [|by left]].
      - exists (file_row "f").2. split; [by vm_compute|]. by apply from_to.
      - right. exists (rel_key "docs" "7" "f"), "docs", "7". split_and!; try done; by vm_compute. }
    by rewrite lookup_delete_ne in Hs.
Defined.
End SyncExamples.
