(* ===== verification/ReplayExamples.v ===== *)
(** ReplayExamples: the incremental replay on concrete stores. *)
From S2P Require Import Prelude.
From S2P Require Import Effects.
From S2P Require Import RustStr.
From S2P Require Import Kv.
From S2P Require Import FsTypes.
From S2P Require Import FsStore.
From S2P Require Import FsRels.
From S2P Require Import Policy.
From S2P Require Import Wal.
From S2P Require Import Replica.
From S2P Require Import ReplicaSlots.
From S2P Require Import ReplicaBuild.
From S2P Require Import ReplicaCopy.
From S2P Require Import ReplicaView.
From S2P Require Import ReplicaGroups.
From S2P Require Import ReplicaResync.
From S2P Require Import ReplicaReplay.
From S2P Require Import ReplicaPolicy.
From S2P Require Import FsExamples.
From S2P Require Import SyncExamples.

Module ReplayExamples.
Import FsExamples SyncExamples.

(** ** A file appears *)

(** Bob's empty replica covers nothing of the feed: Ann's file [f] was created,
    and attached to a row, and then Bob's group was allowed to read the row. *)
Definition appears : list WalOp := [FileCreate (owned "f"); Attach "docs" "7" "f"; PolicyRuleAdd "team" "docs:7" "read"].

(** The policy when the feed began. *)
Definition closed_policy : PolicyExamples.mem := PolicyExamples.Mem [] [["bob"; "team"]].

Definition marker_at (n : Z) : string * bytes := (APPLIED_KEY, CountableSerde.show_pos (countable.encode n)).

Definition bob_behind : sync_world ScriptKv.store PolicyExamples.mem :=
  with_team appears team_policy (fun _ => fs_of [marker_at 0]).

Lemma appears_log : wal_log (rows_of (sw_wal bob_behind)) appears.
Proof. apply (append_log appears); by vm_compute. Qed.

Lemma behind_buildable : buildable "bob" bob_behind appears.
Proof.
  pose proof bob_buildable as [_ _ Hu Hf Hr Hrefs Hs _]. split; [by vm_compute|apply appears_log|done..].
Qed.

Lemma team_other g : plain_name g -> g <> "f" -> view_of team_rows g = (None, ∅).
Proof.
  intros Hg Hne. unfold view_of, file_of. f_equal.
  - destruct (team_rows !! file_key g) as [v|] eqn:Ev; [|done]. exfalso.
    destruct (team_entries _ _ Ev) as [[He _]|[He|He]]; [|by apply file_refs_ne in He|done]. by apply file_key_inj in He.
  - apply set_eq. intros k. rewrite elem_of_rels. split; [|set_solver]. intros [Hr [v Hv]].
    destruct (team_entries _ _ Hv) as [[-> _]|[->| ->]]; [done..|]. apply is_rel_key in Hr; [congruence|done..].
Qed.

Lemma team_f : view_of team_rows "f" = (Some (owned "f"), {[rel_key "docs" "7" "f"]}).
Proof. vm_compute. reflexivity. Qed.

Lemma empty_view g : view_of (∅ : gmap string bytes) g = (None, ∅).
Proof. unfold view_of, file_of. by rewrite lookup_empty, rels_empty. Qed.

Lemma appears_history : history ∅ appears team_rows.
Proof.
  intros g Hg. rewrite empty_view. split; [done|]. destruct (decide (g = "f")) as [->|Hne].
  - rewrite team_f. vm_compute. reflexivity.
  - rewrite team_other by done. cbn. rewrite !bool_decide_eq_false_2 by congruence. done.
Qed.

Lemma team_files_sound : files_sound team_rows.
Proof.
  intros g v Hg Hv. destruct (team_entries _ _ Hv) as [[He Hf]|[He|He]]; [|by apply file_refs_ne in He|done].
  apply file_key_inj in He as ->. by eexists.
Qed.

(** A replica of nothing but its marker. *)
Lemma marker_only (v : bytes) : let L := {[APPLIED_KEY := v]} : gmap string bytes in
  (forall g, rels L g = ∅) /\ all_refs_ok L /\ forall e, shows "bob" e (fun _ => False) L ∅.
Proof.
  intros L. assert (forall g, view_of L g = (None, ∅) /\ ref_info L g = Some default_ref_info) as Hv.
  { intros g. unfold L. rewrite <- insert_empty. destruct (marker_row v ∅ g) as [-> ->].
    split; [apply empty_view|]. unfold ref_info. by rewrite lookup_empty. }
  clearbody L. assert (forall g, rels L g = ∅) as Hr by (intros g; apply (f_equal snd (proj1 (Hv g)))).
  split; [done|]. split.
  - intros g _. exists default_ref_info. by rewrite (proj2 (Hv g)), Hr, size_empty.
  - intros e g _. unfold readable. assert (file_of (∅ : gmap string bytes) g = None) as -> by (unfold file_of; by rewrite lookup_empty).
    split; [done|]. left. apply (f_equal fst (proj1 (Hv g))).
Qed.

Lemma team_groups x y : in_group team_policy x y -> x = "bob" /\ y = "team".
Proof.
  unfold in_group. cbn. case_bool_decide as Hx; cbn; [|by intros ?%not_elem_of_nil].
  by intros ?%list_elem_of_singleton.
Qed.

Lemma bob_in_team : in_group team_policy "bob" "team".
Proof. vm_compute. by left. Qed.

Lemma rule_touches r : touches "bob" team_policy (PolicyRuleAdd "team" "docs:7" "read") r <-> r = ("docs", "7").
Proof.
  split; [|intros ->; split; [done|]; split; [done|]; apply relations.rtc_once, bob_in_team].
  intros (_ & Ho & _). vm_compute in Ho. by injection Ho as <-.
Qed.

Lemma rule_fits : resync_fits 20 "bob" team_policy team_rows (PolicyRuleAdd "team" "docs:7" "read").
Proof.
  split; [done|by vm_compute|..].
  - intros a [= <-]. exists {["team"]}. split; [|apply Nat.ltb_lt; by vm_compute].
    induction 1 as [x y [_ ->]%team_groups|x y z _ _ IH]; [set_solver|done].
  - by intros r ->%rule_touches.
  - intros rows Hnd Hrows. assert (rows ≡ₚ [("docs", "7")]) as Hp.
    { apply NoDup_Permutation; [done|apply NoDup_singleton|]. intros r. by rewrite Hrows, rule_touches, list_elem_of_singleton. }
    rewrite Hp. apply Nat.leb_le. by vm_compute.
Qed.

(** The enforcer of the examples does what the model says. *)
Lemma member_spec n u g links : PolicyExamples.member n u g links = true <->
  relations.bsteps (fun a b => [a; b] ∈ links) n u g.
Proof.
  revert u. induction n as [|n IH]; intros u; cbn; rewrite orb_true_iff, bool_decide_eq_true.
  - split; [by intros [-> |?]; [constructor|]|]. intros H. inversion H; subst. by left.
  - rewrite existsb_exists. split.
    + intros [->|(l & Hl & Hm)]; [constructor|]. destruct l as [|a [|b [|c l]]]; try done.
      apply andb_true_iff in Hm as [->%bool_decide_eq_true Hm%IH]. eapply relations.bsteps_l; [|exact Hm]. by apply list_elem_of_In.
    + intros H. inversion H as [|? ? z ? Hz Hg]; subst; [by left|right]. exists [u; z]. split; [by apply list_elem_of_In|].
      rewrite bool_decide_eq_true_2 by done. by apply IH.
Qed.

Lemma mem_in_group (e : PolicyExamples.mem) a b : in_group e a b <-> [a; b] ∈ PolicyExamples.grouping e.
Proof.
  unfold in_group. cbn. rewrite list_elem_of_omap. split.
  - intros (l & Hl & Hb). destruct l as [|x [|y [|z l]]]; try done. case_bool_decide; [|done]. by simplify_eq.
  - intros Hl. exists [a; b]. split; [done|]. by rewrite bool_decide_eq_true_2.
Qed.

#[export] Instance mem_model : EnforcerModel PolicyExamples.mem.
Proof.
  split.
  - intros sub obj a e. eexists. split; [reflexivity|]. unfold PolicyExamples.allows. rewrite existsb_exists. split.
    + intros (l & Hl & Hm). destruct l as [|x [|y [|z [|? l]]]]; try done.
      rewrite !andb_true_iff, !bool_decide_eq_true in Hm. destruct Hm as [[Hm%member_spec ->] ->].
      exists x. split; [|by apply list_elem_of_In]. eapply (relations.bsteps_congruence (fun a => a)); [|exact Hm].
      intros x' y'. by apply mem_in_group.
    + intros (g & Hg & Hr). exists [g; obj; a]. split; [by apply list_elem_of_In|].
      rewrite !bool_decide_eq_true_2 by done. rewrite !andb_true_r. apply member_spec.
      eapply (relations.bsteps_congruence (fun a => a)); [|exact Hg]. intros x' y'. by apply mem_in_group.
  - intros g rest e. cbn. rewrite !list_elem_of_In, List.filter_In. split; [by intros [? _]|]. intros Hr. split; [done|].
    unfold PolicyExamples.field_is. cbn. by apply bool_decide_eq_true.
Qed.

Lemma team_rules g obj a : [g; obj; a] ∈ PolicyExamples.policy team_policy -> g = "team" /\ obj = "docs:7" /\ a = "read".
Proof. intros Hr%list_elem_of_singleton. by injection Hr as -> -> ->. Qed.

Lemma docs_row ty rid : plain_name ty -> row_object ty rid = "docs:7" -> (ty, rid) = ("docs", "7").
Proof.
  intros Hty He. pose proof (split_once_app ":" ty rid Hty) as Hs.
  change (ty +:+ String ":" rid) with (row_object ty rid) in Hs. rewrite He in Hs. vm_compute in Hs. by injection Hs as <- <-.
Qed.

Lemma rule_accounts ops : PolicyRuleAdd "team" "docs:7" "read" ∈ ops -> accounts "bob" team_policy closed_policy ops.
Proof.
  intros Hin ty rid Hty Hrid Hne. exists (PolicyRuleAdd "team" "docs:7" "read"). split; [done|]. apply rule_touches.
  apply docs_row; [done|]. apply dec_stable. intros Hno. apply Hne.
  destruct (may "bob" closed_policy (ty, rid)) eqn:E0; [apply may_spec in E0 as (g & _ & Hr); by apply not_elem_of_nil in Hr|].
  destruct (may "bob" team_policy (ty, rid)) eqn:E1; [|done]. apply may_spec in E1 as (g & _ & Hr). by apply team_rules in Hr as (_ & ? & _).
Qed.

Lemma behind_replayable : replayable "bob" 20 bob_behind appears 0.
Proof.
  destruct (marker_only (marker_at 0).2) as (Hr & Hall & _). split; [by vm_compute|by vm_compute|by vm_compute| | |exact Hall| |apply team_files_sound|done|by vm_compute].
  - change (Forall (replay_op "bob" team_policy 20 team_rows) appears). apply Forall_cons. split; [by left|].
    apply Forall_cons. split; [by left|]. apply Forall_cons. split; [right; apply rule_fits|]. by apply Forall_nil.
  - apply Nat.leb_le. by vm_compute.
  - intros g _. pose proof (Hr g) as Hg. change (rels (rows_of (sw_live bob_behind "bob")) g = ∅) in Hg.
    by rewrite Hg, size_empty.
Qed.

Lemma advance_exact_witness :
  wp (run (advance plain_cfg 20 "bob")) (fun r w' => r = Ok {| applied_seq := 3; pending := false |} /\
    view_of (rows_of (sw_live w' "bob")) "f" = (Some (owned "f"), {[rel_key "docs" "7" "f"]})) bob_behind.
Proof.
  eapply wp_mono.
  - apply (advance_exact (S := ScriptKv.store) (T := ScriptKv.tx) plain_cfg ltac:(done) "bob" 20 appears 0 ∅
      closed_policy (fun _ => False) bob_behind behind_buildable behind_replayable).
    + intros k [v Hv]. done.
    + intros g _ _. apply rels_empty.
    + exact appears_history.
    + apply rule_accounts. do 2 right. by left.
    + apply marker_only.
  - intros r w' (-> & _ & _ & Hshows). split; [done|]. specialize (Hshows "f" ltac:(done)).
    assert (readable "bob" (sw_policy bob_behind) (rows_of (sw_master bob_behind)) "f" = true) as Hr by (by vm_compute).
    rewrite Hr in Hshows. rewrite Hshows. vm_compute. reflexivity.
Defined.

(** ** A member joins *)

(** Bob joins [team], whose members may read the row. *)
Lemma changes_accounted_witness :
  let e0 := PolicyExamples.Mem [["team"; "docs:7"; "read"]] [] in
  may "bob" e0 ("docs", "7") = false /\ may "bob" team_policy ("docs", "7") = true /\
  accounts "bob" team_policy e0 [GroupAdd "bob" "team"].
Proof.
  split; [by vm_compute|]. split; [by vm_compute|].
  assert (forall links, rows_named (PolicyExamples.Mem [["team"; "docs:7"; "read"]] links)) as Hn.
  { intros links g ty rid Hty Hr. apply team_rules in Hr as (_ & Hr & _). apply docs_row in Hr; [|done]. by injection Hr as -> ->. }
  apply (changes_accounted "bob"); [apply Hn..|]. apply LinksDiffer.
  - done.
  - intros a g _ Hg. apply mem_in_group in Hg. by apply not_elem_of_nil in Hg.
  - intros a g _ [-> ->]%team_groups _. split; [done|by left].
Defined.

(** ** A file is detached *)

(** An incremental replay can leave the record of a file that the subject
    lost.  Bob's replica, built while Ann's file was attached to a row of his
    group, holds the file.  The file is then detached.  The replay takes the
    relation away and reports the head of the feed; the record, with the file's
    name and its key in the object store, stays.  A rebuild, or the resync of a
    file, deletes it. *)
Theorem replay_keeps_detached_file :
  let w0 := with_team [] team_policy (fun _ => fs_of []) in
  let '(r1, w1) := run (build_full plain_cfg 20 "bob") w0 in
  let w2 := SyncWorld (append_all [Detach "docs" "7" "f"] (feed_with [])).2
    (detach plain_cfg "docs" "7" "f" team_master).2 (sw_live w1) (fun _ => fs_of []) team_policy
    {| inflight := ∅; jobs := []; pool_up := true |} in
  let '(r3, w3) := run (advance plain_cfg 20 "bob") w2 in
  let '(r4, w4) := run (can_read plain_cfg "bob" "f") w3 in
  let '(r5, w5) := run (build_full plain_cfg 20 "bob") (SyncWorld (sw_wal w2) (sw_master w2) (fun _ => fs_of [])
    (fun _ => fs_of []) team_policy (sw_builds w2)) in
  r1 = Ok 0%Z /\ r3 = Ok {| applied_seq := 1; pending := false |} /\ r4 = Ok false /\
  kv_data (kv (sw_live w3 "bob")) !! file_key "f" = Some (file_row "f").2 /\
  r5 = Ok 1%Z /\ kv_data (kv (sw_live w5 "bob")) !! file_key "f" = None.
Proof. by vm_compute. Qed.

(** ** A group leaves a group *)

(** The members of [team] are members of [leads] too, who may read the row. *)
Definition nested (with_leads : bool) : PolicyExamples.mem :=
  PolicyExamples.Mem [["leads"; "docs:7"; "read"]]
    ([["bob"; "team"]] ++ if with_leads then [["team"; "leads"]] else []).

(** A membership of a group is not replayed.  Bob reads Ann's file because his
    group is in another.  That link is then removed, and bob may not read the
    file any more; the feed's entry names the group and not bob, so the replay
    of bob's replica does nothing, reports the head of the feed, and leaves the
    file there with its relation. *)
Theorem replay_skips_nested_membership :
  let w0 := with_team [] (nested true) (fun _ => fs_of []) in
  let '(r1, w1) := run (build_full plain_cfg 20 "bob") w0 in
  let w2 := with_team [GroupRemove "team" "leads"] (nested false) (sw_live w1) in
  let '(r3, w3) := run (advance plain_cfg 20 "bob") w2 in
  let '(r4, w4) := run (can_read plain_cfg "bob" "f") w3 in
  let '(r5, w5) := run (can_read plain_cfg "bob" "f") w1 in
  r1 = Ok 0%Z /\ r5 = Ok true /\ r3 = Ok {| applied_seq := 1; pending := false |} /\ r4 = Ok false /\
  view_of (rows_of (sw_live w3 "bob")) "f" = (Some (owned "f"), {[rel_key "docs" "7" "f"]}).
Proof. by vm_compute. Qed.

(** ** Groups in a circle *)

(** Bob is in [a]; [a] and [b] are in each other. *)
Definition circle : PolicyExamples.mem :=
  PolicyExamples.Mem [] [["bob"; "a"]; ["a"; "b"]; ["b"; "a"]].

Lemma circle_groups x y : in_group circle x y -> y ∈ ({["a"; "b"]} : gset string).
Proof.
  unfold in_group. cbn. intros Hy.
  repeat case_bool_decide; cbn in Hy; rewrite ?elem_of_cons, ?list_elem_of_nil in Hy; set_solver.
Qed.

Lemma implicit_groups_exact_witness :
  exists gs, run (implicit_groups 3 "bob") (with_team [] circle (fun _ => fs_of [])) =
      (Ok gs, with_team [] circle (fun _ => fs_of [])) /\ "b" ∈ gs.
Proof.
  destruct (implicit_groups_exact (S := ScriptKv.store) {["a"; "b"]} 3 "bob"
    (with_team [] circle (fun _ => fs_of []))) as (gs & Hrun & Hgs).
  - intros g Hg. assert (forall x y, relations.tc (in_group circle) x y -> y ∈ ({["a"; "b"]} : gset string)) as Hall; [|by eapply Hall].
    induction 1 as [x y Hxy|x y z _ _ IH]; [by eapply circle_groups|done].
  - apply Nat.ltb_lt. by vm_compute.
  - exists gs. split; [exact Hrun|]. apply Hgs. apply relations.tc_l with "a"; [by vm_compute; left|].
    apply relations.tc_once. by vm_compute; left.
Defined.
End ReplayExamples.
