(* ===== verification/FsRoute.v ===== *)
(** FsRoute: the file routes ([src/src/fs/route.rs]): the upload and file
    handlers over the engine, the [Range] header, and the file name of the
    [Content-Disposition] header. *)
From S2P Require Import Prelude.
From S2P Require Import Effects.
From S2P Require Import RustStr.
From S2P Require Import Kv.
From S2P Require Import FsTypes.
From S2P Require Import Http.
From S2P Require Import FsStore.
From S2P Require Import Policy.
From S2P Require Import FsLocks.
From S2P Require Import FsEngine.

(** ** The [Range] header *)

Record ByteRange := { start : Z; end_inclusive : Z }.

Inductive RangeOutcome : Type :=
| Full
| Ranged (r : ByteRange)
| Unsatisfiable.

(** [s.parse::<u64>().ok()] *)
Definition parse_u64 (s : string) : option Z := Z.of_N <$> parse_unsigned (Z.to_N u64_max) s.

Definition parse_range (header : option string) (total : Z) : RangeOutcome :=
  match (h ← header; strip_prefix "bytes=" (trim h)) with
  | None => Full
  | Some spec =>
      if contains_char "," spec then Full else
      match split_once "-" spec with
      | None => Full
      | Some (start_s, end_s) =>
          if bool_decide (total = 0)%Z then Unsatisfiable else
          if bool_decide (start_s = "") then
            match parse_u64 end_s with
            | None => Full
            | Some n =>
                if bool_decide (n = 0)%Z then Full else
                let len := Z.min n total in
                Ranged {| start := u64_sub total len; end_inclusive := u64_sub total 1 |}
            end
          else
            match parse_u64 start_s with
            | None => Full
            | Some s =>
                if bool_decide (s >= total)%Z then Unsatisfiable else
                match (if bool_decide (end_s = "") then Some (u64_sub total 1)
                       else (fun e => Z.min e (u64_sub total 1)) <$> parse_u64 end_s) with
                | None => Full
                | Some e => if bool_decide (e < s)%Z then Full else Ranged {| start := s; end_inclusive := e |}
                end
            end
      end
  end.

(** ** File names *)

(** [s.rsplit(['/', '\\']).next()]: what follows the last separator. *)
Fixpoint base_name (s : string) : string :=
  match s with
  | "" => ""
  | String a s' => if contains_char "/" s' || contains_char "\" s' then base_name s'
                   else if bool_decide (a = "/"%char) || bool_decide (a = "\"%char) then s' else s
  end.

Definition safe_char (c : string) : string :=
  if bool_decide (c = String "034" "") || bool_decide (c = "\") then "_" else c.

Definition sanitize_filename (name : string) : string :=
  let base := base_name name in
  let cleaned := of_chars (safe_char <$> List.filter (fun c => negb (is_control c)) (chars base)) in
  let truncated := trim (of_chars (take 100 (chars (trim cleaned)))) in
  if bool_decide (truncated = "") then "file" else truncated.

(** ** The handlers *)

#[export] Instance init_request_validate : Validate InitRequest :=
  {| validate_request r := map_err fs_text (validate_init r) |}.
#[export] Instance complete_request_validate : Validate CompleteRequest :=
  {| validate_request r := map_err fs_text (validate_complete r) |}.

Section routes.
Context {S O E F T : Type} `{!KvStore S T} `{!StoreText} `{!S3Client O} `{!Enforcer E} `{!ChangeSink F}.
Context `{!Serde UploadSession} `{!Serde PersistedMultipart} `{!Serde FileRecord} `{!Serde RefInfo}.
Context `{!PolicyText}.
Variable cfg : FsConfig S.
Variable bucket : string.
Variable has_feed : bool.

#[local] Abbreviation W := (world S O E F).
#[local] Abbreviation task := (prog W).

(** An error of the engine, or of an extractor. *)
Definition fs_task {A} (p : task (result A FsError)) : task (result A (FsError + ApiError)) := map_errM inl p.

(** The answers that carry a file's identifier. *)
Definition init_upload_route (sub : string) (body : result InitRequest string) :
    task (result (HttpResponse string) (FsError + ApiError)) :=
  req <-? mret (map_err inr (validated_json body));
  file_id <-? fs_task (init_upload cfg bucket req sub);
  mret (Ok (Resp 201 [] (Some file_id))).

(** [x-checksum-sha256], or else [checksum-sha256]. *)
Definition checksum_header (req : HttpRequest) : option string :=
  match header_str req "x-checksum-sha256" with
  | Some c => Some c
  | None => header_str req "checksum-sha256"
  end.

Definition declared_len (req : HttpRequest) : option Z := header_str req "content-length" ≫= parse_u64.

(** A failure of the payload's stream is a bad request. *)
Definition payload_stream (payload : list (result bytes string)) : ByteStream :=
  map_err (fun _ => FsBadRequest "request body interrupted") <$> payload.

Definition upload_part_route (sub id : string) (idx : Z) (payload : list (result bytes string)) (req : HttpRequest) :
    task (result (HttpResponse unit) FsError) :=
  _ <-? upload_part cfg bucket id idx (payload_stream payload) (declared_len req) (checksum_header req) sub;
  mret (Ok (Resp 204 [] None)).

Definition complete_upload_route (sub id : string) (body : CompleteRequest) : task (result (HttpResponse string) FsError) :=
  _ <-? mret (validate_complete body);
  _ <-? complete_upload cfg bucket has_feed id body sub;
  mret (Ok (Resp 200 [] (Some id))).

Definition cancel_upload_route (sub id : string) : task (result (HttpResponse unit) FsError) :=
  _ <-? cancel_upload cfg bucket id sub;
  mret (Ok (Resp 204 [] None)).

Definition get_progress_route (sub id : string) : task (result (HttpResponse ProgressResponse) FsError) :=
  prog <-? get_progress cfg id sub;
  mret (Ok (Resp 200 [] (Some prog))).

Definition get_metadata_route (sub id : string) : task (result (HttpResponse FileMetadata) FsError) :=
  meta <-? get_metadata cfg id sub;
  mret (Ok (Resp 200 [] (Some meta))).

Definition delete_file_route (sub id : string) : task (result (HttpResponse unit) FsError) :=
  _ <-? delete_file cfg bucket has_feed id sub;
  mret (Ok (Resp 204 [] None)).

Definition file_headers (rec : FileRecord) (obj : ObjectStream) : headers :=
  [("content-type", fr_mimetype rec);
   ("content-disposition", "inline; filename=" +:+ String "034" (sanitize_filename (fr_name rec) +:+ String "034" ""));
   ("accept-ranges", "bytes"); ("content-length", u64_text (os_size obj))].

Definition content_range (first last total : Z) : string :=
  "bytes " +:+ u64_text first +:+ "-" +:+ u64_text last +:+ "/" +:+ u64_text total.

Definition get_file_route (sub id : string) (req : HttpRequest) : task (result (HttpResponse ByteStream) FsError) :=
  meta <-? get_metadata cfg id sub;
  match parse_range (header_str req "range") (md_size meta) with
  | Full =>
      '(rec, obj) <-? get_object cfg bucket id sub;
      mret (Ok (Resp 200 (file_headers rec obj) (Some (os_stream obj))))
  | Ranged r =>
      '(rec, obj) <-? get_object_range cfg bucket id sub (start r) (u64_add (end_inclusive r) 1);
      let last := u64_add (start r) (u64_saturating_sub (os_size obj) 1) in
      mret (Ok (Resp 206 (file_headers rec obj ++ [("content-range", content_range (start r) last (md_size meta))])
                  (Some (os_stream obj))))
  | Unsatisfiable => mret (Ok (Resp 416 [("content-range", "bytes */" +:+ u64_text (md_size meta))] None))
  end.
End routes.

(** ** Ranges *)

Lemma trim_bytes s c : black c = true -> trim ("bytes=" +:+ s +:+ String c "") = "bytes=" +:+ s +:+ String c "".
Proof. intros Hc. apply (trim_black "b" c ("ytes=" +:+ s)); [vm_compute; reflexivity|done]. Qed.

(** A text of digits, or one that ends in [-]. *)
Lemma digits_last s : all_digits s = true -> s <> "" -> exists t c, s = t +:+ String c "" /\ is_Some (digit c).
Proof.
  induction s as [|a s IH]; [done|]. cbn. intros [Ha Hs]%andb_true_iff _. apply bool_decide_eq_true in Ha.
  destruct s as [|b s]; [by exists "", a|]. destruct IH as (t & c & He & Hc); [done|done|].
  exists (String a t), c. rewrite app_cons. by rewrite <- He.
Qed.

Lemma digit_black c : is_Some (digit c) -> black c = true.
Proof. destruct c as [[] [] [] [] [] [] [] []]; vm_compute; intros [? [=]] || done; reflexivity. Qed.

Lemma show_ne z : u64_text z <> "".
Proof.
  intros He. pose proof (parse_show (Z.to_N z) (Z.to_N z) ltac:(lia)) as Hp. unfold u64_text in He. by rewrite He in Hp.
Qed.

Lemma trim_range s z : trim ("bytes=" +:+ s +:+ u64_text z) = "bytes=" +:+ s +:+ u64_text z.
Proof.
  destruct (digits_last (u64_text z)) as (t & c & He & Hc); [apply all_digits_show|apply show_ne|].
  rewrite He, <- (app_assoc s). apply trim_bytes. by apply digit_black.
Qed.

Lemma parse_u64_text z : in_u64 z -> parse_u64 (u64_text z) = Some z.
Proof.
  intros Hz. unfold parse_u64, u64_text. rewrite parse_show by (ints; lia). cbn. f_equal. ints. lia.
Qed.

(** The [spec] of a trimmed header that names bytes. *)
Lemma parse_range_spec h s total l r : trim h = "bytes=" +:+ s -> contains_char "," s = false -> split_once "-" s = Some (l, r) ->
  parse_range (Some h) total =
  if bool_decide (total = 0)%Z then Unsatisfiable else
  if bool_decide (l = "") then
    match parse_u64 r with
    | None => Full
    | Some n => if bool_decide (n = 0)%Z then Full
                else Ranged {| start := u64_sub total (Z.min n total); end_inclusive := u64_sub total 1 |}
    end
  else
    match parse_u64 l with
    | None => Full
    | Some s =>
        if bool_decide (s >= total)%Z then Unsatisfiable else
        match (if bool_decide (r = "") then Some (u64_sub total 1)
               else (fun e => Z.min e (u64_sub total 1)) <$> parse_u64 r) with
        | None => Full
        | Some e => if bool_decide (e < s)%Z then Full else Ranged {| start := s; end_inclusive := e |}
        end
    end.
Proof.
  intros Ht Hc Hs. unfold parse_range. cbn [mbind option_bind]. rewrite Ht, strip_prefix_app, Hc, Hs. done.
Qed.

Lemma u64_text_digit_no c z : digit c = None -> contains_char c (u64_text z) = false.
Proof. intros Hc. by apply show_N_no. Qed.

Lemma parse_u64_bound s n : parse_u64 s = Some n -> in_u64 n.
Proof.
  unfold parse_u64. destruct (parse_unsigned _ s) as [m|] eqn:E; [|done]. intros [= <-].
  apply parse_unsigned_bound in E. ints. lia.
Qed.

(** What [parse_range] does, case by case. *)
Definition range_from_to (a b total : Z) : RangeOutcome :=
  if bool_decide (total <= a)%Z then Unsatisfiable else if bool_decide (b < a)%Z then Full
  else Ranged {| start := a; end_inclusive := Z.min b (total - 1) |}.
Definition range_from (a total : Z) : RangeOutcome :=
  if bool_decide (total <= a)%Z then Unsatisfiable else Ranged {| start := a; end_inclusive := total - 1 |}.
Definition range_last (n total : Z) : RangeOutcome :=
  if bool_decide (total = 0)%Z then Unsatisfiable else if bool_decide (n = 0)%Z then Full
  else Ranged {| start := total - Z.min n total; end_inclusive := total - 1 |}.

(** The range parser is exact on the three forms of RFC 9110, for every
    position and length that fits in 64 bits, and whatever the header says, a
    range it accepts is not empty and lies inside the object. *)
Theorem parse_range_exact total : in_u64 total ->
  (forall h r, parse_range h total = Ranged r -> (0 <= start r <= end_inclusive r)%Z /\ (end_inclusive r < total)%Z) /\
  (forall a b, in_u64 a -> in_u64 b ->
    parse_range (Some ("bytes=" +:+ u64_text a +:+ "-" +:+ u64_text b)) total = range_from_to a b total) /\
  (forall a, in_u64 a -> parse_range (Some ("bytes=" +:+ u64_text a +:+ "-")) total = range_from a total) /\
  (forall n, in_u64 n -> parse_range (Some ("bytes=" +:+ "-" +:+ u64_text n)) total = range_last n total).
Proof.
  intros Ht. split; [|split; [|split]].
  - intros h r. unfold parse_range. destruct (h ← h; strip_prefix "bytes=" (trim h)) as [s|]; [|done].
    destruct (contains_char "," s); [done|]. destruct (split_once "-" s) as [[l e]|]; [|done].
    case_bool_decide; [done|]. assert (u64_sub total 1 = total - 1)%Z as -> by (apply u64_sub_id; ints; lia).
    case_bool_decide.
    + destruct (parse_u64 e) as [n|] eqn:En; [|done]. apply parse_u64_bound in En. case_bool_decide; [done|].
      intros [= <-]. cbn. rewrite u64_sub_id by (ints; lia). ints. lia.
    + destruct (parse_u64 l) as [n|] eqn:En; [|done]. apply parse_u64_bound in En. case_bool_decide; [done|].
      assert (forall x, (if bool_decide (e = "") then Some (total - 1)%Z
        else (fun x => Z.min x (total - 1)) <$> parse_u64 e) = Some x -> (x < total)%Z) as Hx.
      { intros x. case_bool_decide; [intros [= <-]; lia|]. destruct (parse_u64 e); [|done]. intros [= <-]. lia. }
      destruct (if bool_decide (e = "") then _ else _) as [x|]; [|done]. specialize (Hx x eq_refl).
      case_bool_decide; [done|]. intros [= <-]. cbn. ints. lia.
  - intros a b Ha Hb. rewrite (parse_range_spec _ (u64_text a +:+ "-" +:+ u64_text b) total (u64_text a) (u64_text b)).
    + rewrite !bool_decide_false with (P := u64_text _ = "") by apply show_ne.
      rewrite !parse_u64_text by done. cbn. unfold range_from_to.
      case_bool_decide; [rewrite bool_decide_true by (ints; lia); done|].
      rewrite u64_sub_id by (ints; lia). repeat case_bool_decide; try done; try lia.
    + pose proof (trim_range (u64_text a +:+ "-") b) as Htr. by rewrite !app_assoc in Htr.
    + rewrite !contains_char_app, !u64_text_digit_no by done. done.
    + apply (split_once_app "-" (u64_text a) (u64_text b)). by apply u64_text_digit_no.
  - intros a Ha. rewrite (parse_range_spec _ (u64_text a +:+ "-") total (u64_text a) "").
    + rewrite bool_decide_false with (P := u64_text _ = "") by apply show_ne.
      rewrite (bool_decide_true ("" = "")) by done. rewrite parse_u64_text by done. unfold range_from.
      case_bool_decide; [rewrite bool_decide_true by (ints; lia); done|].
      rewrite u64_sub_id by (ints; lia). repeat case_bool_decide; try done; lia.
    + apply (trim_bytes (u64_text a) "-"). vm_compute. reflexivity.
    + rewrite !contains_char_app, !u64_text_digit_no by done. done.
    + apply (split_once_app "-" (u64_text a) ""). by apply u64_text_digit_no.
  - intros n Hn. rewrite (parse_range_spec _ ("-" +:+ u64_text n) total "" (u64_text n)).
    + rewrite (bool_decide_true ("" = "")) by done. rewrite parse_u64_text by done. unfold range_last.
      case_bool_decide; [done|]. case_bool_decide; [done|]. do 2 f_equal; rewrite u64_sub_id; ints; lia.
    + apply (trim_range "-" n).
    + rewrite !contains_char_app, !u64_text_digit_no by done. done.
    + apply (split_once_app "-" "" (u64_text n)). done.
Qed.

(** ** Characters *)

Definition starts_cont (s : string) : bool := match s with String b _ => cont b | "" => false end.

(** A character's bytes: any first byte, then continuation bytes. *)
Fixpoint all_cont (s : string) : bool := match s with "" => true | String a s => cont a && all_cont s end.
Definition is_group (g : string) : Prop := match g with String _ t => all_cont t = true | "" => False end.

Lemma chars_cons a s : chars (String a s) =
  match chars s with
  | g :: rest => if starts_cont s then String a g :: rest else String a "" :: g :: rest
  | [] => [String a ""]
  end /\ (s <> "" -> exists t rest, chars s = t :: rest /\ starts_cont t = starts_cont s /\ t <> "") /\ Forall is_group (chars s).
Proof.
  revert a. induction s as [|b s IH]; intros a; [done|]. destruct (IH b) as (Hb & Hne & Hg).
  assert (exists t rest, chars (String b s) = String b t :: rest /\ is_group (String b t) /\ Forall is_group rest) as (t & rest & Hc & Ht & Hrest).
  { rewrite Hb. destruct (chars s) as [|g rest] eqn:E; [by exists "", []|]. apply Forall_cons in Hg as [Hg Hr].
    destruct (starts_cont s) eqn:Es.
    - exists g, rest. destruct s as [|c s]; [done|]. destruct Hne as (t & rest' & [= <- <-] & Hst & Hne); [done|].
      destruct g as [|d g]; [done|]. cbn in *. rewrite Hst, Hg. done.
    - exists "", (g :: rest). split; [done|]. split; [done|]. by constructor. }
  split; [|split].
  - cbn [chars] in *. rewrite Hc. cbn. done.
  - intros _. exists (String b t), rest. by rewrite Hc.
  - rewrite Hc. by constructor.
Qed.

Lemma chars_groups s : Forall is_group (chars s).
Proof. apply (chars_cons "a" s). Qed.

Lemma chars_S a s : chars (String a s) =
  match chars s with
  | g :: rest => if starts_cont s then String a g :: rest else String a "" :: g :: rest
  | [] => [String a ""]
  end.
Proof. apply chars_cons. Qed.

Lemma length_chars_S a s : length (chars (String a s)) = if starts_cont s then length (chars s) else S (length (chars s)).
Proof.
  rewrite chars_S. destruct (chars s) as [|g rest] eqn:E.
  - destruct s as [|b s]; [done|]. destruct (chars_cons a (String b s)) as (_ & Hne & _).
    destruct Hne as (? & ? & Hc & _); [done|]. congruence.
  - by destruct (starts_cont s).
Qed.

Lemma length_chars_tail a s : length (chars s) <= length (chars (String a s)) <= S (length (chars s)).
Proof. rewrite length_chars_S. destruct (starts_cont s); lia. Qed.

Lemma length_chars_drop p s : length (chars s) <= length (chars (p +:+ s)).
Proof.
  induction p as [|a p IH]; [done|]. rewrite app_cons. pose proof (length_chars_tail a (p +:+ s)). lia.
Qed.

Lemma length_chars_prefix p s : length (chars p) <= length (chars (p +:+ s)).
Proof.
  induction p as [|a p IH]; [cbn; lia|]. rewrite app_cons, !length_chars_S.
  destruct p as [|b p]; [cbn [chars length]|].
  - rewrite app_nil_l. cbn [starts_cont length]. destruct (starts_cont s) eqn:Es; [|lia].
    destruct s as [|c s]; [done|]. rewrite length_chars_S. destruct (starts_cont s) eqn:Ec; [|lia].
    destruct (chars_cons c s) as (_ & Hne & _). destruct Hne as (? & ? & -> & _); [by intros ->|cbn; lia].
  - rewrite app_cons in *. cbn [starts_cont]. destruct (cont b); lia.
Qed.

(** A group more is at most a character more. *)
Lemma length_chars_group g s : is_group g -> length (chars (g +:+ s)) <= S (length (chars s)).
Proof.
  destruct g as [|a t]; [done|]. cbn [is_group]. rewrite app_cons. revert a.
  induction t as [|b t IH]; intros a Ht; [rewrite app_nil_l; apply length_chars_tail|].
  cbn in Ht. apply andb_true_iff in Ht as [Hb Ht]. rewrite app_cons, length_chars_S. cbn [starts_cont]. rewrite Hb.
  by apply IH.
Qed.

Lemma length_chars_of l : Forall is_group l -> length (chars (of_chars l)) <= length l.
Proof.
  induction 1 as [|g l Hg _ IH]; [done|]. cbn [of_chars foldr length].
  pose proof (length_chars_group g (of_chars l) Hg). unfold of_chars in *. lia.
Qed.

(** ** Trimming leaves a part of the text *)

Lemma strip_white_part s r : strip_white s = Some r -> exists w, s = w +:+ r.
Proof.
  unfold strip_white. induction white_space as [|w ws IH]; [done|]. cbn [foldr].
  destruct (strip_prefix w s) as [r'|] eqn:E; [|done]. intros [= <-]. exists w. by apply strip_prefix_Some.
Qed.

Lemma trim_start_part s : exists w, s = w +:+ trim_start s.
Proof.
  unfold trim_start. generalize (String.length s). intros fuel. revert s.
  induction fuel as [|fuel IH]; intros s; cbn [trim_start_fuel]; [by exists ""|].
  destruct (strip_white s) as [r|] eqn:E; [|by exists ""]. apply strip_white_part in E as [w ->].
  destruct (IH r) as [w' Hw']. exists (w +:+ w'). by rewrite app_assoc, <- Hw'.
Qed.

Lemma trim_end_part s : exists t, s = trim_end s +:+ t.
Proof.
  induction s as [|a s [t IH]]; [by exists ""|]. cbn [trim_end].
  destruct (is_blank (String a s)); [by exists (String a s)|]. exists t. by rewrite app_cons, <- IH.
Qed.

Lemma trim_part s : exists w t, s = w +:+ trim s +:+ t.
Proof.
  destruct (trim_start_part s) as [w Hw]. destruct (trim_end_part (trim_start s)) as [t Ht].
  exists w, t. unfold trim. by rewrite <- Ht.
Qed.

Lemma contains_trim c s : contains_char c (trim s) = true -> contains_char c s = true.
Proof.
  destruct (trim_part s) as (w & t & He). intros Hc. rewrite He, !contains_char_app, Hc. by rewrite orb_true_r.
Qed.

Lemma length_chars_trim s : length (chars (trim s)) <= length (chars s).
Proof.
  destruct (trim_part s) as (w & t & He). rewrite He at 2.
  etrans; [apply (length_chars_prefix _ t)|apply length_chars_drop].
Qed.

(** ** In a well-formed text, an ASCII byte is a character of its own *)

Definition is_ascii (a : ascii) : bool := byte_in 0 127 a.

Fixpoint ascii_alone (s : string) : bool :=
  match s with "" => true | String a s => negb (is_ascii a && starts_cont s) && ascii_alone s end.

Lemma cont_not_ascii b : cont b = true -> is_ascii b = false.
Proof.
  unfold cont, is_ascii, byte_in. rewrite bool_decide_eq_true, bool_decide_eq_false. lia.
Qed.

Lemma alone_cont b s : cont b = true -> ascii_alone (String b s) = ascii_alone s.
Proof. intros Hb. cbn [ascii_alone]. by rewrite cont_not_ascii. Qed.

Lemma byte_not_ascii lo hi a : (128 <= lo)%N -> byte_in lo hi a = true -> is_ascii a = false.
Proof. unfold is_ascii, byte_in. rewrite bool_decide_eq_true, bool_decide_eq_false. lia. Qed.

Lemma byte_cont lo hi a : (128 <= lo)%N -> (hi <= 191)%N -> byte_in lo hi a = true -> cont a = true.
Proof. unfold cont, byte_in. rewrite !bool_decide_eq_true. lia. Qed.

Lemma byte_not_cont lo hi a : (hi < 128 \/ 191 < lo)%N -> byte_in lo hi a = true -> cont a = false.
Proof. unfold cont, byte_in. rewrite bool_decide_eq_true, bool_decide_eq_false. lia. Qed.

Lemma if_byte lo hi x y z (b : bool) : (if b then byte_in lo hi x else y) = z -> b = true /\ byte_in lo hi x = z \/ b = false /\ y = z.
Proof. destruct b; auto. Qed.

Lemma utf8_alone s : utf8_valid s = true -> starts_cont s = false /\ ascii_alone s = true.
Proof.
  remember (String.length s) as n eqn:Hn. revert s Hn.
  induction (lt_wf n) as [n _ IH]. intros s Hn Hs. destruct s as [|a s1]; [done|]. cbn [utf8_valid] in Hs.
  assert (forall t, String.length t < n -> utf8_valid t = true -> starts_cont t = false /\ ascii_alone t = true) as He
    by (intros t Ht; by eapply IH).
  cbn [String.length] in Hn. destruct (byte_in 0 127 a) eqn:Ea.
  { destruct (He s1) as [H1 H2]; [lia|done|]. cbn. rewrite H1, H2, andb_false_r. split; [|done].
    eapply byte_not_cont; [|exact Ea]. lia. }
  destruct s1 as [|b s2]; [done|]. assert (is_ascii a = false) as Hna by done. cbn [String.length] in Hn.
  destruct (byte_in 194 223 a) eqn:Ea2.
  { apply andb_true_iff in Hs as [Hb Hs]. destruct (He s2) as [H1 H2]; [lia|done|].
    split; [eapply byte_not_cont; [|exact Ea2]; lia|]. cbn [ascii_alone]. rewrite Hna. by rewrite cont_not_ascii, H2. }
  destruct s2 as [|c s3]; [done|]. cbn [String.length] in Hn. destruct (byte_in 224 239 a) eqn:Ea3.
  { apply andb_true_iff in Hs as [[Hb Hc]%andb_true_iff Hs]. destruct (He s3) as [H1 H2]; [lia|done|].
    assert (cont b = true) as Hcb.
    { apply if_byte in Hb as [[_ Hb]|[_ Hb]]; [eapply byte_cont; [| |exact Hb]; lia|].
      apply if_byte in Hb as [[_ Hb]|[_ Hb]]; [eapply byte_cont; [| |exact Hb]; lia|done]. }
    split; [eapply byte_not_cont; [|exact Ea3]; lia|]. cbn [ascii_alone]. rewrite Hna.
    by rewrite !cont_not_ascii, H2 by done. }
  destruct s3 as [|d s4]; [done|]. cbn [String.length] in Hn.
  rewrite !andb_true_iff in Hs. destruct Hs as ((((Ha4 & Hb) & Hc) & Hd) & Hs). destruct (He s4) as [H1 H2]; [lia|done|].
  assert (cont b = true) as Hcb.
  { apply if_byte in Hb as [[_ Hb]|[_ Hb]]; [eapply byte_cont; [| |exact Hb]; lia|].
    apply if_byte in Hb as [[_ Hb]|[_ Hb]]; [eapply byte_cont; [| |exact Hb]; lia|done]. }
  split; [eapply byte_not_cont; [|exact Ha4]; lia|]. cbn [ascii_alone]. rewrite Hna.
  by rewrite !cont_not_ascii, H2 by done.
Qed.

(** An ASCII character among the characters is one byte. *)
Lemma ascii_group s a t : ascii_alone s = true -> String a t ∈ chars s -> is_ascii a = true -> t = "".
Proof.
  induction s as [|b s IH]; intros Hs Hin Ha; [by apply elem_of_nil in Hin|].
  cbn [ascii_alone] in Hs. apply andb_true_iff in Hs as [Hb Hs]. apply negb_true_iff in Hb.
  rewrite chars_S in Hin. destruct (chars s) as [|g rest] eqn:E.
  { apply list_elem_of_singleton in Hin. by injection Hin as -> ->. }
  destruct (starts_cont s).
  - rewrite andb_true_r in Hb. apply elem_of_cons in Hin as [Heq|Hin]; [injection Heq as -> ->; congruence|].
    apply IH; [done|by right|done].
  - apply elem_of_cons in Hin as [Heq|Hin]; [by injection Heq as -> ->|]. by apply IH.
Qed.

Lemma base_alone s : ascii_alone s = true -> ascii_alone (base_name s) = true.
Proof.
  induction s as [|a s IH]; [done|]. cbn [base_name]. intros Hs. pose proof Hs as Hs'.
  cbn [ascii_alone] in Hs. apply andb_true_iff in Hs as [_ Hs].
  destruct (_ || _); [by apply IH|]. by destruct (_ || _).
Qed.

Lemma base_clean s : contains_char "/" (base_name s) = false /\ contains_char "\" (base_name s) = false.
Proof.
  induction s as [|a s IH]; [done|]. cbn [base_name]. destruct (contains_char "/" s || contains_char "\" s) eqn:E; [done|].
  apply orb_false_iff in E as [E1 E2]. destruct (bool_decide (a = "/"%char) || bool_decide (a = "\"%char)) eqn:Ea; [done|].
  apply orb_false_iff in Ea as [Ea1 Ea2]. cbn [contains_char]. by rewrite E1, E2, Ea1, Ea2.
Qed.

Lemma contains_of_chars c l : contains_char c (of_chars l) = true <-> exists g, g ∈ l /\ contains_char c g = true.
Proof.
  induction l as [|g l IH]; cbn [of_chars foldr]; [split; [done|intros (g & Hg & _); by apply elem_of_nil in Hg]|].
  change (foldr String.append "" l) with (of_chars l). rewrite contains_char_app, orb_true_iff, IH. split.
  - intros [Hg|(g' & Hg' & Hc)]; [exists g; split; [by left|done]|exists g'; split; [by right|done]].
  - intros (g' & [->|Hg']%elem_of_cons & Hc); [by left|right; eauto].
Qed.

Lemma of_chars_chars s : of_chars (chars s) = s.
Proof.
  induction s as [|a s IH]; [done|]. rewrite chars_S. destruct (chars s) as [|g rest]; cbn in IH.
  - by rewrite <- IH.
  - destruct (starts_cont s); cbn [of_chars foldr]; rewrite ?app_cons; by rewrite <- IH.
Qed.

(** An ASCII character that may stand between the quotes of a header. *)
Definition harmless (c : ascii) : bool :=
  negb (bool_decide (c = "034"%char) || bool_decide (c = "\"%char) || bool_decide (c = "/"%char) || is_control (String c "")).

Lemma contains_cont c t : all_cont t = true -> is_ascii c = true -> contains_char c t = false.
Proof.
  intros Ht Hc. induction t as [|a t IH]; [done|]. cbn in Ht |- *. apply andb_true_iff in Ht as [Ha Ht].
  rewrite IH by done. rewrite bool_decide_false; [done|]. intros ->. apply cont_not_ascii in Ha. congruence.
Qed.

Lemma cleaned_harmless name c :
  utf8_valid name = true -> is_ascii c = true ->
  contains_char c (of_chars (safe_char <$> List.filter (fun c => negb (is_control c)) (chars (base_name name)))) = true ->
  harmless c = true.
Proof.
  intros Hv Hc (g' & Hg' & Hin)%contains_of_chars. apply list_elem_of_fmap in Hg' as (g & -> & Hg).
  apply list_elem_of_In, filter_In in Hg as [Hg%list_elem_of_In Hctl%negb_true_iff].
  unfold safe_char in Hin. case_bool_decide as Hq1; cbn [orb] in Hin.
  { cbn in Hin. rewrite orb_false_r in Hin. apply bool_decide_eq_true in Hin as <-. done. }
  case_bool_decide as Hq2; cbn [orb] in Hin.
  { cbn in Hin. rewrite orb_false_r in Hin. apply bool_decide_eq_true in Hin as <-. done. }
  pose proof (chars_groups (base_name name)) as Hgr. rewrite Forall_forall in Hgr. specialize (Hgr g Hg).
  destruct g as [|a t]; [done|]. cbn in Hgr, Hin. rewrite (contains_cont c t Hgr Hc), orb_false_r in Hin.
  apply bool_decide_eq_true in Hin as ->.
  assert (t = "") as -> by (eapply ascii_group; [apply base_alone, utf8_alone, Hv|exact Hg|done]).
  destruct (base_clean name) as [Hsl _]. unfold harmless. rewrite Hctl.
  assert (c <> "/"%char) as Hs.
  { intros ->. assert (contains_char "/" (of_chars (chars (base_name name))) = true) as Hb
      by (apply contains_of_chars; eexists; split; [exact Hg|done]).
    rewrite of_chars_chars in Hb. congruence. }
  rewrite !bool_decide_false by (done || (intros ->; done)). done.
Qed.

Lemma contains_take c n l : contains_char c (of_chars (take n l)) = true -> contains_char c (of_chars l) = true.
Proof.
  intros (g & Hg & Hc)%contains_of_chars. apply contains_of_chars. exists g. split; [by eapply elem_of_take_list|done].
Qed.

(** The file name that a response carries between quotes is never empty, at
    most a hundred characters long, and of ASCII characters holds no quote, no
    backslash, no slash and no control character, so no name a client chose can
    end the quoted string or the header line, or name a directory. *)
Theorem sanitize_filename_safe name : utf8_valid name = true ->
  let r := sanitize_filename name in
  r <> "" /\ length (chars r) <= 100 /\ forall c, contains_char c r = true -> is_ascii c = true -> harmless c = true.
Proof.
  intros Hv. cbv zeta. unfold sanitize_filename. set (cleaned := of_chars (safe_char <$> _)).
  case_bool_decide as He.
  - split; [done|]. split; [vm_compute; lia|]. intros c Hc _.
    assert (c ∈ ["f"; "i"; "l"; "e"]%char) as Hin.
    { cbn in Hc. rewrite !orb_true_iff, !bool_decide_eq_true in Hc.
      destruct Hc as [<-|[<-|[<-|[<-|?]]]]; [set_solver..|done]. }
    rewrite !elem_of_cons, elem_of_nil in Hin. destruct Hin as [->|[->|[->|[->|[]]]]]; reflexivity.
  - split; [done|]. split.
    + etrans; [apply length_chars_trim|]. etrans; [apply length_chars_of|rewrite length_take; lia].
      apply Forall_take, chars_groups.
    + intros c Hc Ha. apply contains_trim, contains_take in Hc. rewrite of_chars_chars in Hc.
      apply contains_trim in Hc. by eapply cleaned_harmless.
Qed.

(** ** A range of a file *)

(** The forms of RFC 9110, and what each asks of an object of so many bytes. *)
Inductive RangeAsk : Type :=
| AskFromTo (first last : Z)
| AskFrom (first : Z)
| AskLast (count : Z).

Definition ask_text (ask : RangeAsk) : string :=
  match ask with
  | AskFromTo a b => "bytes=" +:+ u64_text a +:+ "-" +:+ u64_text b
  | AskFrom a => "bytes=" +:+ u64_text a +:+ "-"
  | AskLast n => "bytes=" +:+ "-" +:+ u64_text n
  end.

Definition ask_fits (ask : RangeAsk) : Prop :=
  match ask with AskFromTo a b => in_u64 a /\ in_u64 b | AskFrom a => in_u64 a | AskLast n => in_u64 n end.

Definition ask_range (ask : RangeAsk) (total : Z) : RangeOutcome :=
  match ask with
  | AskFromTo a b => range_from_to a b total
  | AskFrom a => range_from a total
  | AskLast n => range_last n total
  end.

Lemma parse_range_ask ask total : in_u64 total -> ask_fits ask ->
  parse_range (Some (ask_text ask)) total = ask_range ask total.
Proof.
  intros Ht Ha. destruct (parse_range_exact total Ht) as (_ & H1 & H2 & H3).
  destruct ask; cbn in *; [apply H1; tauto|by apply H2|by apply H3].
Qed.

Lemma length_substring n m s : n + m <= String.length s -> String.length (String.substring n m s) = m.
Proof.
  revert n m. induction s as [|a s IH]; intros n m Hl; cbn in Hl.
  - destruct n, m; try lia. done.
  - destruct n as [|n]; cbn; [destruct m as [|m]; [done|]; cbn; f_equal; apply IH; lia|apply IH; lia].
Qed.

Section range_of_file.
Context {S O E F T : Type} `{!KvStore S T} `{!StoreText} `{!S3Client O} `{!Enforcer E} `{!ChangeSink F}.
Context `{!Serde UploadSession} `{!Serde PersistedMultipart} `{!Serde FileRecord} `{!Serde RefInfo} `{!PolicyText}.
Context (cfg : FsConfig S) (bucket sub id : string) (rec : FileRecord) (content : bytes).

#[local] Abbreviation W := (world S O E F).

(** The worlds in which the caller may read the file, and its object holds
    [content]. *)
Context (I : W -> Prop).
Hypothesis may_read : forall w, I w ->
  wp (run (readable cfg sub id)) (fun r w' => r = Ok rec /\ I w') w.
Hypothesis object_holds : forall first last w, I w ->
  wp (run (on_s3 (s3_get_range bucket (fr_s3_key rec) first last))) (fun r w' => r = Ok (default_range content first last) /\ I w') w.
Context (stream : ByteStream).
Hypothesis object_streams : forall w, I w ->
  wp (run (on_s3 (s3_get_stream bucket (fr_s3_key rec)))) (fun r w' =>
    r = Ok {| os_size := Z.of_nat (String.length content); os_stream := stream |} /\ I w') w.
Hypothesis stream_whole : whole stream = Some content.
Hypothesis size_of_object : fr_size rec = Z.of_nat (String.length content).
Hypothesis size_fits : (fr_size rec <= u64_max)%Z.

(** The bytes of the file from [a] to [b], both included. *)
Definition bytes_from_to (a b : Z) : bytes := String.substring (Z.to_nat a) (Z.to_nat (b - a + 1)) content.

Lemma wp_get_ranged req r w : I w -> parse_range (header_str req "range") (fr_size rec) = Ranged r ->
  (0 <= start r <= end_inclusive r)%Z -> (end_inclusive r < fr_size rec)%Z ->
  wp (run (get_file_route cfg bucket sub id req)) (fun resp _ => exists slice hs,
    resp = Ok (Resp 206 hs (Some [Ok slice])) /\
    slice = bytes_from_to (start r) (end_inclusive r) /\
    Z.of_nat (String.length slice) = (end_inclusive r - start r + 1)%Z /\
    get_header "content-type" hs = Some (fr_mimetype rec) /\
    get_header "content-length" hs = Some (u64_text (end_inclusive r - start r + 1)) /\
    get_header "content-range" hs = Some (content_range (start r) (end_inclusive r) (fr_size rec))) w.
Proof using may_read object_holds size_of_object size_fits.
  intros Hw Hr Hb He. unfold get_file_route, get_metadata. apply wp_run_bindR, wp_run_bindR.
  eapply wp_mono; [by apply may_read|]. intros x w1 [-> Hw1]. apply wp_ret. cbn [md_size]. rewrite Hr.
  apply wp_run_bindR. unfold get_object_range. apply wp_run_bindR.
  eapply wp_mono; [by apply may_read|]. intros x w2 [-> Hw2]. cbv zeta.
  rewrite u64_add_id by (ints; lia).
  replace (Z.min (start r) (fr_size rec)) with (start r) by lia.
  replace (Z.max (Z.min (end_inclusive r + 1) (fr_size rec)) (start r)) with (end_inclusive r + 1)%Z by lia.
  apply wp_run_bindR. eapply wp_mono; [by apply object_holds|]. intros x w3 [-> Hw3]. apply wp_ret.
  unfold default_range. cbv zeta. cbn [os_size os_stream].
  replace (Z.min (start r) (Z.of_nat (String.length content))) with (start r) by lia.
  replace (Z.max (Z.min (end_inclusive r + 1) (Z.of_nat (String.length content))) (start r)) with (end_inclusive r + 1)%Z by lia.
  replace (end_inclusive r + 1 - start r)%Z with (end_inclusive r - start r + 1)%Z by lia.
  set (slice := String.substring _ _ content).
  assert (Z.of_nat (String.length slice) = (end_inclusive r - start r + 1)%Z) as Hlen
    by (subst slice; rewrite length_substring by lia; lia).
  apply wp_ret. eexists slice, _. split; [done|]. split; [done|]. split; [done|]. cbn. rewrite Hlen.
  split; [done|]. split; [done|]. unfold u64_saturating_sub. rewrite u64_add_id by (ints; lia).
  do 2 f_equal. lia.
Qed.

(** C34: a request for a file that the caller may read, whose object has the size of
    its record and is read without a failure, is answered with the bytes that its
    [Range] header asks for.  The header is read in the three forms of
    RFC 9110, whatever 64-bit numbers they hold: [first-last], [first-] and
    [-count].  A range that begins inside the file is answered 206 with exactly
    its bytes, as far as the file goes, a [Content-Range] that names them and the
    size of the file, and a [Content-Length] that is their number; one that begins
    past the end, as every one does in a file without bytes, is answered 416 with
    the size; and without the header, or with a
    range that is empty or reversed, the answer is 200 with the whole file. *)
Theorem get_file_range_exact req ask w : I w -> header_str req "range" = ask_text <$> ask ->
  (forall a, ask = Some a -> ask_fits a) ->
  wp (run (get_file_route cfg bucket sub id req)) (fun resp _ =>
    match from_option (fun a => ask_range a (fr_size rec)) Full ask with
    | Ranged r => exists slice hs, resp = Ok (Resp 206 hs (Some [Ok slice])) /\
        (0 <= start r <= end_inclusive r)%Z /\ (end_inclusive r < fr_size rec)%Z /\
        slice = bytes_from_to (start r) (end_inclusive r) /\
        Z.of_nat (String.length slice) = (end_inclusive r - start r + 1)%Z /\
        get_header "content-type" hs = Some (fr_mimetype rec) /\
        get_header "content-length" hs = Some (u64_text (end_inclusive r - start r + 1)) /\
        get_header "content-range" hs = Some (content_range (start r) (end_inclusive r) (fr_size rec))
    | Full => exists hs, resp = Ok (Resp 200 hs (Some stream)) /\ whole stream = Some content /\
        get_header "content-type" hs = Some (fr_mimetype rec) /\
        get_header "content-length" hs = Some (u64_text (fr_size rec)) /\ get_header "content-range" hs = None
    | Unsatisfiable => resp = Ok (Resp 416 [("content-range", "bytes */" +:+ u64_text (fr_size rec))] None)
    end) w.
Proof using may_read object_holds object_streams stream_whole size_of_object size_fits.
  intros Hw Hreq Hfits. assert (in_u64 (fr_size rec)) as Hsz by (ints; lia).
  assert (parse_range (header_str req "range") (fr_size rec) = from_option (fun a => ask_range a (fr_size rec)) Full ask) as Hp.
  { rewrite Hreq. destruct ask as [a|]; [|done]. by apply parse_range_ask, Hfits. }
  destruct (from_option _ Full ask) as [|r|] eqn:Ea.
  all: cycle 1.
  - destruct (proj1 (parse_range_exact _ Hsz) _ _ Hp) as [Hb He]. eapply wp_mono; [by apply (wp_get_ranged req r)|].
    intros resp w' (slice & hs & ?). exists slice, hs. tauto.
  - unfold get_file_route, get_metadata. apply wp_run_bindR, wp_run_bindR.
    eapply wp_mono; [by apply may_read|]. intros x w1 [-> Hw1]. apply wp_ret. cbn [md_size]. rewrite Hp. by apply wp_ret.
  - unfold get_file_route, get_metadata. apply wp_run_bindR, wp_run_bindR.
    eapply wp_mono; [by apply may_read|]. intros x w1 [-> Hw1]. apply wp_ret. cbn [md_size]. rewrite Hp.
    apply wp_run_bindR. unfold get_object. apply wp_run_bindR. eapply wp_mono; [by apply may_read|]. intros x w2 [-> Hw2].
    apply wp_run_bindR. eapply wp_mono; [by apply object_streams|]. intros x w3 [-> Hw3]. apply wp_ret, wp_ret.
    eexists. split; [done|]. split; [done|]. split; [done|]. cbn. by rewrite size_of_object.
Qed.
End range_of_file.
