(* ===== verification/PolicyRoute.v ===== *)
(** PolicyRoute: the policy routes ([src/src/policy/route.rs]), the claim of the
    first superadmin ([policy/setup.rs]). *)
From S2P Require Import Prelude.
From S2P Require Import Effects.
From S2P Require Import RustStr.
From S2P Require Import Kv.
From S2P Require Import FsTypes.
From S2P Require Import Http.
From S2P Require Import FsStore.
From S2P Require Import Policy.
From S2P Require Import FsEngine.

(** ** Requests and answers *)

Inductive Resource : Type := UserGroups | Rules.

Definition resource_text (r : Resource) : string := match r with UserGroups => "user_groups" | Rules => "rules" end.

Record PolicyRequest := { pq_sub : string; pq_obj : string; pq_act : Action }.
Record GroupRequest := { gq_user_id : string; gq_group : string }.

#[export] Instance policy_request_validate : Validate PolicyRequest := {|
  validate_request r :=
    if bool_decide (trim (pq_sub r) = "") then Err "sub cannot be empty"
    else if bool_decide (trim (pq_obj r) = "") then Err "obj cannot be empty" else Ok tt |}.

#[export] Instance group_request_validate : Validate GroupRequest := {|
  validate_request r :=
    if bool_decide (trim (gq_user_id r) = "") then Err "user_id cannot be empty"
    else if bool_decide (trim (gq_group r) = "") then Err "group cannot be empty" else Ok tt |}.

Record ListQuery := { lq_limit : option nat; lq_offset : option nat }.

Definition DEFAULT_PAGE_SIZE : nat := 100.
Definition MAX_PAGE_SIZE : nat := 1000.

Record Page := { pg_limit : nat; pg_offset : nat }.

Definition from_query (q : ListQuery) : Page :=
  {| pg_limit := Nat.min (default DEFAULT_PAGE_SIZE (lq_limit q)) MAX_PAGE_SIZE; pg_offset := default 0 (lq_offset q) |}.

Definition apply_page {A} (p : Page) (items : list A) : list A := take (pg_limit p) (drop (pg_offset p) items).

(** The page answers: [RuleListResponse], [GroupsResponse] and [UsersResponse]
    have the same four fields. *)
Record PageResponse (A : Type) := { pr_items : list A; pr_total : nat; pr_limit : nat; pr_offset : nat }.
Arguments pr_items {A} _.
Arguments pr_total {A} _.
Arguments pr_limit {A} _.
Arguments pr_offset {A} _.

Definition page_response {A} (q : ListQuery) (all : list A) : HttpResponse (PageResponse A) :=
  let page := from_query q in
  Resp 200 [] (Some {| pr_items := apply_page page all; pr_total := length all;
                       pr_limit := pg_limit page; pr_offset := pg_offset page |}).

Record SetupResponse := { sr_sub : string; sr_role : string }.

(** ** The handlers *)

Section routes.
Context {E F : Type} `{!Enforcer E} `{!ChangeSink F} `{!PolicyText}.
Variable feed : bool.

#[local] Abbreviation W := (policy_world E F).
#[local] Abbreviation task := (prog W).

(** [impl From<PolicyError> for ApiError] *)
Definition api_of_policy (e : PolicyError) : ApiError :=
  match e with PolicyAccessDenied => Forbidden | other => Internal (policy_text other) end.

Definition policy_call {A} (p : task (result A PolicyError)) : task (result A ApiError) := map_errM api_of_policy p.

Definition require_call (sub : string) (r : Resource) (a : Action) : task (result unit ApiError) :=
  policy_call (atomically (fun w => (require sub (resource_text r) a (enforcer w), w))).

Definition read_engine {A} (f : W -> A) : task A := atomically (fun w => (f w, w)).

Definition action_response (success : bool) : HttpResponse bool := Resp 200 [] (Some success).

Definition get_rules (sub : string) (q : ListQuery) : task (result (HttpResponse (PageResponse (list string))) ApiError) :=
  _ <-? require_call sub Rules Read;
  all ← read_engine get_all_rules;
  mret (Ok (page_response q all)).

(** The body is extracted before the handler runs. *)
Definition add_rule_route (sub : string) (body : result PolicyRequest string) : task (result (HttpResponse bool) ApiError) :=
  req <-? mret (validated_json body);
  _ <-? require_call sub Rules Write;
  success <-? policy_call (add_rule feed (pq_sub req) (pq_obj req) (pq_act req));
  mret (Ok (action_response success)).

Definition remove_rule_route (sub : string) (body : result PolicyRequest string) : task (result (HttpResponse bool) ApiError) :=
  req <-? mret (validated_json body);
  _ <-? require_call sub Rules Write;
  success <-? policy_call (remove_rule feed (pq_sub req) (pq_obj req) (pq_act req));
  mret (Ok (action_response success)).

Definition get_user_groups (sub user_id : string) : task (result (HttpResponse (list string)) ApiError) :=
  _ <-? require_call sub UserGroups Read;
  groups ← read_engine (fun w => get_groups_of_user user_id (enforcer w));
  mret (Ok (Resp 200 [] (Some groups))).

Definition get_group_users (sub group_name : string) : task (result (HttpResponse (list string)) ApiError) :=
  _ <-? require_call sub UserGroups Read;
  users ← read_engine (fun w => get_users_in_group group_name (enforcer w));
  mret (Ok (Resp 200 [] (Some users))).

Definition assign_group_route (sub : string) (body : result GroupRequest string) : task (result (HttpResponse bool) ApiError) :=
  req <-? mret (validated_json body);
  _ <-? require_call sub UserGroups Write;
  success <-? policy_call (assign_group feed (gq_user_id req) (gq_group req));
  mret (Ok (action_response success)).

Definition remove_user_from_group (sub group_name user_id : string) : task (result (HttpResponse bool) ApiError) :=
  _ <-? require_call sub UserGroups Write;
  success <-? policy_call (remove_from_group feed user_id group_name);
  mret (Ok (action_response success)).

Definition list_groups_route (sub : string) (q : ListQuery) : task (result (HttpResponse (PageResponse GroupSummary)) ApiError) :=
  _ <-? require_call sub UserGroups Read;
  all ← read_engine list_groups;
  mret (Ok (page_response q all)).

Definition list_users (sub : string) (q : ListQuery) : task (result (HttpResponse (PageResponse UserAssignment)) ApiError) :=
  _ <-? require_call sub UserGroups Read;
  all ← read_engine list_user_assignments;
  mret (Ok (page_response q all)).

Definition delete_group_route (sub group_name : string) : task (result (HttpResponse bool) ApiError) :=
  _ <-? require_call sub UserGroups Write;
  success <-? policy_call (delete_group feed group_name);
  mret (Ok (action_response success)).

(** *** Setup *)

Definition claim_admin (sub : string) : task (result (HttpResponse SetupResponse) ApiError) :=
  claimed <-? policy_call (claim_superadmin feed sub);
  if negb claimed then mret (Err Conflict)
  else mret (Ok (Resp 201 [] (Some {| sr_sub := sub; sr_role := SUPERADMIN_ROLE |}))).
End routes.

(** ** Pages *)

Lemma page_bounded {A} q (all : list A) : length (apply_page (from_query q) all) <= MAX_PAGE_SIZE.
Proof. unfold apply_page, from_query. cbn. rewrite length_take. lia. Qed.

(** The [k]-th page of [limit] entries. *)
Definition nth_page (limit k : nat) : ListQuery := {| lq_limit := Some limit; lq_offset := Some (k * limit) |}.

(** The items of a page answer. *)
Definition items_of {A} (r : HttpResponse (PageResponse A)) : list A := match body r with Some p => pr_items p | None => [] end.

Lemma pages_prefix {A} limit n (all : list A) : 0 < limit <= MAX_PAGE_SIZE ->
  mjoin ((fun k => items_of (page_response (nth_page limit k) all)) <$> seq 0 n) = take (n * limit) all.
Proof.
  intros Hl. induction n as [|n IH]; [done|]. rewrite seq_S, fmap_app, join_app, IH. cbn.
  rewrite List.app_nil_r. unfold apply_page, from_query, nth_page. cbn [pg_limit pg_offset default lq_limit lq_offset].
  rewrite Nat.min_l by lia. replace (limit + n * limit) with (n * limit + limit) by lia.
  by rewrite take_take_drop.
Qed.

(** Walking the pages of a listing in order, at any page size that the
    server accepts, gives every entry once and in order; no page is longer than
    [MAX_PAGE_SIZE], whatever limit the client asks for, and every page states
    the size of the whole. *)
Theorem pages_cover {A} (all : list A) : 
  (forall limit n, 0 < limit <= MAX_PAGE_SIZE -> length all <= n * limit ->
    mjoin ((fun k => items_of (page_response (nth_page limit k) all)) <$> seq 0 n) = all) /\
  (forall q p, body (page_response q all) = Some p -> length (pr_items p) <= MAX_PAGE_SIZE /\ pr_total p = length all).
Proof.
  split.
  - intros limit n Hl Hn. rewrite pages_prefix by done. by apply take_ge.
  - intros q p [= <-]. cbn. split; [apply page_bounded|done].
Qed.

(** ** Every route is guarded *)

Section guarded.
Context {E F : Type} `{!Enforcer E} `{!ChangeSink F} `{!PolicyText}.
Variable feed : bool.

#[local] Abbreviation W := (policy_world E F).

(** The requests of the routes, with the body as the extractor gives it. *)
Inductive policy_request : Type :=
| GetRules (q : ListQuery)
| AddRule (b : result PolicyRequest string)
| RemoveRule (b : result PolicyRequest string)
| GetUserGroups (user_id : string)
| GetGroupUsers (group_name : string)
| AssignGroup (b : result GroupRequest string)
| RemoveUserFromGroup (group_name user_id : string)
| ListGroups (q : ListQuery)
| ListUsers (q : ListQuery)
| DeleteGroup (group_name : string).

(** The right that a request needs. *)
Definition needs (r : policy_request) : Resource * Action :=
  match r with
  | GetRules _ => (Rules, Read)
  | AddRule _ | RemoveRule _ => (Rules, Write)
  | GetUserGroups _ | GetGroupUsers _ | ListGroups _ | ListUsers _ => (UserGroups, Read)
  | AssignGroup _ | RemoveUserFromGroup _ _ | DeleteGroup _ => (UserGroups, Write)
  end.

Definition answer_only {A} (p : prog W (result (HttpResponse A) ApiError)) : prog W (result Z ApiError) :=
  r <-? p; mret (Ok (status r)).

Definition serve (sub : string) (r : policy_request) : prog W (result Z ApiError) :=
  match r with
  | GetRules q => answer_only (get_rules sub q)
  | AddRule b => answer_only (add_rule_route feed sub b)
  | RemoveRule b => answer_only (remove_rule_route feed sub b)
  | GetUserGroups u => answer_only (get_user_groups sub u)
  | GetGroupUsers g => answer_only (get_group_users sub g)
  | AssignGroup b => answer_only (assign_group_route feed sub b)
  | RemoveUserFromGroup g u => answer_only (remove_user_from_group feed sub g u)
  | ListGroups q => answer_only (list_groups_route sub q)
  | ListUsers q => answer_only (list_users sub q)
  | DeleteGroup g => answer_only (delete_group_route feed sub g)
  end.

(** A task that is refused: an error, and the world as it was. *)
Definition refused {A} (p : prog W (result A ApiError)) (w : W) : Prop := wp (run p) (fun r w' => w' = w /\ is_ok r = false) w.

Lemma refused_bindR {A B} (p : prog W (result A ApiError)) (k : A -> prog W (result B ApiError)) w :
  refused p w -> refused (bindR p k) w.
Proof. intros Hp. apply wp_run_bindR. eapply wp_mono; [exact Hp|]. intros [a|e] w' [-> Hr]; [done|by split]. Qed.

Lemma refused_require sub r a w e : require sub (resource_text r) a (enforcer w) = Err e ->
  refused (require_call sub r a) w.
Proof.
  intros Hr. unfold refused, require_call, policy_call. apply wp_run_bind, wp_run_atomically.
  unfold wp at 1. rewrite Hr. by apply wp_ret.
Qed.

Lemma refused_body {T B} `{!Validate T} (b : result T string) (k : T -> prog W (result B ApiError)) w :
  (forall v, refused (k v) w) -> refused (bindR (mret (validated_json b)) k) w.
Proof. intros Hk. apply wp_run_bindR, wp_ret. destruct (validated_json b); [apply Hk|by apply wp_ret]. Qed.

(** C20: no policy route changes or shows anything to a caller the policy does
    not let: when the policy refuses the right that the request needs, or
    fails to answer, the reply is an error and rules, groups, latch and feed
    are as they were. *)
Theorem policy_routes_guarded sub r (w : W) e :
  require sub (resource_text (needs r).1) (needs r).2 (enforcer w) = Err e ->
  wp (run (serve sub r)) (fun res w' => w' = w /\ is_ok res = false) w.
Proof.
  intros Hr. change (refused (serve sub r) w).
  destruct r; cbn [needs fst snd] in Hr; cbn [serve]; apply refused_bindR.
  2,3,6: apply refused_body; intros req.
  all: apply refused_bindR; by eapply refused_require.
Qed.
End guarded.

