(* ===== verification/RouteExamples.v ===== *)
(** RouteExamples: the routes on concrete stores. *)
From S2P Require Import Prelude.
From S2P Require Import Effects.
From S2P Require Import RustStr.
From S2P Require Import Kv.
From S2P Require Import ObjStore.
From S2P Require Import FsTypes.
From S2P Require Import Http.
From S2P Require Import Gate.
From S2P Require Import FsStore.
From S2P Require Import FsObjects.
From S2P Require Import Policy.
From S2P Require Import Wal.
From S2P Require Import Replica.
From S2P Require Import ReplicaSlots.
From S2P Require Import ReplicaBuild.
From S2P Require Import SyncRoute.
From S2P Require Import FsLocks.
From S2P Require Import FsEngine.
From S2P Require Import FsRoute.
From S2P Require Import PolicyAdmin.
From S2P Require Import PolicyRoute.
From S2P Require Import FsExamples.
From S2P Require Import SyncExamples.

Module RouteExamples.
Import FsExamples SyncExamples GateExamples MemStore.

Definition asking (header : string) : HttpRequest :=
  {| header_str n := if bool_decide (n = "if-none-match") then Some header else None; cookie _ := None |}.

(** Ann's replica covers 2 of the feed's 2 entries; she holds the tags of two
    earlier answers. *)
Lemma status_not_modified_exact_witness :
  let req := asking (join ", " [status_etag None 1; status_etag (Some 2%Z) 2]) in
  match (run (status_handler "db" "ann" req) caught_up).1 with
  | Ok resp => status resp = 304%Z
  | Err _ => False
  end.
Proof.
  intros req.
  pose proof (status_not_modified_exact (E := PolicyExamples.mem) (T := ScriptKv.tx) "db" "ann"
    [(None, 1%Z); (Some 2%Z, 2%Z)] req caught_up ltac:(done)) as Hs.
  assert (feed_head caught_up = Some 2%Z) as Hh by (vm_compute; reflexivity).
  assert (live_marker "ann" caught_up = Some 2%Z) as Hm by (vm_compute; reflexivity).
  assert (exists resp, (run (status_handler "db" "ann" req) caught_up).1 = Ok resp) as [resp Hr]
    by (eexists; vm_compute; reflexivity).
  rewrite Hm, Hh in Hs. unfold wp in Hs.
  destruct (run (status_handler "db" "ann" req) caught_up) as [r w']. cbn [fst] in Hr. subst r. cbn [fst].
  destruct Hs with (resp := resp) as (hd & [= <-] & _ & Hst).
  - repeat constructor; cbn; try lia; intros a; [done|by intros [= <-]].
  - intros hd [= <-]. split; cbn; [lia|]. by intros a [= <-].
  - done.
  - done.
  - rewrite bool_decide_true in Hst by set_solver. by destruct Hst.
Defined.

(** ** Objects *)

#[export] Instance mem_range : GetRange object := { get_range g := (0, Z.of_nat (String.length g.1))%Z }.
#[export] Instance mem_text : ObjText := { obj_text _ := "io" }.

Definition manifest_path : string := user_prefix "db" "ann" +:+ "/manifest.json".

Definition one_object : object_world (O := MemStore.store) (Sem := nat) :=
  ObjectWorld (gate_new 2) (MemStore.put manifest_path "{}" (MemStore.Store ∅ [] [])).

(** The manifest is sent to a client that has another state of it, and not to one
    that has this one. *)
Lemma object_handler_exact_witness :
  wp (run (object_handler "db" "ann" "manifest.json" (asking "7")))
    (fun r w' => free_slots 2 w' 1 /\
      match r with Ok resp => get_header "cache-control" (resp_headers resp) = Some "no-cache" | Err _ => False end) one_object /\
  wp (run (object_handler "db" "ann" "manifest.json" (asking "0")))
    (fun r w' => free_slots 2 w' 2 /\
      match r with Ok resp => status resp = 304%Z /\ get_header "etag" (resp_headers resp) = Some "0" | Err _ => False end) one_object.
Proof.
  assert (forall h, wp (run (object_handler "db" "ann" "manifest.json" (asking h))) (fun r w' =>
    object_answer (os_path (user_prefix "db" "ann")) (os_path manifest_path) (Some h) 2 2 one_object r w') one_object) as Ho.
  { intros h. eapply wp_mono; [apply (object_handler_exact (O := MemStore.store) (Sem := nat) "db" "ann" "manifest.json" (asking h)
      manifest_path 2 2 one_object); [vm_compute; reflexivity|by split|apply MemStore.put_inv; by intros p b v]|].
    by intros r w' [_ Hr]. }
  split.
  - assert (exists resp out, (run (object_handler "db" "ann" "manifest.json" (asking "7")) one_object).1 = Ok resp /\
      body resp = Some (out, Some tt)) as (resp & out & Hr & Hb) by (eexists _, _; vm_compute; split; reflexivity).
    specialize (Ho "7"). unfold wp in *. destruct (run (object_handler _ _ _ _) one_object) as [r w']. cbn [fst] in Hr. subst r.
    unfold object_answer in Ho. rewrite Hb in Ho. destruct Ho as (_ & _ & _ & _ & _ & (_ & Hc & _) & _ & k' & [= <-] & Hf).
    split; [exact Hf|]. rewrite Hc. vm_compute. reflexivity.
  - assert (exists resp, (run (object_handler "db" "ann" "manifest.json" (asking "0")) one_object).1 = Ok resp /\ body resp = None)
      as (resp & Hr & Hb) by (eexists; vm_compute; split; reflexivity).
    specialize (Ho "0"). unfold wp in *. destruct (run (object_handler _ _ _ _) one_object) as [r w']. cbn [fst] in Hr. subst r.
    unfold object_answer in Ho. rewrite Hb in Ho. destruct Ho as (_ & Hf & Ho).
    assert (os_data (ow_store one_object) !! os_path manifest_path = Some ("{}", {| e_tag := Some "0"; version := None |})) as Hd
      by (vm_compute; reflexivity).
    rewrite Hd in Ho. destruct Ho as (Hs & _ & He & _). split; [exact Hf|]. split; [exact Hs|exact He].
Defined.

(** ** A range of a file *)

#[export] Instance fixed_body : S3Client unit :=
  let broken := FsInternal "broken" in {|
  s3_create_multipart _ _ := Ret (Err broken); s3_upload_part _ _ _ _ _ _ := Ret (Err broken);
  s3_complete _ _ _ _ := Ret (Err broken); s3_abort _ _ _ := Ret (Err broken);
  s3_backend_upload_id _ := Ret None; s3_restore _ := Ret (Err broken); s3_put _ _ _ _ := Ret (Err broken);
  s3_get_stream _ _ := Ret (Ok {| os_size := 11; os_stream := [Ok "hello "; Ok "world"] |});
  s3_get_range _ _ first last := Ret (Ok (default_range "hello world" first last));
  s3_delete _ _ := Ret (Err broken); s3_list_keys _ _ := Ret (Err broken) |}.

Definition hello : FileRecord :=
  {| fr_id := "f"; fr_name := "hello.txt"; fr_mimetype := "text/plain"; fr_size := 11; fr_s3_key := "files/f";
     fr_owner_sub := "ann"; fr_created_at := 0 |}.

Definition hello_world : world ScriptKv.store unit PolicyExamples.mem script_feed :=
  World (fs_of [(file_key "f", CountableSerde.show_pos (countable.encode hello))]) tt (PolicyExamples.Mem [] [])
    (ScriptFeed [] []) no_locks (names "n").

Definition asking_range (range : string) : HttpRequest :=
  {| header_str n := if bool_decide (n = "range") then Some range else None; cookie _ := None |}.

Lemma hello_readable w : w = hello_world ->
  wp (run (readable plain_cfg "ann" "f")) (fun r w' => r = Ok hello /\ w' = hello_world) w.
Proof.
  intros ->. assert (run (readable plain_cfg "ann" "f") hello_world = (Ok hello, hello_world)) as He
    by (vm_compute; reflexivity).
  unfold wp. rewrite He. exact (conj eq_refl eq_refl).
Qed.

Lemma hello_object first last w : w = hello_world ->
  wp (run (on_s3 (s3_get_range "b" (fr_s3_key hello) first last)))
    (fun r w' => r = Ok (default_range "hello world" first last) /\ w' = hello_world) w.
Proof. intros ->. split; reflexivity. Qed.

Lemma hello_stream w : w = hello_world ->
  wp (run (on_s3 (s3_get_stream "b" (fr_s3_key hello))))
    (fun r w' => r = Ok {| os_size := 11; os_stream := [Ok "hello "; Ok "world"] |} /\ w' = hello_world) w.
Proof. intros ->. split; reflexivity. Qed.

(** The last five bytes, as they are asked for. *)
Lemma get_file_range_exact_witness :
  wp (run (get_file_route plain_cfg "b" "ann" "f" (asking_range "bytes=6-10"))) (fun resp _ =>
    exists hs, resp = Ok (Resp 206 hs (Some [Ok "world"])) /\ get_header "content-range" hs = Some "bytes 6-10/11") hello_world.
Proof.
  eapply wp_mono.
  - apply (get_file_range_exact plain_cfg "b" "ann" "f" hello "hello world" (fun w => w = hello_world)
      hello_readable hello_object [Ok "hello "; Ok "world"] hello_stream eq_refl eq_refl ltac:(done)
      (asking_range "bytes=6-10") (Some (AskFromTo 6 10)) hello_world); [done|vm_compute; reflexivity|].
    intros a [= <-]. split; unfold in_u64, u64_max; lia.
  - intros resp w' Hr. destruct (ask_range (AskFromTo 6 10) 11) as [|r|] eqn:E; [vm_compute in E; discriminate| |vm_compute in E; discriminate].
    assert (r = {| start := 6; end_inclusive := 10 |}) as -> by (vm_compute in E; congruence).
    cbn [from_option] in Hr. change (fr_size hello) with 11%Z in Hr. rewrite E in Hr.
    destruct Hr as (slice & hs & -> & _ & _ & -> & _ & _ & _ & Hc). exists hs. split; [reflexivity|]. rewrite Hc. vm_compute. reflexivity.
Defined.

Lemma parse_range_exact_witness :
  in_u64 11 /\ parse_range (Some "bytes=-3") 11 = Ranged {| start := 8; end_inclusive := 10 |}.
Proof.
  assert (in_u64 11) as Ht by (unfold in_u64, u64_max; lia). split; [exact Ht|].
  destruct (parse_range_exact 11 Ht) as (_ & _ & _ & Hlast).
  apply (Hlast 3%Z). unfold in_u64, u64_max. lia.
Defined.

Definition quoted_name : string := "..\tmp/a" +:+ String quote "b.txt".

Lemma sanitize_filename_safe_witness :
  let r := sanitize_filename quoted_name in r = "a_b.txt" /\ length (chars r) <= 100.
Proof.
  split; [vm_compute; reflexivity|]. apply (sanitize_filename_safe quoted_name). vm_compute. reflexivity.
Defined.
(** ** Policy *)

#[local] Existing Instances PolicyExamples.list_sink PolicyExamples.mem_enforcer_laws.

Lemma pages_cover_witness :
  mjoin ((fun k => items_of (page_response (nth_page 2 k) ["a"; "b"; "c"])) <$> seq 0 2) = ["a"; "b"; "c"].
Proof. apply (pages_cover ["a"; "b"; "c"]); cbn; unfold MAX_PAGE_SIZE; lia. Defined.

(** Eve may write no rules. *)
Lemma policy_routes_guarded_witness :
  wp (run (serve true "eve" (AddRule (Ok {| pq_sub := "eve"; pq_obj := "docs:7"; pq_act := Read |}))))
    (fun res w' => w' = PolicyExamples.fresh /\ is_ok res = false) PolicyExamples.fresh.
Proof. apply (policy_routes_guarded true) with (e := PolicyAccessDenied). vm_compute. reflexivity. Defined.

Definition a_dump : PolicyDump :=
  {| dump_p := [["team"; "docs:7"; "read"]; ["team"; "docs:7"; "read"]]; dump_g := [["bob"; "team"]] |}.

Lemma import_complete_witness :
  match run (import_s3 true (fun _ => "casbin") a_dump) PolicyExamples.fresh with
  | (Ok r, w) => r = {| rules_added := 1; groups_added := 1; duplicates := 1 |} /\ ["bob"; "team"] ∈ ef_grouping (enforcer w)
  | (Err _, _) => False
  end.
Proof.
  pose proof (import_complete true (fun _ => "casbin") a_dump PolicyExamples.fresh) as Hi. unfold wp in Hi.
  assert ((run (import_s3 true (fun _ => "casbin") a_dump) PolicyExamples.fresh).1 =
    Ok {| rules_added := 1; groups_added := 1; duplicates := 1 |}) as Hr by (vm_compute; reflexivity).
  destruct (run _ _) as [r w]. cbn [fst] in Hr. subst r. split; [reflexivity|].
  destruct Hi as [_ Hi]. destruct (Hi _ eq_refl) as [_ Hx]. apply Hx. by left.
Defined.
End RouteExamples.
